(* ===== verification/_CoqProject ===== *)
-Q . S2P
Prelude.v
GoStd.v
GoParse.v
GoIO.v
EnrichedFlow.v
FlowMethods.v
Legacy.v
Reflect.v
Segment.v
Pipeline.v
OpenNet.v
Process.v
Config.v
Iana.v
Modify.v
PrefixList.v
Anonymize.v
Lookup.v
Snmp.v
FlowFilter.v
FlowCache.v
Exporter.v
Capture.v
Elephant.v
TopTalkers.v
Traffic.v
Branch.v
BranchConfig.v
DiskBuffer.v
Lumberjack.v
Output.v
Mongo.v
Prometheus.v
Metrics.v
Clickhouse.v
Kafka.v
Group.v
Influx.v
Replay.v
Inputs.v
Alert.v
Docs.v
Main.v
Print.v
Monitor.v
Collector.v
Serve.v
Registry.v
Source.v
Relay.v
Program.v
