(* ===== verification/Prelude.v ===== *)
(** * Flowpipeline: a verification development

    flowpipeline (Go) reads flow records (NetFlow and the like), sends them
    through a configurable chain of segments, and writes them out.  A
    configuration file names the segments; each becomes a goroutine that reads
    flows from one channel and writes to the next.  This library models the
    program's core and proves what makes it correct.  Paths below are those of
    the repository; the libraries the program imports are not part of it and
    appear as parameters, with what is relied on as named hypotheses or classes.

    ** The parts and the files

    - [Prelude.v] (this file): outcomes of Go computations ([result], [created]),
      fixed-width integers ([wrap], [swrap]), slices with nil, configurations,
      list lemmas, tactics.
    - [GoStd.v], [GoParse.v], [GoIO.v]: what the program uses of Go's standard library:
      strconv, strings, fmt, net, float64 (through [SpecFloat]), net.ParseIP,
      time.ParseDuration, strconv.ParseFloat, utf8.ValidString; bufio's scanner and
      writer.
    - [EnrichedFlow.v], [FlowMethods.v], [Legacy.v], [Reflect.v]: the flow message
      (pb/enrichedflow.pb.go), its methods (pb/enrichedflow.go), the conversion
      from and to the legacy format with the filling-in of timestamps
      (pb/legacyconverter.go), and the fields by name (Go's reflect).
    - [Segment.v]: the interface of a segment (segments/segments.go,
      segments/filter_segment.go).  A segment's Run is a loop; its body is
      [seg_step] (or [seg_try] where it can panic), a function from state and
      message to state and sends.  The contracts [SegmentLaws], [Forwards] and
      [Selects] are what clients use.
    - [Pipeline.v]: pipeline/pipeline.go, segments/parallelized_segment.go,
      segments/pass, segments/filter/drop.  New, GetDrop and Start are functions;
      the running goroutines and channels are the transition system [step].
    - [OpenNet.v]: the same networks with an environment that feeds, reads and
      closes them, and what such a network has made of what it was fed;
      [Source.v]: such a network behind an input segment, over the interface
      ([Source], [Conserving], [Terminating]) that the inputs implement;
      [Relay.v]: two pipelines over the file a json segment writes, as far as the
      writes succeed, and stdin reads.
    - [Process.v]: main.go from the started pipelines to the end of the process;
      [Program.v]: startup, registration, pipelines and shutdown put together.
    - [Config.v]: pipeline/pipeline_initialization.go and pipeline/config: from the
      representation of a configuration to the list of segments.
    - [Branch.v]: segments/controlflow/branch: the networks of the three embedded
      pipelines, the branch's goroutines and its shutdown as steps;
      [BranchConfig.v]: how the pipelines are built and started.
    - [Registry.v]: the [init] functions of all segments, the packages main.go
      links, and the way from a configuration to the flows that come out.
    - [FlowFilter.v]: segments/filter/flowfilter: the visitor that evaluates a
      filter expression in place, and the segment.
    - [Elephant.v]: segments/filter/elephant.
    - [FlowCache.v]: the flow caches of segments/input/bpf/flow_exporter.go and
      segments/filter/aggregate, developed once over the class [CachedPacket];
      [Exporter.v]: the four goroutines of a capture segment over such a cache
      and its mutex, which refine the sequential cache.
    - [TopTalkers.v]: segments/analysis/toptalkers_metrics: rings of traffic
      buckets, the database, its timers, and the filter.
    - [Iana.v] (utils/iana.go, segments/modify/protomap), [Modify.v] (normalize,
      sync_timestamps, addrstrings, dropfields), [PrefixList.v] (addcid, addnetid,
      remoteaddress), [Anonymize.v], [Lookup.v] (aslookup, bgp, geolocation,
      reversedns), [Snmp.v]: the segments under segments/modify.
    - [Traffic.v]: segments/analysis/traffic_specific_toptalkers: the tree of nested
      filters over the databases of TopTalkers.v.
    - Inputs: [DiskBuffer.v] (segments/input/diskbuffer: its eight goroutines),
      [Replay.v] (segments/input/replay), [Capture.v] (the records, startup and
      loops of segments/input/bpf, the parameters and sources of
      segments/input/packet), [Inputs.v]
      (stdin, goflow, segments/testing/generator), and the consumer of [Kafka.v]
      (segments/input/kafkaconsumer), over its lifetime in [Group.v].
    - Outputs: [Output.v] (the fields of a flow as columns; csv, sqlite, json),
      [Clickhouse.v], [Mongo.v], [Influx.v], [Prometheus.v], [Lumberjack.v] (the
      writers and their resilient client), and the producer of [Kafka.v]
      (segments/output/kafkaproducer).
    - [Print.v] (segments/print, examples/plugin), [Monitor.v] (segments/meta/monitoring), [Alert.v]
      (segments/alert/http, segments/dev/filegate).
    - [Metrics.v], [Collector.v]: the exporters of prometheus, toptalkers_metrics and
      delay_monitoring over an interface of the Prometheus client library;
      [Serve.v]: the paths they serve, and the timers of the databases from the startup
      of traffic_specific_toptalkers to its shutdown.
    - [Main.v] (main.go) and [Docs.v] (meta/doc_generator).

    ** What the theorems show

    - Pipelines: whatever the interleaving, a closed pipeline has delivered
      exactly what the segments do one after the other, in order
      ([pipeline_delivers], [pipeline_in_order]); closing terminates
      ([pipeline_close_terminates]); no send on a closed channel
      ([pipeline_never_panics]), except with parallel jobs
      ([parallel_close_panics]); filters with a subscriber lose nothing, except
      with parallel jobs again ([parallel_drops_lost]).
    - Inputs before pipelines: what leaves is what the segments make of the flows the
      input has sent ([source_delivers]); the pipeline never blocks the input for good
      ([source_never_blocked]); no flow is lost between the input and the end
      ([source_conserves]: stdin, goflow, replay, and, without faults of their
      environment, the Kafka consumer and the disk buffer);
      an input that ends brings its pipeline to an end ([source_terminates]: stdin with
      eofcloses, replay); a file read with eofcloses is processed to its end, in order
      ([file_processed]), also one that a json segment of another pipeline has written
      without compression, as far as its writes succeeded ([json_relay]), up to the
      first line of 64 KiB ([long_line_stalls]).
    - From end to end: the program started with a configuration runs the pipelines asked
      for, and each delivers what the configuration means until it shuts down
      ([program_delivers]); all linked segments register, whatever the order
      ([registration_succeeds]), and a pipeline built from its configuration
      delivers what the configuration means ([configured_pipeline]); the running
      program shuts down in an orderly way, every pipeline having delivered what it
      was given ([shutdown_delivers], [shutdown_terminates]).
    - Branches: a branch that was ready before its first flow and has shut down
      cleanly has sent what it is meant to send ([branch_delivers],
      [branch_bypass_forwards_all]); its shutdown can
      panic and can hang ([branch_close_panics], [branch_close_hangs]), and flows
      dropped before it has subscribed are lost ([branch_startup_loses]).
    - Filters: the in-place evaluation computes the boolean meaning of the
      expression and is independent of stored results ([CheckFlow_meaning],
      [flowfilter_selects]); the constructor's test run finds every error
      ([New_check_sound]); [passes_through_stale] and [bps_range_unchecked] are
      the exceptions.  The elephant filter drops everything during ramp-up and
      always passes the largest flow of its window afterwards.
    - Caches and statistics: the flow cache conserves packets, its timers keep
      exactly the fresh records, exported flows carry the totals; the concurrent
      goroutines over it refine it ([capture_refines_cache]), but the end of a
      capture loses what is cached ([capture_file_loses], [capture_stop_blocks]); a ring of
      buckets refines the history of the traffic, and thresholds, rates, cleanup
      and the filter are described on histories.  Exported counters
      show what was counted, as the library adds it up ([prometheus_reports]), where
      the label values are valid UTF-8 ([invalid_label_panics]); the samples of a
      scrape are distinct where the library requires it ([collected_distinct]).  The shutdown of
      traffic_specific_toptalkers stops its clocks ([traffic_shutdown]); with an unusable path
      its startup hangs ([traffic_startup_hangs]).
    - Messages: the legacy conversion is a round trip; filling in timestamps
      completes and only completes; dropfields, anonymize, normalize, the prefix
      lists, bgp and protomap have the effect on each flow that the theorems
      state, including the branches on which they differ from their comments; the
      asynchronous snmp cache gives every flow blank or current data
      ([snmp_annotations]).
    - Storage: every flow the diskbuffer takes is accounted for: without faults of the
      file system it neither loses nor duplicates any but in an emergency, and with
      them only those of failed writes, of files that are cut off or cannot be removed
      ([diskbuffer_conserves]); it can hang and lose flows at its shutdown
      ([diskbuffer_hangs], [diskbuffer_shutdown_loses]), spins on a line of 64 KiB
      ([long_line_spins]), and panics when it cannot create a file
      ([create_fails_panics]); batches
      of the databases contain every flow once and in order ([sqlite_inserts],
      [clickhouse_inserts]), except mongodb's, which share one slice
      ([mongo_batches], [mongo_overwrites]); what the sqlite segment has stored is
      replayed as the same flow, except that absent addresses come back empty
      ([replay_roundtrip]).
    - Network: the lumberjack writers account for every flow in every interleaving,
      panics and failed transmissions included ([lumberjack_conserves]); what a failed
      transmission has delivered is sent again, so that a server gets each batch at
      least once ([client_at_least_once]), over the connection its URL asks for
      ([server_dials]).  The Kafka consumer loses no message over any number of
      sessions, also with failing commits and with other members in its group
      ([group_delivers]); it delivers each exactly once only with the legacy format,
      as the only member and while its commits succeed; [group_returns] tells when its
      shutdown comes to an end.  The Kafka producer's messages are those of the
      specification ([producer_messages]), and a consumer's flows, sent on by a
      producer, decode to the same flows again ([kafka_relay]).  The kernel's packet
      records are decoded faithfully when they are little-endian, and with all their
      numbers reversed when they are big-endian ([raw_roundtrip]).
    - The rest: columns, statements, labels, points, printed texts, averages and
      sections are what the theorems of their files state; [docs_toc] relates the
      generated table of contents to the generated document.

    A [_witness] lemma applies a theorem to concrete data.

    ** Conventions and bounds

    Integers are [Z]; an operation that can leave its width is followed by
    [wrap] or [swrap].  A Go panic is [Panic] (or [Panicked] for a constructor),
    the end of the process by log.Fatal is [FatalExit], a nil segment
    [NilSegment].  Map iteration orders, clock readings and the interleaving of
    goroutines are arguments or steps, never fixed.  Recursion is structural
    nearly everywhere; fuel occurs in two parsers of the standard library:
    [ParseIP.v6_loop] has fuel 9, one more than an address has groups, and
    [time.parse_loop] has one more than the length of its input, each round
    consuming at least one byte.

    ** Not modelled

    Libraries and the outside world, which are parameters or the environment: files,
    sockets, databases, the network, the kernel side of packet capture, YAML, the
    filter parser, JSON and protobuf encoding, compression, Prometheus registries
    and their HTTP servers, Sarama, goflow2, Go's source parser.  Of the program
    itself: logging, the status report of the diskbuffer included; an input segment
    that is not the first of its pipeline, as part of a network (its own steps are
    modelled with the flows it is given);
    and that the goroutines which start the pipelines embedded in a branch may
    themselves be late (only the late subscription to their drops matters and is
    modelled).  The other members of the Kafka consumer's group, the commits of Sarama
    and the faults of the diskbuffer's files are part of the models only by their
    effects, under the parameter [faults] of Group.v and DiskBuffer.v. *)

From stdpp Require Import prelude gmap strings list fin_maps relations.
From Stdlib Require Import ZArith Lia.
From AAC_tactics Require Import AAC.
From AAC_tactics Require Instances.

#[global] Open Scope Z_scope.
#[global] Set Default Proof Using "Type".

(** ** Outcomes of Go computations

    A Go expression returns a value, returns a non-nil [error], or panics
    (nil dereference, index out of range). *)
Inductive result (A : Type) : Type :=
  | Ok (a : A)
  | Err (msg : string)
  | Panic.
Arguments Ok {A} a.
Arguments Err {A} msg.
Arguments Panic {A}.

#[export] Instance result_ret : MRet result := fun A a => Ok a.
#[export] Instance result_bind : MBind result := fun A B f m =>
  match m with Ok a => f a | Err e => Err e | Panic => Panic end.

#[export] Instance result_fmap : FMap result := fun A B f m =>
  match m with Ok a => Ok (f a) | Err e => Err e | Panic => Panic end.

(** The result of a segment's [New]: a configured segment, the nil segment
    (the constructor logged an error and returned nil), the end of the process
    ([log.Fatal] calls os.Exit after logging), or a panic. *)
Inductive created (A : Type) : Type :=
  | Created (a : A)
  | NilSegment
  | FatalExit
  | Panicked.
Arguments Created {A} a.
Arguments NilSegment {A}.
Arguments FatalExit {A}.
Arguments Panicked {A}.

#[export] Instance created_bind : MBind created := fun A B f m =>
  match m with Created a => f a | NilSegment => NilSegment | FatalExit => FatalExit | Panicked => Panicked end.
#[export] Instance created_fmap : FMap created := fun A B f m =>
  match m with Created a => Created (f a) | NilSegment => NilSegment | FatalExit => FatalExit | Panicked => Panicked end.
#[export] Instance created_ret : MRet created := fun A a => Created a.

(** Inversion of the two binds. *)
Lemma created_bind_inv {A B} (f : A -> created B) (m : created A) b :
  (m ≫= f) = Created b -> exists a, m = Created a /\ f a = Created b.
Proof. destruct m; try done. intros H. by eexists. Qed.
Lemma created_fmap_inv {A B} (f : A -> B) (m : created A) b :
  (f <$> m) = Created b -> exists a, m = Created a /\ f a = b.
Proof. destruct m; try done. intros [= <-]. by eexists. Qed.
Lemma result_bind_inv {A B} (f : A -> result B) (m : result A) b :
  (m ≫= f) = Ok b -> exists a, m = Ok a /\ f a = Ok b.
Proof. destruct m; try done. intros H. by eexists. Qed.

(** A traversal that succeeds is pointwise; one that succeeds everywhere succeeds. *)
Lemma mapM_Ok {A B} (f : A -> result B) l k : mapM f l = Ok k <-> Forall2 (fun x y => f x = Ok y) l k.
Proof.
  revert k. induction l as [|x l IH]; intros k; split.
  - intros [= <-]. constructor.
  - by inversion 1.
  - intros (y & Hy & (k' & Hk & E)%result_bind_inv)%result_bind_inv. injection E as <-.
    constructor; [done|]. by apply IH.
  - inversion 1 as [|? y ? k' Hy Hk]; subst. simpl. rewrite Hy. simpl. apply IH in Hk. by rewrite Hk.
Qed.
Lemma mapM_total {A B} (f : A -> result B) (P : B -> Prop) l :
  Forall (fun x => exists y, f x = Ok y /\ P y) l -> exists k, mapM f l = Ok k /\ Forall P k.
Proof.
  induction 1 as [|x l (y & Hy & Py) _ (k & Hk & Pk)]; [by exists []|].
  exists (y :: k). simpl. rewrite Hy. simpl. rewrite Hk. by split; [|constructor].
Qed.

(** ** Fixed-width integers

    Go's unsigned integers are represented by their value in [Z]; every
    operation that can leave the range is followed by the wrap-around of its
    width. [i64] is the two's-complement reading of a 64-bit word. *)
Definition wrap (w x : Z) : Z := x mod 2 ^ w.
Abbreviation u8 := (wrap 8).
Abbreviation u16 := (wrap 16).
Abbreviation u32 := (wrap 32).
Abbreviation u64 := (wrap 64).
Definition swrap (w x : Z) : Z :=
  let y := wrap w x in if y <? 2 ^ (w - 1) then y else y - 2 ^ w.
Abbreviation i32 := (swrap 32).
Abbreviation i64 := (swrap 64).

Definition in_u (w x : Z) : Prop := 0 <= x < 2 ^ w.
Definition in_ub (w x : Z) : bool := (0 <=? x) && (x <? 2 ^ w).

Lemma in_ub_spec w x : in_ub w x = true <-> in_u w x.
Proof. unfold in_ub, in_u. lia. Qed.

Lemma wrap_range w x : 0 <= w -> in_u w (wrap w x).
Proof. intros. apply Z.mod_pos_bound. lia. Qed.

Lemma wrap_small w x : in_u w x -> wrap w x = x.
Proof. apply Z.mod_small. Qed.

Lemma wrap_wrap w x : wrap w (wrap w x) = wrap w x.
Proof. apply Zmod_mod. Qed.

Lemma wrap_add_l w x y : wrap w (wrap w x + y) = wrap w (x + y).
Proof. apply Zplus_mod_idemp_l. Qed.

Lemma wrap_add_r w x y : wrap w (x + wrap w y) = wrap w (x + y).
Proof. apply Zplus_mod_idemp_r. Qed.

Lemma wrap_mul_l w x y : wrap w (wrap w x * y) = wrap w (x * y).
Proof. apply Zmult_mod_idemp_l. Qed.

Lemma wrap_sub_l w x y : wrap w (wrap w x - y) = wrap w (x - y).
Proof. apply Zminus_mod_idemp_l. Qed.

Lemma swrap_small w x : 1 <= w -> - 2 ^ (w - 1) <= x < 2 ^ (w - 1) -> swrap w x = x.
Proof.
  intros Hw Hx. unfold swrap, wrap.
  assert (2 ^ w = 2 * 2 ^ (w - 1)) as E
    by (rewrite <- Z.pow_succ_r by lia; f_equal; lia).
  destruct (Z.neg_nonneg_cases x).
  - rewrite <- (Z.mod_unique x (2 ^ w) (-1) (x + 2 ^ w)) by lia.
    case (Z.ltb_spec (x + 2 ^ w) (2 ^ (w - 1))); lia.
  - rewrite Z.mod_small by lia. case (Z.ltb_spec x (2 ^ (w - 1))); lia.
Qed.

(** The rewriting database of the wrap-around laws. *)
Create Rewrite HintDb wrap_db.
#[export] Hint Rewrite wrap_wrap wrap_add_l wrap_add_r wrap_mul_l wrap_sub_l : wrap_db.

(** ** Slices: Go distinguishes the nil slice from an empty one. *)
Definition slice (A : Type) : Type := option (list A).
Definition contents {A} (s : slice A) : list A := default [] s.
Definition is_nil {A} (s : slice A) : bool := match s with None => true | _ => false end.
Definition zlen {A} (l : list A) : Z := Z.of_nat (length l).

(** A [map[string]string]; indexing a missing key yields the empty string. *)
Abbreviation config := (gmap string string).
Definition cfg (c : config) (k : string) : string := default ""%string (c !! k).
Definition is_empty (s : string) : bool := match s with EmptyString => true | _ => false end.

(** ** Parameters of a segment

    [log.Fatal] unless a value was parsed and satisfies the test. *)
Definition required {A} (v : option A) (ok : A -> bool) : created A :=
  match v with Some a => if ok a then Created a else FatalExit | None => FatalExit end.
Definition between (lo hi n : Z) : bool := negb ((n <? lo) || (hi <? n)).
Definition any_value {A} (a : A) : bool := true.
(** An optional parameter: [parse] is applied to the value of [key'] when
    [key] is set. *)
Definition optional {A} (c : config) (key key' : string) (dflt : A) (parse : string -> option A) (ok : A -> bool) : created A :=
  if is_empty (cfg c key) then Created dflt else required (parse (cfg c key')) ok.

Lemma required_inv {A} (v : option A) ok a : required v ok = Created a -> v = Some a /\ ok a = true.
Proof. unfold required. destruct v as [a'|]; [|done]. destruct (ok a') eqn:E; [|done]. by intros [= ->]. Qed.

Lemma optional_inv {A} c key key' (dflt : A) parse ok a :
  optional c key key' dflt parse ok = Created a ->
  ok dflt = true -> ok a = true /\ (cfg c key = ""%string -> a = dflt).
Proof.
  unfold optional. intros Ho Hd. destruct (cfg c key) eqn:E; simpl in Ho.
  - injection Ho as <-. done.
  - apply required_inv in Ho as [_ Ho]. by split.
Qed.

Ltac split_created H :=
  repeat (let x := fresh "x" in let Hx := fresh "Hx" in apply created_bind_inv in H as (x & Hx & H)).

(** Lookup in a Go map literal, written as an association list. *)
Fixpoint assoc {K A} `{EqDecision K} (k : K) (l : list (K * A)) : option A :=
  match l with
  | [] => None
  | (k', a) :: l => if decide (k' = k) then Some a else assoc k l
  end.

Definition seqb (a b : string) : bool := String.eqb a b.
Lemma seqb_eq a b : seqb a b = true <-> a = b.
Proof. apply String.eqb_eq. Qed.
Lemma seqb_refl a : seqb a a = true.
Proof. apply String.eqb_refl. Qed.

(** ** Generic lemmas on lists *)
Section lists.
Context {A B C : Type}.

Lemma assoc_Some_in {K} `{EqDecision K} (k : K) (l : list (K * A)) a :
  assoc k l = Some a -> (k, a) ∈ l.
Proof.
  induction l as [|[k' a'] l IH]; simpl; [done|].
  case_decide; [intros [= ->]; subst; left | right; auto].
Qed.

Lemma zlen_app (l k : list A) : zlen (l ++ k) = zlen l + zlen k.
Proof. unfold zlen. rewrite length_app. lia. Qed.

Lemma zlen_cons (a : A) l : zlen (a :: l) = 1 + zlen l.
Proof. unfold zlen. cbn [length]. lia. Qed.

Lemma zlen_nonneg (l : list A) : 0 <= zlen l.
Proof. unfold zlen. lia. Qed.

Lemma flat_map_nil (f : A -> list B) l : (forall a, a ∈ l -> f a = []) -> flat_map f l = [].
Proof.
  induction l as [|a l IH]; simpl; intros H; [done|].
  rewrite (H a) by left. apply IH. intros x Hx. apply H. by right.
Qed.

Lemma flat_map_sublist (f : A -> list A) l :
  (forall a, f a = [] \/ f a = [a]) -> flat_map f l `sublist_of` l.
Proof.
  intros H. induction l as [|a l IH]; simpl; [constructor|].
  destruct (H a) as [-> | ->]; simpl; by constructor.
Qed.
End lists.

(** Sum of a list of words modulo [2 ^ w]. *)
Definition sum_u (w : Z) (l : list Z) : Z := wrap w (foldr Z.add 0 l).

Lemma sum_u_cons w x l : sum_u w (x :: l) = wrap w (x + sum_u w l).
Proof. unfold sum_u. simpl. by rewrite wrap_add_r. Qed.

Lemma sum_u_app w l k : sum_u w (l ++ k) = wrap w (sum_u w l + sum_u w k).
Proof.
  unfold sum_u. autorewrite with wrap_db. f_equal.
  induction l as [|x l IH]; simpl; lia.
Qed.

Lemma sum_u_perm w l k : l ≡ₚ k -> sum_u w l = sum_u w k.
Proof.
  intros H. unfold sum_u. f_equal. induction H; simpl; lia.
Qed.

(** ** Proof automation *)

(** Permutations of appended lists, up to associativity, commutativity and
    units; a cons counts as an appended singleton. *)
#[export] Existing Instances Instances.Lists.aac_List_app_Permutation_Assoc
  Instances.Lists.aac_List_app_Permutation_Comm Instances.Lists.aac_List_app_nil_Permutation_Unit.
#[export] Instance Permutation_lift {A} : AAC_lift (@Permutation A) (@Permutation A).
Proof. split; [apply Permutation_Equivalence|]. intros a b H c d H'. by rewrite H, H'. Qed.
Ltac singletons :=
  repeat match goal with
  | |- context [@cons ?A ?m ?q] => lazymatch q with nil => fail | _ => change (@cons A m q) with ([m] ++ q) end
  end.
Ltac solve_perm := singletons; aac_reflexivity.

(** Replacing one element of a list of parts. *)
Lemma concat_update {A B} (f : A -> list B) (l : list A) i x x' a b :
  l !! i = Some x -> f x' ++ a ≡ₚ f x ++ b -> concat (f <$> <[i := x']> l) ++ a ≡ₚ concat (f <$> l) ++ b.
Proof.
  intros Hi E. pose proof (lookup_lt_Some _ _ _ Hi) as Hlt.
  rewrite (insert_take_drop l i x' Hlt). rewrite <- (take_drop_middle l i x Hi) at 3.
  rewrite !fmap_app, !concat_app. cbn.
  transitivity (concat (f <$> take i l) ++ (f x' ++ a) ++ concat (f <$> drop (S i) l)); [solve_perm|].
  rewrite E. solve_perm.
Qed.

(** Case analysis on the innermost scrutinee of the goal or a hypothesis. *)
Ltac case_on e :=
  lazymatch e with
  | context [match ?x with _ => _ end] => case_on x
  | _ => destruct e eqn:?
  end.
Ltac case_goal := match goal with |- context [match ?x with _ => _ end] => case_on x end.
Ltac case_hyp H := match type of H with context [match ?x with _ => _ end] => case_on x end.

(** Split every conjunction and existential of the context. *)
Ltac split_hyps :=
  repeat match goal with
  | H : _ /\ _ |- _ => destruct H
  | H : exists _, _ |- _ => destruct H
  end.

(** ** Transition systems

    What every step preserves holds in every state that is reached. *)
Lemma rtc_keeps {A} {R : A -> A -> Prop} {P : A -> Prop} :
  (forall x y, P x -> R x y -> P y) -> forall x y, rtc R x y -> P x -> P y.
Proof. intros HR x y Hxy. induction Hxy; eauto. Qed.

(** Evaluate a closed boolean or decidable statement. *)
Ltac by_compute := vm_compute; repeat split; (reflexivity || discriminate || auto).
