(* ===== verification/GoStd.v ===== *)
(** * The parts of Go's standard library the program uses

    [strconv] (decimal integers and booleans), [strings], [fmt] for integers,
    [net] (IP addresses, masks, networks), [net/netip] address printing and
    float64 arithmetic (IEEE 754 binary64 through the Standard Library's
    executable [SpecFloat]).  Strings are byte strings; case mapping and white
    space are those of the ASCII range. *)

From stdpp Require Import prelude gmap strings list.
From Stdlib Require Import ZArith Lia Ascii DecimalString DecimalFacts DecimalN DecimalPos SpecFloat.
From S2P Require Import Prelude.

(** ** strconv *)
Module strconv.

(** [FormatUint(n, 10)] (also fmt's [%d] on an unsigned value). *)
Definition FormatUint (n : Z) : string :=
  NilZero.string_of_uint (N.to_uint (Z.to_N n)).

(** fmt's [%d] on a signed value. *)
Definition FormatInt (n : Z) : string :=
  if n <? 0 then ("-" ++ FormatUint (- n))%string else FormatUint n.

(** [ParseUint(s, 10, bits)]; [None] is a non-nil error (syntax or range). *)
Definition ParseUint (bits : Z) (s : string) : option Z :=
  u ← NilZero.uint_of_string s;
  let n := Z.of_N (N.of_uint u) in
  if n <? 2 ^ bits then Some n else None.

Definition split_sign (s : string) : bool * string :=
  match s with
  | String "-" s' => (true, s')
  | String "+" s' => (false, s')
  | _ => (false, s)
  end.

(** [ParseInt(s, 10, bits)]: an optional sign, then digits. *)
Definition ParseInt (bits : Z) (s : string) : option Z :=
  let '(neg, digits) := split_sign s in
  u ← NilZero.uint_of_string digits;
  let n := Z.of_N (N.of_uint u) in
  if (neg : bool) then (if n <=? 2 ^ (bits - 1) then Some (- n) else None)
  else (if n <? 2 ^ (bits - 1) then Some n else None).

(** [Atoi] is [ParseInt(s, 10, 0)] on a 64-bit platform. *)
Definition Atoi (s : string) : option Z := ParseInt 64 s.

Definition ParseBool (s : string) : option bool :=
  if decide (s ∈ ["1"; "t"; "T"; "TRUE"; "true"; "True"]%string) then Some true
  else if decide (s ∈ ["0"; "f"; "F"; "FALSE"; "false"; "False"]%string) then Some false
  else None.

Lemma of_to_uint n : NilZero.uint_of_string (NilZero.string_of_uint (N.to_uint n)) = Some (N.to_uint n).
Proof.
  apply NilZero.usu. destruct n; [done|]. simpl. apply DecimalPos.Unsigned.to_uint_nonnil.
Qed.

(** Decimal printing and parsing are inverse on the representable range. *)
Lemma ParseUint_FormatUint bits n :
  in_u bits n -> ParseUint bits (FormatUint n) = Some n.
Proof.
  unfold in_u, ParseUint, FormatUint. intros Hn.
  rewrite of_to_uint. simpl. rewrite DecimalN.Unsigned.of_to.
  rewrite Z2N.id by lia. case Z.ltb_spec; [done|lia].
Qed.

(** Only digits are printed. *)
Definition is_digit (a : ascii) : bool := let n := nat_of_ascii a in (48 <=? n)%nat && (n <=? 57)%nat.
Fixpoint digits_only (s : string) : bool :=
  match s with EmptyString => true | String a s => is_digit a && digits_only s end.
Lemma FormatUint_digits n : digits_only (FormatUint n) = true /\ FormatUint n <> ""%string.
Proof.
  unfold FormatUint, NilZero.string_of_uint.
  assert (forall d, digits_only (NilEmpty.string_of_uint d) = true) as H by (induction d; simpl; done).
  by destruct (N.to_uint (Z.to_N n)) as [|d|d|d|d|d|d|d|d|d|d] eqn:E; (split; [simpl; auto|]).
Qed.

Lemma split_sign_FormatUint n : split_sign (FormatUint n) = (false, FormatUint n).
Proof.
  destruct (FormatUint_digits n) as [Hd _]. destruct (FormatUint n) as [|a s]; [done|].
  simpl in Hd. apply andb_prop in Hd as [Ha _]. unfold split_sign.
  destruct a as [[] [] [] [] [] [] [] []]; done.
Qed.
Lemma ParseInt_FormatUint bits n : 0 <= n < 2 ^ (bits - 1) -> ParseInt bits (FormatUint n) = Some n.
Proof.
  intros Hn. unfold ParseInt. rewrite split_sign_FormatUint. unfold FormatUint.
  rewrite of_to_uint. cbn [mbind option_bind]. rewrite DecimalN.Unsigned.of_to, Z2N.id by lia.
  case Z.ltb_spec; [done|lia].
Qed.

Lemma ParseUint_range bits s n : ParseUint bits s = Some n -> in_u bits n.
Proof.
  unfold ParseUint. destruct (NilZero.uint_of_string s); simpl; [|done].
  case Z.ltb_spec; intros; simplify_eq. unfold in_u. lia.
Qed.

Lemma ParseInt_range bits s n :
  1 <= bits -> ParseInt bits s = Some n -> - 2 ^ (bits - 1) <= n < 2 ^ (bits - 1).
Proof.
  intros Hb. assert (0 < 2 ^ (bits - 1)) by (apply Z.pow_pos_nonneg; lia).
  unfold ParseInt. destruct (split_sign s) as [neg digits].
  destruct (NilZero.uint_of_string digits); simpl; [|done].
  destruct neg; [case Z.leb_spec | case Z.ltb_spec]; intros; simplify_eq; lia.
Qed.
End strconv.

(** ** strings *)
Module gostrings.
Definition map_ascii (f : ascii -> ascii) : string -> string :=
  fix go s := match s with EmptyString => EmptyString | String a s => String (f a) (go s) end.

Definition lower_ascii (a : ascii) : ascii :=
  let n := nat_of_ascii a in if (65 <=? n)%nat && (n <=? 90)%nat then ascii_of_nat (n + 32) else a.
Definition upper_ascii (a : ascii) : ascii :=
  let n := nat_of_ascii a in if (97 <=? n)%nat && (n <=? 122)%nat then ascii_of_nat (n - 32) else a.
Definition ToLower : string -> string := map_ascii lower_ascii.
Definition ToUpper : string -> string := map_ascii upper_ascii.

Fixpoint HasPrefix (s p : string) : bool :=
  match p, s with
  | EmptyString, _ => true
  | String a p, String b s => if ascii_dec a b then HasPrefix s p else false
  | _, _ => false
  end.

(** [Contains(s, sub)]. *)
Fixpoint Contains (s sub : string) : bool :=
  HasPrefix s sub || match s with EmptyString => false | String _ s => Contains s sub end.

Definition is_space (a : ascii) : bool :=
  let n := nat_of_ascii a in ((9 <=? n)%nat && (n <=? 13)%nat) || (n =? 32)%nat.

Fixpoint trim_left (s : string) : string :=
  match s with
  | String a s' => if is_space a then trim_left s' else s
  | EmptyString => EmptyString
  end.
Definition reverse (s : string) : string :=
  String.string_of_list_ascii (rev (String.list_ascii_of_string s)).
Definition TrimSpace (s : string) : string := reverse (trim_left (reverse (trim_left s))).

Definition HasSuffix (s p : string) : bool := HasPrefix (reverse s) (reverse p).

(** Cut at every byte satisfying [p]: the pieces between the cuts, in order. *)
Fixpoint split_on (p : ascii -> bool) (cur : list ascii) (s : string) : list string :=
  match s with
  | EmptyString => [String.string_of_list_ascii (rev cur)]
  | String a s =>
      if p a then String.string_of_list_ascii (rev cur) :: split_on p [] s
      else split_on p (a :: cur) s
  end.

(** [Split(s, sep)] for a one-byte separator. *)
Definition Split (s : string) (sep : ascii) : list string :=
  split_on (fun a => bool_decide (a = sep)) [] s.

(** [Fields(s)]: the maximal runs of non-space bytes. *)
Definition Fields (s : string) : list string :=
  List.filter (fun p => negb (is_empty p)) (split_on is_space [] s).

(** Words: what [Fields] takes apart and [String.concat] joins. *)
Fixpoint all_chars (P : ascii -> bool) (s : string) : bool :=
  match s with EmptyString => true | String a s => P a && all_chars P s end.
Definition word (s : string) : bool := negb (is_empty s) && all_chars (fun a => negb (is_space a)) s.

Lemma append_cons a s t : (String a s ++ t)%string = String a (s ++ t).
Proof. reflexivity. Qed.
Lemma all_chars_app P s t : all_chars P (s ++ t) = all_chars P s && all_chars P t.
Proof. induction s as [|a s IH]; [done|]. rewrite append_cons. cbn [all_chars]. by rewrite IH, andb_assoc. Qed.
Lemma all_chars_impl (P Q : ascii -> bool) s : (forall a, P a = true -> Q a = true) -> all_chars P s = true -> all_chars Q s = true.
Proof. intros H. induction s as [|a s IH]; [done|]. simpl. intros [Ha Hs]%andb_prop. by rewrite (H a Ha), IH. Qed.

Lemma split_on_word w : forall cur rest, all_chars (fun a => negb (is_space a)) w = true ->
  split_on is_space cur (w ++ rest) = split_on is_space (rev (String.list_ascii_of_string w) ++ cur) rest.
Proof.
  induction w as [|a w IH]; intros cur rest; [done|]. rewrite append_cons. cbn [split_on String.list_ascii_of_string all_chars rev]. intros [Ha Hw]%andb_prop.
  apply negb_true_iff in Ha. rewrite Ha, IH by done. by rewrite <- app_assoc.
Qed.
Lemma string_app_nil_r (s : string) : (s ++ "")%string = s.
Proof. induction s as [|a s IH]; [done|]. by rewrite append_cons, IH. Qed.

Lemma Fields_concat l : Forall (fun w => word w = true) l -> Fields (String.concat " " l) = l.
Proof.
  induction 1 as [|w l Hw Hl IH]; [done|]. unfold word in Hw. apply andb_prop in Hw as [Hn Hs].
  assert (forall rest, split_on is_space [] (w ++ rest) =
    split_on is_space (rev (String.list_ascii_of_string w)) rest) as Hsp.
  { intros rest. rewrite split_on_word by done. by rewrite List.app_nil_r. }
  assert (String.string_of_list_ascii (rev (rev (String.list_ascii_of_string w))) = w) as Hr
    by (rewrite rev_involutive; apply String.string_of_list_ascii_of_string).
  unfold Fields in *. cbn [String.concat]. destruct l as [|w' l].
  - rewrite <- (string_app_nil_r w) at 1. rewrite Hsp. cbn [split_on]. rewrite Hr. simpl. by rewrite Hn.
  - rewrite Hsp, append_cons. cbn [split_on]. change (is_space " ") with true. cbn iota. rewrite Hr.
    cbn [List.filter]. rewrite Hn. f_equal. apply IH.
Qed.

(** Digits are words. *)
Lemma digits_chars P s : (forall a, strconv.is_digit a = true -> P a = true) -> strconv.digits_only s = true ->
  all_chars P s = true.
Proof.
  intros H. induction s as [|a s IH]; [done|]. simpl. intros [Ha Hs]%andb_prop. by rewrite (H a Ha), IH.
Qed.
Lemma digit_not_space a : strconv.is_digit a = true -> negb (is_space a) = true.
Proof.
  unfold strconv.is_digit, is_space. cbv zeta. generalize (nat_of_ascii a). intros n [H1 H2]%andb_prop.
  apply Nat.leb_le in H1, H2. destruct (Nat.leb_spec n 13), (Nat.eqb_spec n 32); [lia..|]. by rewrite andb_false_r.
Qed.
Lemma FormatUint_word n : word (strconv.FormatUint n) = true.
Proof.
  destruct (strconv.FormatUint_digits n) as [Hd Hn]. unfold word.
  rewrite (digits_chars _ _ digit_not_space Hd). by destruct (strconv.FormatUint n).
Qed.
End gostrings.

(** ** fmt *)
Module fmt.
Definition hex_digit (n : Z) : ascii :=
  ascii_of_nat (Z.to_nat (if n <? 10 then n + 48 else n + 87)).
(** [%02x] of a value below 256. *)
Definition hex2 (n : Z) : string :=
  String (hex_digit (n / 16)) (String (hex_digit (n mod 16)) EmptyString).
Fixpoint strip_zeros (l : list Z) : list Z :=
  match l with
  | 0 :: ((_ :: _) as l') => strip_zeros l'
  | _ => l
  end.
(** [%x] of a value below 2^16: no leading zeros. *)
Definition hex (n : Z) : string :=
  String.string_of_list_ascii
    (hex_digit <$> strip_zeros [n / 4096; n / 256 mod 16; n / 16 mod 16; n mod 16]).
(** A slice with [%v]: its elements in brackets, separated by blanks. *)
Definition brackets (l : list string) : string := "[" ++ String.concat " " l ++ "]".
End fmt.

(** [[]byte(s)] *)
Definition bytes_of_string (s : string) : list Z :=
  (fun a => Z.of_nat (nat_of_ascii a)) <$> String.list_ascii_of_string s.

(** ** net

    An IP, an IPMask and a hardware address are byte slices; only their
    length and contents matter here except where the program compares with
    nil, so [IP] keeps the nil slice apart. *)
Module net.
Definition IP : Type := slice Z.
Definition IPMask : Type := slice Z.
Definition IPv4len : nat := 4.
Definition IPv6len : nat := 16.
Definition v4InV6Prefix : list Z := [0; 0; 0; 0; 0; 0; 0; 0; 0; 0; 255; 255].

Definition is_v4_mapped (b : list Z) : bool :=
  (length b =? IPv6len)%nat && bool_decide (take 12 b = v4InV6Prefix).

Definition To4 (ip : IP) : IP :=
  match ip with
  | None => None
  | Some b =>
      if (length b =? IPv4len)%nat then Some b
      else if is_v4_mapped b then Some (drop 12 b)
      else None
  end.

Definition To16 (ip : IP) : IP :=
  match ip with
  | None => None
  | Some b =>
      if (length b =? IPv4len)%nat then Some (v4InV6Prefix ++ b)
      else if (length b =? IPv6len)%nat then Some b
      else None
  end.

(** [CIDRMask(ones, bits)]: nil unless bits is 32 or 128 and 0 <= ones <= bits. *)
Fixpoint mask_bytes (l : nat) (n : Z) : list Z :=
  match l with
  | O => []
  | S l => if 8 <=? n then 255 :: mask_bytes l (n - 8)
           else 255 - Z.shiftr 255 n :: mask_bytes l 0
  end.
Definition CIDRMask (ones bits : Z) : IPMask :=
  if negb ((bits =? 32) || (bits =? 128)) then None
  else if (ones <? 0) || (bits <? ones) then None
  else Some (mask_bytes (Z.to_nat (bits / 8)) ones).

Definition Mask (ip : IP) (mask : IPMask) : IP :=
  let ib := contents ip in
  let mb := contents mask in
  let mb := if ((length mb =? IPv6len) && (length ib =? IPv4len))%nat
               && forallb (fun x => x =? 255) (take 12 mb) then drop 12 mb else mb in
  let ib := if (length mb =? IPv4len)%nat && is_v4_mapped ib then drop 12 ib else ib in
  if (length ib =? length mb)%nat then Some (zip_with Z.land ib mb) else None.

Definition Equal (a b : IP) : bool :=
  let x := contents a in
  let y := contents b in
  if (length x =? length y)%nat then bool_decide (x = y)
  else if ((length x =? IPv4len) && (length y =? IPv6len))%nat
    then bool_decide (take 12 y = v4InV6Prefix) && bool_decide (x = drop 12 y)
  else if ((length x =? IPv6len) && (length y =? IPv4len))%nat
    then bool_decide (take 12 x = v4InV6Prefix) && bool_decide (drop 12 x = y)
  else false.

(** [(&IPNet{ip, mask}).Contains(addr)] *)
Definition networkNumberAndMask (ip : IP) (mask : IPMask) : IP * IPMask :=
  match (match To4 ip with
         | Some b => Some b
         | None => if (length (contents ip) =? IPv6len)%nat then ip else None
         end) with
  | None => (None, None)
  | Some b =>
      let m := contents mask in
      if (length m =? IPv4len)%nat then
        if (length b =? IPv4len)%nat then (Some b, mask) else (None, None)
      else if (length m =? IPv6len)%nat then
        (Some b, if (length b =? IPv4len)%nat then Some (drop 12 m) else mask)
      else (None, None)
  end.
Definition Contains (ip : IP) (mask : IPMask) (addr : IP) : bool :=
  let '(nn, m) := networkNumberAndMask ip mask in
  let a := contents (match To4 addr with Some x => Some x | None => addr end) in
  if (length a =? length (contents nn))%nat then
    bool_decide (zip_with Z.land (contents nn) (contents m)
                 = zip_with Z.land a (contents m))
  else false.

(** *** Printing *)
Definition dotted (b : list Z) : string :=
  match b with
  | [a; b; c; d] =>
      (strconv.FormatUint a ++ "." ++ strconv.FormatUint b ++ "." ++
       strconv.FormatUint c ++ "." ++ strconv.FormatUint d)%string
  | _ => ""%string
  end.

Fixpoint groups16 (b : list Z) : list Z :=
  match b with
  | x :: y :: b => (x * 256 + y) :: groups16 b
  | _ => []
  end.

(** Length of the run of zero groups starting here. *)
Fixpoint zrun (g : list Z) : nat :=
  match g with 0 :: g => S (zrun g) | _ => O end.
(** The leftmost longest run of zero groups: (start, length). *)
Fixpoint best_run (i : nat) (g : list Z) (best : nat * nat) : nat * nat :=
  match g with
  | [] => best
  | _ :: g' => best_run (S i) g' (if (snd best <? zrun g)%nat then (i, zrun g) else best)
  end.

Fixpoint colons (l : list string) : string :=
  match l with
  | [] => ""
  | [s] => s
  | s :: l => s ++ ":" ++ colons l
  end%string.

(** The canonical text of a 16-byte address: a run of at least two zero
    groups is printed as "::". *)
Definition text16 (b : list Z) : string :=
  let g := groups16 b in
  let '(start, len) := best_run 0 g (0%nat, 0%nat) in
  if (2 <=? len)%nat
  then (colons (fmt.hex <$> take start g) ++ "::" ++ colons (fmt.hex <$> drop (start + len) g))%string
  else colons (fmt.hex <$> g).

Definition hex_string (b : list Z) : string := String.concat "" (fmt.hex2 <$> b).

(** [IP.String] *)
Definition String (ip : IP) : string :=
  let b := contents ip in
  if (length b =? 0)%nat then "<nil>"%string
  else if negb ((length b =? IPv4len) || (length b =? IPv6len))%nat
    then ("?" ++ hex_string b)%string
  else match To4 ip with
       | Some p4 => dotted p4
       | None => text16 b
       end.

(** [netip.AddrFromSlice(b)] followed by [Addr.String]; [None] when not ok. *)
Definition netip_text (b : list Z) : option string :=
  if (length b =? IPv4len)%nat then Some (dotted b)
  else if (length b =? IPv6len)%nat then
    Some (if bool_decide (take 12 b = v4InV6Prefix)
          then ("::ffff:" ++ dotted (drop 12 b))%string else text16 b)
  else None.

Example text16_ex : text16 [32; 1; 13; 184; 0; 1; 0; 0; 0; 0; 0; 0; 0; 0; 0; 1] = "2001:db8:1::1"%string.
Proof. reflexivity. Qed.
Example string_v4_mapped : String (Some (v4InV6Prefix ++ [192; 168; 88; 42])) = "192.168.88.42"%string.
Proof. reflexivity. Qed.
Example contains_ex :
  Contains (Some [10; 0; 0; 0]) (CIDRMask 8 32) (Some [10; 1; 2; 3]) = true /\
  Contains (Some [10; 0; 0; 0]) (CIDRMask 8 32) (Some [11; 1; 2; 3]) = false.
Proof. by_compute. Qed.

(** *** Facts about masks *)
Definition bytes_ok (b : list Z) : Prop := Forall (fun x => 0 <= x < 256) b.

Lemma length_mask_bytes l n : length (mask_bytes l n) = l.
Proof. revert n. induction l; intros; simpl; [done|]. case_match; simpl; auto. Qed.

Lemma length_CIDRMask ones bits m :
  CIDRMask ones bits = Some m -> length m = Z.to_nat (bits / 8).
Proof. unfold CIDRMask. repeat case_goal; intros; simplify_eq. apply length_mask_bytes. Qed.

Lemma Mask_same_length ip m b :
  length b = length m -> is_v4_mapped b = false ->
  ip = Some b -> Mask ip (Some m) = Some (zip_with Z.land b m).
Proof.
  intros Hl Hm ->. unfold Mask; simpl. rewrite Hl.
  destruct (length m =? IPv6len)%nat eqn:E6; simpl.
  - assert ((length m =? IPv4len)%nat = false) as ->
      by (apply Nat.eqb_eq in E6; rewrite E6; done).
    simpl. rewrite Hm, andb_false_r, Hl, Nat.eqb_refl. done.
  - rewrite Hm, andb_false_r, Hl, Nat.eqb_refl. done.
Qed.
End net.

(** ** float64

    Values are [spec_float]s of the binary64 format (precision 53, exponent
    bound 1024); every operation rounds to nearest, ties to even. *)
Module f64.
Definition float64 : Type := spec_float.
(** [float64(n)] for an integer [n]. *)
Definition of_Z (n : Z) : float64 := binary_normalize 53 1024 n 0 false.
Definition mul : float64 -> float64 -> float64 := SFmul 53 1024.
Definition div : float64 -> float64 -> float64 := SFdiv 53 1024.
Definition add : float64 -> float64 -> float64 := SFadd 53 1024.
Definition sub : float64 -> float64 -> float64 := SFsub 53 1024.
Definition leb : float64 -> float64 -> bool := SFleb.
Definition ltb : float64 -> float64 -> bool := SFltb.
(** The constant [10^-k]: the float64 nearest to it. *)
Definition pow10_inv (k : Z) : float64 := div (of_Z 1) (of_Z (10 ^ k)).

(** The integer part (towards zero) and the value rounded half away from
    zero, of a finite value. *)
Definition trunc (f : float64) : option Z :=
  match f with
  | S754_zero _ => Some 0
  | S754_finite s m e =>
      let n := if 0 <=? e then Z.pos m * 2 ^ e else Z.pos m / 2 ^ (- e) in
      Some (if s then - n else n)
  | _ => None
  end.
Definition round (f : float64) : option Z :=
  match f with
  | S754_zero _ => Some 0
  | S754_finite s m e =>
      let n := if 0 <=? e then Z.pos m * 2 ^ e else (Z.pos m + 2 ^ (- e - 1)) / 2 ^ (- e) in
      Some (if s then - n else n)
  | _ => None
  end.

(** Converting an out-of-range float64 to uint64 is implementation-dependent
    in Go: the platform supplies that value. *)
Class Platform := {
  u64_of_oob : float64 -> Z;
  u64_of_oob_range : forall f, in_u 64 (u64_of_oob f);
}.

Section conversions.
Context {P : Platform}.

Definition to_u64 (f : float64) (n : option Z) : Z :=
  match n with
  | Some n => if in_ub 64 n then n else u64_of_oob f
  | None => u64_of_oob f
  end.
(** [uint64(f)] *)
Definition u64_of (f : float64) : Z := to_u64 f (trunc f).
(** [uint64(math.Round(f))] *)
Definition u64_of_round (f : float64) : Z := to_u64 f (round f).

Lemma to_u64_range f n : in_u 64 (to_u64 f n).
Proof.
  unfold to_u64. destruct n as [n|]; [destruct (in_ub 64 n) eqn:E|].
  - by apply in_ub_spec.
  - apply u64_of_oob_range.
  - apply u64_of_oob_range.
Qed.
End conversions.

(** amd64 returns 2^63 for a value out of range; used by the examples. *)
Lemma amd64_oob_range (f : float64) : in_u 64 (2 ^ 63).
Proof. unfold in_u. lia. Qed.
Definition amd64 : Platform :=
  {| u64_of_oob := fun _ => 2 ^ 63; u64_of_oob_range := amd64_oob_range |}.
End f64.
