(* ===== verification/GoParse.v ===== *)
(** * Further parsers of Go's standard library

    [net.ParseIP], [time.ParseDuration] and [strconv.ParseFloat], on byte
    strings, and [utf8.ValidString]. *)

From stdpp Require Import prelude strings list.
From Stdlib Require Import ZArith Lia Ascii SpecFloat.
From S2P Require Import Prelude GoStd.

Definition digit (base : Z) (c : ascii) : option Z :=
  let n := Z.of_nat (nat_of_ascii c) in
  if (48 <=? n) && (n <=? 57) then Some (n - 48)
  else if (10 <? base) && (97 <=? n) && (n <=? 102) then Some (n - 87)
  else if (10 <? base) && (65 <=? n) && (n <=? 70) then Some (n - 55)
  else None.

(** The longest run of digits: value, number of digits, what follows. *)
Fixpoint digits (base acc : Z) (count : nat) (s : list ascii) : Z * nat * list ascii :=
  match s with
  | c :: s' => match digit base c with
               | Some d => digits base (acc * base + d) (S count) s'
               | None => (acc, count, s)
               end
  | [] => (acc, count, s)
  end.

(** ** net.ParseIP *)
Module ParseIP.
(** Four decimal fields up to 255, without leading zeros, separated by dots. *)
Fixpoint v4_fields (n : nat) (s : list ascii) : option (list Z) :=
  let '(v, count, rest) := digits 10 0 0 s in
  let leading_zero := match s with "0"%char :: _ => (1 <? count)%nat | _ => false end in
  if (count =? 0)%nat || (3 <? count)%nat || leading_zero || (255 <? v) then None
  else match n, rest with
       | O, [] => Some [v]
       | S n, "."%char :: rest => cons v <$> v4_fields n rest
       | _, _ => None
       end.
Definition v4 (s : list ascii) : option (list Z) := v4_fields 3 s.

(** The loop over 16-bit groups: [acc] holds the bytes so far and
    [ellipsis] the position of "::" if there was one. *)
Fixpoint v6_loop (fuel : nat) (s : list ascii) (acc : list Z) (ellipsis : option nat)
    : option (list Z * option nat) :=
  match fuel with
  | O => None
  | S fuel =>
      if (16 <=? length acc)%nat then (match s with [] => Some (acc, ellipsis) | _ => None end)
      else
        let '(v, count, rest) := digits 16 0 0 s in
        if (count =? 0)%nat || (4 <? count)%nat then None
        else match rest with
             | "."%char :: _ =>
                 if (match ellipsis with None => negb (length acc =? 12)%nat | _ => false end)
                    || (16 <? length acc + 4)%nat then None
                 else b ← v4 s; Some (acc ++ b, ellipsis)
             | [] => Some (acc ++ [v / 256; v mod 256], ellipsis)
             | [":"%char] => None
             | ":"%char :: ":"%char :: rest =>
                 let acc := acc ++ [v / 256; v mod 256] in
                 match ellipsis with
                 | Some _ => None
                 | None => match rest with
                           | [] => Some (acc, Some (length acc))
                           | _ => v6_loop fuel rest acc (Some (length acc))
                           end
                 end
             | ":"%char :: rest => v6_loop fuel rest (acc ++ [v / 256; v mod 256]) ellipsis
             | _ => None
             end
  end.
Definition v6 (s : list ascii) : option (list Z) :=
  let r := match s with
           | [":"%char; ":"%char] => Some ([], Some 0%nat)
           | ":"%char :: ":"%char :: s' => v6_loop 9 s' [] (Some 0%nat)
           | _ => v6_loop 9 s [] None
           end in
  match r with
  | None => None
  | Some (b, ellipsis) =>
      if (length b <? 16)%nat then
        e ← ellipsis; Some (take e b ++ replicate (16 - length b) 0 ++ drop e b)
      else match ellipsis with Some _ => None | None => Some b end
  end.

(** The first dot or colon tells the family; a zone is not accepted. *)
Fixpoint family (s : list ascii) : option bool :=
  match s with
  | "."%char :: _ => Some true
  | ":"%char :: _ => Some false
  | _ :: s => family s
  | [] => None
  end.
Definition parse (s : string) : net.IP :=
  let l := String.list_ascii_of_string s in
  match family l with
  | Some true => (fun b => net.v4InV6Prefix ++ b) <$> v4 l
  | Some false => v6 l
  | None => None
  end.

Example parse_v4 : parse "192.168.88.42" = Some (net.v4InV6Prefix ++ [192; 168; 88; 42]).
Proof. reflexivity. Qed.
Example parse_v6 : parse "2001:db8:1::1" = Some [32; 1; 13; 184; 0; 1; 0; 0; 0; 0; 0; 0; 0; 0; 0; 1].
Proof. reflexivity. Qed.
Example parse_bad : parse "<nil>" = None /\ parse "1.2.3" = None /\ parse "1::2::3" = None /\ parse "01.2.3.4" = None.
Proof. repeat split. Qed.
Example parse_mixed : parse "::ffff:1.2.3.4" = Some (net.v4InV6Prefix ++ [1; 2; 3; 4]) /\
  parse "::" = Some (replicate 16 0) /\ parse "1:2:3:4:5:6:7:8" = Some [0;1;0;2;0;3;0;4;0;5;0;6;0;7;0;8].
Proof. repeat split. Qed.
End ParseIP.

(** ** time.ParseDuration *)
Module time.
Definition Nanosecond : Z := 1.
Definition Microsecond : Z := 1000.
Definition Millisecond : Z := 1000000.
Definition Second : Z := 1000000000.
Definition Minute : Z := 60 * Second.
Definition Hour : Z := 60 * Minute.
Definition unitMap : list (string * Z) :=
  [("ns", Nanosecond); ("us", Microsecond); ("µs", Microsecond); ("μs", Microsecond);
   ("ms", Millisecond); ("s", Second); ("m", Minute); ("h", Hour)]%string.

(** The fraction's digits as an integer and the power of ten they are
    scaled by; digits that would overflow are skipped. *)
Fixpoint leadingFraction (f : Z) (scale : Z) (count : nat) (overflow : bool) (s : list ascii)
    : Z * Z * nat * list ascii :=
  match s with
  | c :: s' =>
      match digit 10 c with
      | None => (f, scale, count, s)
      | Some d =>
          if overflow || ((2 ^ 63 - 1) / 10 <? f) || (2 ^ 63 <? f * 10 + d)
          then leadingFraction f scale (S count) true s'
          else leadingFraction (f * 10 + d) (scale * 10) (S count) false s'
      end
  | [] => (f, scale, count, s)
  end.
Definition is_unit_end (c : ascii) : bool :=
  bool_decide (c = "."%char) || match digit 10 c with Some _ => true | None => false end.
Fixpoint take_unit (s : list ascii) : list ascii * list ascii :=
  match s with
  | c :: s' => if is_unit_end c then ([], s) else let r := take_unit s' in (c :: r.1, r.2)
  | [] => ([], [])
  end.

Section duration.
Context {P : f64.Platform}.

(** [v*unit + uint64(float64(f) * (float64(unit) / scale))] *)
Definition component (v f scale unit : Z) : option Z :=
  if 2 ^ 63 / unit <? v then None
  else let v := v * unit in
       let v := if 0 <? f then
         v + f64.u64_of (f64.mul (f64.of_Z f) (f64.div (f64.of_Z unit) (f64.of_Z scale)))
         else v in
       if 2 ^ 63 <? v then None else Some v.

Fixpoint parse_loop (fuel : nat) (d : Z) (s : list ascii) : option Z :=
  match fuel, s with
  | _, [] => Some d
  | O, _ => None
  | S fuel, _ =>
      let '(v, pre, s) := digits 10 0 0 s in
      if 2 ^ 63 <? v then None
      else
        let '(f, scale, post, s) :=
          match s with
          | "."%char :: s => leadingFraction 0 1 0 false s
          | _ => (0, 1, 0%nat, s)
          end in
        if (pre =? 0)%nat && (post =? 0)%nat then None
        else
          let '(u, s) := take_unit s in
          unit ← assoc (String.string_of_list_ascii u) unitMap;
          v ← component v f scale unit;
          if 2 ^ 63 <? d + v then None else parse_loop fuel (d + v) s
  end.

(** [ParseDuration(s)] in nanoseconds; [None] is an error. *)
Definition ParseDuration (s : string) : option Z :=
  let '(neg, s) := strconv.split_sign s in
  if seqb s "0" then Some 0
  else if is_empty s then None
  else d ← parse_loop (S (String.length s)) 0 (String.list_ascii_of_string s);
       if (neg : bool) then Some (- d) else if 2 ^ 63 - 1 <? d then None else Some d.
End duration.

Example duration_1h30 : @ParseDuration f64.amd64 "1h30m" = Some 5400000000000.
Proof. reflexivity. Qed.
Example duration_frac : @ParseDuration f64.amd64 "1.5s" = Some 1500000000.
Proof. reflexivity. Qed.
Example duration_bad : @ParseDuration f64.amd64 "30" = None /\ @ParseDuration f64.amd64 "s" = None
  /\ @ParseDuration f64.amd64 "-2m" = Some (- 120000000000) /\ @ParseDuration f64.amd64 "" = None.
Proof. repeat split. Qed.
End time.

(** ** strconv.ParseFloat *)
Module ParseFloat.
(** Digits of a mantissa: the integer they form, how many there were, how many
    came after the point, whether an underscore was seen, and the rest. *)
Record mantissa := mkmantissa { mant : Z; sawdigits : bool; fraction : Z; sawdot : bool; underscores : bool }.
Definition dot : ascii := ".".
Definition underscore : ascii := "_".
Fixpoint read_mantissa (base : Z) (m : mantissa) (s : list ascii) : mantissa * list ascii :=
  match s with
  | [] => (m, s)
  | c :: s' =>
      if bool_decide (c = underscore)
      then read_mantissa base (mkmantissa (mant m) (sawdigits m) (fraction m) (sawdot m) true) s'
      else if bool_decide (c = dot) then
        if sawdot m then (m, s)
        else read_mantissa base (mkmantissa (mant m) (sawdigits m) (fraction m) true (underscores m)) s'
      else match digit base c with
           | Some d => read_mantissa base
               (mkmantissa (mant m * base + d) true (fraction m + (if sawdot m then 1 else 0)) (sawdot m) (underscores m)) s'
           | None => (m, s)
           end
  end.
(** The digits of the exponent; it stops growing at 10000. *)
Fixpoint read_exponent (e : Z) (us : bool) (s : list ascii) : Z * bool * list ascii :=
  match s with
  | [] => (e, us, s)
  | c :: s' =>
      if bool_decide (c = underscore) then read_exponent e true s'
      else match digit 10 c with
           | Some d => read_exponent (if e <? 10000 then e * 10 + d else e) us s'
           | None => (e, us, s)
           end
  end.

(** [underscoreOK]: underscores separate digits, or a base prefix and digits.
    The state is the kind of the previous byte. *)
Inductive seen : Type := SeenStart | SeenDigit | SeenUnderscore | SeenOther.
Fixpoint underscore_loop (hex : bool) (i : seen) (s : list ascii) : bool :=
  match s with
  | [] => match i with SeenUnderscore => false | _ => true end
  | c :: s =>
      match digit (if hex then 16 else 10) c with
      | Some _ => underscore_loop hex SeenDigit s
      | None =>
          if bool_decide (c = underscore)
          then match i with SeenDigit => underscore_loop hex SeenUnderscore s | _ => false end
          else match i with SeenUnderscore => false | _ => underscore_loop hex SeenOther s end
      end
  end.
Definition strip_sign (s : list ascii) : list ascii :=
  match s with ("+" | "-")%char :: s => s | _ => s end.
Definition underscoreOK (s : list ascii) : bool :=
  match strip_sign s with
  | "0"%char :: ("x" | "X")%char :: s => underscore_loop true SeenDigit s
  | "0"%char :: ("b" | "B" | "o" | "O")%char :: s => underscore_loop false SeenDigit s
  | s => underscore_loop false SeenStart s
  end.

(** The float64 nearest to [(-1)^neg * m * b^e], ties to even. *)
Definition nearest (neg : bool) (m b e : Z) : f64.float64 :=
  match m with
  | Zpos p =>
      if 0 <=? e then binary_normalize 53 1024 (if neg then - (m * b ^ e) else m * b ^ e) 0 neg
      else match b ^ (- e) with
           | Zpos q =>
               let '(mz, ez, lz) := SFdiv_core_binary 53 1024 (Zpos p) 0 (Zpos q) 0 in
               binary_round_aux 53 1024 neg mz ez lz
           | _ => S754_nan
           end
  | _ => S754_zero neg
  end.

Definition sign_of (s : list ascii) : bool := match s with "-"%char :: _ => true | _ => false end.
(** [inf], [infinity] and [nan], without regard to case. *)
Definition special (s : list ascii) : option f64.float64 :=
  let word := gostrings.ToLower (String.string_of_list_ascii (strip_sign s)) in
  if seqb word "inf" || seqb word "infinity" then Some (S754_infinity (sign_of s))
  else if seqb (gostrings.ToLower (String.string_of_list_ascii s)) "nan" then Some S754_nan
  else None.

(** The exponent part, which a hexadecimal mantissa requires. *)
Definition exponent (hex us : bool) (s : list ascii) : option (Z * bool) :=
  let number neg s :=
    match s with
    | c :: _ => match digit 10 c with
                | None => None
                | Some _ => let '(e, us, rest) := read_exponent 0 us s in
                            match rest with [] => Some (if (neg : bool) then - e else e, us) | _ => None end
                end
    | [] => None
    end in
  match s with
  | [] => if hex then None else Some (0, us)
  | c :: s =>
      if bool_decide (gostrings.lower_ascii c = if hex then "p"%char else "e"%char)
      then number (sign_of s) (strip_sign s) else None
  end.

(** [ParseFloat(s, 64)]; [None] is a syntax error or a value out of range. *)
Definition parse (s : string) : option f64.float64 :=
  let s := String.list_ascii_of_string s in
  match special s with
  | Some f => Some f
  | None =>
      let '(hex, digits) := match strip_sign s with
                            | "0"%char :: ("x" | "X")%char :: s => (true, s)
                            | s => (false, s)
                            end in
      let '(m, rest) := read_mantissa (if hex then 16 else 10) (mkmantissa 0 false 0 false false) digits in
      if negb (sawdigits m) then None
      else '(e, us) ← exponent hex (underscores m) rest;
           if us && negb (underscoreOK s) then None
           else
             let f := if (hex : bool) then nearest (sign_of s) (mant m) 2 (e - 4 * fraction m)
                      else nearest (sign_of s) (mant m) 10 (e - fraction m) in
             match f with S754_infinity _ => None | _ => Some f end
  end.

Example parse_99 : parse "99.00" = Some (f64.of_Z 99) /\ parse "+9.9e1" = Some (f64.of_Z 99) /\
  parse "0x63p0" = Some (f64.of_Z 99) /\ parse "9_9" = Some (f64.of_Z 99).
Proof. by_compute. Qed.
Example parse_tenth : parse "0.1" = Some (S754_finite false 7205759403792794 (-56)) /\
  parse "-1e-400" = Some (S754_zero true) /\ parse "4.9e-324" = Some (S754_finite false 1 (-1074)).
Proof. by_compute. Qed.
Example parse_rejects : parse "" = None /\ parse "1e400" = None /\ parse "0x1" = None /\
  parse "1__0" = None /\ parse "1." = Some (f64.of_Z 1) /\ parse "." = None /\ parse "1e" = None.
Proof. by_compute. Qed.
End ParseFloat.

(** ** unicode/utf8 *)
Module utf8.
(** What the first byte of a character asks of the bytes that follow it: their
    ranges; none of a byte that starts no character. *)
Definition continuation (b : nat) : option (list (nat * nat)) :=
  let tail := (128, 191)%nat in
  if (b <=? 127)%nat then Some []
  else if (b <=? 193)%nat then None
  else if (b <=? 223)%nat then Some [tail]
  else if (b =? 224)%nat then Some [(160, 191)%nat; tail]
  else if (b =? 237)%nat then Some [(128, 159)%nat; tail]
  else if (b <=? 239)%nat then Some [tail; tail]
  else if (b =? 240)%nat then Some [(144, 191)%nat; tail; tail]
  else if (b <=? 243)%nat then Some [tail; tail; tail]
  else if (b =? 244)%nat then Some [(128, 143)%nat; tail; tail]
  else None.
Fixpoint valid_from (expected : list (nat * nat)) (s : string) : bool :=
  match s, expected with
  | EmptyString, [] => true
  | EmptyString, _ => false
  | String a s, [] => match continuation (nat_of_ascii a) with Some expected => valid_from expected s | None => false end
  | String a s, (lo, hi) :: expected =>
      ((lo <=? nat_of_ascii a) && (nat_of_ascii a <=? hi))%nat && valid_from expected s
  end.
(** [utf8.ValidString] *)
Definition ValidString (s : string) : bool := valid_from [] s.

Definition ascii_char (a : ascii) : bool := (nat_of_ascii a <=? 127)%nat.
Lemma ascii_valid s : gostrings.all_chars ascii_char s = true -> ValidString s = true.
Proof.
  unfold ValidString. induction s as [|a s IH]; [done|]. cbn [gostrings.all_chars valid_from]. unfold ascii_char at 1, continuation.
  by intros [-> Hs]%andb_prop; apply IH.
Qed.
Lemma digit_ascii a : strconv.is_digit a = true -> ascii_char a = true.
Proof.
  unfold strconv.is_digit, ascii_char. cbv zeta. intros [_ H]%andb_prop. apply Nat.leb_le in H. apply Nat.leb_le. lia.
Qed.
Lemma FormatUint_ascii n : gostrings.all_chars ascii_char (strconv.FormatUint n) = true.
Proof. apply (gostrings.digits_chars _ _ digit_ascii). apply strconv.FormatUint_digits. Qed.
Lemma concat_ascii l : Forall (fun s => gostrings.all_chars ascii_char s = true) l ->
  gostrings.all_chars ascii_char (String.concat " " l) = true.
Proof.
  induction 1 as [|s [|s' l] Hs _ IH]; [done|done|].
  change (gostrings.all_chars ascii_char (s ++ (" " ++ String.concat " " (s' :: l))) = true)%string.
  rewrite !gostrings.all_chars_app, Hs. cbn [gostrings.all_chars andb]. exact IH.
Qed.
Lemma brackets_ascii l : Forall (fun s => gostrings.all_chars ascii_char s = true) l ->
  gostrings.all_chars ascii_char (fmt.brackets l) = true.
Proof.
  intros Hl. unfold fmt.brackets. rewrite !gostrings.all_chars_app, (concat_ascii l Hl). done.
Qed.
(** An ASCII letter, a two-byte one, an overlong form, half of a surrogate pair,
    and a character that is cut off. *)
Example validity : ValidString "a" = true /\ ValidString (String "195" (String "164" "")) = true /\
  ValidString (String "192" (String "128" "")) = false /\
  ValidString (String "237" (String "160" (String "128" ""))) = false /\ ValidString (String "228" "") = false.
Proof. by_compute. Qed.
End utf8.
