(* ===== verification/GoIO.v ===== *)
(** * Buffered reading and writing

    What the program uses of bufio: the Scanner that takes a text apart into
    lines, with its limit for the length of a line, and the Writer, whose first
    error stays. *)

From stdpp Require Import prelude strings list.
From Stdlib Require Import ZArith Lia Ascii.
From S2P Require Import Prelude GoStd.

Module bufio.

(** ** Texts *)
Fixpoint take_bytes (n : nat) (s : string) : string :=
  match n, s with S n, String a s => String a (take_bytes n s) | _, _ => EmptyString end.
Fixpoint drop_bytes (n : nat) (s : string) : string :=
  match n, s with O, _ => s | S n, String _ s => drop_bytes n s | _, EmptyString => EmptyString end.
Lemma append_assoc (s t u : string) : (s ++ (t ++ u))%string = ((s ++ t) ++ u)%string.
Proof. induction s as [|a s IH]; [done|]. by rewrite !gostrings.append_cons, IH. Qed.
Lemma take_drop_bytes n : forall s, (take_bytes n s ++ drop_bytes n s)%string = s.
Proof. induction n as [|n IH]; intros [|a s]; try done. cbn [take_bytes drop_bytes]. by rewrite gostrings.append_cons, IH. Qed.
Lemma length_append s t : String.length (s ++ t) = (String.length s + String.length t)%nat.
Proof. induction s as [|a s IH]; [done|]. rewrite gostrings.append_cons. cbn. by rewrite IH. Qed.
Lemma length_take_bytes n : forall s, String.length (take_bytes n s) = Nat.min n (String.length s).
Proof. induction n as [|n IH]; intros [|a s]; try done. cbn. by rewrite IH. Qed.
Lemma take_bytes_app s : forall n t, (String.length s <= n)%nat -> take_bytes n (s ++ t) = (s ++ take_bytes (n - String.length s) t)%string.
Proof.
  induction s as [|a s IH]; intros n t Hn; [by rewrite Nat.sub_0_r|]. destruct n as [|n]; [cbn in Hn; lia|].
  rewrite !gostrings.append_cons. cbn in *. by rewrite IH by lia.
Qed.
Lemma take_bytes_all n : forall s, (String.length s <= n)%nat -> take_bytes n s = s.
Proof. induction n as [|n IH]; intros [|a s] Hn; cbn in *; try done; [lia|]. by rewrite IH by lia. Qed.

(** ** Scanner with ScanLines *)
Definition newline : ascii := "010"%char.
Definition carriage_return : ascii := "013"%char.
Definition MaxScanTokenSize : Z := 64 * 1024.
Definition too_long (l : string) : bool := MaxScanTokenSize <=? Z.of_nat (String.length l).

(** One trailing carriage return is dropped. *)
Fixpoint dropCR (s : string) : string :=
  match s with
  | EmptyString => EmptyString
  | String a EmptyString => if decide (a = carriage_return) then EmptyString else s
  | String a s => String a (dropCR s)
  end.
(** The pieces of a text; after the last newline there is one only if it is not empty. *)
Fixpoint pieces (s : string) : list string :=
  match s with
  | EmptyString => []
  | String a s =>
      if decide (a = newline) then EmptyString :: pieces s
      else match pieces s with [] => [String a EmptyString] | l :: ls => String a l :: ls end
  end.
(** The tokens, and whether there was an error: a line that does not fit into the
    buffer is one, which stays. *)
Fixpoint scan (ls : list string) : list string * bool :=
  match ls with
  | [] => ([], false)
  | l :: ls => if too_long l then ([], true) else (dropCR l :: (scan ls).1, (scan ls).2)
  end.

(** ** Writer

    What it has passed on, what it holds, and whether there was an error: then it
    neither takes nor passes on anything any more. *)
Record Writer := mkWriter { written : string; buffered : string; err : bool }.
Definition NewWriter : Writer := mkWriter EmptyString EmptyString false.
Section Writer.
(** How many bytes the file below takes in all ([None]: any number) before a write
    fails, and the size of the buffer. *)
Context (room : option nat) (size : nat).

Definition pass (text p : string) : Writer :=
  let all := (text ++ p)%string in
  match room with
  | Some n => if (n <? String.length all)%nat then mkWriter (take_bytes n all) EmptyString true else mkWriter all EmptyString false
  | None => mkWriter all EmptyString false
  end.
Definition Flush (w : Writer) : Writer := if err w || is_empty (buffered w) then w else pass (written w) (buffered w).
Definition Write (p : string) (w : Writer) : Writer :=
  let available := (size - String.length (buffered w))%nat in
  if err w then w
  else if (String.length p <=? available)%nat then mkWriter (written w) (buffered w ++ p) false
  else if is_empty (buffered w) then pass (written w) p
  else let w := pass (written w) (buffered w ++ take_bytes available p) in
       let p := drop_bytes available p in
       if err w then w
       else if (String.length p <=? size)%nat then mkWriter (written w) p false
       else pass (written w) p.
(** [fmt.Fprintln] of one text is one write. *)
Definition Fprintln (l : string) : Writer -> Writer := Write (l ++ String newline EmptyString).
End Writer.
(** The size of [NewWriter]. *)
Definition defaultBufSize : nat := Z.to_nat 4096.

Section Writer_theorems.
Context (room : option nat) (size : nat).
Definition fits (s : string) : bool := match room with Some n => (String.length s <=? n)%nat | None => true end.
(** A write below that fails leaves the file with a part of the text. *)
Lemma pass_spec text p : fits text = true ->
  if fits (text ++ p) then pass room text p = mkWriter (text ++ p) EmptyString false
  else exists p1 p2, p = (p1 ++ p2)%string /\ p2 <> EmptyString /\ pass room text p = mkWriter (text ++ p1) EmptyString true.
Proof.
  unfold fits, pass. destruct room as [n|]; [|done]. rewrite length_append. intros Hf%Nat.leb_le.
  destruct (Nat.leb_spec (String.length text + String.length p) n) as [Hl|Hl]; destruct (Nat.ltb_spec n (String.length text + String.length p));
    try lia; [done|]. exists (take_bytes (n - String.length text) p), (drop_bytes (n - String.length text) p).
  rewrite take_drop_bytes, take_bytes_app by lia. split_and!; [done| |done]. intros E.
  pose proof (length_append (take_bytes (n - String.length text) p) (drop_bytes (n - String.length text) p)) as Hx.
  rewrite take_drop_bytes, E, length_take_bytes in Hx. cbn in Hx. lia.
Qed.
(** A line that is flushed at once is passed on. *)
Lemma Fprintln_Flush text l :
  let w := Fprintln room size l (mkWriter text EmptyString false) in
  Flush room w = pass room text (l ++ String newline EmptyString) /\
  (err w = true -> w = pass room text (l ++ String newline EmptyString)).
Proof.
  unfold Fprintln, Write. cbn [err buffered written].
  assert (is_empty (l ++ String newline EmptyString) = false) as Hne by (by destruct l).
  destruct (_ <=? _)%nat; cbn zeta; [unfold Flush; cbn [err buffered written orb]|cbn [is_empty]; split; [|done]].
  - change (EmptyString ++ (l ++ String newline EmptyString))%string with (l ++ String newline EmptyString)%string. by rewrite Hne.
  - unfold Flush, pass. destruct room as [n|]; [|done]. by destruct (_ <? _)%nat.
Qed.
(** After an error nothing is written. *)
Lemma Fprintln_err l w : err w = true -> Fprintln room size l w = w.
Proof. unfold Fprintln, Write. by intros ->. Qed.
End Writer_theorems.

(** ** Lines written are lines read *)
Definition lines (ls : list string) : string :=
  foldr (fun l text => (l ++ String newline text)%string) EmptyString ls.
Definition no_newline (l : string) : Prop := gostrings.all_chars (fun a => bool_decide (a <> newline)) l = true.
(** A text that is read as the line it was written as. *)
Definition one_line (l : string) : Prop := l <> EmptyString /\ no_newline l /\ dropCR l = l /\ too_long l = false.

Lemma pieces_line l text : no_newline l -> pieces (l ++ String newline text) = l :: pieces text.
Proof.
  unfold no_newline. induction l as [|a l IH]; [done|]. rewrite gostrings.append_cons. cbn [gostrings.all_chars pieces].
  intros [Ha Hl]%andb_prop. apply bool_decide_eq_true in Ha. by rewrite decide_False, IH by done.
Qed.
Lemma pieces_rest l : no_newline l -> pieces l = if is_empty l then [] else [l].
Proof.
  unfold no_newline. induction l as [|a l IH]; [done|]. cbn [gostrings.all_chars pieces is_empty].
  intros [Ha Hl]%andb_prop. apply bool_decide_eq_true in Ha. rewrite decide_False, IH by done. by destruct l.
Qed.
Lemma lines_app ls ks : lines (ls ++ ks) = (lines ls ++ lines ks)%string.
Proof.
  induction ls as [|l ls IH]; [done|]. cbn [app lines foldr].
  change (foldr _ EmptyString (ls ++ ks)) with (lines (ls ++ ks)). rewrite IH.
  by rewrite <- append_assoc, gostrings.append_cons.
Qed.
Lemma lines_snoc ls l : lines (ls ++ [l]) = (lines ls ++ (l ++ String newline EmptyString))%string.
Proof. apply lines_app. Qed.
Lemma pieces_lines ls text : Forall no_newline ls -> pieces (lines ls ++ text) = ls ++ pieces text.
Proof.
  induction 1 as [|l ls Hl _ IH]; [done|]. cbn [lines foldr].
  change (foldr _ EmptyString ls) with (lines ls). rewrite <- append_assoc, gostrings.append_cons, pieces_line by done. by rewrite IH.
Qed.
Lemma scan_app ls ks : Forall (fun l => dropCR l = l /\ too_long l = false) ls -> scan (ls ++ ks) = (ls ++ (scan ks).1, (scan ks).2).
Proof.
  induction 1 as [|l ls [Hc Hl] _ IH]; [cbn [app]; by destruct (scan ks)|]. cbn [app scan]. by rewrite Hl, Hc, IH.
Qed.
Lemma one_line_readable ls : Forall one_line ls -> Forall no_newline ls /\ Forall (fun l => dropCR l = l /\ too_long l = false) ls.
Proof. intros H. split; (eapply Forall_impl; [exact H|]); unfold one_line; tauto. Qed.
(** A text that is cut off within a line. *)
Lemma scan_lines_rest ls rest : Forall one_line ls -> no_newline rest -> too_long rest = false ->
  scan (pieces (lines ls ++ rest)) = (ls ++ (if is_empty rest then [] else [dropCR rest]), false).
Proof.
  intros [Hn Hl]%one_line_readable Hr Ht. rewrite pieces_lines, pieces_rest, scan_app by done.
  destruct (is_empty rest); [done|]. cbn. by rewrite Ht.
Qed.
Lemma scan_lines ls : Forall one_line ls -> scan (pieces (lines ls)) = (ls, false).
Proof.
  intros H. pose proof (scan_lines_rest ls EmptyString H eq_refl eq_refl) as E.
  by rewrite gostrings.string_app_nil_r, app_nil_r in E.
Qed.
(** A line that is too long is where the reading ends. *)
Lemma scan_too_long pre l post : Forall one_line pre -> no_newline l -> too_long l = true ->
  scan (pieces (lines (pre ++ l :: post))) = (pre, true).
Proof.
  intros [Hn Hl]%one_line_readable Hnl Ht. rewrite lines_app, pieces_lines, scan_app by done. cbn [lines foldr].
  rewrite pieces_line by done. cbn [scan fst snd]. by rewrite Ht, app_nil_r.
Qed.
End bufio.
