(* ===== verification/EnrichedFlow.v ===== *)
(** * The flow message ([pb/enrichedflow.pb.go], [pb/enrichedflow.go])

    [EnrichedFlow] is the generated Go struct, field by field, without the
    three unexported fields of the protobuf runtime ([state],
    [unknownFields], [sizeCache]); [Type] is spelt [Type_].  Integer and enum
    fields are [Z]; a [[]byte] is a [slice Z] because the program tells nil
    and empty apart; other lists are plain lists.  [set_F] is the assignment
    [flow.F = v]. *)

From stdpp Require Import prelude strings list.
From Stdlib Require Import ZArith Lia.
From S2P Require Import Prelude GoStd.

(** ** Enums: open int32 types with their name and value tables. *)
Definition EnrichedFlow_FLOWUNKNOWN : Z := 0.
Definition EnrichedFlow_SFLOW_5 : Z := 1.
Definition EnrichedFlow_NETFLOW_V5 : Z := 2.
Definition EnrichedFlow_NETFLOW_V9 : Z := 3.
Definition EnrichedFlow_IPFIX : Z := 4.
Definition EnrichedFlow_EBPF : Z := 5.
Definition EnrichedFlow_Ethernet : Z := 0.
Definition EnrichedFlow_IPv4 : Z := 1.
Definition EnrichedFlow_IPv6 : Z := 2.
Definition EnrichedFlow_TCP : Z := 3.
Definition EnrichedFlow_UDP : Z := 4.
Definition EnrichedFlow_MPLS : Z := 5.
Definition EnrichedFlow_Dot1Q : Z := 6.
Definition EnrichedFlow_ICMP : Z := 7.
Definition EnrichedFlow_ICMPv6 : Z := 8.
Definition EnrichedFlow_GRE : Z := 9.
Definition EnrichedFlow_IPv6HeaderRouting : Z := 10.
Definition EnrichedFlow_IPv6HeaderFragment : Z := 11.
Definition EnrichedFlow_Geneve : Z := 12.
Definition EnrichedFlow_Teredo : Z := 13.
Definition EnrichedFlow_Custom : Z := 99.
Definition EnrichedFlow_NotAnonymized : Z := 0.
Definition EnrichedFlow_CryptoPAN : Z := 1.
Definition EnrichedFlow_Subnet : Z := 2.
Definition EnrichedFlow_SubnetAndCryptoPAN : Z := 3.
Definition EnrichedFlow_Unknown : Z := 0.
Definition EnrichedFlow_Valid : Z := 1.
Definition EnrichedFlow_NotFound : Z := 2.
Definition EnrichedFlow_Invalid : Z := 3.
Definition EnrichedFlow_No : Z := 0.
Definition EnrichedFlow_Yes : Z := 1.
Definition EnrichedFlow_Neither : Z := 0.
Definition EnrichedFlow_Src : Z := 1.
Definition EnrichedFlow_Dst : Z := 2.

Definition EnrichedFlow_FlowType_name : list (Z * string) :=
  [(0, "FLOWUNKNOWN"); (1, "SFLOW_5"); (2, "NETFLOW_V5"); (3, "NETFLOW_V9"); (4, "IPFIX");
   (5, "EBPF")]%string.
Definition EnrichedFlow_FlowType_value : list (string * Z) :=
  [("FLOWUNKNOWN", 0); ("SFLOW_5", 1); ("NETFLOW_V5", 2); ("NETFLOW_V9", 3); ("IPFIX", 4);
   ("EBPF", 5)]%string.

Definition EnrichedFlow_LayerStack_name : list (Z * string) :=
  [(0, "Ethernet"); (1, "IPv4"); (2, "IPv6"); (3, "TCP"); (4, "UDP"); (5, "MPLS"); (6, "Dot1Q");
   (7, "ICMP"); (8, "ICMPv6"); (9, "GRE"); (10, "IPv6HeaderRouting"); (11, "IPv6HeaderFragment");
   (12, "Geneve"); (13, "Teredo"); (99, "Custom")]%string.
Definition EnrichedFlow_LayerStack_value : list (string * Z) :=
  [("Ethernet", 0); ("IPv4", 1); ("IPv6", 2); ("TCP", 3); ("UDP", 4); ("MPLS", 5); ("Dot1Q", 6);
   ("ICMP", 7); ("ICMPv6", 8); ("GRE", 9); ("IPv6HeaderRouting", 10); ("IPv6HeaderFragment", 11);
   ("Geneve", 12); ("Teredo", 13); ("Custom", 99)]%string.

Definition EnrichedFlow_AnonymizedType_name : list (Z * string) :=
  [(0, "NotAnonymized"); (1, "CryptoPAN"); (2, "Subnet"); (3, "SubnetAndCryptoPAN")]%string.
Definition EnrichedFlow_AnonymizedType_value : list (string * Z) :=
  [("NotAnonymized", 0); ("CryptoPAN", 1); ("Subnet", 2); ("SubnetAndCryptoPAN", 3)]%string.

Definition EnrichedFlow_ValidationStatusType_name : list (Z * string) :=
  [(0, "Unknown"); (1, "Valid"); (2, "NotFound"); (3, "Invalid")]%string.
Definition EnrichedFlow_ValidationStatusType_value : list (string * Z) :=
  [("Unknown", 0); ("Valid", 1); ("NotFound", 2); ("Invalid", 3)]%string.

Definition EnrichedFlow_NormalizedType_name : list (Z * string) :=
  [(0, "No"); (1, "Yes")]%string.
Definition EnrichedFlow_NormalizedType_value : list (string * Z) :=
  [("No", 0); ("Yes", 1)]%string.

Definition EnrichedFlow_RemoteAddrType_name : list (Z * string) :=
  [(0, "Neither"); (1, "Src"); (2, "Dst")]%string.
Definition EnrichedFlow_RemoteAddrType_value : list (string * Z) :=
  [("Neither", 0); ("Src", 1); ("Dst", 2)]%string.

Record EnrichedFlow : Type := mkEnrichedFlow {
  Type_ : Z; TimeReceived : Z; TimeReceivedNs : Z; SequenceNum : Z; SamplingRate : Z;
  FlowDirection : Z; TimeFlowStartNs : Z; TimeFlowEndNs : Z; SamplerAddress : slice Z;
  TimeFlowEnd : Z; TimeFlowStartMs : Z; TimeFlowEndMs : Z; Bytes : Z; Packets : Z;
  SrcAddr : slice Z; DstAddr : slice Z; Etype : Z; Proto : Z; SrcPort : Z; DstPort : Z; InIf : Z;
  OutIf : Z; SrcMac : Z; DstMac : Z; SrcVlan : Z; DstVlan : Z; VlanId : Z; IngressVrfId : Z;
  EgressVrfId : Z; IpTos : Z; ForwardingStatus : Z; IpTtl : Z; IpFlags : Z; TcpFlags : Z;
  IcmpType : Z; IcmpCode : Z; Ipv6FlowLabel : Z; FragmentId : Z; FragmentOffset : Z;
  BiFlowDirection : Z; SrcAs : Z; DstAs : Z; NextHop : slice Z; NextHopAs : Z; SrcNet : Z;
  DstNet : Z; BgpNextHop : slice Z; BgpCommunities : list Z; AsPath : list Z; MplsTtl : list Z;
  MplsLabel : list Z; MplsIp : list (list Z); HasMpls : bool; MplsCount : Z; Mpls_1Ttl : Z;
  Mpls_1Label : Z; Mpls_2Ttl : Z; Mpls_2Label : Z; Mpls_3Ttl : Z; Mpls_3Label : Z;
  MplsLastTtl : Z; MplsLastLabel : Z; MplsLabelIp : slice Z; ObservationDomainId : Z;
  ObservationPointId : Z; SrcCountry : string; DstCountry : string; LayerStack : list Z;
  LayerSize : list Z; Ipv6RoutingHeaderAddresses : list (list Z); Ipv6RoutingHeaderSegLeft : Z;
  PacketBytesMin : Z; PacketBytesMax : Z; PacketBytesMean : Z; PacketBytesStdDev : Z;
  PacketIATMin : Z; PacketIATMax : Z; PacketIATMean : Z; PacketIATStdDev : Z; HeaderBytes : Z;
  FINFlagCount : Z; SYNFlagCount : Z; RSTFlagCount : Z; PSHFlagCount : Z; ACKFlagCount : Z;
  URGFlagCount : Z; CWRFlagCount : Z; ECEFlagCount : Z; PayloadPackets : Z; TimeActiveMin : Z;
  TimeActiveMax : Z; TimeActiveMean : Z; TimeActiveStdDev : Z; TimeIdleMin : Z; TimeIdleMax : Z;
  TimeIdleMean : Z; TimeIdleStdDev : Z; Cid : Z; CidString : string; SrcCid : Z; DstCid : Z;
  NetId : Z; NetIdString : string; SrcId : Z; SrcIdString : string; DstId : Z;
  DstIdString : string; SrcAddrAnon : Z; DstAddrAnon : Z; SrcAddrPreservedLen : Z;
  DstAddrPreservedLen : Z; SamplerAddrAnon : Z; SamplerAddrPreservedPrefixLen : Z;
  NextHopAnon : Z; NextHopAnonPreservedPrefixLen : Z; Med : Z; LocalPref : Z;
  ValidationStatus : Z; RemoteCountry : string; SrcCountryBW : string; DstCountryBW : string;
  Normalized : Z; ProtoName : string; RemoteAddr : Z; SrcHostName : string; DstHostName : string;
  NextHopHostName : string; SrcASName : string; DstASName : string; NextHopASName : string;
  SamplerHostName : string; SrcIfName : string; SrcIfDesc : string; SrcIfSpeed : Z;
  DstIfName : string; DstIfDesc : string; DstIfSpeed : Z; Note : string; SourceIP : string;
  DestinationIP : string; NextHopIP : string; SamplerIP : string; SourceMAC : string;
  DestinationMAC : string; IngressVrfIDBW : Z; EgressVrfIDBW : Z; TimeFlowStart : Z;
  SrcAsPath : list Z; DstAsPath : list Z
}.

(** [new(EnrichedFlow)], i.e. [&pb.EnrichedFlow{}]: every field is zero. *)
Definition emptyFlow : EnrichedFlow := {|
  Type_ := 0; TimeReceived := 0; TimeReceivedNs := 0; SequenceNum := 0; SamplingRate := 0;
   FlowDirection := 0; TimeFlowStartNs := 0; TimeFlowEndNs := 0; SamplerAddress := None;
   TimeFlowEnd := 0; TimeFlowStartMs := 0; TimeFlowEndMs := 0; Bytes := 0; Packets := 0;
   SrcAddr := None; DstAddr := None; Etype := 0; Proto := 0; SrcPort := 0; DstPort := 0;
   InIf := 0; OutIf := 0; SrcMac := 0; DstMac := 0; SrcVlan := 0; DstVlan := 0; VlanId := 0;
   IngressVrfId := 0; EgressVrfId := 0; IpTos := 0; ForwardingStatus := 0; IpTtl := 0;
   IpFlags := 0; TcpFlags := 0; IcmpType := 0; IcmpCode := 0; Ipv6FlowLabel := 0;
   FragmentId := 0; FragmentOffset := 0; BiFlowDirection := 0; SrcAs := 0; DstAs := 0;
   NextHop := None; NextHopAs := 0; SrcNet := 0; DstNet := 0; BgpNextHop := None;
   BgpCommunities := []; AsPath := []; MplsTtl := []; MplsLabel := []; MplsIp := [];
   HasMpls := false; MplsCount := 0; Mpls_1Ttl := 0; Mpls_1Label := 0; Mpls_2Ttl := 0;
   Mpls_2Label := 0; Mpls_3Ttl := 0; Mpls_3Label := 0; MplsLastTtl := 0; MplsLastLabel := 0;
   MplsLabelIp := None; ObservationDomainId := 0; ObservationPointId := 0; SrcCountry := EmptyString;
   DstCountry := EmptyString; LayerStack := []; LayerSize := []; Ipv6RoutingHeaderAddresses := [];
   Ipv6RoutingHeaderSegLeft := 0; PacketBytesMin := 0; PacketBytesMax := 0; PacketBytesMean := 0;
   PacketBytesStdDev := 0; PacketIATMin := 0; PacketIATMax := 0; PacketIATMean := 0;
   PacketIATStdDev := 0; HeaderBytes := 0; FINFlagCount := 0; SYNFlagCount := 0;
   RSTFlagCount := 0; PSHFlagCount := 0; ACKFlagCount := 0; URGFlagCount := 0; CWRFlagCount := 0;
   ECEFlagCount := 0; PayloadPackets := 0; TimeActiveMin := 0; TimeActiveMax := 0;
   TimeActiveMean := 0; TimeActiveStdDev := 0; TimeIdleMin := 0; TimeIdleMax := 0;
   TimeIdleMean := 0; TimeIdleStdDev := 0; Cid := 0; CidString := EmptyString; SrcCid := 0; DstCid := 0;
   NetId := 0; NetIdString := EmptyString; SrcId := 0; SrcIdString := EmptyString; DstId := 0; DstIdString := EmptyString;
   SrcAddrAnon := 0; DstAddrAnon := 0; SrcAddrPreservedLen := 0; DstAddrPreservedLen := 0;
   SamplerAddrAnon := 0; SamplerAddrPreservedPrefixLen := 0; NextHopAnon := 0;
   NextHopAnonPreservedPrefixLen := 0; Med := 0; LocalPref := 0; ValidationStatus := 0;
   RemoteCountry := EmptyString; SrcCountryBW := EmptyString; DstCountryBW := EmptyString; Normalized := 0; ProtoName := EmptyString;
   RemoteAddr := 0; SrcHostName := EmptyString; DstHostName := EmptyString; NextHopHostName := EmptyString; SrcASName := EmptyString;
   DstASName := EmptyString; NextHopASName := EmptyString; SamplerHostName := EmptyString; SrcIfName := EmptyString; SrcIfDesc := EmptyString;
   SrcIfSpeed := 0; DstIfName := EmptyString; DstIfDesc := EmptyString; DstIfSpeed := 0; Note := EmptyString;
   SourceIP := EmptyString; DestinationIP := EmptyString; NextHopIP := EmptyString; SamplerIP := EmptyString; SourceMAC := EmptyString;
   DestinationMAC := EmptyString; IngressVrfIDBW := 0; EgressVrfIDBW := 0; TimeFlowStart := 0;
   SrcAsPath := []; DstAsPath := []
|}.

(** ** Assignments to one field *)
Ltac upd_field r proj v :=
  let t := constr:(mkEnrichedFlow
      (Type_ r) (TimeReceived r) (TimeReceivedNs r) (SequenceNum r) (SamplingRate r)
      (FlowDirection r) (TimeFlowStartNs r) (TimeFlowEndNs r) (SamplerAddress r) (TimeFlowEnd r)
      (TimeFlowStartMs r) (TimeFlowEndMs r) (Bytes r) (Packets r) (SrcAddr r) (DstAddr r)
      (Etype r) (Proto r) (SrcPort r) (DstPort r) (InIf r) (OutIf r) (SrcMac r) (DstMac r)
      (SrcVlan r) (DstVlan r) (VlanId r) (IngressVrfId r) (EgressVrfId r) (IpTos r)
      (ForwardingStatus r) (IpTtl r) (IpFlags r) (TcpFlags r) (IcmpType r) (IcmpCode r)
      (Ipv6FlowLabel r) (FragmentId r) (FragmentOffset r) (BiFlowDirection r) (SrcAs r) (DstAs r)
      (NextHop r) (NextHopAs r) (SrcNet r) (DstNet r) (BgpNextHop r) (BgpCommunities r) (AsPath r)
      (MplsTtl r) (MplsLabel r) (MplsIp r) (HasMpls r) (MplsCount r) (Mpls_1Ttl r) (Mpls_1Label r)
      (Mpls_2Ttl r) (Mpls_2Label r) (Mpls_3Ttl r) (Mpls_3Label r) (MplsLastTtl r)
      (MplsLastLabel r) (MplsLabelIp r) (ObservationDomainId r) (ObservationPointId r)
      (SrcCountry r) (DstCountry r) (LayerStack r) (LayerSize r) (Ipv6RoutingHeaderAddresses r)
      (Ipv6RoutingHeaderSegLeft r) (PacketBytesMin r) (PacketBytesMax r) (PacketBytesMean r)
      (PacketBytesStdDev r) (PacketIATMin r) (PacketIATMax r) (PacketIATMean r)
      (PacketIATStdDev r) (HeaderBytes r) (FINFlagCount r) (SYNFlagCount r) (RSTFlagCount r)
      (PSHFlagCount r) (ACKFlagCount r) (URGFlagCount r) (CWRFlagCount r) (ECEFlagCount r)
      (PayloadPackets r) (TimeActiveMin r) (TimeActiveMax r) (TimeActiveMean r)
      (TimeActiveStdDev r) (TimeIdleMin r) (TimeIdleMax r) (TimeIdleMean r) (TimeIdleStdDev r)
      (Cid r) (CidString r) (SrcCid r) (DstCid r) (NetId r) (NetIdString r) (SrcId r)
      (SrcIdString r) (DstId r) (DstIdString r) (SrcAddrAnon r) (DstAddrAnon r)
      (SrcAddrPreservedLen r) (DstAddrPreservedLen r) (SamplerAddrAnon r)
      (SamplerAddrPreservedPrefixLen r) (NextHopAnon r) (NextHopAnonPreservedPrefixLen r) (Med r)
      (LocalPref r) (ValidationStatus r) (RemoteCountry r) (SrcCountryBW r) (DstCountryBW r)
      (Normalized r) (ProtoName r) (RemoteAddr r) (SrcHostName r) (DstHostName r)
      (NextHopHostName r) (SrcASName r) (DstASName r) (NextHopASName r) (SamplerHostName r)
      (SrcIfName r) (SrcIfDesc r) (SrcIfSpeed r) (DstIfName r) (DstIfDesc r) (DstIfSpeed r)
      (Note r) (SourceIP r) (DestinationIP r) (NextHopIP r) (SamplerIP r) (SourceMAC r)
      (DestinationMAC r) (IngressVrfIDBW r) (EgressVrfIDBW r) (TimeFlowStart r) (SrcAsPath r)
      (DstAsPath r)) in
  let p := eval pattern (proj r) in t in
  lazymatch p with ?f _ => let b := eval cbv beta in (f v) in exact b end.

Definition set_Type (v : Z) (r : EnrichedFlow) : EnrichedFlow := ltac:(upd_field r Type_ v).
Definition set_TimeReceived (v : Z) (r : EnrichedFlow) : EnrichedFlow := ltac:(upd_field r TimeReceived v).
Definition set_TimeReceivedNs (v : Z) (r : EnrichedFlow) : EnrichedFlow := ltac:(upd_field r TimeReceivedNs v).
Definition set_SequenceNum (v : Z) (r : EnrichedFlow) : EnrichedFlow := ltac:(upd_field r SequenceNum v).
Definition set_SamplingRate (v : Z) (r : EnrichedFlow) : EnrichedFlow := ltac:(upd_field r SamplingRate v).
Definition set_FlowDirection (v : Z) (r : EnrichedFlow) : EnrichedFlow := ltac:(upd_field r FlowDirection v).
Definition set_TimeFlowStartNs (v : Z) (r : EnrichedFlow) : EnrichedFlow := ltac:(upd_field r TimeFlowStartNs v).
Definition set_TimeFlowEndNs (v : Z) (r : EnrichedFlow) : EnrichedFlow := ltac:(upd_field r TimeFlowEndNs v).
Definition set_SamplerAddress (v : slice Z) (r : EnrichedFlow) : EnrichedFlow := ltac:(upd_field r SamplerAddress v).
Definition set_TimeFlowEnd (v : Z) (r : EnrichedFlow) : EnrichedFlow := ltac:(upd_field r TimeFlowEnd v).
Definition set_TimeFlowStartMs (v : Z) (r : EnrichedFlow) : EnrichedFlow := ltac:(upd_field r TimeFlowStartMs v).
Definition set_TimeFlowEndMs (v : Z) (r : EnrichedFlow) : EnrichedFlow := ltac:(upd_field r TimeFlowEndMs v).
Definition set_Bytes (v : Z) (r : EnrichedFlow) : EnrichedFlow := ltac:(upd_field r Bytes v).
Definition set_Packets (v : Z) (r : EnrichedFlow) : EnrichedFlow := ltac:(upd_field r Packets v).
Definition set_SrcAddr (v : slice Z) (r : EnrichedFlow) : EnrichedFlow := ltac:(upd_field r SrcAddr v).
Definition set_DstAddr (v : slice Z) (r : EnrichedFlow) : EnrichedFlow := ltac:(upd_field r DstAddr v).
Definition set_Etype (v : Z) (r : EnrichedFlow) : EnrichedFlow := ltac:(upd_field r Etype v).
Definition set_Proto (v : Z) (r : EnrichedFlow) : EnrichedFlow := ltac:(upd_field r Proto v).
Definition set_SrcPort (v : Z) (r : EnrichedFlow) : EnrichedFlow := ltac:(upd_field r SrcPort v).
Definition set_DstPort (v : Z) (r : EnrichedFlow) : EnrichedFlow := ltac:(upd_field r DstPort v).
Definition set_InIf (v : Z) (r : EnrichedFlow) : EnrichedFlow := ltac:(upd_field r InIf v).
Definition set_OutIf (v : Z) (r : EnrichedFlow) : EnrichedFlow := ltac:(upd_field r OutIf v).
Definition set_SrcMac (v : Z) (r : EnrichedFlow) : EnrichedFlow := ltac:(upd_field r SrcMac v).
Definition set_DstMac (v : Z) (r : EnrichedFlow) : EnrichedFlow := ltac:(upd_field r DstMac v).
Definition set_SrcVlan (v : Z) (r : EnrichedFlow) : EnrichedFlow := ltac:(upd_field r SrcVlan v).
Definition set_DstVlan (v : Z) (r : EnrichedFlow) : EnrichedFlow := ltac:(upd_field r DstVlan v).
Definition set_VlanId (v : Z) (r : EnrichedFlow) : EnrichedFlow := ltac:(upd_field r VlanId v).
Definition set_IngressVrfId (v : Z) (r : EnrichedFlow) : EnrichedFlow := ltac:(upd_field r IngressVrfId v).
Definition set_EgressVrfId (v : Z) (r : EnrichedFlow) : EnrichedFlow := ltac:(upd_field r EgressVrfId v).
Definition set_IpTos (v : Z) (r : EnrichedFlow) : EnrichedFlow := ltac:(upd_field r IpTos v).
Definition set_ForwardingStatus (v : Z) (r : EnrichedFlow) : EnrichedFlow := ltac:(upd_field r ForwardingStatus v).
Definition set_IpTtl (v : Z) (r : EnrichedFlow) : EnrichedFlow := ltac:(upd_field r IpTtl v).
Definition set_IpFlags (v : Z) (r : EnrichedFlow) : EnrichedFlow := ltac:(upd_field r IpFlags v).
Definition set_TcpFlags (v : Z) (r : EnrichedFlow) : EnrichedFlow := ltac:(upd_field r TcpFlags v).
Definition set_IcmpType (v : Z) (r : EnrichedFlow) : EnrichedFlow := ltac:(upd_field r IcmpType v).
Definition set_IcmpCode (v : Z) (r : EnrichedFlow) : EnrichedFlow := ltac:(upd_field r IcmpCode v).
Definition set_Ipv6FlowLabel (v : Z) (r : EnrichedFlow) : EnrichedFlow := ltac:(upd_field r Ipv6FlowLabel v).
Definition set_FragmentId (v : Z) (r : EnrichedFlow) : EnrichedFlow := ltac:(upd_field r FragmentId v).
Definition set_FragmentOffset (v : Z) (r : EnrichedFlow) : EnrichedFlow := ltac:(upd_field r FragmentOffset v).
Definition set_BiFlowDirection (v : Z) (r : EnrichedFlow) : EnrichedFlow := ltac:(upd_field r BiFlowDirection v).
Definition set_SrcAs (v : Z) (r : EnrichedFlow) : EnrichedFlow := ltac:(upd_field r SrcAs v).
Definition set_DstAs (v : Z) (r : EnrichedFlow) : EnrichedFlow := ltac:(upd_field r DstAs v).
Definition set_NextHop (v : slice Z) (r : EnrichedFlow) : EnrichedFlow := ltac:(upd_field r NextHop v).
Definition set_NextHopAs (v : Z) (r : EnrichedFlow) : EnrichedFlow := ltac:(upd_field r NextHopAs v).
Definition set_SrcNet (v : Z) (r : EnrichedFlow) : EnrichedFlow := ltac:(upd_field r SrcNet v).
Definition set_DstNet (v : Z) (r : EnrichedFlow) : EnrichedFlow := ltac:(upd_field r DstNet v).
Definition set_BgpNextHop (v : slice Z) (r : EnrichedFlow) : EnrichedFlow := ltac:(upd_field r BgpNextHop v).
Definition set_BgpCommunities (v : list Z) (r : EnrichedFlow) : EnrichedFlow := ltac:(upd_field r BgpCommunities v).
Definition set_AsPath (v : list Z) (r : EnrichedFlow) : EnrichedFlow := ltac:(upd_field r AsPath v).
Definition set_MplsTtl (v : list Z) (r : EnrichedFlow) : EnrichedFlow := ltac:(upd_field r MplsTtl v).
Definition set_MplsLabel (v : list Z) (r : EnrichedFlow) : EnrichedFlow := ltac:(upd_field r MplsLabel v).
Definition set_MplsIp (v : list (list Z)) (r : EnrichedFlow) : EnrichedFlow := ltac:(upd_field r MplsIp v).
Definition set_HasMpls (v : bool) (r : EnrichedFlow) : EnrichedFlow := ltac:(upd_field r HasMpls v).
Definition set_MplsCount (v : Z) (r : EnrichedFlow) : EnrichedFlow := ltac:(upd_field r MplsCount v).
Definition set_Mpls_1Ttl (v : Z) (r : EnrichedFlow) : EnrichedFlow := ltac:(upd_field r Mpls_1Ttl v).
Definition set_Mpls_1Label (v : Z) (r : EnrichedFlow) : EnrichedFlow := ltac:(upd_field r Mpls_1Label v).
Definition set_Mpls_2Ttl (v : Z) (r : EnrichedFlow) : EnrichedFlow := ltac:(upd_field r Mpls_2Ttl v).
Definition set_Mpls_2Label (v : Z) (r : EnrichedFlow) : EnrichedFlow := ltac:(upd_field r Mpls_2Label v).
Definition set_Mpls_3Ttl (v : Z) (r : EnrichedFlow) : EnrichedFlow := ltac:(upd_field r Mpls_3Ttl v).
Definition set_Mpls_3Label (v : Z) (r : EnrichedFlow) : EnrichedFlow := ltac:(upd_field r Mpls_3Label v).
Definition set_MplsLastTtl (v : Z) (r : EnrichedFlow) : EnrichedFlow := ltac:(upd_field r MplsLastTtl v).
Definition set_MplsLastLabel (v : Z) (r : EnrichedFlow) : EnrichedFlow := ltac:(upd_field r MplsLastLabel v).
Definition set_MplsLabelIp (v : slice Z) (r : EnrichedFlow) : EnrichedFlow := ltac:(upd_field r MplsLabelIp v).
Definition set_ObservationDomainId (v : Z) (r : EnrichedFlow) : EnrichedFlow := ltac:(upd_field r ObservationDomainId v).
Definition set_ObservationPointId (v : Z) (r : EnrichedFlow) : EnrichedFlow := ltac:(upd_field r ObservationPointId v).
Definition set_SrcCountry (v : string) (r : EnrichedFlow) : EnrichedFlow := ltac:(upd_field r SrcCountry v).
Definition set_DstCountry (v : string) (r : EnrichedFlow) : EnrichedFlow := ltac:(upd_field r DstCountry v).
Definition set_LayerStack (v : list Z) (r : EnrichedFlow) : EnrichedFlow := ltac:(upd_field r LayerStack v).
Definition set_LayerSize (v : list Z) (r : EnrichedFlow) : EnrichedFlow := ltac:(upd_field r LayerSize v).
Definition set_Ipv6RoutingHeaderAddresses (v : list (list Z)) (r : EnrichedFlow) : EnrichedFlow := ltac:(upd_field r Ipv6RoutingHeaderAddresses v).
Definition set_Ipv6RoutingHeaderSegLeft (v : Z) (r : EnrichedFlow) : EnrichedFlow := ltac:(upd_field r Ipv6RoutingHeaderSegLeft v).
Definition set_PacketBytesMin (v : Z) (r : EnrichedFlow) : EnrichedFlow := ltac:(upd_field r PacketBytesMin v).
Definition set_PacketBytesMax (v : Z) (r : EnrichedFlow) : EnrichedFlow := ltac:(upd_field r PacketBytesMax v).
Definition set_PacketBytesMean (v : Z) (r : EnrichedFlow) : EnrichedFlow := ltac:(upd_field r PacketBytesMean v).
Definition set_PacketBytesStdDev (v : Z) (r : EnrichedFlow) : EnrichedFlow := ltac:(upd_field r PacketBytesStdDev v).
Definition set_PacketIATMin (v : Z) (r : EnrichedFlow) : EnrichedFlow := ltac:(upd_field r PacketIATMin v).
Definition set_PacketIATMax (v : Z) (r : EnrichedFlow) : EnrichedFlow := ltac:(upd_field r PacketIATMax v).
Definition set_PacketIATMean (v : Z) (r : EnrichedFlow) : EnrichedFlow := ltac:(upd_field r PacketIATMean v).
Definition set_PacketIATStdDev (v : Z) (r : EnrichedFlow) : EnrichedFlow := ltac:(upd_field r PacketIATStdDev v).
Definition set_HeaderBytes (v : Z) (r : EnrichedFlow) : EnrichedFlow := ltac:(upd_field r HeaderBytes v).
Definition set_FINFlagCount (v : Z) (r : EnrichedFlow) : EnrichedFlow := ltac:(upd_field r FINFlagCount v).
Definition set_SYNFlagCount (v : Z) (r : EnrichedFlow) : EnrichedFlow := ltac:(upd_field r SYNFlagCount v).
Definition set_RSTFlagCount (v : Z) (r : EnrichedFlow) : EnrichedFlow := ltac:(upd_field r RSTFlagCount v).
Definition set_PSHFlagCount (v : Z) (r : EnrichedFlow) : EnrichedFlow := ltac:(upd_field r PSHFlagCount v).
Definition set_ACKFlagCount (v : Z) (r : EnrichedFlow) : EnrichedFlow := ltac:(upd_field r ACKFlagCount v).
Definition set_URGFlagCount (v : Z) (r : EnrichedFlow) : EnrichedFlow := ltac:(upd_field r URGFlagCount v).
Definition set_CWRFlagCount (v : Z) (r : EnrichedFlow) : EnrichedFlow := ltac:(upd_field r CWRFlagCount v).
Definition set_ECEFlagCount (v : Z) (r : EnrichedFlow) : EnrichedFlow := ltac:(upd_field r ECEFlagCount v).
Definition set_PayloadPackets (v : Z) (r : EnrichedFlow) : EnrichedFlow := ltac:(upd_field r PayloadPackets v).
Definition set_TimeActiveMin (v : Z) (r : EnrichedFlow) : EnrichedFlow := ltac:(upd_field r TimeActiveMin v).
Definition set_TimeActiveMax (v : Z) (r : EnrichedFlow) : EnrichedFlow := ltac:(upd_field r TimeActiveMax v).
Definition set_TimeActiveMean (v : Z) (r : EnrichedFlow) : EnrichedFlow := ltac:(upd_field r TimeActiveMean v).
Definition set_TimeActiveStdDev (v : Z) (r : EnrichedFlow) : EnrichedFlow := ltac:(upd_field r TimeActiveStdDev v).
Definition set_TimeIdleMin (v : Z) (r : EnrichedFlow) : EnrichedFlow := ltac:(upd_field r TimeIdleMin v).
Definition set_TimeIdleMax (v : Z) (r : EnrichedFlow) : EnrichedFlow := ltac:(upd_field r TimeIdleMax v).
Definition set_TimeIdleMean (v : Z) (r : EnrichedFlow) : EnrichedFlow := ltac:(upd_field r TimeIdleMean v).
Definition set_TimeIdleStdDev (v : Z) (r : EnrichedFlow) : EnrichedFlow := ltac:(upd_field r TimeIdleStdDev v).
Definition set_Cid (v : Z) (r : EnrichedFlow) : EnrichedFlow := ltac:(upd_field r Cid v).
Definition set_CidString (v : string) (r : EnrichedFlow) : EnrichedFlow := ltac:(upd_field r CidString v).
Definition set_SrcCid (v : Z) (r : EnrichedFlow) : EnrichedFlow := ltac:(upd_field r SrcCid v).
Definition set_DstCid (v : Z) (r : EnrichedFlow) : EnrichedFlow := ltac:(upd_field r DstCid v).
Definition set_NetId (v : Z) (r : EnrichedFlow) : EnrichedFlow := ltac:(upd_field r NetId v).
Definition set_NetIdString (v : string) (r : EnrichedFlow) : EnrichedFlow := ltac:(upd_field r NetIdString v).
Definition set_SrcId (v : Z) (r : EnrichedFlow) : EnrichedFlow := ltac:(upd_field r SrcId v).
Definition set_SrcIdString (v : string) (r : EnrichedFlow) : EnrichedFlow := ltac:(upd_field r SrcIdString v).
Definition set_DstId (v : Z) (r : EnrichedFlow) : EnrichedFlow := ltac:(upd_field r DstId v).
Definition set_DstIdString (v : string) (r : EnrichedFlow) : EnrichedFlow := ltac:(upd_field r DstIdString v).
Definition set_SrcAddrAnon (v : Z) (r : EnrichedFlow) : EnrichedFlow := ltac:(upd_field r SrcAddrAnon v).
Definition set_DstAddrAnon (v : Z) (r : EnrichedFlow) : EnrichedFlow := ltac:(upd_field r DstAddrAnon v).
Definition set_SrcAddrPreservedLen (v : Z) (r : EnrichedFlow) : EnrichedFlow := ltac:(upd_field r SrcAddrPreservedLen v).
Definition set_DstAddrPreservedLen (v : Z) (r : EnrichedFlow) : EnrichedFlow := ltac:(upd_field r DstAddrPreservedLen v).
Definition set_SamplerAddrAnon (v : Z) (r : EnrichedFlow) : EnrichedFlow := ltac:(upd_field r SamplerAddrAnon v).
Definition set_SamplerAddrPreservedPrefixLen (v : Z) (r : EnrichedFlow) : EnrichedFlow := ltac:(upd_field r SamplerAddrPreservedPrefixLen v).
Definition set_NextHopAnon (v : Z) (r : EnrichedFlow) : EnrichedFlow := ltac:(upd_field r NextHopAnon v).
Definition set_NextHopAnonPreservedPrefixLen (v : Z) (r : EnrichedFlow) : EnrichedFlow := ltac:(upd_field r NextHopAnonPreservedPrefixLen v).
Definition set_Med (v : Z) (r : EnrichedFlow) : EnrichedFlow := ltac:(upd_field r Med v).
Definition set_LocalPref (v : Z) (r : EnrichedFlow) : EnrichedFlow := ltac:(upd_field r LocalPref v).
Definition set_ValidationStatus (v : Z) (r : EnrichedFlow) : EnrichedFlow := ltac:(upd_field r ValidationStatus v).
Definition set_RemoteCountry (v : string) (r : EnrichedFlow) : EnrichedFlow := ltac:(upd_field r RemoteCountry v).
Definition set_SrcCountryBW (v : string) (r : EnrichedFlow) : EnrichedFlow := ltac:(upd_field r SrcCountryBW v).
Definition set_DstCountryBW (v : string) (r : EnrichedFlow) : EnrichedFlow := ltac:(upd_field r DstCountryBW v).
Definition set_Normalized (v : Z) (r : EnrichedFlow) : EnrichedFlow := ltac:(upd_field r Normalized v).
Definition set_ProtoName (v : string) (r : EnrichedFlow) : EnrichedFlow := ltac:(upd_field r ProtoName v).
Definition set_RemoteAddr (v : Z) (r : EnrichedFlow) : EnrichedFlow := ltac:(upd_field r RemoteAddr v).
Definition set_SrcHostName (v : string) (r : EnrichedFlow) : EnrichedFlow := ltac:(upd_field r SrcHostName v).
Definition set_DstHostName (v : string) (r : EnrichedFlow) : EnrichedFlow := ltac:(upd_field r DstHostName v).
Definition set_NextHopHostName (v : string) (r : EnrichedFlow) : EnrichedFlow := ltac:(upd_field r NextHopHostName v).
Definition set_SrcASName (v : string) (r : EnrichedFlow) : EnrichedFlow := ltac:(upd_field r SrcASName v).
Definition set_DstASName (v : string) (r : EnrichedFlow) : EnrichedFlow := ltac:(upd_field r DstASName v).
Definition set_NextHopASName (v : string) (r : EnrichedFlow) : EnrichedFlow := ltac:(upd_field r NextHopASName v).
Definition set_SamplerHostName (v : string) (r : EnrichedFlow) : EnrichedFlow := ltac:(upd_field r SamplerHostName v).
Definition set_SrcIfName (v : string) (r : EnrichedFlow) : EnrichedFlow := ltac:(upd_field r SrcIfName v).
Definition set_SrcIfDesc (v : string) (r : EnrichedFlow) : EnrichedFlow := ltac:(upd_field r SrcIfDesc v).
Definition set_SrcIfSpeed (v : Z) (r : EnrichedFlow) : EnrichedFlow := ltac:(upd_field r SrcIfSpeed v).
Definition set_DstIfName (v : string) (r : EnrichedFlow) : EnrichedFlow := ltac:(upd_field r DstIfName v).
Definition set_DstIfDesc (v : string) (r : EnrichedFlow) : EnrichedFlow := ltac:(upd_field r DstIfDesc v).
Definition set_DstIfSpeed (v : Z) (r : EnrichedFlow) : EnrichedFlow := ltac:(upd_field r DstIfSpeed v).
Definition set_Note (v : string) (r : EnrichedFlow) : EnrichedFlow := ltac:(upd_field r Note v).
Definition set_SourceIP (v : string) (r : EnrichedFlow) : EnrichedFlow := ltac:(upd_field r SourceIP v).
Definition set_DestinationIP (v : string) (r : EnrichedFlow) : EnrichedFlow := ltac:(upd_field r DestinationIP v).
Definition set_NextHopIP (v : string) (r : EnrichedFlow) : EnrichedFlow := ltac:(upd_field r NextHopIP v).
Definition set_SamplerIP (v : string) (r : EnrichedFlow) : EnrichedFlow := ltac:(upd_field r SamplerIP v).
Definition set_SourceMAC (v : string) (r : EnrichedFlow) : EnrichedFlow := ltac:(upd_field r SourceMAC v).
Definition set_DestinationMAC (v : string) (r : EnrichedFlow) : EnrichedFlow := ltac:(upd_field r DestinationMAC v).
Definition set_IngressVrfIDBW (v : Z) (r : EnrichedFlow) : EnrichedFlow := ltac:(upd_field r IngressVrfIDBW v).
Definition set_EgressVrfIDBW (v : Z) (r : EnrichedFlow) : EnrichedFlow := ltac:(upd_field r EgressVrfIDBW v).
Definition set_TimeFlowStart (v : Z) (r : EnrichedFlow) : EnrichedFlow := ltac:(upd_field r TimeFlowStart v).
Definition set_SrcAsPath (v : list Z) (r : EnrichedFlow) : EnrichedFlow := ltac:(upd_field r SrcAsPath v).
Definition set_DstAsPath (v : list Z) (r : EnrichedFlow) : EnrichedFlow := ltac:(upd_field r DstAsPath v).
