(* ===== verification/FlowMethods.v ===== *)
(** * Methods of a flow ([pb/enrichedflow.go])

    The lookup tables, the predicates on direction, ethertype and forwarding
    status, MAC address printing and the two average rates. *)

From stdpp Require Import prelude strings list.
From Stdlib Require Import ZArith Lia Ascii.
From S2P Require Import Prelude GoStd EnrichedFlow.

Module pb.
(** [type MacSeparator int] *)
Inductive MacSeparator : Type := MACSeparatorColon | MACSeparatorDash.

Definition FlowDirectionMap : list (Z * string) := [(0, "Incoming"); (1, "Outgoing")]%string.

Definition EtypeMap : list (Z * string) :=
  [(0x0800, "IPv4"); (0x0806, "ARP"); (0x0842, "Wake-on-LAN"); (0x86DD, "IPv6");
   (0x8809, "Ethernet Slow Protocols (LACP)"); (0x8847, "MPLS unicast");
   (0x8848, "MPLS multicast"); (0x8863, "PPPoE Discovery Stage");
   (0x8864, "PPPoE Session Stage"); (0x889A, "HyperSCSI (SCSI over Ethernet)");
   (0x88A2, "ATA over Ethernet"); (0x88A4, "EtherCAT Protocol"); (0x88CC, "LLDP");
   (0x88E5, "MAC Security"); (0x8906, "Fibre Channel over Ethernet (FCoE)");
   (0x8914, "FCoE Initialization Protocol");
   (0x9000, "Ethernet Configuration Testing Protocol")]%string.

Definition ForwardingStatusMap : list (Z * string) :=
  [(0, "Unknown"); (64, "Forwarded (Unknown)"); (65, "Forwarded (Fragmented)");
   (66, "Forwarded (Not Fragmented)"); (128, "Dropped (Unknown)");
   (129, "Dropped (ACL Deny)"); (130, "Dropped (ACL Drop)"); (131, "Dropped (Unroutable)");
   (132, "Dropped (Adjacency)"); (133, "Dropped (Fragmented and DF set)");
   (134, "Dropped (Bad Header Checksum)"); (135, "Dropped (Bad Total Length)");
   (136, "Dropped (Bad Header Length)"); (137, "Dropped (Bad TTL)");
   (138, "Dropped (Policer)"); (139, "Dropped (WRED)"); (140, "Dropped (RPF)");
   (141, "Dropped (For Us)"); (142, "Dropped (Bad Output Interface)");
   (143, "Dropped (Hardware)"); (192, "Consumed (Unknown)");
   (193, "Consumed (Terminate Punt Adjacency)");
   (194, "Consumed (Terminate Incomplete Adjacency)");
   (195, "Consumed (Terminate For Us)")]%string.

(** Indexing a Go map with an absent key yields the zero value. *)
Definition map_get (k : Z) (m : list (Z * string)) : string := default ""%string (assoc k m).

Definition FlowDirectionString (flow : EnrichedFlow) : string :=
  map_get (FlowDirection flow) FlowDirectionMap.
Definition IsIncoming (flow : EnrichedFlow) : bool := FlowDirection flow =? 0.
Definition IsOutgoing (flow : EnrichedFlow) : bool := FlowDirection flow =? 1.
Definition Peer (flow : EnrichedFlow) : string :=
  if FlowDirection flow =? 0 then SrcIfDesc flow
  else if FlowDirection flow =? 1 then DstIfDesc flow
  else ""%string.

Definition EtypeString (flow : EnrichedFlow) : string := map_get (Etype flow) EtypeMap.
Definition IPVersion (flow : EnrichedFlow) : Z :=
  if Etype flow =? 0x0800 then 4 else if Etype flow =? 0x86dd then 6 else 0.
Definition IPVersionString (flow : EnrichedFlow) : string :=
  if (Etype flow =? 0x800) || (Etype flow =? 0x86dd)
  then map_get (Etype flow) EtypeMap else ""%string.
Definition IsIPv4 (flow : EnrichedFlow) : bool := Etype flow =? 0x0800.
Definition IsIPv6 (flow : EnrichedFlow) : bool := Etype flow =? 0x86dd.

Definition ForwardingStatusString (flow : EnrichedFlow) : string :=
  map_get (ForwardingStatus flow) ForwardingStatusMap.
Definition IsConsumed (flow : EnrichedFlow) : bool := 192 <=? ForwardingStatus flow.
Definition IsDropped (flow : EnrichedFlow) : bool :=
  (128 <=? ForwardingStatus flow) && (ForwardingStatus flow <? 192).
Definition IsForwarded (flow : EnrichedFlow) : bool :=
  (64 <=? ForwardingStatus flow) && (ForwardingStatus flow <? 128).
Definition IsUnknownForwardingStatus (flow : EnrichedFlow) : bool :=
  ForwardingStatus flow <? 64.

Definition SrcAddrObj (flow : EnrichedFlow) : net.IP := SrcAddr flow.
Definition DstAddrObj (flow : EnrichedFlow) : net.IP := DstAddr flow.
Definition NextHopObj (flow : EnrichedFlow) : net.IP := NextHop flow.
Definition SamplerAddressObj (flow : EnrichedFlow) : net.IP := SamplerAddress flow.

(** The six arguments of the format string, in printing order. *)
Definition mac_octets (mac : Z) : list Z :=
  [Z.land mac 0x0000000000FF;
   Z.shiftr (Z.land mac 0x00000000FF00) 8;
   Z.shiftr (Z.land mac 0x000000FF0000) 16;
   Z.shiftr (Z.land mac 0x0000FF000000) 24;
   Z.shiftr (Z.land mac 0x00FF00000000) 32;
   Z.shiftr (Z.land mac 0xFF0000000000) 40].

Definition mac_format (sep : string) (octets : list Z) : string :=
  String.concat sep (fmt.hex2 <$> octets).

Definition MacToString (mac : Z) (sep : MacSeparator) : string :=
  match sep with
  | MACSeparatorDash => mac_format "-" (mac_octets mac)
  | MACSeparatorColon => mac_format ":" (mac_octets mac)
  end.

Definition SrcMacString (flow : EnrichedFlow) (sep : MacSeparator) : string :=
  MacToString (SrcMac flow) sep.
Definition DstMacString (flow : EnrichedFlow) (sep : MacSeparator) : string :=
  MacToString (DstMac flow) sep.

(** [duration := flow.TimeFlowEnd - flow.TimeFlowStart; if duration == 0 ...]:
    shared by every rate computation of the program. *)
Definition duration (flow : EnrichedFlow) : Z :=
  let d := u64 (TimeFlowEnd flow - TimeFlowStart flow) in if d =? 0 then 1 else d.
Definition GetBps (flow : EnrichedFlow) : Z := Bytes flow / duration flow.
Definition GetPps (flow : EnrichedFlow) : Z := Packets flow / duration flow.

(** ** Facts *)
Lemma duration_range flow : 1 <= duration flow < 2 ^ 64.
Proof.
  unfold duration. pose proof (wrap_range 64 (TimeFlowEnd flow - TimeFlowStart flow)) as H.
  unfold in_u in H. case Z.eqb_spec; lia.
Qed.

Lemma duration_exact flow :
  in_u 64 (TimeFlowStart flow) -> in_u 64 (TimeFlowEnd flow) ->
  TimeFlowStart flow < TimeFlowEnd flow ->
  duration flow = TimeFlowEnd flow - TimeFlowStart flow.
Proof.
  unfold in_u, duration. intros. rewrite wrap_small by (unfold in_u; lia).
  case Z.eqb_spec; lia.
Qed.

Lemma octet_bits mac k : 0 <= k ->
  Z.shiftr (Z.land mac (Z.shiftl 255 k)) k = mac / 2 ^ k mod 256.
Proof.
  intros. rewrite Z.shiftr_land, Z.shiftr_shiftl_l, Z.sub_diag by lia.
  change (Z.shiftl 255 0) with (Z.ones 8).
  rewrite Z.land_ones, Z.shiftr_div_pow2 by lia. done.
Qed.

Lemma mac_octets_eq mac :
  mac_octets mac =
  [mac mod 256; mac / 2 ^ 8 mod 256; mac / 2 ^ 16 mod 256;
   mac / 2 ^ 24 mod 256; mac / 2 ^ 32 mod 256; mac / 2 ^ 40 mod 256].
Proof.
  unfold mac_octets.
  repeat f_equal.
  - change 0xFF with (Z.ones 8). by rewrite Z.land_ones by lia.
  - by apply (octet_bits mac 8).
  - by apply (octet_bits mac 16).
  - by apply (octet_bits mac 24).
  - by apply (octet_bits mac 32).
  - by apply (octet_bits mac 40).
Qed.

Lemma hex_digit_inj x y :
  0 <= x < 16 -> 0 <= y < 16 -> fmt.hex_digit x = fmt.hex_digit y -> x = y.
Proof.
  intros Hx Hy.
  assert (forall n, 0 <= n < 16 ->
    nat_of_ascii (fmt.hex_digit n) = Z.to_nat (if n <? 10 then n + 48 else n + 87)) as E.
  { intros n Hn. unfold fmt.hex_digit. apply nat_ascii_embedding. case Z.ltb_spec; lia. }
  intros H. apply (f_equal nat_of_ascii) in H. rewrite !E in H by done.
  revert H. do 2 case Z.ltb_spec; lia.
Qed.

Lemma hex2_inj x y :
  0 <= x < 256 -> 0 <= y < 256 -> fmt.hex2 x = fmt.hex2 y -> x = y.
Proof.
  intros Hx Hy [=H1 H2].
  apply hex_digit_inj in H1; [|split; [apply Z.div_pos; lia | apply Z.div_lt_upper_bound; lia]..].
  apply hex_digit_inj in H2; [|apply Z.mod_pos_bound; lia..].
  rewrite (Z.div_mod x 16), (Z.div_mod y 16) by lia. congruence.
Qed.

(** Printing six octets is injective whatever the separator. *)
Lemma mac_format_inj sep a1 a2 a3 a4 a5 a6 b1 b2 b3 b4 b5 b6 :
  Forall (fun x => 0 <= x < 256) [a1; a2; a3; a4; a5; a6] ->
  Forall (fun x => 0 <= x < 256) [b1; b2; b3; b4; b5; b6] ->
  mac_format (String sep "") [a1; a2; a3; a4; a5; a6] =
  mac_format (String sep "") [b1; b2; b3; b4; b5; b6] ->
  [a1; a2; a3; a4; a5; a6] = [b1; b2; b3; b4; b5; b6].
Proof.
  rewrite !Forall_cons. intros (?&?&?&?&?&?&_) (?&?&?&?&?&?&_).
  unfold mac_format, fmt.hex2; simpl. intros [=].
  repeat match goal with |- _ :: _ = _ :: _ => f_equal end; try done;
    (apply hex2_inj; [done|done|unfold fmt.hex2; congruence]).
Qed.

(** Every forwarding status is classified exactly once, and the class
    agrees with the decoded status of [ForwardingStatusMap]: a status is
    printed as unknown, forwarded, dropped or consumed exactly when the
    predicate of that name holds. *)
Theorem forwarding_status_partition (flow : EnrichedFlow) :
  Z.b2z (IsUnknownForwardingStatus flow) + Z.b2z (IsForwarded flow) +
  Z.b2z (IsDropped flow) + Z.b2z (IsConsumed flow) = 1 /\
  (ForwardingStatusString flow <> "" ->
   IsUnknownForwardingStatus flow = gostrings.HasPrefix (ForwardingStatusString flow) "Unknown" /\
   IsForwarded flow = gostrings.HasPrefix (ForwardingStatusString flow) "Forwarded" /\
   IsDropped flow = gostrings.HasPrefix (ForwardingStatusString flow) "Dropped" /\
   IsConsumed flow = gostrings.HasPrefix (ForwardingStatusString flow) "Consumed")%string.
Proof.
  unfold IsUnknownForwardingStatus, IsForwarded, IsDropped, IsConsumed, ForwardingStatusString, map_get.
  generalize (ForwardingStatus flow) as st. intros st. split.
  - destruct (Z.ltb_spec st 64), (Z.leb_spec 64 st), (Z.ltb_spec st 128), (Z.leb_spec 128 st),
      (Z.ltb_spec st 192), (Z.leb_spec 192 st); simpl; lia.
  - destruct (assoc st ForwardingStatusMap) as [name|] eqn:E; [intros _ | done].
    apply assoc_Some_in in E. unfold ForwardingStatusMap in E.
    repeat (apply elem_of_cons in E as [[= -> ->] | E]; [by_compute|]).
    by apply elem_of_nil in E.
Qed.

(** A printed MAC address determines the 48-bit address: two addresses
    with the same text, in either format, agree modulo 2^48. *)
Theorem MacToString_inj (m1 m2 : Z) (sep : MacSeparator) :
  MacToString m1 sep = MacToString m2 sep -> m1 mod 2 ^ 48 = m2 mod 2 ^ 48.
Proof.
  assert (forall m, m mod 2 ^ 48 =
    m mod 256 + 2 ^ 8 * (m / 2 ^ 8 mod 256) + 2 ^ 16 * (m / 2 ^ 16 mod 256) +
    2 ^ 24 * (m / 2 ^ 24 mod 256) + 2 ^ 32 * (m / 2 ^ 32 mod 256) +
    2 ^ 40 * (m / 2 ^ 40 mod 256)) as recompose.
  { intros m. Z.div_mod_to_equations. lia. }
  assert (forall m, Forall (fun x => 0 <= x < 256) (mac_octets m)) as range.
  { intros m. rewrite mac_octets_eq. repeat constructor; apply Z.mod_pos_bound; lia. }
  intros H. pose proof (range m1) as R1. pose proof (range m2) as R2.
  rewrite mac_octets_eq in R1, R2.
  destruct sep; simpl in H; rewrite !mac_octets_eq in H;
    apply mac_format_inj in H; try done; rewrite !recompose; congruence.
Qed.

Lemma MacToString_inj_witness :
  MacToString 0x112233445566 MACSeparatorDash = MacToString (0x112233445566 + 2 ^ 48) MACSeparatorDash /\
  0x112233445566 mod 2 ^ 48 = (0x112233445566 + 2 ^ 48) mod 2 ^ 48.
Proof. split; [reflexivity | apply (MacToString_inj _ _ MACSeparatorDash); reflexivity]. Defined.
End pb.
