(* ===== verification/Legacy.v ===== *)
(** * The legacy flow format ([pb/legacyenrichedflow.pb.go], [pb/legacyconverter.go])

    The legacy message, the two converters between it and [EnrichedFlow], and
    the filling-in of missing timestamps both converters perform.  The two
    protobuf runtime fields the converters also copy ([sizeCache],
    [unknownFields]) are not part of the model. *)

From stdpp Require Import prelude strings list.
From Stdlib Require Import ZArith Lia SpecFloat.
From S2P Require Import Prelude GoStd EnrichedFlow.

Module LegacyEnrichedFlow.
Record t : Type := mk {
  Type_ : Z; TimeReceived : Z; SequenceNum : Z; SamplingRate : Z; FlowDirection : Z;
  SamplerAddress : slice Z; TimeFlowStart : Z; TimeFlowEnd : Z; Bytes : Z; Packets : Z;
  SrcAddr : slice Z; DstAddr : slice Z; Etype : Z; Proto : Z; SrcPort : Z; DstPort : Z; InIf : Z;
  OutIf : Z; SrcMac : Z; DstMac : Z; SrcVlan : Z; DstVlan : Z; VlanId : Z; IngressVrfID : Z;
  EgressVrfID : Z; IPTos : Z; ForwardingStatus : Z; IPTTL : Z; TCPFlags : Z; IcmpType : Z;
  IcmpCode : Z; IPv6FlowLabel : Z; FragmentId : Z; FragmentOffset : Z; BiFlowDirection : Z;
  SrcAS : Z; DstAS : Z; NextHop : slice Z; NextHopAS : Z; SrcNet : Z; DstNet : Z; HasMPLS : bool;
  MPLSCount : Z; MPLS1TTL : Z; MPLS1Label : Z; MPLS2TTL : Z; MPLS2Label : Z; MPLS3TTL : Z;
  MPLS3Label : Z; MPLSLastTTL : Z; MPLSLastLabel : Z; PacketBytesMin : Z; PacketBytesMax : Z;
  PacketBytesMean : Z; PacketBytesStdDev : Z; PacketIATMin : Z; PacketIATMax : Z;
  PacketIATMean : Z; PacketIATStdDev : Z; HeaderBytes : Z; FINFlagCount : Z; SYNFlagCount : Z;
  RSTFlagCount : Z; PSHFlagCount : Z; ACKFlagCount : Z; URGFlagCount : Z; CWRFlagCount : Z;
  ECEFlagCount : Z; PayloadPackets : Z; TimeActiveMin : Z; TimeActiveMax : Z; TimeActiveMean : Z;
  TimeActiveStdDev : Z; TimeIdleMin : Z; TimeIdleMax : Z; TimeIdleMean : Z; TimeIdleStdDev : Z;
  Cid : Z; CidString : string; SrcCid : Z; DstCid : Z; NetId : Z; NetIdString : string; SrcId : Z;
  SrcIdString : string; DstId : Z; DstIdString : string; SrcAddrAnon : Z; DstAddrAnon : Z;
  SrcAddrPreservedLen : Z; DstAddrPreservedLen : Z; SamplerAddrAnon : Z;
  SamplerAddrPreservedPrefixLen : Z; ASPath : list Z; Med : Z; LocalPref : Z;
  ValidationStatus : Z; RemoteCountry : string; SrcCountry : string; DstCountry : string;
  Normalized : Z; ProtoName : string; RemoteAddr : Z; SrcHostName : string; DstHostName : string;
  NextHopHostName : string; SrcASName : string; DstASName : string; NextHopASName : string;
  SamplerHostName : string; SrcIfName : string; SrcIfDesc : string; SrcIfSpeed : Z;
  DstIfName : string; DstIfDesc : string; DstIfSpeed : Z; Note : string; SourceIP : string;
  DestinationIP : string; NextHopIP : string; SamplerIP : string; SourceMAC : string;
  DestinationMAC : string
}.
End LegacyEnrichedFlow.

(** ** Timestamps *)
Section timestamps.
Context {P : f64.Platform}.

(** [fillTimeIfEmpty(&time1, &time2, factor12)]: the new [*time1]. *)
Definition fillTimeIfEmpty (time1 time2 : Z) (factor12 : f64.float64) : Z :=
  if negb (time1 =? 0) then time1
  else if negb (time2 =? 0) then f64.u64_of_round (f64.mul (f64.of_Z time2) factor12)
  else time1.

Definition fillTimeIfEmptyWithFallback
    (time1 time2 : Z) (factor12 : f64.float64) (time3 : Z) (factor13 : f64.float64) : Z :=
  let time1 := fillTimeIfEmpty time1 time2 factor12 in
  fillTimeIfEmpty time1 time3 factor13.

(** The assignments of the method, in its order. *)
Definition SyncMissingTimeStamps (flow : EnrichedFlow) : EnrichedFlow :=
  let flow := set_TimeFlowEnd (fillTimeIfEmptyWithFallback (TimeFlowEnd flow)
      (TimeFlowEndNs flow) (f64.pow10_inv 9) (TimeFlowEndMs flow) (f64.pow10_inv 3)) flow in
  let flow := set_TimeFlowEndMs (fillTimeIfEmptyWithFallback (TimeFlowEndMs flow)
      (TimeFlowEndNs flow) (f64.pow10_inv 6) (TimeFlowEnd flow) (f64.of_Z 1000)) flow in
  let flow := set_TimeFlowEndNs (fillTimeIfEmptyWithFallback (TimeFlowEndNs flow)
      (TimeFlowEndMs flow) (f64.of_Z 1000000) (TimeFlowEnd flow) (f64.of_Z 1000000000)) flow in
  let flow := set_TimeFlowStart (fillTimeIfEmptyWithFallback (TimeFlowStart flow)
      (TimeFlowStartNs flow) (f64.pow10_inv 9) (TimeFlowStartMs flow) (f64.pow10_inv 3)) flow in
  let flow := set_TimeFlowStartMs (fillTimeIfEmptyWithFallback (TimeFlowStartMs flow)
      (TimeFlowStartNs flow) (f64.pow10_inv 6) (TimeFlowStart flow) (f64.of_Z 1000)) flow in
  let flow := set_TimeFlowStartNs (fillTimeIfEmptyWithFallback (TimeFlowStartNs flow)
      (TimeFlowStartMs flow) (f64.of_Z 1000000) (TimeFlowStart flow) (f64.of_Z 1000000000)) flow in
  let flow := set_TimeReceived (fillTimeIfEmpty (TimeReceived flow)
      (TimeReceivedNs flow) (f64.pow10_inv 9)) flow in
  set_TimeReceivedNs (fillTimeIfEmpty (TimeReceivedNs flow)
      (TimeReceived flow) (f64.of_Z 1000000000)) flow.
End timestamps.

(** ** The converters *)
Section converters.
Context {P : f64.Platform}.

Definition legacy_fields (legacy : LegacyEnrichedFlow.t) : EnrichedFlow := {|
Type_ := LegacyEnrichedFlow.Type_ legacy;
 TimeReceived := LegacyEnrichedFlow.TimeReceived legacy; TimeReceivedNs := 0;
 SequenceNum := LegacyEnrichedFlow.SequenceNum legacy;
 SamplingRate := LegacyEnrichedFlow.SamplingRate legacy;
 FlowDirection := LegacyEnrichedFlow.FlowDirection legacy; TimeFlowStartNs := 0;
 TimeFlowEndNs := 0; SamplerAddress := LegacyEnrichedFlow.SamplerAddress legacy;
 TimeFlowEnd := LegacyEnrichedFlow.TimeFlowEnd legacy; TimeFlowStartMs := 0;
 TimeFlowEndMs := 0; Bytes := LegacyEnrichedFlow.Bytes legacy;
 Packets := LegacyEnrichedFlow.Packets legacy; SrcAddr := LegacyEnrichedFlow.SrcAddr legacy;
 DstAddr := LegacyEnrichedFlow.DstAddr legacy; Etype := LegacyEnrichedFlow.Etype legacy;
 Proto := LegacyEnrichedFlow.Proto legacy; SrcPort := LegacyEnrichedFlow.SrcPort legacy;
 DstPort := LegacyEnrichedFlow.DstPort legacy; InIf := LegacyEnrichedFlow.InIf legacy;
 OutIf := LegacyEnrichedFlow.OutIf legacy; SrcMac := LegacyEnrichedFlow.SrcMac legacy;
 DstMac := LegacyEnrichedFlow.DstMac legacy; SrcVlan := LegacyEnrichedFlow.SrcVlan legacy;
 DstVlan := LegacyEnrichedFlow.DstVlan legacy; VlanId := LegacyEnrichedFlow.VlanId legacy;
 IngressVrfId := LegacyEnrichedFlow.IngressVrfID legacy;
 EgressVrfId := LegacyEnrichedFlow.EgressVrfID legacy;
 IpTos := LegacyEnrichedFlow.IPTos legacy;
 ForwardingStatus := LegacyEnrichedFlow.ForwardingStatus legacy;
 IpTtl := LegacyEnrichedFlow.IPTTL legacy; IpFlags := 0;
 TcpFlags := LegacyEnrichedFlow.TCPFlags legacy;
 IcmpType := LegacyEnrichedFlow.IcmpType legacy;
 IcmpCode := LegacyEnrichedFlow.IcmpCode legacy;
 Ipv6FlowLabel := LegacyEnrichedFlow.IPv6FlowLabel legacy;
 FragmentId := LegacyEnrichedFlow.FragmentId legacy;
 FragmentOffset := LegacyEnrichedFlow.FragmentOffset legacy;
 BiFlowDirection := LegacyEnrichedFlow.BiFlowDirection legacy;
 SrcAs := LegacyEnrichedFlow.SrcAS legacy; DstAs := LegacyEnrichedFlow.DstAS legacy;
 NextHop := LegacyEnrichedFlow.NextHop legacy;
 NextHopAs := LegacyEnrichedFlow.NextHopAS legacy; SrcNet := LegacyEnrichedFlow.SrcNet legacy;
 DstNet := LegacyEnrichedFlow.DstNet legacy; BgpNextHop := None; BgpCommunities := [];
 AsPath := LegacyEnrichedFlow.ASPath legacy; MplsTtl := []; MplsLabel := []; MplsIp := [];
 HasMpls := LegacyEnrichedFlow.HasMPLS legacy;
 MplsCount := LegacyEnrichedFlow.MPLSCount legacy;
 Mpls_1Ttl := LegacyEnrichedFlow.MPLS1TTL legacy;
 Mpls_1Label := LegacyEnrichedFlow.MPLS1Label legacy;
 Mpls_2Ttl := LegacyEnrichedFlow.MPLS2TTL legacy;
 Mpls_2Label := LegacyEnrichedFlow.MPLS2Label legacy;
 Mpls_3Ttl := LegacyEnrichedFlow.MPLS3TTL legacy;
 Mpls_3Label := LegacyEnrichedFlow.MPLS3Label legacy;
 MplsLastTtl := LegacyEnrichedFlow.MPLSLastTTL legacy;
 MplsLastLabel := LegacyEnrichedFlow.MPLSLastLabel legacy; MplsLabelIp := None;
 ObservationDomainId := 0; ObservationPointId := 0;
 SrcCountry := LegacyEnrichedFlow.SrcCountry legacy;
 DstCountry := LegacyEnrichedFlow.DstCountry legacy; LayerStack := []; LayerSize := [];
 Ipv6RoutingHeaderAddresses := []; Ipv6RoutingHeaderSegLeft := 0;
 PacketBytesMin := LegacyEnrichedFlow.PacketBytesMin legacy;
 PacketBytesMax := LegacyEnrichedFlow.PacketBytesMax legacy;
 PacketBytesMean := LegacyEnrichedFlow.PacketBytesMean legacy;
 PacketBytesStdDev := LegacyEnrichedFlow.PacketBytesStdDev legacy;
 PacketIATMin := LegacyEnrichedFlow.PacketIATMin legacy;
 PacketIATMax := LegacyEnrichedFlow.PacketIATMax legacy;
 PacketIATMean := LegacyEnrichedFlow.PacketIATMean legacy;
 PacketIATStdDev := LegacyEnrichedFlow.PacketIATStdDev legacy;
 HeaderBytes := LegacyEnrichedFlow.HeaderBytes legacy;
 FINFlagCount := LegacyEnrichedFlow.FINFlagCount legacy;
 SYNFlagCount := LegacyEnrichedFlow.SYNFlagCount legacy;
 RSTFlagCount := LegacyEnrichedFlow.RSTFlagCount legacy;
 PSHFlagCount := LegacyEnrichedFlow.PSHFlagCount legacy;
 ACKFlagCount := LegacyEnrichedFlow.ACKFlagCount legacy;
 URGFlagCount := LegacyEnrichedFlow.URGFlagCount legacy;
 CWRFlagCount := LegacyEnrichedFlow.CWRFlagCount legacy;
 ECEFlagCount := LegacyEnrichedFlow.ECEFlagCount legacy;
 PayloadPackets := LegacyEnrichedFlow.PayloadPackets legacy;
 TimeActiveMin := LegacyEnrichedFlow.TimeActiveMin legacy;
 TimeActiveMax := LegacyEnrichedFlow.TimeActiveMax legacy;
 TimeActiveMean := LegacyEnrichedFlow.TimeActiveMean legacy;
 TimeActiveStdDev := LegacyEnrichedFlow.TimeActiveStdDev legacy;
 TimeIdleMin := LegacyEnrichedFlow.TimeIdleMin legacy;
 TimeIdleMax := LegacyEnrichedFlow.TimeIdleMax legacy;
 TimeIdleMean := LegacyEnrichedFlow.TimeIdleMean legacy;
 TimeIdleStdDev := LegacyEnrichedFlow.TimeIdleStdDev legacy;
 Cid := LegacyEnrichedFlow.Cid legacy; CidString := LegacyEnrichedFlow.CidString legacy;
 SrcCid := LegacyEnrichedFlow.SrcCid legacy; DstCid := LegacyEnrichedFlow.DstCid legacy;
 NetId := LegacyEnrichedFlow.NetId legacy;
 NetIdString := LegacyEnrichedFlow.NetIdString legacy;
 SrcId := LegacyEnrichedFlow.SrcId legacy;
 SrcIdString := LegacyEnrichedFlow.SrcIdString legacy;
 DstId := LegacyEnrichedFlow.DstId legacy;
 DstIdString := LegacyEnrichedFlow.DstIdString legacy;
 SrcAddrAnon := LegacyEnrichedFlow.SrcAddrAnon legacy;
 DstAddrAnon := LegacyEnrichedFlow.DstAddrAnon legacy;
 SrcAddrPreservedLen := LegacyEnrichedFlow.SrcAddrPreservedLen legacy;
 DstAddrPreservedLen := LegacyEnrichedFlow.DstAddrPreservedLen legacy;
 SamplerAddrAnon := LegacyEnrichedFlow.SamplerAddrAnon legacy;
 SamplerAddrPreservedPrefixLen := LegacyEnrichedFlow.SamplerAddrPreservedPrefixLen legacy;
 NextHopAnon := 0; NextHopAnonPreservedPrefixLen := 0; Med := LegacyEnrichedFlow.Med legacy;
 LocalPref := LegacyEnrichedFlow.LocalPref legacy;
 ValidationStatus := LegacyEnrichedFlow.ValidationStatus legacy;
 RemoteCountry := LegacyEnrichedFlow.RemoteCountry legacy; SrcCountryBW := EmptyString;
 DstCountryBW := EmptyString; Normalized := LegacyEnrichedFlow.Normalized legacy;
 ProtoName := LegacyEnrichedFlow.ProtoName legacy;
 RemoteAddr := LegacyEnrichedFlow.RemoteAddr legacy;
 SrcHostName := LegacyEnrichedFlow.SrcHostName legacy;
 DstHostName := LegacyEnrichedFlow.DstHostName legacy;
 NextHopHostName := LegacyEnrichedFlow.NextHopHostName legacy;
 SrcASName := LegacyEnrichedFlow.SrcASName legacy;
 DstASName := LegacyEnrichedFlow.DstASName legacy;
 NextHopASName := LegacyEnrichedFlow.NextHopASName legacy;
 SamplerHostName := LegacyEnrichedFlow.SamplerHostName legacy;
 SrcIfName := LegacyEnrichedFlow.SrcIfName legacy;
 SrcIfDesc := LegacyEnrichedFlow.SrcIfDesc legacy;
 SrcIfSpeed := LegacyEnrichedFlow.SrcIfSpeed legacy;
 DstIfName := LegacyEnrichedFlow.DstIfName legacy;
 DstIfDesc := LegacyEnrichedFlow.DstIfDesc legacy;
 DstIfSpeed := LegacyEnrichedFlow.DstIfSpeed legacy; Note := LegacyEnrichedFlow.Note legacy;
 SourceIP := LegacyEnrichedFlow.SourceIP legacy;
 DestinationIP := LegacyEnrichedFlow.DestinationIP legacy;
 NextHopIP := LegacyEnrichedFlow.NextHopIP legacy;
 SamplerIP := LegacyEnrichedFlow.SamplerIP legacy;
 SourceMAC := LegacyEnrichedFlow.SourceMAC legacy;
 DestinationMAC := LegacyEnrichedFlow.DestinationMAC legacy; IngressVrfIDBW := 0;
 EgressVrfIDBW := 0; TimeFlowStart := LegacyEnrichedFlow.TimeFlowStart legacy; SrcAsPath := [];
 DstAsPath := []
|}.

Definition ConvertToEnrichedFlow (legacy : LegacyEnrichedFlow.t) : EnrichedFlow :=
  SyncMissingTimeStamps (legacy_fields legacy).

Definition enriched_fields (flow : EnrichedFlow) : LegacyEnrichedFlow.t := {|
LegacyEnrichedFlow.Type_ := Type_ flow; LegacyEnrichedFlow.TimeReceived := TimeReceived flow;
 LegacyEnrichedFlow.SequenceNum := SequenceNum flow;
 LegacyEnrichedFlow.SamplingRate := SamplingRate flow;
 LegacyEnrichedFlow.FlowDirection := FlowDirection flow;
 LegacyEnrichedFlow.SamplerAddress := SamplerAddress flow;
 LegacyEnrichedFlow.TimeFlowStart := TimeFlowStart flow;
 LegacyEnrichedFlow.TimeFlowEnd := TimeFlowEnd flow; LegacyEnrichedFlow.Bytes := Bytes flow;
 LegacyEnrichedFlow.Packets := Packets flow; LegacyEnrichedFlow.SrcAddr := SrcAddr flow;
 LegacyEnrichedFlow.DstAddr := DstAddr flow; LegacyEnrichedFlow.Etype := Etype flow;
 LegacyEnrichedFlow.Proto := Proto flow; LegacyEnrichedFlow.SrcPort := SrcPort flow;
 LegacyEnrichedFlow.DstPort := DstPort flow; LegacyEnrichedFlow.InIf := InIf flow;
 LegacyEnrichedFlow.OutIf := OutIf flow; LegacyEnrichedFlow.SrcMac := SrcMac flow;
 LegacyEnrichedFlow.DstMac := DstMac flow; LegacyEnrichedFlow.SrcVlan := SrcVlan flow;
 LegacyEnrichedFlow.DstVlan := DstVlan flow; LegacyEnrichedFlow.VlanId := VlanId flow;
 LegacyEnrichedFlow.IngressVrfID := IngressVrfId flow;
 LegacyEnrichedFlow.EgressVrfID := EgressVrfId flow; LegacyEnrichedFlow.IPTos := IpTos flow;
 LegacyEnrichedFlow.ForwardingStatus := ForwardingStatus flow;
 LegacyEnrichedFlow.IPTTL := IpTtl flow; LegacyEnrichedFlow.TCPFlags := TcpFlags flow;
 LegacyEnrichedFlow.IcmpType := IcmpType flow; LegacyEnrichedFlow.IcmpCode := IcmpCode flow;
 LegacyEnrichedFlow.IPv6FlowLabel := Ipv6FlowLabel flow;
 LegacyEnrichedFlow.FragmentId := FragmentId flow;
 LegacyEnrichedFlow.FragmentOffset := FragmentOffset flow;
 LegacyEnrichedFlow.BiFlowDirection := BiFlowDirection flow;
 LegacyEnrichedFlow.SrcAS := SrcAs flow; LegacyEnrichedFlow.DstAS := DstAs flow;
 LegacyEnrichedFlow.NextHop := NextHop flow; LegacyEnrichedFlow.NextHopAS := NextHopAs flow;
 LegacyEnrichedFlow.SrcNet := SrcNet flow; LegacyEnrichedFlow.DstNet := DstNet flow;
 LegacyEnrichedFlow.HasMPLS := HasMpls flow; LegacyEnrichedFlow.MPLSCount := MplsCount flow;
 LegacyEnrichedFlow.MPLS1TTL := Mpls_1Ttl flow;
 LegacyEnrichedFlow.MPLS1Label := Mpls_1Label flow;
 LegacyEnrichedFlow.MPLS2TTL := Mpls_2Ttl flow;
 LegacyEnrichedFlow.MPLS2Label := Mpls_2Label flow;
 LegacyEnrichedFlow.MPLS3TTL := Mpls_3Ttl flow;
 LegacyEnrichedFlow.MPLS3Label := Mpls_3Label flow;
 LegacyEnrichedFlow.MPLSLastTTL := MplsLastTtl flow;
 LegacyEnrichedFlow.MPLSLastLabel := MplsLastLabel flow;
 LegacyEnrichedFlow.PacketBytesMin := PacketBytesMin flow;
 LegacyEnrichedFlow.PacketBytesMax := PacketBytesMax flow;
 LegacyEnrichedFlow.PacketBytesMean := PacketBytesMean flow;
 LegacyEnrichedFlow.PacketBytesStdDev := PacketBytesStdDev flow;
 LegacyEnrichedFlow.PacketIATMin := PacketIATMin flow;
 LegacyEnrichedFlow.PacketIATMax := PacketIATMax flow;
 LegacyEnrichedFlow.PacketIATMean := PacketIATMean flow;
 LegacyEnrichedFlow.PacketIATStdDev := PacketIATStdDev flow;
 LegacyEnrichedFlow.HeaderBytes := HeaderBytes flow;
 LegacyEnrichedFlow.FINFlagCount := FINFlagCount flow;
 LegacyEnrichedFlow.SYNFlagCount := SYNFlagCount flow;
 LegacyEnrichedFlow.RSTFlagCount := RSTFlagCount flow;
 LegacyEnrichedFlow.PSHFlagCount := PSHFlagCount flow;
 LegacyEnrichedFlow.ACKFlagCount := ACKFlagCount flow;
 LegacyEnrichedFlow.URGFlagCount := URGFlagCount flow;
 LegacyEnrichedFlow.CWRFlagCount := CWRFlagCount flow;
 LegacyEnrichedFlow.ECEFlagCount := ECEFlagCount flow;
 LegacyEnrichedFlow.PayloadPackets := PayloadPackets flow;
 LegacyEnrichedFlow.TimeActiveMin := TimeActiveMin flow;
 LegacyEnrichedFlow.TimeActiveMax := TimeActiveMax flow;
 LegacyEnrichedFlow.TimeActiveMean := TimeActiveMean flow;
 LegacyEnrichedFlow.TimeActiveStdDev := TimeActiveStdDev flow;
 LegacyEnrichedFlow.TimeIdleMin := TimeIdleMin flow;
 LegacyEnrichedFlow.TimeIdleMax := TimeIdleMax flow;
 LegacyEnrichedFlow.TimeIdleMean := TimeIdleMean flow;
 LegacyEnrichedFlow.TimeIdleStdDev := TimeIdleStdDev flow; LegacyEnrichedFlow.Cid := Cid flow;
 LegacyEnrichedFlow.CidString := CidString flow; LegacyEnrichedFlow.SrcCid := SrcCid flow;
 LegacyEnrichedFlow.DstCid := DstCid flow; LegacyEnrichedFlow.NetId := NetId flow;
 LegacyEnrichedFlow.NetIdString := NetIdString flow; LegacyEnrichedFlow.SrcId := SrcId flow;
 LegacyEnrichedFlow.SrcIdString := SrcIdString flow; LegacyEnrichedFlow.DstId := DstId flow;
 LegacyEnrichedFlow.DstIdString := DstIdString flow;
 LegacyEnrichedFlow.SrcAddrAnon := SrcAddrAnon flow;
 LegacyEnrichedFlow.DstAddrAnon := DstAddrAnon flow;
 LegacyEnrichedFlow.SrcAddrPreservedLen := SrcAddrPreservedLen flow;
 LegacyEnrichedFlow.DstAddrPreservedLen := DstAddrPreservedLen flow;
 LegacyEnrichedFlow.SamplerAddrAnon := SamplerAddrAnon flow;
 LegacyEnrichedFlow.SamplerAddrPreservedPrefixLen := SamplerAddrPreservedPrefixLen flow;
 LegacyEnrichedFlow.ASPath := AsPath flow; LegacyEnrichedFlow.Med := Med flow;
 LegacyEnrichedFlow.LocalPref := LocalPref flow;
 LegacyEnrichedFlow.ValidationStatus := ValidationStatus flow;
 LegacyEnrichedFlow.RemoteCountry := RemoteCountry flow;
 LegacyEnrichedFlow.SrcCountry := SrcCountry flow;
 LegacyEnrichedFlow.DstCountry := DstCountry flow;
 LegacyEnrichedFlow.Normalized := Normalized flow;
 LegacyEnrichedFlow.ProtoName := ProtoName flow;
 LegacyEnrichedFlow.RemoteAddr := RemoteAddr flow;
 LegacyEnrichedFlow.SrcHostName := SrcHostName flow;
 LegacyEnrichedFlow.DstHostName := DstHostName flow;
 LegacyEnrichedFlow.NextHopHostName := NextHopHostName flow;
 LegacyEnrichedFlow.SrcASName := SrcASName flow;
 LegacyEnrichedFlow.DstASName := DstASName flow;
 LegacyEnrichedFlow.NextHopASName := NextHopASName flow;
 LegacyEnrichedFlow.SamplerHostName := SamplerHostName flow;
 LegacyEnrichedFlow.SrcIfName := SrcIfName flow;
 LegacyEnrichedFlow.SrcIfDesc := SrcIfDesc flow;
 LegacyEnrichedFlow.SrcIfSpeed := SrcIfSpeed flow;
 LegacyEnrichedFlow.DstIfName := DstIfName flow;
 LegacyEnrichedFlow.DstIfDesc := DstIfDesc flow;
 LegacyEnrichedFlow.DstIfSpeed := DstIfSpeed flow; LegacyEnrichedFlow.Note := Note flow;
 LegacyEnrichedFlow.SourceIP := SourceIP flow;
 LegacyEnrichedFlow.DestinationIP := DestinationIP flow;
 LegacyEnrichedFlow.NextHopIP := NextHopIP flow;
 LegacyEnrichedFlow.SamplerIP := SamplerIP flow;
 LegacyEnrichedFlow.SourceMAC := SourceMAC flow;
 LegacyEnrichedFlow.DestinationMAC := DestinationMAC flow
|}.

(** Returns the receiver as well: the method fills its timestamps in place. *)
Definition ConvertToLegacyEnrichedFlow (flow : EnrichedFlow) : EnrichedFlow * LegacyEnrichedFlow.t :=
  let flow := SyncMissingTimeStamps flow in
  (flow, enriched_fields flow).
End converters.

(** ** Facts *)
Section facts.
Context {P : f64.Platform}.

Lemma fill_set t u f : t <> 0 -> fillTimeIfEmpty t u f = t.
Proof. unfold fillTimeIfEmpty. by case Z.eqb_spec. Qed.

Lemma fill_from_zero t f : fillTimeIfEmpty t 0 f = t.
Proof. unfold fillTimeIfEmpty. by case Z.eqb_spec. Qed.

Lemma fill2_set t u f v g : t <> 0 -> fillTimeIfEmptyWithFallback t u f v g = t.
Proof. intros. unfold fillTimeIfEmptyWithFallback. by rewrite !(fill_set t). Qed.

Lemma fill2_from_zero t f g : fillTimeIfEmptyWithFallback t 0 f 0 g = t.
Proof. unfold fillTimeIfEmptyWithFallback. by rewrite !fill_from_zero. Qed.

Lemma fill_range t u f : in_u 64 t -> in_u 64 (fillTimeIfEmpty t u f).
Proof. intros. unfold fillTimeIfEmpty. repeat case_match; try done. apply f64.to_u64_range. Qed.

(** A group of related timestamps the filling leaves alone: all set, or all empty. *)
Definition all_or_none (l : list Z) : Prop := Forall (fun t => t <> 0) l \/ Forall (fun t => t = 0) l.

Definition stamps_complete (f : EnrichedFlow) : Prop :=
  all_or_none [TimeFlowEnd f; TimeFlowEndMs f; TimeFlowEndNs f] /\
  all_or_none [TimeFlowStart f; TimeFlowStartMs f; TimeFlowStartNs f] /\
  all_or_none [TimeReceived f; TimeReceivedNs f].

(** The seconds stamp cannot change: it is set, or there is nothing to fill it from. *)
Definition seconds_final (s ms ns : Z) : Prop := s <> 0 \/ ms = 0 /\ ns = 0.

Lemma fill2_final s ms ns f g :
  seconds_final s ms ns -> fillTimeIfEmptyWithFallback s ns f ms g = s.
Proof. intros [H | [-> ->]]; [by apply fill2_set | apply fill2_from_zero]. Qed.

Definition seconds_final_flow (f : EnrichedFlow) : Prop :=
  seconds_final (TimeFlowEnd f) (TimeFlowEndMs f) (TimeFlowEndNs f) /\
  seconds_final (TimeFlowStart f) (TimeFlowStartMs f) (TimeFlowStartNs f) /\
  seconds_final (TimeReceived f) 0 (TimeReceivedNs f).

Lemma Sync_seconds f :
  seconds_final_flow f ->
  TimeFlowEnd (SyncMissingTimeStamps f) = TimeFlowEnd f /\
  TimeFlowStart (SyncMissingTimeStamps f) = TimeFlowStart f /\
  TimeReceived (SyncMissingTimeStamps f) = TimeReceived f.
Proof.
  intros (HE & HS & HR). cbn -[fillTimeIfEmptyWithFallback fillTimeIfEmpty f64.pow10_inv f64.of_Z].
  rewrite !(fill2_final _ _ _ _ _ HE), !(fill2_final _ _ _ _ _ HS). repeat split.
  destruct HR as [HR | [_ ->]]; [by apply fill_set | apply fill_from_zero].
Qed.

Lemma seconds_final_step s ms ns f1 f2 f3 f4 :
  seconds_final s ms ns ->
  let ms' := fillTimeIfEmptyWithFallback ms ns f1 s f2 in
  seconds_final s ms' (fillTimeIfEmptyWithFallback ns ms' f3 s f4).
Proof.
  intros [H | [-> ->]]; [by left|].
  destruct (decide (s = 0)) as [-> |]; [right | by left].
  cbv zeta. by rewrite !fill2_from_zero.
Qed.

Lemma Sync_seconds_final f :
  seconds_final_flow f -> seconds_final_flow (SyncMissingTimeStamps f).
Proof.
  intros H. destruct (Sync_seconds f H) as (E1 & E2 & E3).
  unfold seconds_final_flow. rewrite E1, E2, E3. destruct H as (HE & HS & HR).
  cbn -[fillTimeIfEmptyWithFallback fillTimeIfEmpty f64.pow10_inv f64.of_Z].
  rewrite !(fill2_final _ _ _ _ _ HE), !(fill2_final _ _ _ _ _ HS).
  split_and!; [by apply seconds_final_step | by apply seconds_final_step |].
  destruct HR as [HR | [_ ->]]; [by left|].
  destruct (decide (TimeReceived f = 0)) as [-> |]; [right | by left].
  by rewrite !fill_from_zero.
Qed.

Lemma legacy_seconds_final l : seconds_final_flow (legacy_fields l).
Proof. repeat split; by right. Qed.

Lemma enriched_legacy_fields l : enriched_fields (legacy_fields l) = l.
Proof. by destruct l. Qed.

Lemma enriched_fields_Sync f :
  seconds_final_flow f -> enriched_fields (SyncMissingTimeStamps f) = enriched_fields f.
Proof.
  intros H. destruct (Sync_seconds f H) as (E1 & E2 & E3).
  unfold enriched_fields. rewrite E1, E2, E3. reflexivity.
Qed.
End facts.

(** ** Properties *)
Section properties.
Context {P : f64.Platform}.

Lemma legacy_back (l : LegacyEnrichedFlow.t) : snd (ConvertToLegacyEnrichedFlow (ConvertToEnrichedFlow l)) = l.
Proof.
  unfold ConvertToLegacyEnrichedFlow, ConvertToEnrichedFlow; simpl snd.
  rewrite !enriched_fields_Sync.
  - apply enriched_legacy_fields.
  - apply legacy_seconds_final.
  - apply Sync_seconds_final, legacy_seconds_final.
Qed.

(** C34. Converting a legacy message to the new format and back gives the
    same message: all 123 fields survive, whatever their values, although
    both converters also fill in missing timestamps. *)
Theorem legacy_roundtrip (l : LegacyEnrichedFlow.t) :
  snd (ConvertToLegacyEnrichedFlow (ConvertToEnrichedFlow l)) = l.
Proof. apply legacy_back. Qed.

(** The flow without its eight timestamps. *)
Definition erase_stamps (f : EnrichedFlow) : EnrichedFlow :=
  set_TimeFlowEnd 0 (set_TimeFlowEndMs 0 (set_TimeFlowEndNs 0 (set_TimeFlowStart 0
    (set_TimeFlowStartMs 0 (set_TimeFlowStartNs 0 (set_TimeReceived 0 (set_TimeReceivedNs 0 f))))))).

Definition stamp_getters : list (EnrichedFlow -> Z) :=
  [TimeFlowEnd; TimeFlowEndMs; TimeFlowEndNs; TimeFlowStart; TimeFlowStartMs;
   TimeFlowStartNs; TimeReceived; TimeReceivedNs].

(** [SyncMissingTimeStamps] only fills in missing timestamps: a stamp
    that is set keeps its value, and no other field changes. *)
Theorem Sync_only_fills (f : EnrichedFlow) :
  Forall (fun get => get f <> 0 -> get (SyncMissingTimeStamps f) = get f) stamp_getters /\
  erase_stamps (SyncMissingTimeStamps f) = erase_stamps f.
Proof.
  split; [|reflexivity].
  unfold stamp_getters. repeat constructor; intros H;
    cbn -[fillTimeIfEmptyWithFallback fillTimeIfEmpty f64.pow10_inv f64.of_Z];
    by rewrite ?fill2_set, ?fill_set.
Qed.

(** When the stamps of each group are all set or all empty, nothing is
    missing and [SyncMissingTimeStamps] is the identity. *)
Theorem Sync_complete (f : EnrichedFlow) :
  stamps_complete f -> SyncMissingTimeStamps f = f.
Proof.
  intros (HE & HS & HR).
  assert (forall a b c f1 f2 f3 f4 f5 f6, all_or_none [a; b; c] ->
    fillTimeIfEmptyWithFallback a c f1 b f2 = a /\
    fillTimeIfEmptyWithFallback b c f3 a f4 = b /\
    fillTimeIfEmptyWithFallback c b f5 a f6 = c) as fill3.
  { intros * [H | H]; rewrite !Forall_cons in H; destruct H as (Ha & Hb & Hc & _).
    - by rewrite !fill2_set.
    - subst. by rewrite !fill2_from_zero. }
  assert (forall a b f1 f2, all_or_none [a; b] ->
    fillTimeIfEmpty a b f1 = a /\ fillTimeIfEmpty b a f2 = b) as fill2.
  { intros * [H | H]; rewrite !Forall_cons in H; destruct H as (Ha & Hb & _).
    - by rewrite !fill_set.
    - subst. by rewrite !fill_from_zero. }
  destruct f; unfold SyncMissingTimeStamps, stamps_complete in *.
  cbn -[fillTimeIfEmptyWithFallback fillTimeIfEmpty f64.pow10_inv f64.of_Z] in *.
  repeat match goal with
  | |- context [fillTimeIfEmptyWithFallback ?a ?c ?f1 ?b ?f2] =>
      first [ rewrite (proj1 (fill3 a b c f1 f2 f1 f1 f1 f1 ltac:(assumption)))
            | rewrite (proj1 (proj2 (fill3 b a c f1 f1 f1 f2 f1 f1 ltac:(assumption))))
            | rewrite (proj2 (proj2 (fill3 b c a f1 f1 f1 f1 f1 f2 ltac:(assumption)))) ]
  | |- context [fillTimeIfEmpty ?a ?b ?f1] =>
      first [ rewrite (proj1 (fill2 a b f1 f1 ltac:(assumption)))
            | rewrite (proj2 (fill2 b a f1 f1 ltac:(assumption))) ]
  end.
  reflexivity.
Qed.

(** Filling in timestamps is not idempotent: rounding the nanoseconds to
    milliseconds and those again to seconds carries further than rounding
    once.  A flow that ended at 0.499999999 s has no seconds stamp after
    the first call and the stamp 1 after the second. *)
Theorem Sync_not_idempotent :
  let f := set_TimeFlowEndNs 499999999 emptyFlow in
  TimeFlowEnd (SyncMissingTimeStamps f) = 0 /\
  TimeFlowEnd (SyncMissingTimeStamps (SyncMissingTimeStamps f)) = 1.
Proof. by_compute. Qed.

(** The filled-in stamps are 64-bit words whenever the present ones are. *)
Theorem Sync_range (f : EnrichedFlow) :
  Forall (fun get => in_u 64 (get f)) stamp_getters ->
  Forall (fun get => in_u 64 (get (SyncMissingTimeStamps f))) stamp_getters.
Proof.
  unfold stamp_getters. rewrite !Forall_cons. intros H; split_hyps.
  split_and!; try done;
    cbn -[fillTimeIfEmptyWithFallback fillTimeIfEmpty f64.pow10_inv f64.of_Z];
    unfold fillTimeIfEmptyWithFallback; auto using fill_range.
Qed.
End properties.

Definition stamped : EnrichedFlow :=
  set_TimeFlowEnd 1700000060 (set_TimeFlowEndMs 1700000060000 (set_TimeFlowEndNs 1700000060000000000 emptyFlow)).

Lemma Sync_complete_witness :
  stamps_complete stamped /\ @SyncMissingTimeStamps f64.amd64 stamped = stamped.
Proof.
  assert (stamps_complete stamped) as H.
  { split_and!; [left | right | right]; repeat constructor; discriminate. }
  split; [exact H | exact (@Sync_complete f64.amd64 stamped H)].
Defined.

Lemma Sync_range_witness :
  Forall (fun get => in_u 64 (get stamped)) stamp_getters /\
  Forall (fun get => in_u 64 (get (@SyncMissingTimeStamps f64.amd64 stamped))) stamp_getters.
Proof.
  assert (Forall (fun get => in_u 64 (get stamped)) stamp_getters) as H
    by (repeat constructor; vm_compute; congruence).
  split; [exact H | exact (@Sync_range f64.amd64 stamped H)].
Defined.
