(* ===== verification/Reflect.v ===== *)
(** * Run-time reflection on [EnrichedFlow] (Go's [reflect] package)

    The segments that take field names from their configuration go through
    [reflect]: [FieldByName], [Interface], [Set], [SetZero].  [fields] is the
    struct's table of exported fields; each entry has its name, its Go type,
    and how it is read and assigned. *)

From stdpp Require Import prelude strings list.
From Stdlib Require Import ZArith Lia.
From S2P Require Import Prelude GoStd EnrichedFlow.

(** The dynamic value of a field ([reflect.Value.Interface()]). *)
Inductive fval : Type :=
  | VUint32 (n : Z) | VUint64 (n : Z) | VEnum (n : Z) | VString (s : string) | VBool (b : bool)
  | VBytes (b : slice Z) | VUint32s (l : list Z) | VEnums (l : list Z) | VBytess (l : list (list Z)).

#[export] Instance fval_eq_dec : EqDecision fval.
Proof. solve_decision. Defined.

(** Its static type; enum types carry their Go name. *)
Inductive kind : Type :=
  | KUint32 | KUint64 | KEnum (name : string) | KString | KBool
  | KBytes | KUint32s | KEnums (name : string) | KBytess.

(** [reflect.Type.String()] *)
Definition type_string (k : kind) : string :=
  match k with
  | KUint32 => "uint32" | KUint64 => "uint64" | KEnum n => n | KString => "string" | KBool => "bool"
  | KBytes => "[]uint8" | KUint32s => "[]uint32" | KEnums n => n | KBytess => "[][]uint8"
  end.

Definition zero_value (k : kind) : fval :=
  match k with
  | KUint32 => VUint32 0 | KUint64 => VUint64 0 | KEnum _ => VEnum 0 | KString => VString ""
  | KBool => VBool false | KBytes => VBytes None | KUint32s => VUint32s [] | KEnums _ => VEnums []
  | KBytess => VBytess []
  end.

Definition has_kind (k : kind) (v : fval) : bool :=
  match k, v with
  | KUint32, VUint32 _ | KUint64, VUint64 _ | KEnum _, VEnum _ | KString, VString _
  | KBool, VBool _ | KBytes, VBytes _ | KUint32s, VUint32s _ | KEnums _, VEnums _
  | KBytess, VBytess _ => true
  | _, _ => false
  end.

Record field : Type := Field {
  fd_name : string;
  fd_kind : kind;
  fd_get : EnrichedFlow -> fval;
  fd_set : fval -> EnrichedFlow -> EnrichedFlow;
}.

Section entries.
Context (name : string).
Definition fUint32 (g : EnrichedFlow -> Z) (s : Z -> EnrichedFlow -> EnrichedFlow) : field :=
  Field name KUint32 (fun r => VUint32 (g r)) (fun v r => match v with VUint32 x => s x r | _ => r end).
Definition fUint64 (g : EnrichedFlow -> Z) (s : Z -> EnrichedFlow -> EnrichedFlow) : field :=
  Field name KUint64 (fun r => VUint64 (g r)) (fun v r => match v with VUint64 x => s x r | _ => r end).
Definition fString (g : EnrichedFlow -> string) (s : string -> EnrichedFlow -> EnrichedFlow) : field :=
  Field name KString (fun r => VString (g r)) (fun v r => match v with VString x => s x r | _ => r end).
Definition fBool (g : EnrichedFlow -> bool) (s : bool -> EnrichedFlow -> EnrichedFlow) : field :=
  Field name KBool (fun r => VBool (g r)) (fun v r => match v with VBool x => s x r | _ => r end).
Definition fBytes (g : EnrichedFlow -> slice Z) (s : slice Z -> EnrichedFlow -> EnrichedFlow) : field :=
  Field name KBytes (fun r => VBytes (g r)) (fun v r => match v with VBytes x => s x r | _ => r end).
Definition fUint32s (g : EnrichedFlow -> list Z) (s : list Z -> EnrichedFlow -> EnrichedFlow) : field :=
  Field name KUint32s (fun r => VUint32s (g r)) (fun v r => match v with VUint32s x => s x r | _ => r end).
Definition fBytess (g : EnrichedFlow -> list (list Z)) (s : list (list Z) -> EnrichedFlow -> EnrichedFlow) : field :=
  Field name KBytess (fun r => VBytess (g r)) (fun v r => match v with VBytess x => s x r | _ => r end).
End entries.
Definition fEnum (ty name : string) (g : EnrichedFlow -> Z) (s : Z -> EnrichedFlow -> EnrichedFlow) : field :=
  Field name (KEnum ty) (fun r => VEnum (g r)) (fun v r => match v with VEnum x => s x r | _ => r end).
Definition fEnums (ty name : string) (g : EnrichedFlow -> list Z) (s : list Z -> EnrichedFlow -> EnrichedFlow) : field :=
  Field name (KEnums ty) (fun r => VEnums (g r)) (fun v r => match v with VEnums x => s x r | _ => r end).

(** The exported fields in declaration order. *)
Definition fields : list field :=
  ([ fEnum "pb.EnrichedFlow_FlowType" "Type" Type_ set_Type;
     fUint64 "TimeReceived" TimeReceived set_TimeReceived;
     fUint64 "TimeReceivedNs" TimeReceivedNs set_TimeReceivedNs;
     fUint32 "SequenceNum" SequenceNum set_SequenceNum;
     fUint64 "SamplingRate" SamplingRate set_SamplingRate;
     fUint32 "FlowDirection" FlowDirection set_FlowDirection;
     fUint64 "TimeFlowStartNs" TimeFlowStartNs set_TimeFlowStartNs;
     fUint64 "TimeFlowEndNs" TimeFlowEndNs set_TimeFlowEndNs;
     fBytes "SamplerAddress" SamplerAddress set_SamplerAddress;
     fUint64 "TimeFlowEnd" TimeFlowEnd set_TimeFlowEnd;
     fUint64 "TimeFlowStartMs" TimeFlowStartMs set_TimeFlowStartMs;
     fUint64 "TimeFlowEndMs" TimeFlowEndMs set_TimeFlowEndMs;
     fUint64 "Bytes" Bytes set_Bytes;
     fUint64 "Packets" Packets set_Packets;
     fBytes "SrcAddr" SrcAddr set_SrcAddr;
     fBytes "DstAddr" DstAddr set_DstAddr;
     fUint32 "Etype" Etype set_Etype;
     fUint32 "Proto" Proto set_Proto;
     fUint32 "SrcPort" SrcPort set_SrcPort;
     fUint32 "DstPort" DstPort set_DstPort;
     fUint32 "InIf" InIf set_InIf;
     fUint32 "OutIf" OutIf set_OutIf;
     fUint64 "SrcMac" SrcMac set_SrcMac;
     fUint64 "DstMac" DstMac set_DstMac;
     fUint32 "SrcVlan" SrcVlan set_SrcVlan;
     fUint32 "DstVlan" DstVlan set_DstVlan;
     fUint32 "VlanId" VlanId set_VlanId;
     fUint32 "IngressVrfId" IngressVrfId set_IngressVrfId;
     fUint32 "EgressVrfId" EgressVrfId set_EgressVrfId;
     fUint32 "IpTos" IpTos set_IpTos;
     fUint32 "ForwardingStatus" ForwardingStatus set_ForwardingStatus;
     fUint32 "IpTtl" IpTtl set_IpTtl;
     fUint32 "IpFlags" IpFlags set_IpFlags;
     fUint32 "TcpFlags" TcpFlags set_TcpFlags;
     fUint32 "IcmpType" IcmpType set_IcmpType;
     fUint32 "IcmpCode" IcmpCode set_IcmpCode;
     fUint32 "Ipv6FlowLabel" Ipv6FlowLabel set_Ipv6FlowLabel;
     fUint32 "FragmentId" FragmentId set_FragmentId;
     fUint32 "FragmentOffset" FragmentOffset set_FragmentOffset;
     fUint32 "BiFlowDirection" BiFlowDirection set_BiFlowDirection;
     fUint32 "SrcAs" SrcAs set_SrcAs;
     fUint32 "DstAs" DstAs set_DstAs;
     fBytes "NextHop" NextHop set_NextHop;
     fUint32 "NextHopAs" NextHopAs set_NextHopAs;
     fUint32 "SrcNet" SrcNet set_SrcNet;
     fUint32 "DstNet" DstNet set_DstNet;
     fBytes "BgpNextHop" BgpNextHop set_BgpNextHop;
     fUint32s "BgpCommunities" BgpCommunities set_BgpCommunities;
     fUint32s "AsPath" AsPath set_AsPath;
     fUint32s "MplsTtl" MplsTtl set_MplsTtl;
     fUint32s "MplsLabel" MplsLabel set_MplsLabel;
     fBytess "MplsIp" MplsIp set_MplsIp;
     fBool "HasMpls" HasMpls set_HasMpls;
     fUint32 "MplsCount" MplsCount set_MplsCount;
     fUint32 "Mpls_1Ttl" Mpls_1Ttl set_Mpls_1Ttl;
     fUint32 "Mpls_1Label" Mpls_1Label set_Mpls_1Label;
     fUint32 "Mpls_2Ttl" Mpls_2Ttl set_Mpls_2Ttl;
     fUint32 "Mpls_2Label" Mpls_2Label set_Mpls_2Label;
     fUint32 "Mpls_3Ttl" Mpls_3Ttl set_Mpls_3Ttl;
     fUint32 "Mpls_3Label" Mpls_3Label set_Mpls_3Label;
     fUint32 "MplsLastTtl" MplsLastTtl set_MplsLastTtl;
     fUint32 "MplsLastLabel" MplsLastLabel set_MplsLastLabel;
     fBytes "MplsLabelIp" MplsLabelIp set_MplsLabelIp;
     fUint32 "ObservationDomainId" ObservationDomainId set_ObservationDomainId;
     fUint32 "ObservationPointId" ObservationPointId set_ObservationPointId;
     fString "SrcCountry" SrcCountry set_SrcCountry;
     fString "DstCountry" DstCountry set_DstCountry;
     fEnums "[]pb.EnrichedFlow_LayerStack" "LayerStack" LayerStack set_LayerStack;
     fUint32s "LayerSize" LayerSize set_LayerSize;
     fBytess "Ipv6RoutingHeaderAddresses" Ipv6RoutingHeaderAddresses set_Ipv6RoutingHeaderAddresses;
     fUint32 "Ipv6RoutingHeaderSegLeft" Ipv6RoutingHeaderSegLeft set_Ipv6RoutingHeaderSegLeft;
     fUint32 "PacketBytesMin" PacketBytesMin set_PacketBytesMin;
     fUint32 "PacketBytesMax" PacketBytesMax set_PacketBytesMax;
     fUint32 "PacketBytesMean" PacketBytesMean set_PacketBytesMean;
     fUint32 "PacketBytesStdDev" PacketBytesStdDev set_PacketBytesStdDev;
     fUint64 "PacketIATMin" PacketIATMin set_PacketIATMin;
     fUint64 "PacketIATMax" PacketIATMax set_PacketIATMax;
     fUint64 "PacketIATMean" PacketIATMean set_PacketIATMean;
     fUint64 "PacketIATStdDev" PacketIATStdDev set_PacketIATStdDev;
     fUint32 "HeaderBytes" HeaderBytes set_HeaderBytes;
     fUint64 "FINFlagCount" FINFlagCount set_FINFlagCount;
     fUint64 "SYNFlagCount" SYNFlagCount set_SYNFlagCount;
     fUint64 "RSTFlagCount" RSTFlagCount set_RSTFlagCount;
     fUint64 "PSHFlagCount" PSHFlagCount set_PSHFlagCount;
     fUint64 "ACKFlagCount" ACKFlagCount set_ACKFlagCount;
     fUint64 "URGFlagCount" URGFlagCount set_URGFlagCount;
     fUint64 "CWRFlagCount" CWRFlagCount set_CWRFlagCount;
     fUint64 "ECEFlagCount" ECEFlagCount set_ECEFlagCount;
     fUint64 "PayloadPackets" PayloadPackets set_PayloadPackets;
     fUint64 "TimeActiveMin" TimeActiveMin set_TimeActiveMin;
     fUint64 "TimeActiveMax" TimeActiveMax set_TimeActiveMax;
     fUint64 "TimeActiveMean" TimeActiveMean set_TimeActiveMean;
     fUint64 "TimeActiveStdDev" TimeActiveStdDev set_TimeActiveStdDev;
     fUint64 "TimeIdleMin" TimeIdleMin set_TimeIdleMin;
     fUint64 "TimeIdleMax" TimeIdleMax set_TimeIdleMax;
     fUint64 "TimeIdleMean" TimeIdleMean set_TimeIdleMean;
     fUint64 "TimeIdleStdDev" TimeIdleStdDev set_TimeIdleStdDev;
     fUint32 "Cid" Cid set_Cid;
     fString "CidString" CidString set_CidString;
     fUint32 "SrcCid" SrcCid set_SrcCid;
     fUint32 "DstCid" DstCid set_DstCid;
     fUint32 "NetId" NetId set_NetId;
     fString "NetIdString" NetIdString set_NetIdString;
     fUint32 "SrcId" SrcId set_SrcId;
     fString "SrcIdString" SrcIdString set_SrcIdString;
     fUint32 "DstId" DstId set_DstId;
     fString "DstIdString" DstIdString set_DstIdString;
     fEnum "pb.EnrichedFlow_AnonymizedType" "SrcAddrAnon" SrcAddrAnon set_SrcAddrAnon;
     fEnum "pb.EnrichedFlow_AnonymizedType" "DstAddrAnon" DstAddrAnon set_DstAddrAnon;
     fUint32 "SrcAddrPreservedLen" SrcAddrPreservedLen set_SrcAddrPreservedLen;
     fUint32 "DstAddrPreservedLen" DstAddrPreservedLen set_DstAddrPreservedLen;
     fEnum "pb.EnrichedFlow_AnonymizedType" "SamplerAddrAnon" SamplerAddrAnon set_SamplerAddrAnon;
     fUint32 "SamplerAddrPreservedPrefixLen" SamplerAddrPreservedPrefixLen set_SamplerAddrPreservedPrefixLen;
     fEnum "pb.EnrichedFlow_AnonymizedType" "NextHopAnon" NextHopAnon set_NextHopAnon;
     fUint32 "NextHopAnonPreservedPrefixLen" NextHopAnonPreservedPrefixLen set_NextHopAnonPreservedPrefixLen;
     fUint32 "Med" Med set_Med;
     fUint32 "LocalPref" LocalPref set_LocalPref;
     fEnum "pb.EnrichedFlow_ValidationStatusType" "ValidationStatus" ValidationStatus set_ValidationStatus;
     fString "RemoteCountry" RemoteCountry set_RemoteCountry;
     fString "SrcCountryBW" SrcCountryBW set_SrcCountryBW;
     fString "DstCountryBW" DstCountryBW set_DstCountryBW;
     fEnum "pb.EnrichedFlow_NormalizedType" "Normalized" Normalized set_Normalized;
     fString "ProtoName" ProtoName set_ProtoName;
     fEnum "pb.EnrichedFlow_RemoteAddrType" "RemoteAddr" RemoteAddr set_RemoteAddr;
     fString "SrcHostName" SrcHostName set_SrcHostName;
     fString "DstHostName" DstHostName set_DstHostName;
     fString "NextHopHostName" NextHopHostName set_NextHopHostName;
     fString "SrcASName" SrcASName set_SrcASName;
     fString "DstASName" DstASName set_DstASName;
     fString "NextHopASName" NextHopASName set_NextHopASName;
     fString "SamplerHostName" SamplerHostName set_SamplerHostName;
     fString "SrcIfName" SrcIfName set_SrcIfName;
     fString "SrcIfDesc" SrcIfDesc set_SrcIfDesc;
     fUint32 "SrcIfSpeed" SrcIfSpeed set_SrcIfSpeed;
     fString "DstIfName" DstIfName set_DstIfName;
     fString "DstIfDesc" DstIfDesc set_DstIfDesc;
     fUint32 "DstIfSpeed" DstIfSpeed set_DstIfSpeed;
     fString "Note" Note set_Note;
     fString "SourceIP" SourceIP set_SourceIP;
     fString "DestinationIP" DestinationIP set_DestinationIP;
     fString "NextHopIP" NextHopIP set_NextHopIP;
     fString "SamplerIP" SamplerIP set_SamplerIP;
     fString "SourceMAC" SourceMAC set_SourceMAC;
     fString "DestinationMAC" DestinationMAC set_DestinationMAC;
     fUint32 "IngressVrfIDBW" IngressVrfIDBW set_IngressVrfIDBW;
     fUint32 "EgressVrfIDBW" EgressVrfIDBW set_EgressVrfIDBW;
     fUint64 "TimeFlowStart" TimeFlowStart set_TimeFlowStart;
     fUint32s "SrcAsPath" SrcAsPath set_SrcAsPath;
     fUint32s "DstAsPath" DstAsPath set_DstAsPath ]%string).

Definition unexported_fields : list string := ["state"; "unknownFields"; "sizeCache"]%string.

(** [FieldByName]: an exported field, an unexported one (valid but not
    settable), or the invalid value. *)
Inductive lookup_field : Type := Exported (d : field) | Unexported | NoField.

Definition find_field (name : string) : option field :=
  find (fun d => String.eqb (fd_name d) name) fields.

Definition FieldByName (name : string) : lookup_field :=
  match find_field name with
  | Some d => Exported d
  | None => if bool_decide (name ∈ unexported_fields) then Unexported else NoField
  end.

(** ** Laws of the table *)
Definition get_all (r : EnrichedFlow) : list fval := (fun d => fd_get d r) <$> fields.

Lemma fields_names_NoDup : NoDup (fd_name <$> fields).
Proof. apply (bool_decide_unpack _). vm_compute. exact I. Qed.

Ltac each_field :=
  unfold fields; repeat (apply Forall_cons_2; [|]); [..|apply Forall_nil_2].

Lemma fields_get_set :
  Forall (fun d => forall v r, has_kind (fd_kind d) v = true -> fd_get d (fd_set d v r) = v) fields.
Proof. each_field; intros [] r H; first [reflexivity | discriminate H]. Qed.

Lemma fields_get_kind :
  Forall (fun d => forall r, has_kind (fd_kind d) (fd_get d r) = true) fields.
Proof. each_field; reflexivity. Qed.

Lemma fields_set_get :
  Forall (fun d => forall r, fd_set d (fd_get d r) r = r) fields.
Proof. each_field; intros []; reflexivity. Qed.

Lemma fields_zero : Forall (fun d => fd_get d emptyFlow = zero_value (fd_kind d)) fields.
Proof. each_field; reflexivity. Qed.

Lemma fields_set_all :
  Forall (fun p : nat * field => forall v r, has_kind (fd_kind (snd p)) v = true ->
    get_all (fd_set (snd p) v r) = <[fst p := v]> (get_all r))
  (imap pair fields).
Proof.
  unfold fields. cbn [imap]. repeat (apply Forall_cons_2; [|]); [..|apply Forall_nil_2];
    intros [] r H; first [reflexivity | discriminate H].
Qed.

Lemma fields_ext r1 r2 : get_all r1 = get_all r2 -> r1 = r2.
Proof. destruct r1, r2. unfold get_all, fields. cbn. intros [=]. subst. reflexivity. Qed.

(** *** The laws by name *)
Lemma find_field_Some name d :
  find_field name = Some d -> d ∈ fields /\ fd_name d = name.
Proof.
  unfold find_field. intros H. apply find_some in H as [H1 H2].
  split; [by apply list_elem_of_In | by apply String.eqb_eq].
Qed.

Lemma find_field_elem d : d ∈ fields -> find_field (fd_name d) = Some d.
Proof.
  intros Hd. destruct (find_field (fd_name d)) as [d'|] eqn:E.
  - apply find_field_Some in E as [Hd' En]. f_equal.
    apply list_elem_of_lookup in Hd as [i Hi], Hd' as [j Hj].
    assert (i = j) as ->; [|congruence].
    apply (NoDup_lookup (fd_name <$> fields) i j (fd_name d)); [apply fields_names_NoDup|..];
      rewrite list_lookup_fmap, ?Hi, ?Hj; simpl; congruence.
  - exfalso. apply list_elem_of_In in Hd.
    pose proof (find_none _ _ E _ Hd) as H. cbn beta in H. rewrite String.eqb_refl in H. discriminate.
Qed.

Lemma get_set_same d v r :
  d ∈ fields -> has_kind (fd_kind d) v = true -> fd_get d (fd_set d v r) = v.
Proof. intros Hd. exact (proj1 (Forall_forall _ _) fields_get_set d Hd v r). Qed.

Lemma get_kind d r : d ∈ fields -> has_kind (fd_kind d) (fd_get d r) = true.
Proof. intros Hd. exact (proj1 (Forall_forall _ _) fields_get_kind d Hd r). Qed.

Lemma get_zero d : d ∈ fields -> fd_get d emptyFlow = zero_value (fd_kind d).
Proof. intros Hd. exact (proj1 (Forall_forall _ _) fields_zero d Hd). Qed.

Lemma zero_has_kind k : has_kind k (zero_value k) = true.
Proof. by destruct k. Qed.

Lemma get_set_other d d' v r :
  d ∈ fields -> d' ∈ fields -> fd_name d <> fd_name d' -> has_kind (fd_kind d') v = true ->
  fd_get d (fd_set d' v r) = fd_get d r.
Proof.
  intros Hd Hd' Hn Hk.
  apply list_elem_of_lookup in Hd as [i Hi]. apply list_elem_of_lookup in Hd' as [j Hj].
  assert ((j, d') ∈ imap pair fields) as Hjd.
  { apply list_elem_of_lookup. exists j. rewrite list_lookup_imap, Hj. done. }
  pose proof (proj1 (Forall_forall _ _) fields_set_all _ Hjd v r Hk) as H. cbn [fst snd] in H.
  apply (f_equal (.!! i)) in H. rewrite list_lookup_insert_ne in H by (intros ->; apply Hn; congruence).
  unfold get_all in H. rewrite !list_lookup_fmap, Hi in H. cbn in H. congruence.
Qed.

Lemma flow_ext r1 r2 : (forall d, d ∈ fields -> fd_get d r1 = fd_get d r2) -> r1 = r2.
Proof.
  intros H. apply fields_ext. unfold get_all. apply map_ext_in. intros d Hd.
  apply H. by apply list_elem_of_In.
Qed.
