(* ===== verification/Segment.v ===== *)
(** * The segment interface ([segments/segments.go], [segments/filter_segment.go])

    A segment's [Run] is a loop over the messages of its [In] channel.  Its
    body is a function of the receiver's state, of whether somebody
    subscribed to its [Drops] channel, and of the message; it returns the new
    state and the sends it performs, in order.  [Segment] is the class of
    types with such a body; [SegmentLaws], [Forwards] and [Selects] are the
    contracts the rest of the development uses. *)

From stdpp Require Import prelude strings list gmap.
From Stdlib Require Import ZArith Lia.
From S2P Require Import Prelude GoStd EnrichedFlow.

(** The directory that file names are relative to: the one a container mounts its
    volume at, in a binary built with the tag [container]. *)
Definition ContainerVolumePrefix (container : bool) : string := if container then "/config/" else "".

(** A send on [segment.Out] or on [segment.Drops]. *)
Inductive emit : Type :=
  | EOut (m : EnrichedFlow)
  | EDrop (m : EnrichedFlow).

(** [if segment.Drops != nil { segment.Drops <- msg }] *)
Definition to_drops (subscribed : bool) (m : EnrichedFlow) : list emit :=
  if subscribed then [EDrop m] else [].

Definition is_out (e : emit) : bool := match e with EOut _ => true | EDrop _ => false end.
Definition out_of (e : emit) : option EnrichedFlow := match e with EOut m => Some m | EDrop _ => None end.
Definition drop_of (e : emit) : option EnrichedFlow := match e with EDrop m => Some m | EOut _ => None end.
Definition outs (es : list emit) : list EnrichedFlow := omap out_of es.
Definition drops (es : list emit) : list EnrichedFlow := omap drop_of es.

(** The [Segment] interface; [seg_filter] tells whether the type also
    implements [FilterSegment], i.e. embeds [BaseFilterSegment]. *)
Class Segment (S : Type) : Type := {
  seg_filter : bool;
  seg_step : bool -> S -> EnrichedFlow -> S * list emit;
}.
#[global] Hint Mode Segment ! : typeclass_instances.
Arguments seg_filter S {_}.

Class SegmentLaws (S : Type) `{Segment S} : Prop := {
  step_unsubscribed : forall (s : S) m, Forall is_out (seg_step false s m).2;
  step_not_filter : seg_filter S = false -> forall b (s : S) m, Forall is_out (seg_step b s m).2;
}.

(** Exactly one message leaves for every message that enters. *)
Class Forwards (S : Type) `{Segment S} : Prop :=
  forwards_one : forall b (s : S) m, exists m', (seg_step b s m).2 = [EOut m'].

(** A filter: a message leaves unchanged or is handed to the drop channel. *)
Class Selects (S : Type) `{Segment S} : Prop :=
  selects : forall b (s : S) m, (seg_step b s m).2 = [EOut m] \/ (seg_step b s m).2 = to_drops b m.

(** The whole [Run] loop on a finite input. *)
Section run.
Context {S : Type} `{Segment S}.

Fixpoint run (b : bool) (s : S) (ms : list EnrichedFlow) : S * list emit :=
  match ms with
  | [] => (s, [])
  | m :: ms =>
      let '(s, es) := seg_step b s m in
      let '(s, es') := run b s ms in
      (s, es ++ es')
  end.

Lemma run_cons b s m ms :
  run b s (m :: ms) =
  ((run b (seg_step b s m).1 ms).1, (seg_step b s m).2 ++ (run b (seg_step b s m).1 ms).2).
Proof. simpl. destruct (seg_step b s m) as [s' es]; simpl. by destruct (run b s' ms). Qed.

Lemma run_app b s ms1 ms2 :
  run b s (ms1 ++ ms2) =
  ((run b (run b s ms1).1 ms2).1, (run b s ms1).2 ++ (run b (run b s ms1).1 ms2).2).
Proof.
  revert s. induction ms1 as [|m ms1 IH]; intros s.
  - simpl. by destruct (run b s ms2).
  - rewrite <- app_comm_cons, !run_cons, IH. simpl. by rewrite app_assoc.
Qed.

Lemma outs_app es es' : outs (es ++ es') = outs es ++ outs es'.
Proof. apply omap_app. Qed.
Lemma drops_app es es' : drops (es ++ es') = drops es ++ drops es'.
Proof. apply omap_app. Qed.

Lemma drops_only_outs es : Forall is_out es -> drops es = [].
Proof. induction 1 as [|[] es He _ IH]; simpl in *; done. Qed.

Lemma run_drops_nil `{!SegmentLaws S} b s ms :
  (b = false \/ seg_filter S = false) -> drops (run b s ms).2 = [].
Proof.
  intros Hb. revert s. induction ms as [|m ms IH]; intros s; [done|].
  rewrite run_cons; simpl. rewrite drops_app, IH, app_nil_r.
  apply drops_only_outs. destruct Hb as [-> | Hf]; [apply step_unsubscribed | by apply step_not_filter].
Qed.

(** A forwarding segment preserves the number of messages. *)
Lemma run_forwards_length `{!Forwards S} b s ms :
  length (outs (run b s ms).2) = length ms /\ drops (run b s ms).2 = [].
Proof.
  revert s. induction ms as [|m ms IH]; intros s; [done|].
  rewrite run_cons; simpl. rewrite outs_app, drops_app.
  destruct (forwards_one b s m) as [m' ->]; simpl.
  destruct (IH (seg_step b s m).1) as [-> ->]. done.
Qed.

(** A filter only removes messages. *)
Lemma run_selects_sublist `{!Selects S} b s ms : outs (run b s ms).2 `sublist_of` ms.
Proof.
  revert s. induction ms as [|m ms IH]; intros s; [constructor|].
  rewrite run_cons; simpl. rewrite outs_app.
  destruct (selects b s m) as [-> | ->]; [|destruct b]; simpl; by constructor.
Qed.

(** With a subscriber, a filter neither loses nor duplicates a message. *)
Lemma run_selects_partition `{!Selects S} s ms :
  outs (run true s ms).2 ++ drops (run true s ms).2 ≡ₚ ms.
Proof.
  revert s. induction ms as [|m ms IH]; intros s; [done|].
  rewrite run_cons; simpl. rewrite outs_app, drops_app.
  destruct (selects true s m) as [-> | ->]; simpl.
  - by rewrite IH.
  - by rewrite <- Permutation_middle, IH.
Qed.
End run.

(** ** Bodies that can panic

    A body that indexes or dereferences without a check returns a [result];
    the first panic ends the loop (and the process). *)
Class PartialSegment (S : Type) : Type :=
  seg_try : bool -> S -> EnrichedFlow -> result (S * list emit).
#[global] Hint Mode PartialSegment ! : typeclass_instances.

Section run_try.
Context {S : Type} `{PartialSegment S}.

(** The sends made before the loop ends, and how it ends. *)
Fixpoint run_try (b : bool) (s : S) (ms : list EnrichedFlow) : list emit * result S :=
  match ms with
  | [] => ([], Ok s)
  | m :: ms =>
      match seg_try b s m with
      | Ok (s', es) => let r := run_try b s' ms in (es ++ r.1, r.2)
      | Err e => ([], Err e)
      | Panic => ([], Panic)
      end
  end.

(** A body that never fails on the messages of an input is a total one. *)
Lemma run_try_total `{Segment S} (P : EnrichedFlow -> Prop) b (s : S) ms :
  (forall (s : S) m, P m -> seg_try b s m = Ok (seg_step b s m)) ->
  Forall P ms -> run_try b s ms = ((run b s ms).2, Ok (run b s ms).1).
Proof.
  intros Hok Hms. revert s. induction Hms as [|m ms Hm _ IH]; intros s; [done|].
  rewrite run_cons. cbn [run_try]. rewrite (Hok s m Hm).
  destruct (seg_step b s m) as [s' es]; simpl. by rewrite IH.
Qed.
End run_try.

Create Rewrite HintDb emit_db.
#[export] Hint Rewrite outs_app drops_app : emit_db.

(** ** The registry of segment names *)
Section registry.
Context {T : Type}.

(** [RegisterSegment]: exits the process on a name registered before. *)
Definition RegisterSegment (name : string) (s : T) (reg : gmap string T) : created (gmap string T) :=
  let name := gostrings.ToLower name in
  match reg !! name with
  | Some _ => FatalExit
  | None => Created (<[name := s]> reg)
  end.

(** [LookupSegment]: exits the process on an unknown name. *)
Definition LookupSegment (name : string) (reg : gmap string T) : created T :=
  match reg !! gostrings.ToLower name with
  | Some s => Created s
  | None => FatalExit
  end.

(** The init() functions of the linked packages, in some order. *)
Fixpoint register_all (l : list (string * T)) (reg : gmap string T) : created (gmap string T) :=
  match l with
  | [] => Created reg
  | (name, s) :: l => reg ← RegisterSegment name s reg; register_all l reg
  end.
End registry.
