(* ===== verification/Pipeline.v ===== *)
(** * Pipelines as networks of goroutines ([pipeline/pipeline.go])

    [Pipeline.New] wires the segments with unbuffered channels, [Start] runs
    one goroutine per segment, [Close] closes the first channel and waits for
    all of them.  A running pipeline is a [net]: the goroutines, the messages
    still to be written to [In], the closed channels, and what the readers of
    [Out] ([AutoDrain]) and of the drop channel have received.  [step] is the
    interleaving semantics: a send and the matching receive are one step.

    [work] and [rest] are the specification: how many steps a network still
    takes, and what it still delivers. *)

From stdpp Require Import prelude strings list gmap relations.
From Stdlib Require Import ZArith Lia.
From S2P Require Import Prelude GoStd EnrichedFlow Segment.

(** ** Segments without configuration *)

(** [segments/pass/pass.go] *)
Inductive Pass : Type := mkPass.
#[export] Instance Pass_segment : Segment Pass :=
  {| seg_filter := false; seg_step := fun _ s msg => (s, [EOut msg]) |}.

(** [segments/filter/drop/drop.go] *)
Inductive Drop : Type := mkDrop.
#[export] Instance Drop_segment : Segment Drop :=
  {| seg_filter := true; seg_step := fun sub s msg => (s, to_drops sub msg) |}.

#[export] Instance Pass_laws : SegmentLaws Pass.
Proof. split; simpl; repeat constructor. Qed.
#[export] Instance Pass_forwards : Forwards Pass.
Proof. intros b s m. by exists m. Qed.
#[export] Instance Drop_laws : SegmentLaws Drop.
Proof. split; simpl; [constructor | done]. Qed.
#[export] Instance Drop_selects : Selects Drop.
Proof. by right. Qed.

(** ** Goroutines *)

(** A segment type packed with its [Run] body. *)
Record machine := mkmachine {
  mst : Type;
  mfilter : bool;
  mstep : bool -> mst -> EnrichedFlow -> mst * list emit;
}.
Definition pack (S : Type) `{Segment S} : machine :=
  {| mst := S; mfilter := seg_filter S; mstep := seg_step |}.

(** A goroutine executing [Run]: its receiver's state, the sends of the
    current iteration still to be made, whether it has returned, whether
    [Drops] is non-nil, and the channels [Rewire] gave it. *)
Record proc := mkproc {
  pm : machine;
  pst : mst pm;
  ppend : list emit;
  pdone : bool;
  psub : bool;
  pin : nat;
  pout : nat;
}.

Definition new_proc (S : Type) `{Segment S} (s : S) : proc :=
  {| pm := pack S; pst := s; ppend := []; pdone := false; psub := false; pin := 0; pout := 0 |}.

(** [BaseSegment.Rewire] *)
Definition Rewire (cin cout : nat) (p : proc) : proc :=
  {| pm := pm p; pst := pst p; ppend := ppend p; pdone := pdone p; psub := psub p;
     pin := cin; pout := cout |}.
(** [BaseFilterSegment.SubscribeDrops], called when the type assertion succeeds. *)
Definition SubscribeDrops (p : proc) : proc :=
  {| pm := pm p; pst := pst p; ppend := ppend p; pdone := pdone p; psub := psub p || mfilter (pm p);
     pin := pin p; pout := pout p |}.

Definition ready (p : proc) : bool := negb (pdone p) && match ppend p with [] => true | _ => false end.

Definition run_m (m : machine) (b : bool) : mst m -> list EnrichedFlow -> mst m * list emit :=
  @run (mst m) {| seg_filter := mfilter m; seg_step := mstep m |} b.

Definition receive (msg : EnrichedFlow) (p : proc) : proc :=
  let r := mstep (pm p) (psub p) (pst p) msg in
  {| pm := pm p; pst := r.1; ppend := r.2; pdone := pdone p; psub := psub p;
     pin := pin p; pout := pout p |}.
Definition sent (es : list emit) (p : proc) : proc :=
  {| pm := pm p; pst := pst p; ppend := es; pdone := pdone p; psub := psub p;
     pin := pin p; pout := pout p |}.
Definition finish (p : proc) : proc :=
  {| pm := pm p; pst := pst p; ppend := ppend p; pdone := true; psub := psub p;
     pin := pin p; pout := pout p |}.

(** ** Pipelines *)

(** An element of [SegmentList]: a plain segment or a [ParallelizedSegment]
    holding several instances. *)
Inductive seg : Type := Single (p : proc) | ParallelizedSegment (ps : list proc).

(** [Rewire] of a wrapper rewires every nested segment to the same channels. *)
Definition seg_rewire (cin cout : nat) (s : seg) : seg :=
  match s with
  | Single p => Single (Rewire cin cout p)
  | ParallelizedSegment ps => ParallelizedSegment (Rewire cin cout <$> ps)
  end.
(** The body of the loop of [GetDrop].  The method of this name of
    [ParallelizedSegment] takes a [chan], the interface [FilterSegment] a
    [chan<-]: the wrapper does not implement the interface, the type assertion
    fails, and the nested segments are left alone. *)
Definition seg_subscribe (s : seg) : seg :=
  match s with
  | Single p => Single (SubscribeDrops p)
  | ParallelizedSegment ps => ParallelizedSegment ps
  end.
(** The goroutines started by [Run]. *)
Definition seg_procs (s : seg) : list proc :=
  match s with Single p => [p] | ParallelizedSegment ps => ps end.

Record pipeline := mkPipeline {
  In_ : nat;
  Out : nat;
  Drop_ : bool;
  SegmentList : list seg;
}.

(** The loop of [New] over [segmentList], [i] being the loop index. *)
Fixpoint rewire_all (i : nat) (segmentList : list (option seg)) : option (list seg) :=
  match segmentList with
  | [] => Some []
  | None :: _ => None
  | Some s :: l => cons (seg_rewire i (S i) s) <$> rewire_all (S i) l
  end.

(** [New]: nil when a segment is nil; a single [pass] when there is none. *)
Definition New (segmentList : list (option seg)) : option pipeline :=
  let segmentList := match segmentList with
                     | [] => [Some (Single (new_proc Pass mkPass))] | _ => segmentList end in
  l ← rewire_all 0 segmentList;
  Some {| In_ := 0; Out := length segmentList; Drop_ := false; SegmentList := l |}.

Definition GetInput (p : pipeline) : nat := In_ p.
Definition GetOutput (p : pipeline) : nat := Out p.
Definition GetDrop (p : pipeline) : pipeline :=
  if Drop_ p then p
  else {| In_ := In_ p; Out := Out p; Drop_ := true;
          SegmentList := seg_subscribe <$> SegmentList p |}.

(** ** Running networks *)
Record net := mknet {
  nprocs : list proc;
  ninput : list EnrichedFlow;
  nin : nat;
  nout : nat;
  nclosed : gset nat;
  noutput : list EnrichedFlow;
  ndropped : list EnrichedFlow;
}.

(** [Start]: one goroutine per segment; [ms] is what will be written to [In]. *)
Definition Start (p : pipeline) (ms : list EnrichedFlow) : net :=
  {| nprocs := mjoin (seg_procs <$> SegmentList p); ninput := ms; nin := In_ p; nout := Out p;
     nclosed := ∅; noutput := []; ndropped := [] |}.

Inductive step : net -> net -> Prop :=
  | step_feed n j q m ms :
      ninput n = m :: ms -> nin n ∉ nclosed n ->
      nprocs n !! j = Some q -> ready q = true -> pin q = nin n ->
      step n {| nprocs := <[j := receive m q]> (nprocs n); ninput := ms; nin := nin n; nout := nout n;
                nclosed := nclosed n; noutput := noutput n; ndropped := ndropped n |}
  (* Close: close(pipeline.In) *)
  | step_close n :
      ninput n = [] -> nin n ∉ nclosed n ->
      step n {| nprocs := nprocs n; ninput := []; nin := nin n; nout := nout n;
                nclosed := {[ nin n ]} ∪ nclosed n; noutput := noutput n; ndropped := ndropped n |}
  (* a send on Out met by the receive of another segment *)
  | step_pass n i p j q m es :
      nprocs n !! i = Some p -> ppend p = EOut m :: es -> pout p ∉ nclosed n ->
      nprocs n !! j = Some q -> ready q = true -> pin q = pout p ->
      step n {| nprocs := <[j := receive m q]> (<[i := sent es p]> (nprocs n)); ninput := ninput n;
                nin := nin n; nout := nout n;
                nclosed := nclosed n; noutput := noutput n; ndropped := ndropped n |}
  (* a send on the pipeline's Out met by its reader *)
  | step_out n i p m es :
      nprocs n !! i = Some p -> ppend p = EOut m :: es -> pout p ∉ nclosed n -> pout p = nout n ->
      step n {| nprocs := <[i := sent es p]> (nprocs n); ninput := ninput n;
                nin := nin n; nout := nout n;
                nclosed := nclosed n; noutput := noutput n ++ [m]; ndropped := ndropped n |}
  (* a send on Drops met by its reader *)
  | step_drop n i p m es :
      nprocs n !! i = Some p -> ppend p = EDrop m :: es ->
      step n {| nprocs := <[i := sent es p]> (nprocs n); ninput := ninput n;
                nin := nin n; nout := nout n;
                nclosed := nclosed n; noutput := noutput n; ndropped := ndropped n ++ [m] |}
  (* In is closed: the loop ends and the deferred close(segment.Out) runs *)
  | step_eof n j q :
      nprocs n !! j = Some q -> ready q = true -> pin q ∈ nclosed n -> pout q ∉ nclosed n ->
      step n {| nprocs := <[j := finish q]> (nprocs n); ninput := ninput n; nin := nin n; nout := nout n;
                nclosed := {[ pout q ]} ∪ nclosed n; noutput := noutput n; ndropped := ndropped n |}.

(** Some goroutine's next action panics: close of a closed channel or send on
    a closed channel. *)
Definition panics (n : net) : Prop :=
  exists j q, nprocs n !! j = Some q /\ pout q ∈ nclosed n /\
    ((ready q = true /\ pin q ∈ nclosed n) \/ exists m es, ppend q = EOut m :: es).

(** The wait group's counter is the number of goroutines that have not
    returned, so [Close] returns once all have. *)
Definition wg_count (n : net) : nat := length (List.filter (fun p => negb (pdone p)) (nprocs n)).
Definition closed_down (n : net) : Prop := nin n ∈ nclosed n /\ wg_count n = O.

(** ** What a network still delivers *)

(** The sends a goroutine still makes when it receives [ms]. *)
Definition sends (p : proc) (ms : list EnrichedFlow) : list emit :=
  if pdone p then [] else ppend p ++ (run_m (pm p) (psub p) (pst p) ms).2.

(** The chain of segments applied to [ms]: messages leaving the last one, and
    messages dropped on the way. *)
Fixpoint rest (ps : list proc) (ms : list EnrichedFlow) : list EnrichedFlow * list EnrichedFlow :=
  match ps with
  | [] => (ms, [])
  | p :: ps =>
      let es := sends p ms in
      let r := rest ps (outs es) in
      (r.1, drops es ++ r.2)
  end.

(** The communications inside the chain: every message received, every drop,
    and the end of every loop. *)
Fixpoint work (ps : list proc) (ms : list EnrichedFlow) : nat :=
  match ps with
  | [] => 0
  | p :: ps =>
      let es := sends p ms in
      (length ms + (if pdone p then 0 else 1) + length (drops es) + work ps (outs es))%nat
  end.

Definition to_go (n : net) : nat :=
  ((if decide (nin n ∈ nclosed n) then 0 else 1) + work (nprocs n) (ninput n)
   + length (rest (nprocs n) (ninput n)).1)%nat.
Definition delivered (n : net) : list EnrichedFlow := noutput n ++ (rest (nprocs n) (ninput n)).1.
Definition discarded (n : net) : list EnrichedFlow := ndropped n ++ (rest (nprocs n) (ninput n)).2.

Lemma rest_app l r ms :
  rest (l ++ r) ms = ((rest r (rest l ms).1).1, (rest l ms).2 ++ (rest r (rest l ms).1).2).
Proof.
  revert ms. induction l as [|p l IH]; intros ms; simpl; [by destruct (rest r ms)|].
  rewrite IH; simpl. by rewrite app_assoc.
Qed.

Lemma work_app l r ms : work (l ++ r) ms = (work l ms + work r (rest l ms).1)%nat.
Proof. revert ms. induction l as [|p l IH]; intros ms; simpl; [done|]. rewrite IH. lia. Qed.

Lemma run_m_cons m b s x ms :
  (run_m m b s (x :: ms)).2 = (mstep m b s x).2 ++ (run_m m b (mstep m b s x).1 ms).2.
Proof. unfold run_m. by rewrite run_cons. Qed.

Lemma ready_spec q : ready q = true <-> pdone q = false /\ ppend q = [].
Proof. unfold ready. destruct (pdone q), (ppend q); simpl; intuition congruence. Qed.

Lemma sends_receive q m ms : ready q = true -> sends q (m :: ms) = sends (receive m q) ms.
Proof.
  intros [Hd Hp]%ready_spec. unfold sends. change (pdone (receive m q)) with (pdone q).
  rewrite Hd, Hp, run_m_cons. done.
Qed.

Lemma sends_sent p e es ms : pdone p = false -> ppend p = e :: es -> sends p ms = e :: sends (sent es p) ms.
Proof. unfold sends, sent. intros -> ->; simpl. done. Qed.

Lemma sends_finish q : ready q = true -> sends q [] = [] /\ sends (finish q) [] = [].
Proof. intros [Hd Hp]%ready_spec. unfold sends, finish; simpl. by rewrite Hd, Hp. Qed.

(** Replacing an inner part of the chain by one with the same results. *)
Lemma chain_replace l a b r ms d k :
  let i := (rest l ms).1 in
  (rest a i).1 = (rest b i).1 -> (rest a i).2 ≡ₚ d ++ (rest b i).2 -> work a i = (k + work b i)%nat ->
  (rest (l ++ a ++ r) ms).1 = (rest (l ++ b ++ r) ms).1 /\
  (rest (l ++ a ++ r) ms).2 ≡ₚ d ++ (rest (l ++ b ++ r) ms).2 /\
  work (l ++ a ++ r) ms = (k + work (l ++ b ++ r) ms)%nat.
Proof.
  intros i H1 H2 H3. rewrite !rest_app, !work_app; simpl.
  fold i. rewrite H1, H2, H3. split_and!; [done| |lia].
  rewrite !app_assoc. by rewrite (Permutation_app_comm d).
Qed.

(** ** Linear pipelines *)

(** The goroutine at position [i] reads channel [i] and writes channel
    [S i]; the closed channels are the first [k]. *)
Definition slot (k i : nat) (p : proc) : Prop :=
  pin p = i /\ pout p = S i /\ pdone p = (S i <? k)%nat /\ (pdone p = true -> ppend p = []).
Definition chain (k : nat) (ps : list proc) : Prop := forall i p, ps !! i = Some p -> slot k i p.

Record linear (k : nat) (n : net) : Prop := {
  lin_chain : chain k (nprocs n);
  lin_nonempty : nprocs n <> [];
  lin_in : nin n = O;
  lin_out : nout n = length (nprocs n);
  lin_closed : forall c, c ∈ nclosed n <-> (c < k)%nat;
  lin_bound : (k <= S (length (nprocs n)))%nat;
  lin_input : (0 < k)%nat -> ninput n = [];
}.

Lemma chain_insert k ps i p p' :
  chain k ps -> ps !! i = Some p -> slot k i p' -> chain k (<[i := p']> ps).
Proof.
  intros Hc Hi Hp j q. destruct (decide (i = j)) as [<-|Hne].
  - rewrite list_lookup_insert_eq by (by eapply lookup_lt_Some). by intros [= <-].
  - rewrite list_lookup_insert_ne by done. apply Hc.
Qed.

Lemma slot_sent k i p e es : slot k i p -> ppend p = e :: es -> slot k i (sent es p).
Proof. intros (?&?&Hd&Hp) E. repeat split; simpl; auto. intros Hdone. specialize (Hp Hdone). congruence. Qed.

Lemma slot_receive k i q m : slot k i q -> ready q = true -> slot k i (receive m q).
Proof.
  intros (?&?&?&?) [Hd Hp]%ready_spec. repeat split; simpl; auto. rewrite Hd. done.
Qed.

Lemma slot_pending k i p e es : slot k i p -> ppend p = e :: es -> pdone p = false.
Proof. intros (_&_&_&Hp) E. destruct (pdone p); [|done]. rewrite Hp in E; done. Qed.

(** All goroutines of a prefix of the chain have returned. *)
Lemma rest_done l : Forall (fun p => pdone p = true) l -> rest l [] = ([], []) /\ work l [] = O.
Proof.
  induction 1 as [|p l Hp _ [IH1 IH2]]; simpl; [done|].
  unfold sends. rewrite Hp; simpl. by rewrite IH1, IH2.
Qed.

Lemma chain_take_done k ps j : chain k ps -> (j < k)%nat -> Forall (fun p => pdone p = true) (take j ps).
Proof.
  intros Hc Hj. apply Forall_lookup. intros i p [Hi Hlt]%lookup_take_Some.
  destruct (Hc _ _ Hi) as (_&_&->&_). apply Nat.ltb_lt. lia.
Qed.

(** One step of a linear pipeline: it stays linear, what it will have
    delivered is unchanged, and exactly one unit of work is gone. *)
Definition advances (n n' : net) : Prop :=
  (exists k, linear k n') /\ length (nprocs n') = length (nprocs n) /\
  delivered n' = delivered n /\ discarded n' ≡ₚ discarded n /\ to_go n = S (to_go n').

Lemma chain_length_replace (l a b r : list proc) : length a = length b ->
  length (l ++ a ++ r) = length (l ++ b ++ r).
Proof. intros H. rewrite !length_app. lia. Qed.

(** Steps that change one inner part [a] of the chain into [b], dropping [d]. *)
Lemma advances_replace k n l a b r d :
  linear k n -> nprocs n = l ++ a ++ r -> length a = length b -> chain k (l ++ b ++ r) ->
  let i := (rest l (ninput n)).1 in
  (rest a i).1 = (rest b i).1 -> (rest a i).2 ≡ₚ d ++ (rest b i).2 -> work a i = S (work b i) ->
  advances n {| nprocs := l ++ b ++ r; ninput := ninput n; nin := nin n; nout := nout n;
                nclosed := nclosed n; noutput := noutput n; ndropped := ndropped n ++ d |}.
Proof.
  intros [] E Hab Hch i H1 H2 H3.
  destruct (chain_replace l a b r (ninput n) d 1 H1 H2 H3) as (R1 & R2 & R3).
  pose proof (chain_length_replace l a b r Hab) as HL. rewrite <- E in HL, R1, R2, R3.
  split_and!; simpl.
  - exists k. split; simpl; rewrite <- ?HL; auto.
    intros Hnil. rewrite Hnil in HL. by destruct (nprocs n).
  - done.
  - unfold delivered; simpl. by rewrite R1.
  - unfold discarded; simpl. by rewrite <- app_assoc, <- R2.
  - unfold to_go; simpl. rewrite R1, R3. lia.
Qed.

Lemma lookup_split {A} (l : list A) i x : l !! i = Some x -> l = take i l ++ [x] ++ drop (S i) l.
Proof. intros H. symmetry. by apply take_drop_middle. Qed.

Lemma insert_split {A} (l : list A) i x y :
  l !! i = Some x -> <[i := y]> l = take i l ++ [y] ++ drop (S i) l.
Proof. intros H. rewrite insert_take_drop; [done|]. by eapply lookup_lt_Some. Qed.

Lemma step_drop_advances k n i p m es :
  linear k n -> nprocs n !! i = Some p -> ppend p = EDrop m :: es ->
  advances n {| nprocs := <[i := sent es p]> (nprocs n); ninput := ninput n;
                nin := nin n; nout := nout n;
                nclosed := nclosed n; noutput := noutput n; ndropped := ndropped n ++ [m] |}.
Proof.
  intros Hl Hi Hp. pose proof (lin_chain _ _ Hl _ _ Hi) as Hs.
  pose proof (slot_pending _ _ _ _ _ Hs Hp) as Hd.
  pose proof (chain_insert _ _ _ _ _ (lin_chain _ _ Hl) Hi (slot_sent _ _ _ _ _ Hs Hp)) as Hc.
  rewrite (insert_split _ _ _ _ Hi) in Hc |- *.
  apply (advances_replace k n _ [p]); [done|by apply lookup_split|done|done|..]; simpl;
    rewrite (sends_sent _ _ _ _ Hd Hp); simpl; [done..|]. rewrite Hd. lia.
Qed.

Lemma step_pass_advances k n i p j q m es :
  linear k n -> nprocs n !! i = Some p -> ppend p = EOut m :: es ->
  nprocs n !! j = Some q -> ready q = true -> pin q = pout p ->
  advances n {| nprocs := <[j := receive m q]> (<[i := sent es p]> (nprocs n)); ninput := ninput n;
                nin := nin n; nout := nout n;
                nclosed := nclosed n; noutput := noutput n; ndropped := ndropped n |}.
Proof.
  intros Hl Hi Hp Hj Hq Hio.
  pose proof (lin_chain _ _ Hl _ _ Hi) as Hs. pose proof (lin_chain _ _ Hl _ _ Hj) as Hsq.
  pose proof (slot_pending _ _ _ _ _ Hs Hp) as Hd.
  assert (j = S i) as -> by (destruct Hs as (_&?&_), Hsq as (?&_); congruence).
  pose proof (chain_insert _ _ _ _ _ (lin_chain _ _ Hl) Hi (slot_sent _ _ _ _ _ Hs Hp)) as Hc.
  pose proof (chain_insert _ _ _ _ _ Hc (eq_trans (list_lookup_insert_ne _ i (S i) _ ltac:(lia)) Hj)
                (slot_receive _ _ _ m Hsq Hq)) as Hc'.
  assert (nprocs n = take i (nprocs n) ++ [p; q] ++ drop (S (S i)) (nprocs n)) as E.
  { rewrite (lookup_split _ _ _ Hi) at 1. f_equal. simpl. f_equal. by erewrite drop_S. }
  assert (<[S i := receive m q]> (<[i := sent es p]> (nprocs n))
          = take i (nprocs n) ++ [sent es p; receive m q] ++ drop (S (S i)) (nprocs n)) as E'.
  { rewrite (insert_split _ _ _ _ Hi). assert (length (take i (nprocs n)) = i) as Hlen.
    { apply length_take_le. apply lookup_lt_Some in Hi. lia. }
    rewrite insert_app_r_alt by lia. rewrite Hlen. replace (S i - i)%nat with 1%nat by lia.
    f_equal. erewrite (drop_S _ q) by done. done. }
  rewrite E' in Hc' |- *. rewrite <- (app_nil_r (ndropped n)).
  apply (advances_replace k n _ [p; q]); [done|done|done|done|..]; simpl;
    rewrite (sends_sent _ _ _ _ Hd Hp); simpl; rewrite (sends_receive _ _ _ Hq); [done..|].
  rewrite Hd. simpl. lia.
Qed.

Lemma step_feed_advances k n j q m ms :
  linear k n -> ninput n = m :: ms -> nprocs n !! j = Some q -> ready q = true -> pin q = nin n ->
  advances n {| nprocs := <[j := receive m q]> (nprocs n); ninput := ms; nin := nin n; nout := nout n;
                nclosed := nclosed n; noutput := noutput n; ndropped := ndropped n |}.
Proof.
  intros Hl Hms Hj Hq Hin. pose proof (lin_chain _ _ Hl _ _ Hj) as Hs.
  assert (j = O) as -> by (destruct Hs as (?&_); rewrite <- (lin_in _ _ Hl); congruence).
  pose proof (chain_insert _ _ _ _ _ (lin_chain _ _ Hl) Hj (slot_receive _ _ _ m Hs Hq)) as Hc.
  destruct Hl. destruct (nprocs n) as [|q' r] eqn:E; [done|]. injection Hj as ->. simpl in *.
  split_and!; unfold delivered, discarded, to_go; simpl; rewrite ?Hms, ?E; simpl;
    rewrite ?(sends_receive _ _ _ Hq); try done.
  - exists k. split; simpl; auto. rewrite Hms in lin_input0. intros Hk. by specialize (lin_input0 Hk).
  - rewrite (proj1 (proj1 (ready_spec _) Hq)). lia.
Qed.

Lemma elem_of_new (c : nat) (X : gset nat) : c ∈ ({[ c ]} ∪ X).
Proof. apply elem_of_union_l, elem_of_singleton_2. done. Qed.

Lemma step_close_advances k n :
  linear k n -> ninput n = [] -> nin n ∉ nclosed n ->
  advances n {| nprocs := nprocs n; ninput := []; nin := nin n; nout := nout n;
                nclosed := {[ nin n ]} ∪ nclosed n; noutput := noutput n; ndropped := ndropped n |}.
Proof.
  intros [] Hms Hcl. assert (k = O) as -> by (rewrite lin_closed0, lin_in0 in Hcl; lia).
  split_and!; unfold delivered, discarded, to_go; simpl; rewrite ?Hms; try done.
  - exists 1%nat. split; simpl; auto; [|lia].
    intros c. rewrite elem_of_union, elem_of_singleton, lin_closed0, lin_in0. lia.
  - rewrite decide_False by done. rewrite decide_True by apply elem_of_new. lia.
Qed.

Lemma step_out_advances k n i p m es :
  linear k n -> nprocs n !! i = Some p -> ppend p = EOut m :: es -> pout p = nout n ->
  advances n {| nprocs := <[i := sent es p]> (nprocs n); ninput := ninput n;
                nin := nin n; nout := nout n;
                nclosed := nclosed n; noutput := noutput n ++ [m]; ndropped := ndropped n |}.
Proof.
  intros Hl Hi Hp Hout. pose proof (lin_chain _ _ Hl _ _ Hi) as Hs.
  pose proof (slot_pending _ _ _ _ _ Hs Hp) as Hd.
  pose proof (chain_insert _ _ _ _ _ (lin_chain _ _ Hl) Hi (slot_sent _ _ _ _ _ Hs Hp)) as Hc.
  assert (S i = length (nprocs n)) as Hlen
    by (destruct Hs as (_&?&_); rewrite <- (lin_out _ _ Hl); congruence).
  rewrite (insert_split _ _ _ _ Hi) in Hc |- *.
  pose proof (lookup_split _ _ _ Hi) as E.
  rewrite drop_ge in E, Hc |- * by lia. rewrite app_nil_r in E, Hc |- *.
  remember (take i (nprocs n)) as l eqn:El. clear El Hi. destruct Hl.
  split_and!; unfold delivered, discarded, to_go; simpl; rewrite E in *;
    rewrite ?rest_app, ?work_app; simpl; rewrite ?(sends_sent _ _ _ _ Hd Hp); simpl; try done.
  - exists k. split; simpl; auto; rewrite ?length_app in *; simpl in *; auto.
    intros []%app_eq_nil. done.
  - by rewrite !length_app.
  - by rewrite <- app_assoc.
Qed.

Lemma step_eof_advances k n j q :
  linear k n -> nprocs n !! j = Some q -> ready q = true -> pin q ∈ nclosed n -> pout q ∉ nclosed n ->
  advances n {| nprocs := <[j := finish q]> (nprocs n); ninput := ninput n; nin := nin n; nout := nout n;
                nclosed := {[ pout q ]} ∪ nclosed n; noutput := noutput n; ndropped := ndropped n |}.
Proof.
  intros Hl Hj Hq Hin Hout. pose proof (lin_chain _ _ Hl _ _ Hj) as (Hqi & Hqo & Hqd & Hqp).
  apply (lin_closed _ _ Hl) in Hin. rewrite (lin_closed _ _ Hl) in Hout. assert (k = S j) as -> by lia.
  assert (chain (S (S j)) (<[j := finish q]> (nprocs n))) as Hc.
  { intros i p Hp. destruct (decide (i = j)) as [->|Hne].
    - rewrite list_lookup_insert_eq in Hp by (by eapply lookup_lt_Some). injection Hp as <-.
      apply ready_spec in Hq as [_ Hq]. repeat split; simpl; auto. symmetry. apply Nat.ltb_lt. lia.
    - rewrite list_lookup_insert_ne in Hp by done.
      destruct (lin_chain _ _ Hl _ _ Hp) as (?&?&Hdn&?). split_and!; try done. rewrite Hdn.
      apply eq_true_iff_eq. rewrite !Nat.ltb_lt. lia. }
  pose proof (lin_input _ _ Hl ltac:(lia)) as Hms.
  destruct (rest_done _ (chain_take_done _ _ j (lin_chain _ _ Hl) ltac:(lia))) as [R0 W0].
  destruct (sends_finish _ Hq) as [S0 S1].
  pose proof (proj1 (proj1 (ready_spec _) Hq)) as Hd.
  rewrite (insert_split _ _ _ _ Hj) in Hc |- *. pose proof (lookup_split _ _ _ Hj) as E.
  remember (take j (nprocs n)) as l eqn:El. remember (drop (S j) (nprocs n)) as r eqn:Er.
  apply lookup_lt_Some in Hj. rewrite E, !length_app in Hj; simpl in Hj. clear El Er. destruct Hl.
  split_and!; unfold delivered, discarded, to_go; simpl; rewrite E in *; rewrite ?Hms;
    rewrite ?rest_app, ?work_app, ?R0, ?W0; simpl; rewrite ?S0, ?S1, ?Hd; simpl; try done.
  - exists (S (S j)). split; simpl; auto; rewrite ?length_app in *; simpl in *; try done; try lia.
    + by destruct l.
    + intros c. rewrite elem_of_union, elem_of_singleton, lin_closed0. lia.
  - by rewrite !length_app.
  - rewrite lin_in0, !decide_True; [lia| |]; rewrite ?elem_of_union, lin_closed0; lia.
Qed.

Lemma linear_step k n n' : linear k n -> step n n' -> advances n n'.
Proof.
  intros Hl Hs. destruct Hs.
  - by eapply step_feed_advances.
  - by eapply step_close_advances.
  - by eapply step_pass_advances.
  - by eapply step_out_advances.
  - by eapply step_drop_advances.
  - by eapply step_eof_advances.
Qed.

Lemma linear_steps k n n' j : linear k n -> nsteps step j n n' ->
  (exists k', linear k' n') /\ length (nprocs n') = length (nprocs n) /\
  delivered n' = delivered n /\ discarded n' ≡ₚ discarded n /\ to_go n = (j + to_go n')%nat.
Proof.
  intros Hl Hs. revert k Hl. induction Hs as [n|j n1 n2 n3 H1 _ IH]; intros k Hl; [eauto 10|].
  destruct (linear_step _ _ _ Hl H1) as ([k' Hl'] & E1 & E2 & E3 & E4).
  destruct (IH _ Hl') as (? & -> & -> & -> & E4'). split_and!; try done. lia.
Qed.

(** A goroutine with a pending send can make progress, or a later one can. *)
Lemma pending_progress k n d i p :
  linear k n -> (i + d = length (nprocs n))%nat -> nprocs n !! i = Some p -> ppend p <> [] ->
  exists n', step n n' /\ nclosed n' = nclosed n.
Proof.
  intros Hl. revert i p. induction d as [|d IH]; intros i p Hd Hi Hp.
  { apply lookup_lt_Some in Hi. lia. }
  pose proof (lin_chain _ _ Hl _ _ Hi) as Hs.
  destruct (ppend p) as [|[m|m] es] eqn:E; [done| |eexists; split; [by eapply step_drop|done]].
  pose proof (slot_pending _ _ _ _ _ Hs E) as Hnd. destruct Hs as (Hpi & Hpo & Hpd & _).
  assert (pout p ∉ nclosed n) as Hncl.
  { rewrite (lin_closed _ _ Hl), Hpo. rewrite Hnd in Hpd. apply Nat.ltb_nlt. done. }
  destruct (nprocs n !! S i) as [q|] eqn:Eq.
  - destruct (ppend q) eqn:Epq; [|eapply (IH (S i) q); [lia|done|congruence]].
    pose proof (lin_chain _ _ Hl _ _ Eq) as (Hqi & _ & Hqd & _).
    eexists. split; [eapply (step_pass n i p (S i) q)|]; eauto; [|congruence].
    apply ready_spec. split; [|done]. rewrite Hqd. apply Nat.ltb_nlt.
    rewrite Hnd in Hpd. symmetry in Hpd. apply Nat.ltb_nlt in Hpd. lia.
  - apply lookup_ge_None in Eq. eexists. split; [eapply step_out|]; eauto.
    rewrite (lin_out _ _ Hl), Hpo. apply lookup_lt_Some in Hi. lia.
Qed.

Lemma closed_down_linear k n : linear k n -> closed_down n <-> k = S (length (nprocs n)).
Proof.
  intros Hl. unfold closed_down, wg_count. rewrite (lin_in _ _ Hl), (lin_closed _ _ Hl). split.
  - intros [Hk H0]. destruct (decide (k = S (length (nprocs n)))) as [|Hne]; [done|exfalso].
    pose proof (lin_bound _ _ Hl). assert (k - 1 < length (nprocs n))%nat as [p Hp]%lookup_lt_is_Some by lia.
    destruct (lin_chain _ _ Hl _ _ Hp) as (_ & _ & Hd & _).
    assert (In p (List.filter (fun p => negb (pdone p)) (nprocs n))) as Hin.
    { apply filter_In. split; [by apply list_elem_of_In, list_elem_of_lookup_2 with (k - 1)%nat|].
      rewrite Hd. apply negb_true_iff, Nat.ltb_nlt. lia. }
    by destruct (List.filter _ _).
  - intros ->. split; [lia|].
    destruct (List.filter _ _) as [|p l] eqn:E; [done|exfalso].
    assert (In p (List.filter (fun p => negb (pdone p)) (nprocs n))) as [Hp Hd]%filter_In
      by (rewrite E; by left).
    apply list_elem_of_In, list_elem_of_lookup in Hp as [i Hi].
    destruct (lin_chain _ _ Hl _ _ Hi) as (_ & _ & Hd' & _). apply lookup_lt_Some in Hi.
    rewrite Hd' in Hd. apply negb_true_iff, Nat.ltb_nlt in Hd. lia.
Qed.

Lemma linear_progress k n : linear k n -> closed_down n \/ exists n', step n n'.
Proof.
  intros Hl. rewrite (closed_down_linear k n Hl).
  destruct (decide (Forall (fun p => ppend p = []) (nprocs n))) as [Hall|Hsome].
  2:{ right. apply not_Forall_Exists in Hsome; [|intros p; destruct (ppend p); [by left|by right]].
      apply Exists_exists in Hsome as (p & [i Hi]%list_elem_of_lookup & Hp).
      destruct (pending_progress k n (length (nprocs n) - i) i p Hl) as (n' & Hs & _); [|done..|by exists n'].
    apply lookup_lt_Some in Hi. lia. }
  rewrite Forall_lookup in Hall. pose proof (lin_bound _ _ Hl).
  destruct (decide (k = S (length (nprocs n)))) as [|Hne]; [by left|right].
  assert (k - 1 < length (nprocs n))%nat as [q Hq]%lookup_lt_is_Some.
  { pose proof (lin_nonempty _ _ Hl). destruct (nprocs n); simpl in *; [done|lia]. }
  pose proof (lin_chain _ _ Hl _ _ Hq) as (Hqi & Hqo & Hqd & _).
  assert (ready q = true) as Hr.
  { apply ready_spec. split; [|by eapply Hall]. rewrite Hqd. apply Nat.ltb_nlt. lia. }
  destruct k as [|k].
  - assert (nin n ∉ nclosed n) as Hncl by (rewrite (lin_in _ _ Hl), (lin_closed _ _ Hl); lia).
    destruct (ninput n) as [|m ms] eqn:E; [eexists; by eapply step_close|].
    eexists. eapply step_feed; eauto. by rewrite Hqi, (lin_in _ _ Hl).
  - eexists. eapply (step_eof n (S k - 1)); eauto; rewrite (lin_closed _ _ Hl); lia.
Qed.

Lemma linear_safe k n : linear k n -> ~ panics n.
Proof.
  intros Hl (j & q & Hj & Hout & Hcase). apply (lin_closed _ _ Hl) in Hout.
  destruct (lin_chain _ _ Hl _ _ Hj) as (Hqi & Hqo & Hqd & Hqp).
  assert (pdone q = true) as Hd by (rewrite Hqd; apply Nat.ltb_lt; lia).
  destruct Hcase as [[[Hr _]%ready_spec _] | (m & es & E)]; [congruence|].
  rewrite Hqp in E; done.
Qed.

Lemma closed_down_rest k n : linear k n -> closed_down n ->
  delivered n = noutput n /\ discarded n = ndropped n /\ to_go n = O.
Proof.
  intros Hl Hc. pose proof Hc as Hk. apply (closed_down_linear k n Hl) in Hk as ->.
  pose proof (chain_take_done _ _ (length (nprocs n)) (lin_chain _ _ Hl) ltac:(lia)) as Hd.
  rewrite take_ge in Hd by done. destruct (rest_done _ Hd) as [R W].
  pose proof (lin_input _ _ Hl ltac:(lia)) as Hms.
  unfold delivered, discarded, to_go. rewrite Hms, R, W, !app_nil_r.
  rewrite decide_True by apply Hc. done.
Qed.

(** ** [New] builds linear pipelines *)

Definition fresh (p : proc) : Prop := ppend p = [] /\ pdone p = false.

(** The list [New] works on, and the same with [SubscribeDrops] done. *)
Definition effective (ps : list proc) : list proc :=
  match ps with [] => [new_proc Pass mkPass] | _ => ps end.
Definition subscribed (b : bool) (ps : list proc) : list proc :=
  if b then SubscribeDrops <$> ps else ps.

Lemma rewire_all_single i ps :
  rewire_all i ((fun p => Some (Single p)) <$> ps)
  = Some (Single <$> imap (fun j => Rewire (i + j) (S (i + j))) ps).
Proof.
  revert i. induction ps as [|p ps IH]; intros i; [done|]. simpl. rewrite IH; simpl.
  rewrite Nat.add_0_r. do 3 f_equal. apply imap_ext. intros j q _; simpl. by rewrite Nat.add_succ_r.
Qed.

Lemma New_single ps :
  New ((fun p => Some (Single p)) <$> ps)
  = Some {| In_ := 0; Out := length (effective ps); Drop_ := false;
            SegmentList := Single <$> imap (fun j => Rewire j (S j)) (effective ps) |}.
Proof.
  destruct ps as [|p ps]; [done|]. unfold New.
  change ((fun p => Some (Single p)) <$> p :: ps) with (Some (Single p) :: ((fun p => Some (Single p)) <$> ps)).
  cbv iota. change (Some (Single p) :: ((fun p => Some (Single p)) <$> ps))
    with ((fun p => Some (Single p)) <$> p :: ps).
  rewrite rewire_all_single. simpl. by rewrite length_fmap.
Qed.

Lemma procs_single ps : mjoin (seg_procs <$> (Single <$> ps)) = ps.
Proof. induction ps as [|p ps IH]; [done|]. simpl. f_equal. apply IH. Qed.

Lemma subscribe_single f ps :
  seg_subscribe <$> (Single <$> imap (fun j => Rewire (f j) (S (f j))) ps)
  = Single <$> imap (fun j => Rewire (f j) (S (f j))) (SubscribeDrops <$> ps).
Proof.
  revert f. induction ps as [|p ps IH]; intros f; [done|]. simpl. f_equal.
  apply (IH (fun j => f (S j))).
Qed.

(** [GetDrop] before [Start], when somebody asks for the drops. *)
Definition with_drops (b : bool) (p : pipeline) : pipeline := if b then GetDrop p else p.

Lemma start_procs b ps p ms :
  New ((fun p => Some (Single p)) <$> ps) = Some p ->
  Start (with_drops b p) ms =
  {| nprocs := imap (fun j => Rewire j (S j)) (subscribed b (effective ps)); ninput := ms;
     nin := 0; nout := length (effective ps); nclosed := ∅; noutput := []; ndropped := [] |}.
Proof.
  rewrite New_single. intros [= <-]. unfold Start, with_drops, GetDrop, subscribed.
  destruct b; cbn [SegmentList In_ Out Drop_]; f_equal; [|by rewrite procs_single].
  by rewrite (subscribe_single (fun j => j)), procs_single.
Qed.

Lemma rest_rewired f ps ms :
  rest (imap (fun j => Rewire (f j) (S (f j))) ps) ms = rest ps ms /\
  work (imap (fun j => Rewire (f j) (S (f j))) ps) ms = work ps ms.
Proof.
  revert f ms. induction ps as [|p ps IH]; intros f ms; [done|]. simpl.
  change (sends (Rewire (f 0%nat) (S (f 0%nat)) p) ms) with (sends p ms).
  destruct (IH (fun j => f (S j)) (outs (sends p ms))) as [E1 E2].
  unfold compose. rewrite E1, E2. done.
Qed.

Lemma start_linear b ps p ms :
  Forall fresh ps -> New ((fun p => Some (Single p)) <$> ps) = Some p ->
  linear 0 (Start (with_drops b p) ms).
Proof.
  intros Hf HN. rewrite (start_procs _ _ _ _ HN).
  assert (Forall fresh (subscribed b (effective ps))) as Hf'.
  { assert (Forall fresh (effective ps)) by (destruct ps; [by repeat constructor|done]).
    unfold subscribed. destruct b; [|done]. apply Forall_fmap. by eapply Forall_impl. }
  assert (length (subscribed b (effective ps)) = length (effective ps)) as HL
    by (unfold subscribed; destruct b; by rewrite ?length_fmap).
  split; simpl; rewrite ?length_imap; try done; try lia; [| |set_solver by lia].
  - intros i q Hq. rewrite list_lookup_imap in Hq.
    destruct (_ !! i) as [q'|] eqn:E; simpl in Hq; [|done]. injection Hq as <-.
    rewrite Forall_lookup in Hf'. destruct (Hf' _ _ E) as [Hp Hd]. by split_and!.
  - intros Hnil. apply (f_equal length) in Hnil. rewrite length_imap, HL in Hnil. by destruct ps.
Qed.

(** ** The theorems *)
Section theorems.
Variables (ps : list proc) (sub : bool) (p : pipeline) (ms : list EnrichedFlow).
Hypothesis Hfresh : Forall fresh ps.
Hypothesis Hnew : New ((fun q => Some (Single q)) <$> ps) = Some p.
Let start := Start (with_drops sub p) ms.
Let spec := rest (subscribed sub (effective ps)) ms.

Lemma start_results : delivered start = spec.1 /\ discarded start = spec.2.
Proof using Hnew.
  unfold start, delivered, discarded. rewrite (start_procs _ _ _ _ Hnew); simpl.
  by rewrite (proj1 (rest_rewired (fun j => j) _ _)).
Qed.

(** What a reachable network has delivered and will deliver. *)
Lemma run_results n : rtc step start n ->
  (exists k, linear k n) /\ delivered n = spec.1 /\ discarded n ≡ₚ spec.2.
Proof using Hfresh Hnew.
  intros [j Hn]%rtc_nsteps.
  destruct (linear_steps _ _ _ _ (start_linear sub ps p ms Hfresh Hnew) Hn) as (Hk & _ & E1 & E2 & _).
  destruct start_results as [<- <-]. done.
Qed.
Lemma closed_results n : rtc step start n -> closed_down n -> noutput n = spec.1 /\ ndropped n ≡ₚ spec.2.
Proof using Hfresh Hnew.
  intros ([k Hk] & <- & <-)%run_results Hc. by destruct (closed_down_rest _ _ Hk Hc) as (<- & <- & _).
Qed.

(** C2. Whatever the interleaving, a pipeline that has been closed down has
    delivered on Out exactly the composition of its segments' [Run]
    functions on the messages written to In, in that order, and its drop
    channel has received exactly the messages the composition drops. *)
Theorem pipeline_delivers : forall n,
  rtc step start n -> closed_down n -> noutput n = spec.1 /\ ndropped n ≡ₚ spec.2.
Proof using Hfresh Hnew.
  apply closed_results.
Qed.

(** At any moment, what has left the pipeline is a prefix of what it
    will deliver in the end: messages are never reordered, duplicated or
    invented on the way. *)
Theorem pipeline_in_order : forall n, rtc step start n -> noutput n `prefix_of` spec.1.
Proof using Hfresh Hnew.
  intros n (_ & <- & _)%run_results. by eexists.
Qed.

(** C3. [Close] returns: every run is finite, its length being at most
    [to_go start]; a network that has not been closed down can always take
    a step, so no schedule deadlocks and every schedule ends closed down,
    after exactly [to_go start] steps. *)
Theorem pipeline_close_terminates : forall n j,
  nsteps step j start n ->
  (j <= to_go start)%nat /\
  ((exists n', step n n') \/ (closed_down n /\ j = to_go start)).
Proof using Hfresh Hnew.
  intros n j Hn.
  destruct (linear_steps _ _ _ _ (start_linear sub ps p ms Hfresh Hnew) Hn)
    as ([k Hk] & _ & _ & _ & E). fold start in E. split; [lia|].
  destruct (linear_progress _ _ Hk) as [Hc|]; [right|by left].
  destruct (closed_down_rest _ _ Hk Hc) as (_ & _ & E0). split; [done|lia].
Qed.

(** C18. No goroutine of a pipeline of plain segments ever sends on a closed
    channel or closes a channel twice. *)
Theorem pipeline_never_panics : forall n, rtc step start n -> ~ panics n.
Proof using Hfresh Hnew.
  intros n ([k Hk] & _)%run_results. by eapply linear_safe.
Qed.
End theorems.

(** ** Filters *)

(** A machine whose body forwards a message unchanged or, being a filter, drops it. *)
Definition selecting (m : machine) : Prop :=
  forall b s x, (mstep m b s x).2 = [EOut x] \/ (mfilter m = true /\ (mstep m b s x).2 = to_drops b x).

Lemma pack_selecting (S : Type) `{Segment S} `{!Selects S} : seg_filter S = true -> selecting (pack S).
Proof. intros Hf b s x. destruct (selects b s x); [by left|by right]. Qed.
Lemma Pass_selecting : selecting (pack Pass).
Proof. by left. Qed.

Lemma run_selecting m b s ms : selecting m -> (mfilter m = true -> b = true) ->
  outs (run_m m b s ms).2 ++ drops (run_m m b s ms).2 ≡ₚ ms.
Proof.
  intros Hm Hb. revert s. induction ms as [|x ms IH]; intros s; [done|].
  rewrite run_m_cons, outs_app, drops_app. specialize (IH (mstep m b s x).1). revert IH.
  generalize (run_m m b (mstep m b s x).1 ms).2 as es. intros es IH.
  destruct (Hm b s x) as [-> | [Hf ->]]; [|rewrite (Hb Hf)]; simpl; [by rewrite IH|].
  by rewrite <- Permutation_middle, IH.
Qed.

Lemma rest_selecting ps ms :
  Forall (fun p => fresh p /\ selecting (pm p)) ps ->
  (rest (SubscribeDrops <$> ps) ms).1 ++ (rest (SubscribeDrops <$> ps) ms).2 ≡ₚ ms.
Proof.
  intros H. revert ms. induction H as [|p ps ([Hp Hd] & Hs) _ IH]; intros ms; simpl; [by rewrite app_nil_r|].
  rewrite (Permutation_app_comm (drops _)), app_assoc, IH. unfold sends. simpl. rewrite Hp, Hd. simpl.
  apply run_selecting; [done|]. intros ->. apply orb_true_r.
Qed.

Lemma effective_selecting ps :
  Forall (fun q => fresh q /\ selecting (pm q)) ps -> Forall (fun q => fresh q /\ selecting (pm q)) (effective ps).
Proof. intros H. destruct ps; [|done]. repeat constructor. Qed.

(** C12. A pipeline made of filters and of passing segments whose drops somebody reads loses nothing:
    once it is closed down, every message written to In has come out of
    exactly one of Out and the drop channel, unchanged. *)
Theorem filters_lose_nothing (ps : list proc) (p : pipeline) (ms : list EnrichedFlow) (n : net) :
  Forall (fun q => fresh q /\ selecting (pm q)) ps ->
  New ((fun q => Some (Single q)) <$> ps) = Some p ->
  rtc step (Start (GetDrop p) ms) n -> closed_down n ->
  noutput n ++ ndropped n ≡ₚ ms.
Proof.
  intros Hps HN Hn Hc.
  assert (Forall fresh ps) as Hf by (eapply Forall_impl; [done|]; by intros q []).
  destruct (closed_results ps true p ms Hf HN n Hn Hc) as [-> ->].
  apply rest_selecting, effective_selecting, Hps.
Qed.

(** ** Parallel instances *)

(** Two goroutines of the network write to the same channel. *)
Definition shared_out (n : net) : Prop := exists a b,
  nprocs n !! 0%nat = Some a /\ nprocs n !! 1%nat = Some b /\ pout a = pout b /\
  ~ (pdone a = true /\ pdone b = true) /\ (pdone a = true \/ pdone b = true -> pout a ∈ nclosed n).

(** Replacing a goroutine by one with the same channels and status. *)
Lemma shared_out_insert n j q q' ms i o cl out dr :
  nprocs n !! j = Some q -> pout q' = pout q -> pdone q' = pdone q -> nclosed n ⊆ cl ->
  shared_out n ->
  shared_out {| nprocs := <[j := q']> (nprocs n); ninput := ms; nin := i; nout := o; nclosed := cl;
                noutput := out; ndropped := dr |}.
Proof.
  intros Hj Ho Hd Hcl (a & b & Ha & Hb & Hab & Hnot & Hdone).
  destruct j as [|[|j]]; simpl in *.
  - exists q', b. rewrite Ha in Hj. injection Hj as ->. rewrite Ho, Hd.
    split_and!; simpl; auto; by destruct (nprocs n).
  - exists a, q'. rewrite Hb in Hj. injection Hj as ->. rewrite Ho, Hd.
    split_and!; simpl; auto; by destruct (nprocs n) as [|? []].
  - exists a, b. split_and!; simpl; auto; by rewrite list_lookup_insert_ne.
Qed.

Lemma shared_out_step n n' : shared_out n -> step n n' -> shared_out n'.
Proof.
  intros Hs Hstep. destruct Hstep as [n j q m ms ? ? Hj|n ? ?|n i p j q m es Hi ? ? Hj|n i p m es Hi
                                     |n i p m es Hi|n j q Hj Hr Hin Hout].
  - by eapply shared_out_insert.
  - destruct Hs as (a & b & ?&?&?&?&Hd). exists a, b. split_and!; simpl; auto.
    intros Hor. by apply elem_of_union_r, Hd.
  - assert (shared_out {| nprocs := <[i := sent es p]> (nprocs n); ninput := ninput n; nin := nin n;
      nout := nout n; nclosed := nclosed n; noutput := noutput n; ndropped := ndropped n |}) as Hm
      by (by eapply shared_out_insert).
    destruct (decide (i = j)) as [->|Hne].
    + assert (q = p) as -> by congruence.
      eapply (shared_out_insert _ j (sent es p) (receive m p)) in Hm; simpl; [exact Hm| |done..].
      apply list_lookup_insert_eq. by eapply lookup_lt_Some.
    + eapply (shared_out_insert _ j q (receive m q)) in Hm; simpl; [exact Hm| |done..].
      by rewrite list_lookup_insert_ne.
  - by eapply shared_out_insert.
  - by eapply shared_out_insert.
  - destruct Hs as (a & b & Ha & Hb & Hab & Hnot & Hdone).
    destruct j as [|[|j]]; simpl in *.
    + rewrite Ha in Hj. injection Hj as ->. exists (finish q), b. simpl.
      split_and!; simpl; auto; [by destruct (nprocs n)|by destruct (nprocs n)| |set_solver].
      intros [_ Hbd]. apply Hout, Hdone. by right.
    + rewrite Hb in Hj. injection Hj as ->. exists a, (finish q). simpl.
      split_and!; simpl; auto; [by destruct (nprocs n)|by destruct (nprocs n) as [|? []]| |set_solver].
      intros [Had _]. apply Hout. rewrite <- Hab. apply Hdone. by left.
    + exists a, b. split_and!; simpl; auto; [by rewrite list_lookup_insert_ne..|].
      intros Hd. apply elem_of_union_r. auto.
Qed.

Lemma shared_out_steps n n' : rtc step n n' -> shared_out n -> shared_out n'.
Proof. apply rtc_keeps, shared_out_step. Qed.

Lemma shared_out_not_closed n : shared_out n -> ~ closed_down n.
Proof.
  intros (a & b & Ha & Hb & _ & Hnot & _) [_ Hw]. apply Hnot. unfold wg_count in Hw.
  apply length_zero_iff_nil in Hw.
  assert (forall i q, nprocs n !! i = Some q -> pdone q = true) as Hall; [|split; by eapply Hall].
  intros i q Hi. destruct (pdone q) eqn:E; [done|exfalso].
  assert (In q (List.filter (fun p => negb (pdone p)) (nprocs n))) as Hin.
  { apply filter_In. rewrite E. split; [|done].
    by apply list_elem_of_In, list_elem_of_lookup_2 with i. }
  by rewrite Hw in Hin.
Qed.

(** C19. A pipeline whose only segment is configured with two or more parallel
    jobs cannot be closed down: all instances were rewired to the same Out
    channel and each of them closes it, so no schedule reaches the state in
    which all have returned, and the second [close(segment.Out)] panics. *)
Theorem parallel_close_panics (q1 q2 : proc) (qs : list proc) (p : pipeline) (ms : list EnrichedFlow) :
  fresh q1 -> fresh q2 ->
  New [Some (ParallelizedSegment (q1 :: q2 :: qs))] = Some p ->
  (forall n, rtc step (Start p ms) n -> ~ closed_down n) /\
  (exists n, rtc step (Start p []) n /\ panics n).
Proof.
  intros [Hp1 Hd1] [Hp2 Hd2] [= <-]. split.
  - intros n Hn. apply shared_out_not_closed, (shared_out_steps _ _ Hn).
    exists (Rewire 0 1 q1), (Rewire 0 1 q2). simpl. rewrite Hd1, Hd2. naive_solver.
  - eexists. split.
    + eapply rtc_l; [by apply step_close|].
      eapply rtc_l; [|apply rtc_refl].
      eapply (step_eof _ 0 (Rewire 0 1 q1)); simpl; [done|by apply ready_spec| |]; set_solver.
    + exists 1%nat, (Rewire 0 1 q2). simpl. split_and!; [done|set_solver|left].
      split; [by apply ready_spec|set_solver].
Qed.

(** A goroutine that never writes to the drop channel. *)
Definition silent (p : proc) : Prop :=
  psub p = false /\ Forall is_out (ppend p) /\ forall s m, Forall is_out (mstep (pm p) false s m).2.

Lemma silent_new (S : Type) `{Segment S} `{!SegmentLaws S} (s : S) : silent (new_proc S s).
Proof. split_and!; [done|constructor|apply step_unsubscribed]. Qed.
Lemma silent_sent p e es : silent p -> ppend p = e :: es -> is_out e /\ silent (sent es p).
Proof. intros (Hs & Hp & Hm) E. rewrite E in Hp. apply Forall_cons in Hp as [He Hes]. by split_and!. Qed.
Lemma silent_receive m q : silent q -> silent (receive m q).
Proof. intros (Hs & Hp & Hm). split_and!; [done| |done]. simpl. rewrite Hs. apply Hm. Qed.

(** No goroutine writes to the drop channel, and nobody ever has. *)
Definition quiet_drops (n : net) : Prop := Forall silent (nprocs n) /\ ndropped n = [].

Lemma quiet_drops_step n n' : quiet_drops n -> step n n' -> quiet_drops n'.
Proof.
  intros [Hs Hd] Hst. rewrite Forall_lookup in Hs.
  assert (forall i p e es, nprocs n !! i = Some p -> ppend p = e :: es ->
    is_out e /\ Forall silent (<[i := sent es p]> (nprocs n))) as Hsent.
  { intros i p e es Hi Hp. destruct (silent_sent p e es (Hs _ _ Hi) Hp) as [He Hp'].
    split; [done|]. apply Forall_insert; [by apply Forall_lookup|done]. }
  destruct Hst as [n j q m ms ? ? Hj|n ? ?|n i p j q m es Hi Hp ? Hj|n i p m es Hi Hp
                  |n i p m es Hi Hp|n j q Hj ? ? ?]; unfold quiet_drops; simpl.
  - split; [|done]. apply Forall_insert; [by apply Forall_lookup|]. by eapply silent_receive, Hs.
  - split; [by apply Forall_lookup|done].
  - split; [|done]. apply Forall_insert; [by eapply Hsent|]. by eapply silent_receive, Hs.
  - split; [|done]. by eapply Hsent.
  - by destruct (Hsent _ _ _ _ Hi Hp).
  - split; [|done]. apply Forall_insert; [by apply Forall_lookup|]. exact (Hs _ _ Hj).
Qed.

Lemma rewire_all_parallel i l l' :
  rewire_all i ((fun ps => Some (ParallelizedSegment ps)) <$> l) = Some l' ->
  Forall (Forall silent) l ->
  Forall silent (mjoin (seg_procs <$> l')) /\ seg_subscribe <$> l' = l'.
Proof.
  revert i l'. induction l as [|ps l IH]; intros i l'; simpl; [intros [= <-] _; by split; [constructor|]|].
  destruct (rewire_all (S i) _) as [k|] eqn:E; simpl; [|done]. intros [= <-] [Hps Hl]%Forall_cons.
  destruct (IH _ _ E Hl) as [Hk Ek]. split; [|simpl; f_equal; exact Ek].
  simpl. apply Forall_app. split; [|done]. apply Forall_fmap. by eapply Forall_impl.
Qed.

(** The drops of segments with parallel jobs reach nobody: GetDrop does not
    subscribe to them, so in a pipeline of such segments nothing is ever
    received from the drop channel, although its reader asked for it before
    the start. *)
Theorem parallel_drops_lost (l : list (list proc)) (p : pipeline) (ms : list EnrichedFlow) (n : net) :
  l <> [] -> Forall (Forall silent) l ->
  New ((fun ps => Some (ParallelizedSegment ps)) <$> l) = Some p ->
  rtc step (Start (GetDrop p) ms) n -> ndropped n = [].
Proof.
  intros Hne Hl HN Hn. apply (rtc_keeps quiet_drops_step _ _ Hn).
  unfold New in HN. destruct l as [|ps l]; [done|].
  destruct (rewire_all 0 _) as [l'|] eqn:E in HN; [|done]. injection HN as <-.
  destruct (rewire_all_parallel _ _ _ E Hl) as [Hs Es]. split; [|done].
  unfold GetDrop. simpl. by rewrite Es.
Qed.

(** ** Examples *)

Definition drop_procs : list proc := [new_proc Drop mkDrop].
Definition drop_pipeline : pipeline :=
  {| In_ := 0; Out := 1; Drop_ := false; SegmentList := [Single (Rewire 0 1 (new_proc Drop mkDrop))] |}.
(** The network after its only flow was dropped and Close returned. *)
Definition drop_final : net :=
  {| nprocs := [finish (Rewire 0 1 (SubscribeDrops (new_proc Drop mkDrop)))]; ninput := [];
     nin := 0; nout := 1; nclosed := {[ 1%nat ]} ∪ ({[ 0%nat ]} ∪ ∅); noutput := []; ndropped := [emptyFlow] |}.

Lemma drop_fresh : Forall fresh drop_procs.
Proof. by repeat constructor. Qed.
Lemma drop_new : New ((fun q => Some (Single q)) <$> drop_procs) = Some drop_pipeline.
Proof. done. Qed.

Lemma drop_run : nsteps step 4 (Start (with_drops true drop_pipeline) [emptyFlow]) drop_final.
Proof.
  eapply nsteps_l; [eapply (step_feed _ 0); [done|set_solver|done..]|].
  eapply nsteps_l; [eapply (step_drop _ 0); done|].
  eapply nsteps_l; [eapply step_close; [done|set_solver]|].
  eapply nsteps_l; [eapply (step_eof _ 0); [done|done|set_solver|set_solver]|].
  constructor.
Qed.
Lemma drop_rtc : rtc step (Start (with_drops true drop_pipeline) [emptyFlow]) drop_final.
Proof. apply rtc_nsteps. eexists. apply drop_run. Qed.
Lemma drop_closed : closed_down drop_final.
Proof. split; [set_solver|done]. Qed.

Lemma pipeline_delivers_witness : noutput drop_final = [] /\ ndropped drop_final ≡ₚ [emptyFlow].
Proof. exact (pipeline_delivers drop_procs true _ [emptyFlow] drop_fresh drop_new _ drop_rtc drop_closed). Defined.
Lemma pipeline_in_order_witness : noutput drop_final `prefix_of` [].
Proof. exact (pipeline_in_order drop_procs true _ [emptyFlow] drop_fresh drop_new _ drop_rtc). Defined.
Lemma pipeline_close_terminates_witness :
  (4 <= 4)%nat /\ ((exists n', step drop_final n') \/ (closed_down drop_final /\ 4%nat = 4%nat)).
Proof. exact (pipeline_close_terminates drop_procs true _ [emptyFlow] drop_fresh drop_new _ _ drop_run). Defined.
Lemma pipeline_never_panics_witness : ~ panics drop_final.
Proof. exact (pipeline_never_panics drop_procs true _ [emptyFlow] drop_fresh drop_new _ drop_rtc). Defined.
Lemma filters_lose_nothing_witness : noutput drop_final ++ ndropped drop_final ≡ₚ [emptyFlow].
Proof.
  apply (filters_lose_nothing drop_procs drop_pipeline); [|done|apply drop_rtc|apply drop_closed].
  constructor; [|constructor]. split; [done|]. apply (pack_selecting Drop). done.
Defined.
Lemma parallel_close_panics_witness :
  (forall n, rtc step (Start {| In_ := 0; Out := 1; Drop_ := false;
      SegmentList := [ParallelizedSegment [Rewire 0 1 (new_proc Pass mkPass); Rewire 0 1 (new_proc Pass mkPass)]] |}
      [emptyFlow]) n -> ~ closed_down n) /\
  (exists n, rtc step (Start {| In_ := 0; Out := 1; Drop_ := false;
      SegmentList := [ParallelizedSegment [Rewire 0 1 (new_proc Pass mkPass); Rewire 0 1 (new_proc Pass mkPass)]] |}
      []) n /\ panics n).
Proof. apply (parallel_close_panics (new_proc Pass mkPass) (new_proc Pass mkPass) []); done. Defined.

(** The only flow goes into a [drop] with two jobs, and nowhere else. *)
Definition jobs : list proc := [new_proc Drop mkDrop; new_proc Drop mkDrop].
Definition jobs_final : net :=
  {| nprocs := [Rewire 0 1 (new_proc Drop mkDrop); Rewire 0 1 (new_proc Drop mkDrop)]; ninput := [];
     nin := 0; nout := 1; nclosed := ∅; noutput := []; ndropped := [] |}.
Lemma jobs_run :
  rtc step (Start (GetDrop {| In_ := 0; Out := 1; Drop_ := false;
      SegmentList := [ParallelizedSegment (Rewire 0 1 <$> jobs)] |}) [emptyFlow]) jobs_final.
Proof. eapply rtc_l; [eapply (step_feed _ 0); [done|set_solver|done..]|]. apply rtc_refl. Qed.

Lemma parallel_drops_lost_witness : ndropped jobs_final = [].
Proof.
  apply (parallel_drops_lost [jobs] _ [emptyFlow] jobs_final (fun H => nil_cons (eq_sym H))
           (Forall_cons_2 _ _ _ (Forall_cons_2 _ _ _ (silent_new Drop mkDrop)
              (Forall_cons_2 _ _ _ (silent_new Drop mkDrop) (Forall_nil_2 _))) (Forall_nil_2 _)) eq_refl jobs_run).
Defined.
