(* ===== verification/OpenNet.v ===== *)
(** * Pipelines in the hands of their users ([pipeline/pipeline.go])

    [Pipeline.v] runs a pipeline whose input is known in advance.  Here somebody
    else writes to [In] and closes it, reads [Out] and the drop channel, and may
    ask for the drops after the start: [accepts], [closes], [gives],
    [gives_drop] and [subscribe] are the user's part in the steps of a network,
    [internal] are the steps of the pipeline alone.

    [tracks] is the contract of a running pipeline towards its user: after the
    messages [acc] were accepted, whatever will follow them, it has given and
    will give what its segments make of [acc] and of what follows. *)

From stdpp Require Import prelude strings list gmap relations.
From Stdlib Require Import ZArith Lia.
From S2P Require Import Prelude GoStd EnrichedFlow Segment Pipeline.

Definition with_input (ms : list EnrichedFlow) (n : net) : net :=
  {| nprocs := nprocs n; ninput := ms; nin := nin n; nout := nout n; nclosed := nclosed n;
     noutput := noutput n; ndropped := ndropped n |}.

(** [GetInput() <- m] *)
Definition accepts (m : EnrichedFlow) (n n' : net) : Prop := step (with_input [m] n) n' /\ ninput n' = [].
(** [<-GetOutput()] and [<-GetDrop()] *)
Definition gives (m : EnrichedFlow) (n n' : net) : Prop := step n n' /\ noutput n' = noutput n ++ [m].
Definition gives_drop (m : EnrichedFlow) (n n' : net) : Prop := step n n' /\ ndropped n' = ndropped n ++ [m].
(** [close(pipeline.In)] in [Close]; its wait is for [closed_down]. *)
Definition closes (n n' : net) : Prop := step n n' /\ nin n ∉ nclosed n /\ nin n ∈ nclosed n'.
(** A step without the user. *)
Definition internal (n n' : net) : Prop :=
  step n n' /\ noutput n' = noutput n /\ ndropped n' = ndropped n /\ (nin n ∈ nclosed n' -> nin n ∈ nclosed n).
(** [GetDrop] while the segments, which are plain ones, are running. *)
Definition subscribe (n : net) : net :=
  {| nprocs := SubscribeDrops <$> nprocs n; ninput := ninput n; nin := nin n; nout := nout n;
     nclosed := nclosed n; noutput := noutput n; ndropped := ndropped n |}.
(** A receive from [Out] reports that the channel is closed. *)
Definition out_closed (n : net) : Prop := nout n ∈ nclosed n.

(** ** The contract *)
Record tracks (ps : list proc) (acc : list EnrichedFlow) (n : net) : Prop := {
  tr_linear : exists k, linear k n;
  tr_input : ninput n = [];
  tr_results : forall fut, (nin n ∈ nclosed n -> fut = []) ->
    noutput n ++ (rest (nprocs n) fut).1 = (rest ps (acc ++ fut)).1 /\
    ndropped n ++ (rest (nprocs n) fut).2 ≡ₚ (rest ps (acc ++ fut)).2;
}.

Lemma linear_with_input k n fut : linear k n -> (nin n ∈ nclosed n -> fut = []) -> linear k (with_input fut n).
Proof.
  intros Hl Hf. split; try apply Hl. intros Hk. apply Hf. by rewrite (lin_closed _ _ Hl), (lin_in _ _ Hl).
Qed.

Lemma with_input_same n ms : ninput n = ms -> with_input ms n = n.
Proof. destruct n; simpl. by intros ->. Qed.

(** A step that does not close [In] does not depend on what follows. *)
Lemma step_with_input n n' fut :
  step n n' -> (nin n ∈ nclosed n' -> nin n ∈ nclosed n) ->
  step (with_input (ninput n ++ fut) n) (with_input (ninput n' ++ fut) n').
Proof.
  intros Hs Ho. destruct Hs as [n j q m ms E ? ?|n ? Hc|n i p j q m es|n i p m es|n i p m es|n j q].
  - exact (step_feed (with_input (ninput n ++ fut) n) j q m (ms ++ fut)
             ltac:(simpl; by rewrite E) ltac:(done) ltac:(done) ltac:(done) ltac:(done)).
  - destruct Hc. apply Ho, elem_of_new.
  - by eapply (step_pass (with_input (ninput n ++ fut) n)).
  - by eapply (step_out (with_input (ninput n ++ fut) n)).
  - by eapply (step_drop (with_input (ninput n ++ fut) n)).
  - by eapply (step_eof (with_input (ninput n ++ fut) n)).
Qed.

Lemma step_nin n n' : step n n' -> nin n' = nin n /\ nclosed n ⊆ nclosed n'.
Proof. intros []; simpl; split; set_solver. Qed.

(** A step on the accepted message [ms] (none or one) keeps the contract. *)
Lemma tracks_step ps acc ms n n' :
  tracks ps acc n -> step (with_input ms n) n' -> ninput n' = [] -> (ms <> [] -> nin n ∉ nclosed n) ->
  (nin n ∈ nclosed n' -> nin n ∈ nclosed n) -> tracks ps (acc ++ ms) n'.
Proof.
  intros [[k Hl] Hi Hr] Hs Hi' Hms Ho. destruct (step_nin _ _ Hs) as [Hnin Hsub]; simpl in *.
  assert (nin n ∈ nclosed n -> ms = []) as Hms' by (destruct ms; [done|]; intros ?; by destruct Hms).
  split; [|done|].
  - destruct (linear_step k _ _ (linear_with_input k n ms Hl Hms') Hs) as [? _]. done.
  - rewrite Hnin. intros fut Hf.
    assert (nin n ∈ nclosed n -> ms ++ fut = []) as Hf'.
    { intros Hc. rewrite Hms' by done. simpl. apply Hf, Hsub, Hc. }
    pose proof (linear_with_input k n (ms ++ fut) Hl Hf') as Hl'.
    pose proof (step_with_input _ _ fut Hs Ho) as Hs'. simpl in Hs'. rewrite Hi' in Hs'.
    destruct (linear_step k _ _ Hl' Hs') as (_ & _ & E1 & E2 & _).
    destruct (Hr _ Hf') as [R1 R2]. unfold delivered, discarded in E1, E2. simpl in E1, E2.
    rewrite <- app_assoc, <- R1, <- R2. by split.
Qed.

Section user.
Context (n n' : net).

(** Only a send on [Out] adds to what was received from it, and likewise for
    the drop channel. *)
Lemma gives_open m : gives m n n' \/ gives_drop m n n' -> nclosed n' = nclosed n.
Proof.
  intros [[Hs E]|[Hs E]]; destruct Hs; simpl in *; try done;
    by (apply (f_equal length) in E; rewrite length_app in E; simpl in E; lia).
Qed.
Lemma gives_dropped m : gives m n n' -> ndropped n' = ndropped n.
Proof.
  intros [Hs E]; destruct Hs; simpl in *; try done;
    by (apply (f_equal length) in E; rewrite length_app in E; simpl in E; lia).
Qed.
Lemma gives_drop_output m : gives_drop m n n' -> noutput n' = noutput n.
Proof.
  intros [Hs E]; destruct Hs; simpl in *; try done;
    by (apply (f_equal length) in E; rewrite length_app in E; simpl in E; lia).
Qed.

Lemma accepts_same m : accepts m n n' ->
  nin n ∉ nclosed n /\ nclosed n' = nclosed n /\ noutput n' = noutput n /\ ndropped n' = ndropped n.
Proof. intros [Hs Hi]. inversion Hs; subst; simpl in *; by simplify_eq. Qed.

Lemma closes_same : closes n n' -> noutput n' = noutput n /\ ndropped n' = ndropped n.
Proof.
  intros (Hs & Hn & Hc). destruct Hs; simpl in *; done.
Qed.

Lemma closed_down_accepts m : closed_down n -> ~ accepts m n n'.
Proof. intros [Hc _] Ha. by destruct (accepts_same m Ha) as (Ho & _). Qed.
End user.

Section tracking.
Context (ps : list proc) (acc : list EnrichedFlow) (n n' : net).
Hypothesis Htr : tracks ps acc n.

Lemma tracks_quiet : step n n' -> (nin n ∈ nclosed n' -> nin n ∈ nclosed n) -> tracks ps acc n'.
Proof using Htr.
  intros Hs Ho. rewrite <- (app_nil_r acc). pose proof (tr_input _ _ _ Htr) as Hi.
  apply (tracks_step ps acc [] n); [done|by rewrite (with_input_same _ _ Hi)| |done|done].
  destruct Hs; simpl in *; congruence.
Qed.

Lemma tracks_internal : internal n n' -> tracks ps acc n'.
Proof using Htr. intros (Hs & _ & _ & Ho). by apply tracks_quiet. Qed.

Lemma tracks_gives m : gives m n n' \/ gives_drop m n n' -> tracks ps acc n'.
Proof using Htr.
  intros Hg. pose proof (gives_open _ _ m Hg) as E. apply tracks_quiet; [by destruct Hg as [[]|[]]|by rewrite E].
Qed.

Lemma tracks_accepts m : accepts m n n' -> tracks ps (acc ++ [m]) n'.
Proof using Htr.
  intros Ha. destruct (accepts_same _ _ m Ha) as (Ho & E & _). destruct Ha as [Hs Hi].
  apply (tracks_step ps acc [m] n); [done|done|done|done|by rewrite E].
Qed.

Lemma tracks_closes : closes n n' -> tracks ps acc n'.
Proof using Htr.
  intros Hcl. destruct (closes_same _ _ Hcl) as [E1 E2]. destruct Hcl as (Hs & Hn & Hc).
  destruct Htr as [[k Hl] Hi Hr]. destruct (linear_step _ _ _ Hl Hs) as (Hl' & _ & D1 & D2 & _).
  destruct (step_nin _ _ Hs) as [Hin _]. destruct (Hr [] ltac:(done)) as [R1 R2].
  assert (ninput n' = []) as Hi' by (destruct Hs; simpl in *; congruence).
  unfold delivered, discarded in D1, D2. rewrite Hi, Hi' in *.
  split; [done|done|]. intros fut Hf. rewrite Hin in Hf. rewrite (Hf Hc), <- R1, <- R2. by split.
Qed.

(** Once it is closed down a pipeline has given everything, and does nothing
    more. *)
Lemma tracks_closed_down : closed_down n -> noutput n = (rest ps acc).1 /\ ndropped n ≡ₚ (rest ps acc).2.
Proof using Htr.
  intros Hc. destruct Htr as [[k Hl] Hi Hr]. destruct (closed_down_rest _ _ Hl Hc) as (<- & <- & _).
  destruct (Hr [] ltac:(done)) as [R1 R2]. rewrite app_nil_r in R1, R2. unfold delivered, discarded. by rewrite Hi.
Qed.
Lemma closed_down_stuck : closed_down n -> ~ step n n'.
Proof using Htr.
  intros Hc Hs. destruct Htr as [[k Hl] _ _]. destruct (closed_down_rest _ _ Hl Hc) as (_ & _ & E).
  destruct (linear_step _ _ _ Hl Hs) as (_ & _ & _ & _ & E'). lia.
Qed.
Lemma tracks_safe : ~ panics n.
Proof using Htr. destruct Htr as [[k Hl] _ _]. by eapply linear_safe. Qed.
End tracking.

(** ** The pipeline left alone, with somebody at its outputs *)
Inductive moves (n n' : net) : Prop :=
  | move_internal : internal n n' -> moves n n'
  | move_out m : gives m n n' -> moves n n'
  | move_drop m : gives_drop m n n' -> moves n n'.

Lemma moves_step n n' : moves n n' -> step n n' /\ (nin n ∈ nclosed n' -> nin n ∈ nclosed n).
Proof.
  intros [(Hs & _ & _ & Ho)|m Hg|m Hg]; [done|split; [by destruct Hg|]..].
  - by rewrite (gives_open _ _ m (or_introl Hg)).
  - by rewrite (gives_open _ _ m (or_intror Hg)).
Qed.
Lemma step_moves n n' : ninput n = [] -> step n n' -> nclosed n' = nclosed n \/ nin n ∈ nclosed n -> moves n n'.
Proof.
  intros Hi Hs Hc. destruct Hs as [n j q m ms E|n ? Hn|n i p j q m es Hp E|n i p m es Hp E|n i p m es Hp E|n j q Hj Hr Hin Ho].
  - congruence.
  - destruct Hc as [Hc|Hc]; [|done]. simpl in Hc. destruct Hn. rewrite <- Hc. apply elem_of_new.
  - apply move_internal. split; [by eapply step_pass|done].
  - apply (move_out _ _ m). split; [by apply (step_out n i p m es)|done].
  - apply (move_drop _ _ m). split; [by apply (step_drop n i p m es)|done].
  - apply move_internal. split; [by apply step_eof|]. do 2 (split; [done|]). simpl in *. intros Hx. destruct Hc as [Hc|]; [|done]. by rewrite Hc in Hx.
Qed.

(** It can go on, or take another flow, or it is closed down. *)
Lemma open_progress k n : linear k n -> ninput n = [] ->
  (exists n', moves n n') \/ (nin n ∉ nclosed n /\ forall m, exists n', accepts m n n') \/ closed_down n.
Proof.
  intros Hl Hi. destruct (decide (nin n ∈ nclosed n)) as [Hc|Hc].
  { destruct (linear_progress k n Hl) as [|[n' Hs]]; [by right; right|]. left. exists n'. apply step_moves; [done..|by right]. }
  destruct (decide (Forall (fun p => ppend p = []) (nprocs n))) as [Hall|Hsome].
  - right. left. split; [done|]. intros m. pose proof (lin_nonempty _ _ Hl) as Hne.
    destruct (nprocs n !! 0%nat) as [q|] eqn:Eq; [|by destruct (nprocs n)].
    destruct (lin_chain _ _ Hl _ _ Eq) as (Hqi & _ & Hqd & _). rewrite Forall_lookup in Hall.
    assert (ready q = true) as Hr.
    { apply ready_spec. split; [|by eapply Hall]. rewrite Hqd. apply Nat.ltb_nlt. intros Hk. apply Hc.
      rewrite (lin_in _ _ Hl). apply (lin_closed _ _ Hl). lia. }
    assert (pin q = nin n) as Hq by (by rewrite Hqi, (lin_in _ _ Hl)).
    pose proof (step_feed (with_input [m] n) 0 q m [] eq_refl Hc Eq Hr Hq) as Hs. by eexists.
  - left. apply not_Forall_Exists in Hsome; [|intros p; destruct (ppend p); [by left|by right]].
    apply Exists_exists in Hsome as (p & [i Hp]%list_elem_of_lookup & Hpend).
    destruct (pending_progress k n (length (nprocs n) - i) i p Hl) as (n' & Hs & E); [|done..|].
    + apply lookup_lt_Some in Hp. lia.
    + exists n'. apply step_moves; [done..|by left].
Qed.

(** A pipeline that was built by [New] from plain segments and started, its
    drops subscribed or not. *)
Lemma tracks_start b ps p :
  Forall fresh ps -> New ((fun q => Some (Single q)) <$> ps) = Some p ->
  tracks (subscribed b (effective ps)) [] (Start (with_drops b p) []).
Proof.
  intros Hf HN. split; [eexists; by eapply start_linear|done|].
  intros fut _. rewrite (start_procs _ _ _ _ HN). simpl.
  by rewrite (proj1 (rest_rewired (fun j => j) _ _)).
Qed.

(** Subscribing after the start or before it, as long as nothing was sent. *)
Lemma subscribe_start ps p :
  New ((fun q => Some (Single q)) <$> ps) = Some p -> subscribe (Start p []) = Start (GetDrop p) [].
Proof.
  intros HN. rewrite (start_procs true _ _ _ HN : Start (GetDrop p) [] = _), (start_procs false _ _ _ HN : Start p [] = _).
  unfold subscribe, subscribed; simpl. f_equal. generalize (effective ps). clear.
  assert (forall f l, SubscribeDrops <$> imap (fun j => Rewire (f j) (S (f j))) l
                      = imap (fun j => Rewire (f j) (S (f j))) (SubscribeDrops <$> l)) as H; [|apply (H (fun j => j))].
  intros f l. revert f. induction l as [|q l IH]; intros f; [done|]. simpl. f_equal. apply (IH (fun j => f (S j))).
Qed.

(** ** Pipelines of one segment *)
Definition solo (q : proc) (cl : gset nat) (o d : list EnrichedFlow) : net :=
  {| nprocs := [q]; ninput := []; nin := 0; nout := 1; nclosed := cl; noutput := o; ndropped := d |}.

Section solo.
Context (q : proc) (cl : gset nat) (o d : list EnrichedFlow).
Lemma solo_accepts m : ready q = true -> pin q = 0%nat -> 0%nat ∉ cl -> accepts m (solo q cl o d) (solo (receive m q) cl o d).
Proof. intros. split; [|done]. by apply (step_feed (with_input [m] (solo q cl o d)) 0 q m []). Qed.
Lemma solo_gives m es : ppend q = EOut m :: es -> pout q = 1%nat -> 1%nat ∉ cl ->
  gives m (solo q cl o d) (solo (sent es q) cl (o ++ [m]) d).
Proof. intros Hp Ho Hc. split; [|done]. apply (step_out (solo q cl o d) 0 q m es); rewrite ?Ho; done. Qed.
Lemma solo_gives_drop m es : ppend q = EDrop m :: es ->
  gives_drop m (solo q cl o d) (solo (sent es q) cl o (d ++ [m])).
Proof. intros Hp. split; [|done]. by apply (step_drop (solo q cl o d) 0 q m es). Qed.
Lemma solo_closes : 0%nat ∉ cl -> closes (solo q cl o d) (solo q ({[ 0%nat ]} ∪ cl) o d).
Proof. intros. split_and!; [by apply step_close|done|apply elem_of_new]. Qed.
Lemma solo_eof : ready q = true -> pin q = 0%nat -> pout q = 1%nat -> 0%nat ∈ cl -> 1%nat ∉ cl ->
  internal (solo q cl o d) (solo (finish q) ({[ 1%nat ]} ∪ cl) o d).
Proof.
  intros Hr Hi Ho H0 H1. pose proof (step_eof (solo q cl o d) 0 q) as Hs. rewrite Hi, Ho in Hs.
  split_and!; [by apply Hs|done..].
Qed.
Lemma solo_closed_down : pdone q = true -> 0%nat ∈ cl -> closed_down (solo q cl o d).
Proof. intros Hd H0. split; [done|]. unfold wg_count. simpl. by rewrite Hd. Qed.
(** A segment that has returned, and one that waits for the reader of [Out]. *)
Lemma solo_done n' : pdone q = true -> ppend q = [] -> 0%nat ∈ cl -> ~ step (solo q cl o d) n'.
Proof.
  intros Hd Hp H0 Hs. inversion Hs as [| |? i p j r m es Hi E|? i p m es Hi E|? i p m es Hi E|? j r Hj Hr]; subst; simpl in *; try done;
    try (apply list_lookup_singleton_Some in Hi as [_ <-]; congruence).
  apply list_lookup_singleton_Some in Hj as [_ <-]. apply ready_spec in Hr as [Hr _]. congruence.
Qed.
Lemma solo_pending n' m es : ppend q = EOut m :: es -> 0%nat ∈ cl -> step (solo q cl o d) n' -> noutput n' = o ++ [m].
Proof.
  intros Hp H0 Hs.
  inversion Hs as [| |? i p j r ? ? Hi E ? Hj Hr|? i p ? ? Hi E|? i p ? ? Hi E|? j r Hj Hr]; subst; simpl in *; try done;
    try apply list_lookup_singleton_Some in Hi as [_ <-]; try apply list_lookup_singleton_Some in Hj as [_ <-];
    try apply ready_spec in Hr as [_ Hr]; congruence.
Qed.
End solo.

(** The goroutines of [pass] and [drop], at the start. *)
Definition passing (b : bool) : proc := Rewire 0 1 ((if b then SubscribeDrops else id) (new_proc Pass mkPass)).
Definition dropping (b : bool) : proc := Rewire 0 1 ((if b then SubscribeDrops else id) (new_proc Drop mkDrop)).
Definition pass_pipeline : pipeline :=
  {| In_ := 0; Out := 1; Drop_ := false; SegmentList := [Single (passing false)] |}.

Ltac solve_solo := first [done | set_solver | by apply ready_spec].
Ltac next tac := eapply rtc_l; [tac|].
