(* ===== verification/Process.v ===== *)
(** * The running program ([main.go])

    After startup [main] has several pipelines running, each drained by
    [AutoDrain], and waits for a signal.  Then the deferred calls of [Close] run,
    the last pipeline first, each waiting for the goroutines of its pipeline,
    while a timer ends the process after fifteen seconds.  The pipelines are
    networks of plain segments ([OpenNet.v]); whoever feeds them, such as an
    input segment, is the environment. *)

From stdpp Require Import prelude strings list gmap relations.
From Stdlib Require Import ZArith Lia.
From S2P Require Import Prelude GoStd EnrichedFlow Segment Pipeline OpenNet.

(** main: before the signal; with the Close of the first [k] pipelines still to
    come; inside the Close of pipeline [k], waiting; returned; ended by the
    timer. *)
Inductive phase : Type := Serving | Closing (k : nat) | Waiting (k : nat) | Ended | Killed.
(** Each pipeline, with the flows it has been given so far. *)
Record state := mkstate { running : list (net * list EnrichedFlow); main : phase }.

Definition alive (p : phase) : Prop := p <> Ended /\ p <> Killed.
Definition shutting (p : phase) : Prop := match p with Closing _ | Waiting _ => True | _ => False end.

(** The steps of the program itself: the goroutines, AutoDrain's receives, and the
    deferred calls. *)
Inductive work : state -> state -> Prop :=
  | work_internal i n n' a l p : alive p -> l !! i = Some (n, a) -> internal n n' ->
      work (mkstate l p) (mkstate (<[i := (n', a)]> l) p)
  | work_drain i n n' a m l p : alive p -> l !! i = Some (n, a) -> gives m n n' ->
      work (mkstate l p) (mkstate (<[i := (n', a)]> l) p)
  | work_close k n n' a l : l !! k = Some (n, a) -> closes n n' ->
      work (mkstate l (Closing (S k))) (mkstate (<[k := (n', a)]> l) (Waiting k))
  | work_wait k n a l : l !! k = Some (n, a) -> closed_down n -> work (mkstate l (Waiting k)) (mkstate l (Closing k))
  | work_end l : work (mkstate l (Closing 0)) (mkstate l Ended).
(** The environment: a flow, the signal, the timer. *)
Inductive environment : state -> state -> Prop :=
  | env_flow i m n n' a l p : alive p -> l !! i = Some (n, a) -> accepts m n n' ->
      environment (mkstate l p) (mkstate (<[i := (n', a ++ [m])]> l) p)
  | env_signal l : environment (mkstate l Serving) (mkstate l (Closing (length l)))
  | env_timer l p : shutting p -> environment (mkstate l p) (mkstate l Killed).
Inductive step (st st' : state) : Prop :=
  | step_work : work st st' -> step st st'
  | step_environment : environment st st' -> step st st'.

(** After startup. *)
Definition start (ps : list pipeline) : state := mkstate ((fun p => (Start p [], [])) <$> ps) Serving.

(** ** Theorems *)

(** The pipelines with a smaller index are not closed yet. *)
Definition remaining (st : state) : nat :=
  match main st with Serving => length (running st) | Closing k | Waiting k => k | Ended | Killed => O end.
Definition served (ps : list proc) (x : net * list EnrichedFlow) : Prop := tracks ps x.2 x.1 /\ quiet_drops x.1.
Record good (pss : list (list proc)) (st : state) : Prop := {
  g_served : Forall2 served pss (running st);
  g_remaining : (remaining st <= length (running st))%nat;
  g_waiting : forall k, main st = Waiting k -> (k < length (running st))%nat;
  g_open : forall i n a, running st !! i = Some (n, a) -> (i < remaining st)%nat -> nin n ∉ nclosed n;
  g_closed : forall i n a, running st !! i = Some (n, a) -> main st <> Killed -> (remaining st <= i)%nat ->
    match main st with Waiting k => if decide (i = k) then nin n ∈ nclosed n else closed_down n | _ => closed_down n end }.

(** What a pipeline does keeps it served, open or closed. *)
Lemma served_same ps n n' a : served ps (n, a) ->
  internal n n' \/ (exists m, gives m n n') -> served ps (n', a) /\ (nin n' ∈ nclosed n' <-> nin n ∈ nclosed n) /\ ~ closed_down n.
Proof.
  intros [Ht Hq] Hs. simpl in *.
  assert (Pipeline.step n n') as Hst by (by destruct Hs as [[]|[m []]]). destruct (step_nin _ _ Hst) as [Hn Hsub].
  assert (~ closed_down n) as Hc by (intros Hc; by eapply closed_down_stuck).
  assert (quiet_drops n') as Hq' by by eapply quiet_drops_step.
  destruct Hs as [Hi|[m Hg]].
  - split; [split; [by eapply tracks_internal|done]|]. split; [|done]. rewrite Hn. destruct Hi as (_ & _ & _ & Hi). split; [done|apply Hsub].
  - split; [split; [by eapply tracks_gives; [done|left]|done]|]. split; [|done]. rewrite Hn, (gives_open n n' m) by (by left). done.
Qed.
Lemma served_flow ps n n' a m : served ps (n, a) -> accepts m n n' ->
  served ps (n', a ++ [m]) /\ nin n' ∉ nclosed n' /\ nin n ∉ nclosed n.
Proof.
  intros [Ht Hq] Ha. destruct (accepts_same n n' m Ha) as (Ho & Ec & _). simpl in *.
  assert (quiet_drops (with_input [m] n)) as Hq' by done.
  pose proof Ha as [Hst Hi]. destruct (step_nin _ _ Hst) as [Hn _]. simpl in Hn.
  split; [|by rewrite Hn, Ec]. split; simpl; [by eapply tracks_accepts|by eapply quiet_drops_step].
Qed.
Lemma served_close ps n n' a : served ps (n, a) -> closes n n' -> served ps (n', a) /\ nin n' ∈ nclosed n'.
Proof.
  intros [Ht Hq] Hc. simpl in *. pose proof Hc as (Hst & _ & Hin). destruct (step_nin _ _ Hst) as [Hn _]. rewrite Hn.
  split; [|done]. split; simpl; [by eapply tracks_closes|by eapply quiet_drops_step].
Qed.

Lemma served_insert pss l i n n' a a' : Forall2 served pss l -> l !! i = Some (n, a) ->
  (forall ps, served ps (n, a) -> served ps (n', a')) -> Forall2 served pss (<[i := (n', a')]> l).
Proof.
  intros Hf Hi Hs. destruct (Forall2_lookup_r _ _ _ _ _ Hf Hi) as (ps & Hps & Hx).
  rewrite <- (list_insert_id pss i ps Hps). apply Forall2_insert; [done|by apply Hs].
Qed.
Lemma served_at pss l i n a : Forall2 served pss l -> l !! i = Some (n, a) -> exists ps, served ps (n, a).
Proof. intros Hf Hi. destruct (Forall2_lookup_r _ _ _ _ _ Hf Hi) as (ps & _ & Hx). by exists ps. Qed.

Lemma lookup_updated {A} (l : list A) i x j y : <[i := x]> l !! j = Some y -> i = j /\ x = y \/ i <> j /\ l !! j = Some y.
Proof. intros Hj. destruct (decide (i = j)) as [<-|Hn]; [|right; by rewrite list_lookup_insert_ne in Hj].
  left. pose proof (lookup_lt_Some _ _ _ Hj) as Hl. rewrite length_insert in Hl. rewrite list_lookup_insert_eq in Hj by done. by injection Hj. Qed.

(** A pipeline moves, and main does not. *)
Lemma good_move pss l p i n n' a a' : good pss (mkstate l p) -> p <> Killed -> l !! i = Some (n, a) ->
  (forall ps, served ps (n, a) -> served ps (n', a') /\ (nin n' ∈ nclosed n' <-> nin n ∈ nclosed n) /\ ~ closed_down n) ->
  good pss (mkstate (<[i := (n', a')]> l) p).
Proof.
  intros [Hs Hr Hw Ho Hc] Hp Hi Hm. destruct (served_at _ _ _ _ _ Hs Hi) as (ps & Hps). destruct (Hm ps Hps) as (_ & E & Hd).
  unfold remaining in *. simpl in *. split; simpl.
  - eapply served_insert; [done..|]. intros ps' Hps'. by apply Hm.
  - unfold remaining. simpl. by rewrite length_insert.
  - intros k. rewrite length_insert. apply Hw.
  - intros j n1 a1 [[<- [= <- <-]]|[_ Hj]]%lookup_updated Hlt; unfold remaining in Hlt; simpl in Hlt; rewrite ?length_insert in Hlt.
    + rewrite E. by eapply Ho.
    + by eapply Ho.
  - intros j n1 a1 [[<- [= <- <-]]|[_ Hj]]%lookup_updated _ Hle; unfold remaining in Hle; simpl in Hle; rewrite ?length_insert in Hle.
    + specialize (Hc i n a Hi Hp Hle). destruct p; try done. case_decide; [by rewrite E|done].
    + by apply (Hc j n1 a1).
Qed.

Lemma good_step pss st st' : good pss st -> step st st' -> good pss st'.
Proof.
  intros Hg Hs. destruct Hs as [Hs|Hs];
    [destruct Hs as [i n n' a l p [_ Hk] Hi Hn|i n n' a m l p [_ Hk] Hi Hn|k n n' a l Hi Hn|k n a l Hi Hn|l]
    |destruct Hs as [i m n n' a l p [_ Hk] Hi Hn|l|l p Hsh]].
  - eapply good_move; [done..|]. intros ps Hps. eapply served_same; [done|by left].
  - eapply good_move; [done..|]. intros ps Hps. eapply served_same; [done|right; by eexists].
  - destruct Hg as [Hg Hr Hw Ho Hc]. unfold remaining in *. simpl in *. destruct (served_at _ _ _ _ _ Hg Hi) as (ps & Hps).
    split; unfold remaining; simpl; rewrite ?length_insert; try lia.
    + eapply served_insert; [done..|]. intros ps' Hps'. by apply (served_close ps' n).
    + intros k' [= <-]. lia.
    + intros j n1 a1 [[<- _]|[_ Hj]]%lookup_updated Hlt; [lia|]. eapply Ho; [done|lia].
    + intros j n1 a1 [[<- [= <- <-]]|[Hne Hj]]%lookup_updated _ Hle.
      * rewrite decide_True by done. by apply (served_close ps n _ a).
      * rewrite decide_False by done. apply (Hc j n1 a1); [done..|lia].
  - destruct Hg as [Hg Hr Hw Ho Hc]. unfold remaining in *. simpl in *. split; unfold remaining; simpl; try done.
    intros j n1 a1 Hj _ Hle. specialize (Hc j n1 a1 Hj ltac:(done) Hle). case_decide; [|done]. subst. congruence.
  - destruct Hg as [Hg Hr Hw Ho Hc]. unfold remaining in *. simpl in *. split; unfold remaining; simpl; try done; try lia.
    intros j n1 a1 Hj _ Hle. by apply (Hc j n1 a1).
  - pose proof Hg as [Hs Hr Hw Ho Hc]. destruct (served_at _ _ _ _ _ Hs Hi) as (ps & Hps).
    destruct (served_flow _ _ _ _ _ Hps Hn) as (_ & Hn' & Hn0). eapply good_move; [done..|]. intros ps' Hps'.
    split; [by apply (served_flow _ n)|]. split; [done|]. intros Hd. by apply (closed_down_accepts n n' m).
  - destruct Hg as [Hg Hr Hw Ho Hc]. unfold remaining in *. simpl in *. split; unfold remaining; simpl; try done.
    intros j n1 a1 Hj _ Hle. apply lookup_lt_Some in Hj. lia.
  - destruct Hg as [Hg Hr Hw Ho Hc]. split; unfold remaining; simpl; try done; lia.
Qed.

(** *** Termination *)
Definition weight (p : phase) : nat :=
  match p with Serving => 0 | Closing k => 2 * k + 1 | Waiting k => 2 * k + 2 | Ended | Killed => 0 end.
Definition pending (l : list (net * list EnrichedFlow)) : nat := foldr (fun x k => to_go x.1 + k)%nat O l.
(** What is left to do. *)
Definition measure (st : state) : nat := (pending (running st) + weight (main st))%nat.

Lemma pending_insert l i n n' a a' : l !! i = Some (n, a) -> to_go n = S (to_go n') ->
  pending l = S (pending (<[i := (n', a')]> l)).
Proof.
  unfold pending. revert i. induction l as [|[n0 a0] l IH]; intros [|i] Hi E; try done; simpl in *.
  - injection Hi as -> ->. lia.
  - rewrite (IH i Hi E). lia.
Qed.
Lemma served_work ps n n' a : served ps (n, a) -> Pipeline.step n n' -> to_go n = S (to_go n').
Proof. intros [[[k Hl] _ _] _] Hs. simpl in *. by destruct (linear_step _ _ _ Hl Hs) as (_ & _ & _ & _ & E). Qed.

Lemma work_measure pss st st' : good pss st -> work st st' -> (measure st' < measure st)%nat.
Proof.
  intros [Hs _ _ _ _] Hw. unfold measure. destruct Hw as [i n n' a l p ? Hi Hn|i n n' a m l p ? Hi Hn|k n n' a l Hi Hn|k n a l Hi Hn|l]; simpl in *; try lia;
    destruct (served_at _ _ _ _ _ Hs Hi) as (ps & Hps);
    rewrite (pending_insert l _ n n' a a Hi) by (eapply served_work; [done|by destruct Hn]); lia.
Qed.

(** In the shutdown the program itself can always go on. *)
Lemma work_progress pss st : good pss st -> shutting (main st) -> exists st', work st st'.
Proof.
  intros [Hs Hr Hw Ho Hc] Hsh. destruct st as [l p]. unfold remaining in *. simpl in *. destruct p as [|[|k]|k| |]; try done.
  - eexists. apply work_end.
  - destruct (lookup_lt_is_Some_2 l k Hr) as [[n a] Hk]. destruct (served_at _ _ _ _ _ Hs Hk) as (ps & [Ht _]).
    pose proof (Ho k n a Hk ltac:(lia)) as Hn. eexists. eapply work_close; [done|]. split; [|split; [exact Hn|]].
    + apply step_close; [apply Ht|done].
    + simpl. set_solver.
  - destruct (lookup_lt_is_Some_2 l k (Hw k eq_refl)) as [[n a] Hk]. destruct (served_at _ _ _ _ _ Hs Hk) as (ps & [Ht Hq]).
    pose proof (Hc k n a Hk ltac:(done) ltac:(lia)) as Hn. rewrite decide_True in Hn by done. simpl in *.
    pose proof Ht as [[j Hl] Hi _]. destruct (linear_progress j n Hl) as [Hcd|[n' Hst]].
    { eexists. by eapply work_wait. }
    pose proof (quiet_drops_step _ _ Hq Hst) as [_ Hd']. destruct Hq as [_ Hd].
    assert (noutput n' = noutput n \/ exists m, noutput n' = noutput n ++ [m]) as [Eo|[m Eo]] by (destruct Hst; simpl; eauto).
    + eexists. eapply (work_internal k n n'); [done..|]. split_and!; [done|done|congruence|done].
    + eexists. eapply (work_drain k n n' a m); [done..|]. by split.
Qed.

Lemma work_shutting st st' : shutting (main st) -> work st st' -> main st' = Ended \/ shutting (main st').
Proof. intros Hsh Hw. destruct Hw; simpl in *; auto. Qed.
Lemma ended_work st st' : main st = Ended -> ~ work st st'.
Proof. intros He Hw. destruct Hw as [? ? ? ? ? ? []|? ? ? ? ? ? ? []| | |]; simpl in *; congruence. Qed.

Lemma silent_effective l : Forall silent l -> Forall silent (effective l).
Proof. intros Hl. unfold effective. destruct l; [|done]. constructor; [|constructor]. apply (silent_new Pass mkPass). Qed.
Lemma start_served l p : Forall fresh l -> Forall silent l -> Pipeline.New ((fun q => Some (Single q)) <$> l) = Some p ->
  served (effective l) (Start p [], []).
Proof.
  intros Hf Hl HN. pose proof (tracks_start false l p Hf HN) as Ht. split; [exact Ht|]. simpl.
  pose proof (start_procs false l p [] HN) as E. unfold with_drops in E. rewrite E. split; [|done]. simpl.
  apply Forall_lookup. intros i q Hq. rewrite list_lookup_imap in Hq.
  destruct (effective l !! i) as [q'|] eqn:Eq; [|done]. injection Hq as <-.
  pose proof (silent_effective l Hl) as Hx. rewrite Forall_lookup in Hx. exact (Hx _ _ Eq).
Qed.

Section process.
Context (pss : list (list proc)) (ps : list pipeline).
Hypotheses (Hfresh : Forall (Forall fresh) pss) (Hsilent : Forall (Forall silent) pss).
Hypothesis (Hnew : Forall2 (fun l p => Pipeline.New ((fun q => Some (Single q)) <$> l) = Some p) pss ps).

Lemma process_start_good : good (effective <$> pss) (start ps).
Proof using All.
  assert (Forall2 served (effective <$> pss) (running (start ps))) as Hs.
  { simpl. apply Forall2_fmap. rewrite Forall_lookup in Hfresh, Hsilent. apply Forall2_same_length_lookup.
    split; [exact (Forall2_length _ _ _ Hnew)|]. intros i l p Hl Hp. apply start_served; [by eapply Hfresh|by eapply Hsilent|].
    by apply (Forall2_lookup_lr _ _ _ _ _ _ Hnew Hl Hp). }
  split; unfold remaining; simpl; try done; rewrite ?length_fmap; try lia.
  - intros i n a Hi _. apply list_lookup_fmap_Some in Hi as (p & [= -> ->] & Hp).
    destruct (Forall2_lookup_r _ _ _ _ _ Hnew Hp) as (l & _ & HN). pose proof (start_procs false l p [] HN) as E.
    unfold with_drops in E. rewrite E. simpl. set_solver.
  - intros i n a Hi _ Hle. apply lookup_lt_Some in Hi. rewrite length_fmap in Hi. lia.
Qed.

(** At the end every pipeline is closed down, and served to the last flow. *)
Lemma ended_served (st : state) : rtc step (start ps) st -> main st = Ended ->
  Forall2 (fun l x => tracks (effective l) x.2 x.1 /\ closed_down x.1) pss (running st).
Proof using All.
  intros Hs Hm. destruct (rtc_keeps (good_step _) _ _ Hs process_start_good) as [Hg _ _ _ Hc].
  rewrite Forall2_fmap_l in Hg. apply Forall2_same_length_lookup. split; [exact (Forall2_length _ _ _ Hg)|].
  intros i l [n a] Hl Hx. destruct (Forall2_lookup_lr _ _ _ _ _ _ Hg Hl Hx) as [Ht _]. split; [exact Ht|].
  specialize (Hc i n a Hx). rewrite Hm in Hc. unfold remaining in Hc. rewrite Hm in Hc. apply Hc; [done|lia].
Qed.

(** C4. An orderly end of the program: whatever the interleaving of all pipelines, of
    those who feed them and of the calls of Close, once main has returned every
    pipeline is closed down, and the flows it has delivered are, in order, what
    its segments make of the flows it was given. *)
Theorem shutdown_delivers (st : state) : rtc step (start ps) st -> main st = Ended ->
  Forall2 (fun l x => closed_down x.1 /\ noutput x.1 = (rest (effective l) x.2).1) pss (running st).
Proof using All.
  intros Hs Hm. eapply Forall2_impl; [by apply ended_served|]. intros l x [Ht Hc].
  split; [done|]. by destruct (tracks_closed_down _ _ _ Ht Hc).
Qed.

(** C5. The shutdown terminates: after the signal, unless more flows come in or the
    timer fires, the program takes at most [measure] steps, and until main has
    returned it can always take one. *)
Theorem shutdown_terminates (st st' : state) (j : nat) : rtc step (start ps) st -> shutting (main st) -> nsteps work j st st' ->
  (j <= measure st)%nat /\ (main st' = Ended \/ exists st'', work st' st'').
Proof using All.
  intros Hs Hsh Hw. pose proof (rtc_keeps (good_step _) _ _ Hs process_start_good) as Hg. clear Hs.
  induction Hw as [st|j st1 st2 st3 H1 H2 IH].
  - split; [lia|]. right. by eapply work_progress.
  - pose proof (work_measure _ _ _ Hg H1) as Hlt. pose proof (good_step _ _ _ Hg (step_work _ _ H1)) as Hg2.
    destruct (work_shutting _ _ Hsh H1) as [E|Hsh2].
    + inversion H2 as [|? ? st4 ? Hx]; subst; [|by destruct (ended_work st2 st4)].
      split; [lia|by left].
    + destruct (IH Hsh2 Hg2) as [Hj He]. split; [lia|done].
Qed.
End process.

(** ** The theorems at work *)
Module witness.
Definition flow : EnrichedFlow := set_Bytes 7 emptyFlow.
Lemma no_procs {P : proc -> Prop} : Forall (Forall P) [[]].
Proof. by repeat constructor. Qed.
Lemma built : Forall2 (fun l p => Pipeline.New ((fun q => Some (Single q)) <$> l) = Some p) [[]] [pass_pipeline].
Proof. by repeat constructor. Qed.
Definition ended : net := solo (finish (sent [] (receive flow (passing false)))) {[1%nat; 0%nat]} [flow] [].
(** One pipeline without segments gets one flow, is drained, and shut down. *)
Lemma in_shutdown : rtc step (start [pass_pipeline])
  (mkstate [(solo (sent [] (receive flow (passing false))) ∅ [flow] [], [flow])] (Closing 1)).
Proof.
  next ltac:(eapply step_environment, (env_flow 0%nat flow (solo (passing false) ∅ [] []) _ [] _ Serving);
    [done|done|apply (solo_accepts (passing false)); solve_solo]).
  next ltac:(eapply step_work, (work_drain 0%nat _ _ _ flow); [done|done|apply (solo_gives (receive flow (passing false)) _ _ _ flow []); solve_solo]).
  next ltac:(apply step_environment, env_signal). apply rtc_refl.
Qed.
Lemma ended_reached : rtc step (start [pass_pipeline]) (mkstate [(ended, [flow])] Ended).
Proof.
  etrans; [exact in_shutdown|].
  next ltac:(eapply step_work, (work_close 0%nat); [done|apply solo_closes; solve_solo]).
  next ltac:(eapply step_work, (work_internal 0%nat); [done|done|apply solo_eof; solve_solo]).
  next ltac:(eapply step_work, (work_wait 0%nat); [done|apply solo_closed_down; solve_solo]).
  next ltac:(apply step_work, work_end). unfold ended. simpl. rewrite (union_empty_r_L {[0%nat]}). apply rtc_refl.
Qed.
End witness.

Lemma shutdown_delivers_witness : closed_down witness.ended /\ [witness.flow] = (rest [new_proc Pass mkPass] [witness.flow]).1.
Proof.
  pose proof (shutdown_delivers [[]] [pass_pipeline] witness.no_procs
    witness.no_procs witness.built _
    witness.ended_reached eq_refl) as H.
  apply Forall2_cons_1 in H as [H _]. exact H.
Defined.

Lemma shutdown_terminates_witness : (0 <= measure (mkstate [(solo (sent [] (receive witness.flow (passing false))) ∅ [witness.flow] [], [witness.flow])] (Closing 1)))%nat /\
  exists st, work (mkstate [(solo (sent [] (receive witness.flow (passing false))) ∅ [witness.flow] [], [witness.flow])] (Closing 1)) st.
Proof.
  destruct (shutdown_terminates [[]] [pass_pipeline] witness.no_procs
    witness.no_procs witness.built _ _ 0%nat
    witness.in_shutdown I (nsteps_O _ _)) as [Hj [He|Hw]].
  - split; [exact Hj|discriminate He].
  - exact (conj Hj Hw).
Defined.
