(* ===== verification/Config.v ===== *)
(** * From configuration to segments
    ([pipeline/config], [pipeline/pipeline_initialization.go])

    Variable expansion of configuration values (with Go's [os.Expand] written
    out), the representation of a segment as read from YAML, and the
    construction of the segment list of a pipeline.  YAML decoding itself is a
    library call, and a parameter. *)

From stdpp Require Import prelude strings list gmap fin_maps.
From Stdlib Require Import ZArith Lia Ascii.
From S2P Require Import Prelude GoStd EnrichedFlow Segment Pipeline.

(** ** os.Expand *)
Module os.
Definition isShellSpecialVar (c : ascii) : bool :=
  bool_decide (c ∈ ["*"; "#"; "$"; "@"; "!"; "?"; "-";
                    "0"; "1"; "2"; "3"; "4"; "5"; "6"; "7"; "8"; "9"]%char).
Definition isAlphaNum (c : ascii) : bool :=
  let n := nat_of_ascii c in
  bool_decide (c = "_"%char) || ((48 <=? n) && (n <=? 57))%nat
  || ((97 <=? n) && (n <=? 122))%nat || ((65 <=? n) && (n <=? 90))%nat.

(** The bytes up to the first closing brace, if there is one. *)
Fixpoint to_brace (s : list ascii) : option (list ascii) :=
  match s with
  | [] => None
  | c :: s => if decide (c = "}"%char) then Some [] else cons c <$> to_brace s
  end.
Fixpoint alnum_prefix (s : list ascii) : list ascii :=
  match s with
  | c :: s => if isAlphaNum c then c :: alnum_prefix s else []
  | [] => []
  end.

(** The name after a dollar sign and the number of bytes it takes. *)
Definition scan_brace (s : list ascii) : list ascii * nat :=
  match to_brace s with
  | Some [] => ([], 2%nat)
  | Some name => (name, (length name + 2)%nat)
  | None => ([], 1%nat)
  end.
Definition getShellName (s : list ascii) : list ascii * nat :=
  match s with
  | "{"%char :: s' =>
      match s' with
      | c :: "}"%char :: _ => if isShellSpecialVar c then ([c], 3%nat) else scan_brace s'
      | _ => scan_brace s'
      end
  | c :: _ => if isShellSpecialVar c then ([c], 1%nat)
              else (alnum_prefix s, length (alnum_prefix s))
  | [] => ([], 0%nat)
  end.

(** [Expand(s, mapping)]; [skip] counts the bytes already consumed. *)
Section Expand.
Variable mapping : string -> result string.

Fixpoint expand (skip : nat) (s : list ascii) : result (list ascii) :=
  match s with
  | [] => Ok []
  | c :: s =>
      match skip with
      | S skip => expand skip s
      | O =>
          match decide (c = "$"%char), s with
          | left _, _ :: _ =>
              match getShellName s with
              | ([], O) => cons c <$> expand 0 s
              | ([], w) => expand w s
              | (name, w) =>
                  v ← mapping (String.string_of_list_ascii name);
                  app (String.list_ascii_of_string v) <$> expand w s
              end
          | _, _ => cons c <$> expand 0 s
          end
      end
  end.

Definition Expand (s : string) : result string :=
  String.string_of_list_ascii <$> expand 0 (String.list_ascii_of_string s).
End Expand.
End os.

(** ** Segment representations *)

(** [SegmentRepr] with the embedded [Config] and [BranchOptions]. *)
Inductive SegmentRepr : Type := mkRepr {
  Name : string;
  Config : config;
  Jobs : Z;
  If_ : list SegmentRepr;
  Then_ : list SegmentRepr;
  Else_ : list SegmentRepr;
}.

Section expansion.
(** [flag.Args()] and [os.Getenv]. *)
Variables (Args : list string) (Getenv : string -> string).

(** The closure [argvMapper]: a negative index panics. *)
Definition argvMapper (placeholderName : string) : result string :=
  match strconv.Atoi placeholderName with
  | Some argnum =>
      if argnum <? zlen Args then
        if argnum <? 0 then Panic
        else match Args !! Z.to_nat argnum with Some a => Ok a | None => Panic end
      else Ok ""%string
  | None => Ok ""%string
  end.

Definition expand_value (v : string) : result string :=
  e ← os.Expand argvMapper v;
  if is_empty e && negb (is_empty v) then os.Expand (fun n => Ok (Getenv n)) v else Ok e.

(** [ExpandedConfig]: every value on its own; the iteration order of the
    map does not matter, since a panic on any key is a panic. *)
Definition is_ok (v : string) : bool := match expand_value v with Ok _ => true | _ => false end.
Definition ExpandedConfig (s : SegmentRepr) : result config :=
  if decide (map_Forall (fun _ v => is_ok v = true) (Config s))
  then Ok (omap (fun v => match expand_value v with Ok e => Some e | _ => None end) (Config s))
  else Panic.
End expansion.

(** A registered segment type: its [New] and [AddCustomConfig] methods. *)
Record template := mktemplate {
  t_New : config -> created proc;
  t_AddCustomConfig : proc -> SegmentRepr -> created proc;
}.
(** [BaseSegment.AddCustomConfig] *)
Definition plain_template (new : config -> created proc) : template :=
  {| t_New := new; t_AddCustomConfig := fun p _ => Created p |}.

Section construction.
Variables (Args : list string) (Getenv : string -> string) (registry : gmap string template).

Definition segmentFromTemplate (t : template) (repr : SegmentRepr) : created proc :=
  match ExpandedConfig Args Getenv repr with
  | Ok c => s ← t_New t c; t_AddCustomConfig t s repr
  | _ => Panicked
  end.

(** [for range Jobs]: every instance is built from the template anew. *)
Fixpoint build_jobs (n : nat) (t : template) (repr : SegmentRepr) : created (list proc) :=
  match n with
  | O => Created []
  | S n =>
      match segmentFromTemplate t repr with
      | Created s => l ← build_jobs n t repr; Created (s :: l)
      | NilSegment => FatalExit
      | FatalExit => FatalExit
      | Panicked => Panicked
      end
  end.

(** One iteration of the loop; [None] is a nil entry of [segmentList]. *)
Definition build_entry (repr : SegmentRepr) : created (option seg) :=
  t ← LookupSegment (Name repr) registry;
  if Jobs repr <=? 1 then
    match segmentFromTemplate t repr with
    | Created s => Created (Some (Single s))
    | NilSegment => Created None
    | FatalExit => FatalExit
    | Panicked => Panicked
    end
  else
    l ← build_jobs (Z.to_nat (Jobs repr)) t repr;
    Created (Some (ParallelizedSegment l)).

Fixpoint SegmentsFromRepr (reprs : list SegmentRepr) : created (list (option seg)) :=
  match reprs with
  | [] => Created []
  | r :: reprs =>
      s ← build_entry r;
      l ← SegmentsFromRepr reprs;
      Created (s :: l)
  end.

(** [SegmentsFromRepr] and [New]; [NilSegment] is the nil pipeline. *)
Definition NewFromReprs (reprs : list SegmentRepr) : created pipeline :=
  l ← SegmentsFromRepr reprs;
  match New l with Some p => Created p | None => NilSegment end.

(** [yaml.Unmarshal] into a list of representations; [None] is an error, and ends the process. *)
Variable Unmarshal : string -> option (list SegmentRepr).
Definition SegmentReprsFromConfig (configFile : string) : created (list SegmentRepr) :=
  match Unmarshal configFile with Some segmentReprs => Created segmentReprs | None => FatalExit end.
Definition NewFromConfig (configFile : string) : created pipeline :=
  segmentReprs ← SegmentReprsFromConfig configFile; NewFromReprs segmentReprs.
End construction.

(** [TestSegment]: one message through a fresh segment, [In] closed after it;
    the result is what is received from [Out] ([None]: the nil read from the
    closed channel).  Only bodies that send nothing but that one message
    return. *)
Definition TestSegment (registry : gmap string template) (name : string) (c : config)
    (msg : EnrichedFlow) : created (option EnrichedFlow) :=
  t ← LookupSegment name registry;
  match t_New t c with
  | Created p => Created (head (outs (sends p [msg])))
  | NilSegment | FatalExit => FatalExit
  | Panicked => Panicked
  end.

(** ** Facts *)
Definition no_dollar (s : string) : Prop := "$"%char ∉ String.list_ascii_of_string s.

Lemma expand_no_dollar mapping l : "$"%char ∉ l -> os.expand mapping 0 l = Ok l.
Proof.
  induction l as [|c l IH]; intros H; [done|]. apply not_elem_of_cons in H as [Hc Hl].
  simpl. rewrite decide_False by done. by rewrite IH.
Qed.

Lemma Expand_no_dollar mapping s : no_dollar s -> os.Expand mapping s = Ok s.
Proof.
  intros H. unfold os.Expand. rewrite expand_no_dollar by done. simpl.
  by rewrite String.string_of_list_ascii_of_string.
Qed.

Lemma expand_value_no_dollar Args Getenv v : no_dollar v -> expand_value Args Getenv v = Ok v.
Proof.
  intros H. unfold expand_value. rewrite Expand_no_dollar by done. simpl.
  rewrite Expand_no_dollar by done. by destruct v.
Qed.

(** Looking up a command-line argument never fails below the upper bound. *)
Lemma argvMapper_nonneg Args name n :
  strconv.Atoi name = Some n -> 0 <= n -> exists v, argvMapper Args name = Ok v.
Proof.
  intros E Hn. unfold argvMapper. rewrite E. case Z.ltb_spec; [|by eexists].
  intros Hlt. case Z.ltb_spec; [lia|]. intros _.
  destruct (Args !! Z.to_nat n) eqn:El; [by eexists|].
  apply lookup_ge_None in El. unfold zlen in Hlt. lia.
Qed.

Section build.
Context (Args : list string) (Getenv : string -> string) (registry : gmap string template).

Lemma build_jobs_length n t repr l :
  build_jobs Args Getenv n t repr = Created l -> length l = n.
Proof.
  revert l. induction n as [|n IH]; intros l; simpl; [by intros [= <-]|].
  destruct (segmentFromTemplate _ _ t repr); try done.
  destruct (build_jobs _ _ n t repr) eqn:E; try done. intros [= <-]; simpl. f_equal. by apply IH.
Qed.

(** What [build_entry] produced, from the representation's point of view. *)
Definition entry_ok (r : SegmentRepr) (s : option seg) : Prop :=
  match s with
  | None => Jobs r <= 1
  | Some (Single _) => Jobs r <= 1
  | Some (ParallelizedSegment ps) => 1 < Jobs r /\ zlen ps = Jobs r
  end.

Lemma build_entry_ok r s : build_entry Args Getenv registry r = Created s -> entry_ok r s.
Proof.
  unfold build_entry. destruct (LookupSegment _ _) as [t| | |]; try done.
  cbn [mbind created_bind]. case Z.leb_spec; intros HJ.
  - destruct (segmentFromTemplate _ _ t r); intros [= <-]; simpl; lia.
  - destruct (build_jobs _ _ _ t r) eqn:E; intros [= <-]; simpl.
    apply build_jobs_length in E. unfold zlen. lia.
Qed.

Lemma SegmentsFromRepr_entries reprs l :
  SegmentsFromRepr Args Getenv registry reprs = Created l -> Forall2 entry_ok reprs l.
Proof.
  revert l. induction reprs as [|r reprs IH]; intros l; simpl; [intros [= <-]; constructor|].
  destruct (build_entry _ _ _ r) as [s| | |] eqn:E; try done.
  destruct (SegmentsFromRepr _ _ _ reprs) as [l'| | |]; try done. intros [= <-].
  constructor; [by apply build_entry_ok|by apply IH].
Qed.
End build.

Lemma rewire_all_Some i l l' :
  rewire_all i l = Some l' -> length l' = length l /\ Forall is_Some l.
Proof.
  revert i l'. induction l as [|[s|] l IH]; intros i l'; simpl; [by intros [= <-]| |done].
  destruct (rewire_all (S i) l) as [k|] eqn:E; simpl; [|done]. intros [= <-].
  destruct (IH _ _ E) as [HL Hall]. split; [simpl; by rewrite HL|]. by constructor.
Qed.

Lemma New_Some l p : New l = Some p -> length (SegmentList p) = Nat.max 1 (length l) /\ Forall is_Some l.
Proof.
  unfold New. destruct l as [|s l]; [by intros [= <-]|]. cbv beta iota zeta.
  destruct (rewire_all 0 (s :: l)) as [l'|] eqn:E; cbn [mbind option_bind]; [|done]. intros [= <-].
  destruct (rewire_all_Some _ _ _ E) as [HL ?]. simpl in *. split; [lia|done].
Qed.

(** Literal configuration values (without a dollar sign) reach the
    segment's [New] unchanged, whatever the command line and the environment. *)
Theorem ExpandedConfig_literal (Args : list string) (Getenv : string -> string) (s : SegmentRepr) :
  map_Forall (fun _ v => no_dollar v) (Config s) ->
  ExpandedConfig Args Getenv s = Ok (Config s).
Proof.
  intros H. unfold ExpandedConfig.
  rewrite decide_True.
  - f_equal. apply map_eq. intros k. rewrite lookup_omap.
    destruct (Config s !! k) as [v|] eqn:E; simpl; [|done].
    by rewrite (expand_value_no_dollar _ _ _ (H k v E)).
  - intros k v E. unfold is_ok. by rewrite (expand_value_no_dollar _ _ _ (H k v E)).
Qed.

(** A placeholder with a negative number, such as the value [${-1}],
    passes the upper bound check of [argvMapper] and indexes [flag.Args()]
    out of range: expanding the configuration panics, whatever the command
    line. *)
Theorem ExpandedConfig_negative_panics (Args : list string) (Getenv : string -> string)
    (s : SegmentRepr) (k : string) :
  Config s !! k = Some "${-1}"%string -> ExpandedConfig Args Getenv s = Panic.
Proof.
  intros Hk. unfold ExpandedConfig. rewrite decide_False; [done|].
  intros Hall. specialize (Hall _ _ Hk). simpl in Hall. revert Hall.
  unfold is_ok, expand_value, os.Expand. simpl.
  unfold argvMapper. replace (strconv.Atoi (String "-" (String "1" EmptyString))) with (Some (-1)) by done.
  case Z.ltb_spec; [done|]. unfold zlen. lia.
Qed.

(** A pipeline built from its configuration has one segment per entry (a
    single [pass] for none), every entry with more than one job is a wrapper
    around exactly that many instances, and no entry is nil. *)
Theorem NewFromReprs_shape (Args : list string) (Getenv : string -> string)
    (registry : gmap string template) (reprs : list SegmentRepr) (p : pipeline) :
  NewFromReprs Args Getenv registry reprs = Created p ->
  length (SegmentList p) = Nat.max 1 (length reprs) /\
  exists l, SegmentsFromRepr Args Getenv registry reprs = Created l /\
    Forall is_Some l /\ Forall2 entry_ok reprs l.
Proof.
  unfold NewFromReprs.
  destruct (SegmentsFromRepr Args Getenv registry reprs) as [l| | |] eqn:E; try done.
  cbn [mbind created_bind]. destruct (New l) as [p'|] eqn:EN; [|done]. intros [= <-].
  destruct (New_Some _ _ EN) as [-> Hall]. pose proof (SegmentsFromRepr_entries _ _ _ _ _ E) as H2.
  split; [by rewrite (Forall2_length _ _ _ H2)|]. by exists l.
Qed.

Definition pass_repr (j : Z) (c : config) : SegmentRepr := mkRepr "Pass" c j [] [] [].
Definition pass_registry : gmap string template :=
  {[ "pass"%string := plain_template (fun _ => Created (new_proc Pass mkPass)) ]}.

Definition tcp_config : config := {[ "filter"%string := "proto tcp"%string ]}.
Lemma ExpandedConfig_literal_witness :
  ExpandedConfig [] (fun _ => ""%string) (pass_repr 1 tcp_config) = Ok tcp_config.
Proof.
  refine (ExpandedConfig_literal [] (fun _ => ""%string) (pass_repr 1 tcp_config) _).
  apply map_Forall_singleton. unfold no_dollar. by apply (bool_decide_unpack _).
Defined.
Lemma ExpandedConfig_negative_panics_witness :
  ExpandedConfig ["a"%string] (fun _ => ""%string) (pass_repr 1 {[ "filter"%string := "${-1}"%string ]}) = Panic.
Proof. by apply (ExpandedConfig_negative_panics _ _ _ "filter"). Defined.
Lemma NewFromReprs_shape_witness :
  exists p, NewFromReprs [] (fun _ => ""%string) pass_registry [pass_repr 1 ∅; pass_repr 3 ∅] = Created p /\
  length (SegmentList p) = 2%nat.
Proof.
  eexists. split; [reflexivity|].
  apply (NewFromReprs_shape [] (fun _ => ""%string) pass_registry [pass_repr 1 ∅; pass_repr 3 ∅]). reflexivity.
Defined.
