(* ===== verification/Modify.v ===== *)
(** * Segments that rewrite single fields ([segments/modify])

    [normalize], [sync_timestamps], [addrstrings] and [dropfields]: the
    configuration read by [New] and the body of [Run]. *)

From stdpp Require Import prelude strings list gmap.
From Stdlib Require Import ZArith Lia Ascii.
From S2P Require Import Prelude GoStd EnrichedFlow FlowMethods Legacy Reflect Segment.

(** ** normalize *)
Record Normalize := mkNormalize { Fallback : Z }.
Module normalize.
Definition New (c : config) : created Normalize :=
  Created {| Fallback :=
    if negb (is_empty (cfg c "fallback"))
    then default 0 (strconv.ParseUint 32 (cfg c "fallback")) else 0 |}.

Definition scaled (rate : Z) (msg : EnrichedFlow) : EnrichedFlow :=
  set_Packets (u64 (Packets msg * rate)) (set_Bytes (u64 (Bytes msg * rate)) msg).
Definition body (segment : Normalize) (msg : EnrichedFlow) : EnrichedFlow :=
  if 0 <? SamplingRate msg then
    set_Normalized 1 (scaled (SamplingRate msg) msg)
  else if negb (Fallback segment =? 0) then
    set_Normalized 1 (set_SamplingRate (Fallback segment) (scaled (Fallback segment) msg))
  else msg.
End normalize.
#[export] Instance Normalize_segment : Segment Normalize :=
  {| seg_filter := false; seg_step := fun _ s msg => (s, [EOut (normalize.body s msg)]) |}.

(** ** sync_timestamps *)
Inductive SyncTimestamps : Type := mkSyncTimestamps.
#[export] Instance SyncTimestamps_segment `{f64.Platform} : Segment SyncTimestamps :=
  {| seg_filter := false; seg_step := fun _ s msg => (s, [EOut (SyncMissingTimeStamps msg)]) |}.

(** ** addrstrings *)
Record AddrStrings := mkAddrStrings { Separator : pb.MacSeparator }.
Module addrstrings.
Definition New (c : config) : created AddrStrings :=
  Created {| Separator :=
    if gostrings.Contains (cfg c "macseparator") "dash" then pb.MACSeparatorDash else pb.MACSeparatorColon |}.

Definition if_set {A} (set : bool) (f : A -> A) (a : A) : A := if set then f a else a.
Definition body (segment : AddrStrings) (original : EnrichedFlow) : EnrichedFlow :=
  let m := original in
  let m := if_set (negb (is_nil (SrcAddr m))) (set_SourceIP (net.String (pb.SrcAddrObj m))) m in
  let m := if_set (negb (is_nil (DstAddr m))) (set_DestinationIP (net.String (pb.DstAddrObj m))) m in
  let m := if_set (negb (is_nil (NextHop m))) (set_NextHopIP (net.String (pb.NextHopObj m))) m in
  let m := if_set (negb (is_nil (SamplerAddress m))) (set_SamplerIP (net.String (pb.SamplerAddressObj m))) m in
  let m := if_set (negb (SrcMac m =? 0)) (set_SourceMAC (pb.SrcMacString m (Separator segment))) m in
  if_set (negb (DstMac m =? 0)) (set_DestinationMAC (pb.DstMacString m (Separator segment))) m.
End addrstrings.
#[export] Instance AddrStrings_segment : Segment AddrStrings :=
  {| seg_filter := false; seg_step := fun _ s msg => (s, [EOut (addrstrings.body s msg)]) |}.

(** ** dropfields *)
Inductive Policy : Type := PolicyDrop | PolicyKeep.
Record DropFields := mkDropFields { Policy_ : Policy; Fields : list string }.
Module dropfields.
(** The regular expression [\[\s,;:\]+]. *)
Definition is_separator (a : ascii) : bool :=
  bool_decide (a ∈ [" "; ","; ";"; ":"]%char)
  || bool_decide (nat_of_ascii a ∈ [9; 10; 12; 13]%nat).
(** [Split(s, -1)]: the pieces between the maximal runs of separators. *)
Fixpoint split_runs (insep : bool) (cur : list ascii) (s : string) : list string :=
  match s with
  | EmptyString => [String.string_of_list_ascii (rev cur)]
  | String a s =>
      if is_separator a then
        if insep then split_runs true cur s
        else String.string_of_list_ascii (rev cur) :: split_runs true [] s
      else split_runs false (a :: cur) s
  end.
Definition FieldSplit (s : string) : list string := split_runs false [] s.

Definition New (c : config) : created DropFields :=
  policy ← (if seqb (cfg c "policy") "keep" then Created PolicyKeep
            else if seqb (cfg c "policy") "drop" then Created PolicyDrop
            else FatalExit);
  Created {| Policy_ := policy; Fields := FieldSplit (gostrings.TrimSpace (cfg c "fields")) |}.

(** PolicyKeep's loop over the fields; an invalid or unexported field ends
    the process. *)
Fixpoint keep (fields : list string) (original resultFlow : EnrichedFlow) : created EnrichedFlow :=
  match fields with
  | [] => Created resultFlow
  | fieldName :: fields =>
      match FieldByName fieldName with
      | Exported d => keep fields original (fd_set d (fd_get d original) resultFlow)
      | _ => FatalExit
      end
  end.
(** PolicyDrop's loop: other names are ignored. *)
Fixpoint drop (fields : list string) (original : EnrichedFlow) : EnrichedFlow :=
  match fields with
  | [] => original
  | fieldName :: fields =>
      match FieldByName fieldName with
      | Exported d => drop fields (fd_set d (zero_value (fd_kind d)) original)
      | _ => drop fields original
      end
  end.

Definition body (segment : DropFields) (original : EnrichedFlow) : created (list emit) :=
  match Policy_ segment with
  | PolicyKeep => r ← keep (Fields segment) original emptyFlow; Created [EOut r]
  | PolicyDrop => Created [EOut (drop (Fields segment) original)]
  end.

Example FieldSplit_ex : FieldSplit "SrcAddr, DstAddr;;Bytes" = ["SrcAddr"; "DstAddr"; "Bytes"]%string.
Proof. reflexivity. Qed.
(** Without a 'fields' parameter there is one field with an empty name. *)
Example FieldSplit_empty : FieldSplit "" = [""%string].
Proof. reflexivity. Qed.
End dropfields.

(** The loop's body as that of a segment; the end of the process is its failure. *)
#[export] Instance DropFields_segment : PartialSegment DropFields := fun _ s msg =>
  match dropfields.body s msg with Created es => Ok (s, es) | _ => Err "" end.

(** ** Facts *)
#[export] Instance Normalize_forwards : Forwards Normalize.
Proof. intros b s m. by eexists. Qed.
#[export] Instance AddrStrings_forwards : Forwards AddrStrings.
Proof. intros b s m. by eexists. Qed.
#[export] Instance SyncTimestamps_forwards `{f64.Platform} : Forwards SyncTimestamps.
Proof. intros b s m. by eexists. Qed.

(** Forwarding bodies satisfy the laws of segments that never drop. *)
Lemma forwards_laws S `{Segment S} : Forwards S -> SegmentLaws S.
Proof.
  intros Hf. assert (forall b (s : S) m, Forall is_out (seg_step b s m).2) as Hall.
  { intros b s m. destruct (forwards_one b s m) as [m' ->]. by repeat constructor. }
  split; auto.
Qed.
#[export] Instance Normalize_laws : SegmentLaws Normalize := forwards_laws _ _.
#[export] Instance AddrStrings_laws : SegmentLaws AddrStrings := forwards_laws _ _.
#[export] Instance SyncTimestamps_laws `{f64.Platform} : SegmentLaws SyncTimestamps := forwards_laws _ _.

Module normalize_facts.
(** The rate a flow is scaled with; 0 means it is left alone. *)
Definition rate (segment : Normalize) (msg : EnrichedFlow) : Z :=
  if 0 <? SamplingRate msg then SamplingRate msg else Fallback segment.

Lemma New_Fallback c s : normalize.New c = Created s -> in_u 32 (Fallback s).
Proof.
  intros [= <-]; simpl. unfold in_u. case_goal; [|lia].
  destruct (strconv.ParseUint 32 (cfg c "fallback")) as [n|] eqn:E; simpl; [|lia].
  by apply strconv.ParseUint_range in E.
Qed.

Lemma body_eq s m :
  0 <= SamplingRate m -> rate s m <> 0 ->
  normalize.body s m = set_Normalized 1 (set_SamplingRate (rate s m) (normalize.scaled (rate s m) m)).
Proof.
  intros Hs Hr. unfold normalize.body, rate in *. destruct (0 <? SamplingRate m) eqn:E.
  - by destruct m.
  - rewrite (proj2 (Z.eqb_neq _ _) Hr). done.
Qed.

Lemma body_unscaled s m : rate s m = 0 -> normalize.body s m = m.
Proof.
  unfold normalize.body, rate. case Z.ltb_spec; intros; [lia|].
  case Z.eqb_spec; simpl; [done|lia].
Qed.

(** [normalize] multiplies both counters by the sampling rate, or by the
    fallback when the flow has none, exactly as long as the products fit in
    64 bits; it records the rate and sets Normalized, and it touches no
    other field.  Without a rate the flow is unchanged. *)
Theorem normalize_scales (s : Normalize) (m : EnrichedFlow) :
  0 <= SamplingRate m ->
  (rate s m = 0 -> normalize.body s m = m) /\
  (rate s m <> 0 -> in_u 64 (Bytes m * rate s m) -> in_u 64 (Packets m * rate s m) ->
   normalize.body s m =
     set_Normalized EnrichedFlow_Yes (set_SamplingRate (rate s m)
       (set_Packets (Packets m * rate s m) (set_Bytes (Bytes m * rate s m) m)))).
Proof.
  intros Hs. split; [apply body_unscaled|]. intros Hr Hb Hp.
  rewrite (body_eq s m Hs Hr). unfold normalize.scaled. by rewrite !wrap_small.
Qed.
Lemma normalize_scales_witness :
  normalize.body {| Fallback := 32 |} (set_Bytes 1000 (set_Packets 2 emptyFlow))
  = set_Normalized EnrichedFlow_Yes (set_SamplingRate 32 (set_Packets 64 (set_Bytes 32000
      (set_Bytes 1000 (set_Packets 2 emptyFlow))))).
Proof.
  apply (normalize_scales {| Fallback := 32 |} (set_Bytes 1000 (set_Packets 2 emptyFlow)));
    vm_compute; intuition congruence.
Defined.

(** The Normalized mark is not consulted: a flow that passes two
    [normalize] segments is scaled by the square of its rate. *)
Theorem normalize_twice (s : Normalize) (m : EnrichedFlow) :
  0 < SamplingRate m ->
  Bytes (normalize.body s (normalize.body s m)) = u64 (Bytes m * SamplingRate m ^ 2) /\
  Packets (normalize.body s (normalize.body s m)) = u64 (Packets m * SamplingRate m ^ 2).
Proof.
  intros Hs. assert (rate s m = SamplingRate m) as Hr.
  { unfold rate. case Z.ltb_spec; [done|lia]. }
  rewrite (body_eq s m) by lia. rewrite Hr.
  set (m1 := set_Normalized 1 _). assert (rate s m1 = SamplingRate m) as Hr1.
  { unfold rate. change (SamplingRate m1) with (SamplingRate m). case Z.ltb_spec; [done|lia]. }
  rewrite (body_eq s m1); [|change (SamplingRate m1) with (SamplingRate m); lia|lia]. rewrite Hr1.
  change (u64 (u64 (Bytes m * SamplingRate m) * SamplingRate m) = u64 (Bytes m * SamplingRate m ^ 2) /\
          u64 (u64 (Packets m * SamplingRate m) * SamplingRate m) = u64 (Packets m * SamplingRate m ^ 2)).
  autorewrite with wrap_db. split; f_equal; ring.
Qed.
Lemma normalize_twice_witness :
  Bytes (normalize.body {| Fallback := 0 |} (normalize.body {| Fallback := 0 |}
    (set_SamplingRate 10 (set_Bytes 7 emptyFlow)))) = 700 /\
  Packets (normalize.body {| Fallback := 0 |} (normalize.body {| Fallback := 0 |}
    (set_SamplingRate 10 (set_Bytes 7 emptyFlow)))) = 0.
Proof. apply (normalize_twice {| Fallback := 0 |} (set_SamplingRate 10 (set_Bytes 7 emptyFlow))). done. Defined.
End normalize_facts.

Module dropfields_facts.
Lemma FieldByName_Exported name d : FieldByName name = Exported d -> d ∈ fields /\ fd_name d = name.
Proof.
  unfold FieldByName. destruct (find_field name) eqn:E; [|case_goal; done].
  intros [= <-]. by apply find_field_Some.
Qed.
Lemma FieldByName_elem d : d ∈ fields -> FieldByName (fd_name d) = Exported d.
Proof. intros Hd. unfold FieldByName. by rewrite (find_field_elem d Hd). Qed.

(** Assigning one exported field, seen from every field. *)
Lemma get_set d d' v r : d ∈ fields -> d' ∈ fields -> has_kind (fd_kind d') v = true ->
  fd_get d (fd_set d' v r) = if decide (fd_name d = fd_name d') then v else fd_get d r.
Proof.
  intros Hd Hd' Hk. case_decide as Hn; [|by apply get_set_other].
  assert (d = d') as -> by (apply FieldByName_elem in Hd; apply FieldByName_elem in Hd'; congruence).
  by apply get_set_same.
Qed.

Lemma keep_get l original r r' d :
  d ∈ fields -> dropfields.keep l original r = Created r' ->
  fd_get d r' = if decide (fd_name d ∈ l) then fd_get d original else fd_get d r.
Proof.
  intros Hd. revert r. induction l as [|n l IH]; intros r; simpl; [by intros [= <-]|].
  destruct (FieldByName n) as [d'| |] eqn:E; try done. intros H.
  apply FieldByName_Exported in E as [Hd' <-]. rewrite (IH _ H).
  rewrite get_set by (done || by apply get_kind).
  destruct (decide (fd_name d ∈ l)); [by rewrite decide_True by (by right)|].
  case_decide as Hn.
  - rewrite decide_True by (rewrite Hn; by left).
    assert (d = d') as -> by (apply FieldByName_elem in Hd; apply FieldByName_elem in Hd'; congruence). done.
  - rewrite decide_False; [done|]. intros [|]%elem_of_cons; done.
Qed.

Lemma drop_get l r d :
  d ∈ fields ->
  fd_get d (dropfields.drop l r) = if decide (fd_name d ∈ l) then zero_value (fd_kind d) else fd_get d r.
Proof.
  intros Hd. revert r. induction l as [|n l IH]; intros r; [done|]. simpl.
  destruct (decide (fd_name d = n)) as [<-|Hn].
  - rewrite (FieldByName_elem d Hd), IH, get_set_same by (done || apply zero_has_kind).
    rewrite (decide_True (P := fd_name d ∈ fd_name d :: l)) by (by left). by case_decide.
  - assert (fd_get d (dropfields.drop l (match FieldByName n with
             Exported d' => fd_set d' (zero_value (fd_kind d')) r | _ => r end))
            = if decide (fd_name d ∈ l) then zero_value (fd_kind d) else fd_get d r) as E.
    { destruct (FieldByName n) as [d'| |] eqn:E; rewrite IH; [|done..].
      apply FieldByName_Exported in E as [Hd' <-].
      by rewrite get_set_other by (done || apply zero_has_kind). }
    assert (fd_name d ∈ n :: l <-> fd_name d ∈ l) as Hiff
      by (rewrite elem_of_cons; split; [intros []; done|by right]).
    rewrite (decide_ext (fd_name d ∈ n :: l) (fd_name d ∈ l)) by done.
    by destruct (FieldByName n).
Qed.

Lemma keep_defined l original r :
  Forall (fun n => exists d, FieldByName n = Exported d) l <->
  exists r', dropfields.keep l original r = Created r'.
Proof.
  revert r. induction l as [|n l IH]; intros r; simpl.
  - split; [by eexists|constructor].
  - rewrite Forall_cons, (IH (match FieldByName n with
      Exported d => fd_set d (fd_get d original) r | _ => r end)).
    destruct (FieldByName n) as [d| |].
    + split; [intros [_ H]; exact H|]. intros H. split; [by exists d|exact H].
    + split; [intros [[d Hd] _]; done|by intros [r' Hr]].
    + split; [intros [[d Hd] _]; done|by intros [r' Hr]].
Qed.

(** [dropfields] with policy keep: the outgoing flow has exactly the
    named fields of the original and zero values elsewhere; it exits the
    process if and only if some name is not an exported field. *)
Theorem keep_keeps (l : list string) (original : EnrichedFlow) :
  (forall es, dropfields.body {| Policy_ := PolicyKeep; Fields := l |} original = Created es ->
     exists r, es = [EOut r] /\ forall d, d ∈ fields ->
       fd_get d r = if decide (fd_name d ∈ l) then fd_get d original else zero_value (fd_kind d)) /\
  (dropfields.body {| Policy_ := PolicyKeep; Fields := l |} original = FatalExit <->
     ~ Forall (fun n => exists d, FieldByName n = Exported d) l).
Proof.
  unfold dropfields.body; cbn [Policy_ Fields]. split.
  - intros es. destruct (dropfields.keep _ _ _) as [r| | |] eqn:E; try done. intros [= <-].
    exists r. split; [done|]. intros d Hd. rewrite (keep_get _ _ _ _ d Hd E).
    by rewrite (get_zero d Hd).
  - rewrite (keep_defined l original emptyFlow).
    assert (dropfields.keep l original emptyFlow = FatalExit \/
            exists r, dropfields.keep l original emptyFlow = Created r) as [-> | [r ->]].
    { generalize emptyFlow. induction l as [|n l IH]; intros e; simpl; [by right; eexists|].
      destruct (FieldByName n); [apply IH|by left..]. }
    + split; [intros _ [r Hr]; done|done].
    + split; [done|]. intros []. by eexists.
Qed.

(** [dropfields] with policy drop zeroes exactly the named fields and
    keeps the others; names that are no exported field are ignored. *)
Theorem drop_drops (l : list string) (original : EnrichedFlow) (d : field) :
  d ∈ fields ->
  exists r, dropfields.body {| Policy_ := PolicyDrop; Fields := l |} original = Created [EOut r] /\
    fd_get d r = if decide (fd_name d ∈ l) then zero_value (fd_kind d) else fd_get d original.
Proof. intros Hd. eexists. split; [done|]. by apply drop_get. Qed.
Lemma drop_drops_witness :
  exists d, d ∈ fields /\ fd_name d = "Bytes"%string /\
  exists r, dropfields.body {| Policy_ := PolicyDrop; Fields := ["Bytes"; "nonsense"]%string |}
              (set_Bytes 5 emptyFlow) = Created [EOut r] /\
    fd_get d r = if decide (fd_name d ∈ ["Bytes"; "nonsense"]%string)
                 then zero_value (fd_kind d) else fd_get d (set_Bytes 5 emptyFlow).
Proof.
  destruct (find_field "Bytes") as [d|] eqn:E; [|vm_compute in E; discriminate].
  apply find_field_Some in E as [Hd Hn]. exists d. split; [done|]. split; [done|].
  by apply (drop_drops ["Bytes"; "nonsense"]%string (set_Bytes 5 emptyFlow) d).
Defined.
End dropfields_facts.
