(* ===== verification/PrefixList.v ===== *)
(** * Segments driven by a prefix list
    ([segments/modify/addcid], [addnetid], [remoteaddress])

    The three segments read a CSV file of prefixes into one trie per address
    family (module [ip_prefix_trie], not part of the repository) and look the
    addresses of every flow up.  A trie is the list of insertions made into
    it; [Lookup] is the library's lookup, a parameter. *)

From stdpp Require Import prelude strings list gmap.
From Stdlib Require Import ZArith Lia Ascii.
From S2P Require Import Prelude GoStd EnrichedFlow Segment.

(** The dynamic values the program inserts. *)
Inductive trie_val : Type := TInt (n : Z) | TStr (s : string).
Definition trie : Type := list (trie_val * string).
Definition Insert (v : trie_val) (prefix : string) (t : trie) : trie := t ++ [(v, prefix)].

(** The type assertions [x.(int64)] and [x.(string)] with the second result ignored. *)
Definition as_int64 (v : option trie_val) : Z := match v with Some (TInt n) => n | _ => 0 end.
Definition as_string (v : option trie_val) : string := match v with Some (TStr s) => s | _ => "" end.

Record tries := mktries { trieV4 : trie; trieV6 : trie }.

(** A record of the CSV file, or a line [csv.Reader.Read] rejects. *)
Inductive csv_line : Type := Row (fields : list string) | BadLine.

(** The loop over the bytes of [row\[0\]]: the first dot or colon decides. *)
Fixpoint address_family (s : string) : option bool :=
  match s with
  | EmptyString => None
  | String "." _ => Some true
  | String ":" _ => Some false
  | String _ s => address_family s
  end.
Definition insert_row (v : trie_val) (prefix : string) (t : tries) : tries :=
  match address_family prefix with
  | Some true => {| trieV4 := Insert v prefix (trieV4 t); trieV6 := trieV6 t |}
  | Some false => {| trieV4 := trieV4 t; trieV6 := Insert v prefix (trieV6 t) |}
  | None => t
  end.

(** [readPrefixList]: [value] turns the second column into the trie value, or
    skips the row; a row without the needed columns panics. *)
Fixpoint readPrefixList (value : string -> option trie_val) (file : list csv_line) (t : tries) : result tries :=
  match file with
  | [] => Ok t
  | BadLine :: file => readPrefixList value file t
  | Row (row0 :: row1 :: _) :: file =>
      match value row1 with
      | None => readPrefixList value file t
      | Some v => readPrefixList value file (insert_row v row0 t)
      end
  | Row _ :: _ => Panic
  end.
Definition int_value (s : string) : option trie_val := TInt <$> strconv.ParseInt 32 s.

(** The loop as it is: [Read i] is what the CSV reader answers to the [i]-th call,
    [None] being [io.EOF], the only answer that ends the loop.  The result [None]
    says that the fuel did not suffice. *)
Fixpoint read_loop (fuel : nat) (Read : nat -> option csv_line) (value : string -> option trie_val)
    (i : nat) (t : tries) : option (result tries) :=
  match fuel with
  | O => None
  | S fuel =>
      match Read i with
      | None => Some (Ok t)
      | Some BadLine => read_loop fuel Read value (S i) t
      | Some (Row (row0 :: row1 :: _)) =>
          match value row1 with
          | None => read_loop fuel Read value (S i) t
          | Some v => read_loop fuel Read value (S i) (insert_row v row0 t)
          end
      | Some (Row _) => Some Panic
      end
  end.

(** A file system: the reader of a file that can be opened. *)
Definition filesystem : Type := string -> option (nat -> option csv_line).
Definition read_file (fuel : nat) (container : bool) (Open : filesystem) (FileName : string)
    (value : string -> option trie_val) : option (result tries) :=
  match Open (ContainerVolumePrefix container ++ FileName)%string with
  | None => Some (Ok (mktries [] []))
  | Some Read => read_loop fuel Read value 0 (mktries [] [])
  end.

Section lookup.
Variable Lookup : trie -> net.IP -> option trie_val.

(** [if addr.To4() == nil { trieV6.Lookup(addr) } else { trieV4.Lookup(addr) }] *)
Definition lookup_addr (t : tries) (addr : net.IP) : option trie_val :=
  if is_nil (net.To4 addr) then Lookup (trieV6 t) addr else Lookup (trieV4 t) addr.
End lookup.

(** The address [RemoteAddr] leaves as the local one. *)
Definition laddress (msg : EnrichedFlow) : option net.IP :=
  if RemoteAddr msg =? 1 then Some (DstAddr msg)
  else if RemoteAddr msg =? 2 then Some (SrcAddr msg) else None.

(** ** addcid *)
Module addcid.
Record AddCid := mkAddCid { FileName : string; DropUnmatched : bool; MatchBoth : bool }.

Definition New (c : config) : created AddCid :=
  let drop := default false (strconv.ParseBool (cfg c "dropunmatched")) in
  let both := default false (strconv.ParseBool (cfg c "matchboth")) in
  if is_empty (cfg c "filename") then NilSegment
  else Created {| FileName := cfg c "filename"; DropUnmatched := drop; MatchBoth := both |}.

Definition load (fuel : nat) (container : bool) (Open : filesystem) (segment : AddCid) : option (result tries) :=
  read_file fuel container Open (FileName segment) int_value.

Section body.
Variable Lookup : trie -> net.IP -> option trie_val.

Definition cid_of (t : tries) (addr : net.IP) : Z := u32 (as_int64 (lookup_addr Lookup t addr)).

(** The branch with MatchBoth set. *)
Definition match_both (t : tries) (msg : EnrichedFlow) : EnrichedFlow :=
  let msg := set_SrcCid (cid_of t (SrcAddr msg)) msg in
  let msg := set_DstCid (cid_of t (DstAddr msg)) msg in
  if (SrcCid msg =? 0) && negb (DstCid msg =? 0) then set_Cid (DstCid msg) msg
  else if (DstCid msg =? 0) && negb (SrcCid msg =? 0) then set_Cid (SrcCid msg) msg
  else msg.

Definition body (segment : AddCid) (t : tries) (msg : EnrichedFlow) : list emit :=
  if negb (MatchBoth segment) then
    match laddress msg with
    | None => if negb (DropUnmatched segment) then [EOut msg] else []
    | Some a =>
        let msg := set_Cid (cid_of t a) msg in
        if DropUnmatched segment && (Cid msg =? 0) then [] else [EOut msg]
    end
  else [EOut (match_both t msg)].
End body.
End addcid.

(** ** addnetid *)
Module addnetid.
Record AddNetId := mkAddNetId {
  FileName : string; DropUnmatched : bool; MatchBoth : bool; UseIntIds : bool }.

Definition New (c : config) : created AddNetId :=
  let drop := default false (strconv.ParseBool (cfg c "dropunmatched")) in
  let both := default false (strconv.ParseBool (cfg c "matchboth")) in
  let enforce := default false (strconv.ParseBool (cfg c "useintids")) in
  if is_empty (cfg c "filename") then NilSegment
  else Created {| FileName := cfg c "filename"; DropUnmatched := drop; MatchBoth := both;
                  UseIntIds := enforce |}.

Definition value (segment : AddNetId) (row1 : string) : option trie_val :=
  if UseIntIds segment then int_value row1 else Some (TStr row1).
Definition load (fuel : nat) (container : bool) (Open : filesystem) (segment : AddNetId) : option (result tries) :=
  read_file fuel container Open (FileName segment) (value segment).

Section body.
Variable Lookup : trie -> net.IP -> option trie_val.

Definition id_of (t : tries) (addr : net.IP) : Z := u32 (as_int64 (lookup_addr Lookup t addr)).
Definition string_of (t : tries) (addr : net.IP) : string := as_string (lookup_addr Lookup t addr).

Definition match_one (segment : AddNetId) (t : tries) (a : net.IP) (msg : EnrichedFlow) : list emit :=
  let msg := if UseIntIds segment then set_NetId (id_of t a) msg
             else set_NetIdString (string_of t a) msg in
  if DropUnmatched segment && (Cid msg =? 0) then [] else [EOut msg].

Definition match_both_int (segment : AddNetId) (t : tries) (msg : EnrichedFlow) : list emit :=
  let msg := set_SrcId (id_of t (SrcAddr msg)) msg in
  let msg := set_DstId (id_of t (DstAddr msg)) msg in
  if (SrcId msg =? 0) && negb (DstId msg =? 0) then [EOut (set_NetId (DstId msg) msg)]
  else if (DstId msg =? 0) && negb (SrcId msg =? 0) then [EOut (set_NetId (SrcId msg) msg)]
  else if (DstId msg =? 0) && (SrcId msg =? 0) then
    if DropUnmatched segment then [] else [EOut msg]
  else [EOut msg].

Definition match_both_string (t : tries) (msg : EnrichedFlow) : list emit :=
  let msg := set_SrcIdString (string_of t (SrcAddr msg)) msg in
  let msg := set_DstIdString (string_of t (DstAddr msg)) msg in
  if is_empty (SrcIdString msg) && negb (is_empty (DstIdString msg)) then
    [EOut (set_NetIdString (DstIdString msg) msg)]
  else if is_empty (DstIdString msg) && negb (is_empty (SrcIdString msg)) then
    [EOut (set_NetIdString (SrcIdString msg) msg)]
  else if is_empty (DstIdString msg) && is_empty (SrcIdString msg) then []
  else [EOut msg].

Definition body (segment : AddNetId) (t : tries) (msg : EnrichedFlow) : list emit :=
  if negb (MatchBoth segment) then
    match laddress msg with
    | None => if negb (DropUnmatched segment) then [EOut msg] else []
    | Some a => match_one segment t a msg
    end
  else if UseIntIds segment then match_both_int segment t msg
  else match_both_string t msg.
End body.
End addnetid.

(** ** remoteaddress *)
Module remoteaddress.
Record RemoteAddress := mkRemoteAddress { Policy : string; FileName : string; DropUnmatched : bool }.

Definition policies : list string := ["cidr"; "border"; "user"; "clear"]%string.
Definition New (c : config) : created RemoteAddress :=
  if negb (bool_decide (cfg c "policy" ∈ policies)) then NilSegment
  else
    let drop := default false (strconv.ParseBool (cfg c "dropunmatched")) in
    if seqb (cfg c "policy") "cidr" && is_empty (cfg c "filename") then NilSegment
    else Created {| Policy := cfg c "policy"; FileName := cfg c "filename"; DropUnmatched := drop |}.

(** Only the policy [cidr] reads the list; the values are never parsed. *)
Definition load (fuel : nat) (container : bool) (Open : filesystem) (segment : RemoteAddress) : option (result tries) :=
  if seqb (Policy segment) "cidr"
  then read_file fuel container Open (FileName segment) (fun row1 => Some (TStr row1))
  else Some (Ok (mktries [] [])).

Section body.
Variable Lookup : trie -> net.IP -> option trie_val.

(** The loop over the two addresses; both continuations of an unmatched
    address go on with the next one. *)
Fixpoint cidr_loop (segment : RemoteAddress) (t : tries) (i : Z) (addrs : list net.IP)
    (msg : EnrichedFlow) : EnrichedFlow :=
  match addrs with
  | [] => msg
  | addr :: addrs =>
      let ret := as_string (lookup_addr Lookup t addr) in
      if negb (is_empty ret) then set_RemoteAddr (i + 1) msg
      else if DropUnmatched segment then cidr_loop segment t (i + 1) addrs msg
      else cidr_loop segment t (i + 1) addrs msg
  end.

Definition by_direction (ingress egress : Z) (msg : EnrichedFlow) : EnrichedFlow :=
  if FlowDirection msg =? 0 then set_RemoteAddr ingress msg
  else if FlowDirection msg =? 1 then set_RemoteAddr egress msg else msg.

(** The body of the loop [Run]'s switch selects; a policy [New] does not
    accept selects none, and [Run] returns. *)
Definition body (segment : RemoteAddress) (t : tries) (msg : EnrichedFlow) : option (list emit) :=
  if seqb (Policy segment) "cidr" then
    Some [EOut (cidr_loop segment t 0 [SrcAddr msg; DstAddr msg] msg)]
  else if seqb (Policy segment) "border" then Some [EOut (by_direction 1 2 msg)]
  else if seqb (Policy segment) "user" then Some [EOut (by_direction 2 1 msg)]
  else if seqb (Policy segment) "clear" then Some [EOut (set_RemoteAddr 0 msg)]
  else None.
End body.
End remoteaddress.

(** ** Facts *)
Section facts.
Variable Lookup : trie -> net.IP -> option trie_val.

Lemma insert_row_length v p t :
  (length (trieV4 (insert_row v p t)) + length (trieV6 (insert_row v p t))
   <= S (length (trieV4 t) + length (trieV6 t)))%nat.
Proof.
  unfold insert_row, Insert. destruct (address_family p) as [[]|]; simpl; rewrite ?length_app; simpl; lia.
Qed.

(** What a family's trie consists of: the accepted rows of that family, in
    file order. *)
Definition rows_of (v4 : bool) (value : string -> option trie_val) (file : list csv_line) : trie :=
  omap (fun l => match l with
    | Row (row0 :: row1 :: _) =>
        v ← value row1;
        if decide (address_family row0 = Some v4) then Some (v, row0) else None
    | _ => None end) file.

Definition two_columns (l : csv_line) : Prop :=
  match l with Row (_ :: _ :: _) | BadLine => True | _ => False end.

Lemma readPrefixList_ok value file t :
  Forall two_columns file ->
  readPrefixList value file t =
  Ok {| trieV4 := trieV4 t ++ rows_of true value file; trieV6 := trieV6 t ++ rows_of false value file |}.
Proof.
  intros H. revert t. induction H as [|[[|r0 [|r1 row]]|] file Hl _ IH]; intros t; simpl; try done.
  - rewrite !app_nil_r. by destruct t.
  - destruct (value r1) as [v|]; simpl; rewrite IH; [|done].
    unfold insert_row, Insert. destruct (address_family r0) as [[]|]; simpl; by rewrite <- ?app_assoc.
Qed.

(** The loop on a reader that gives the records of a file and then [io.EOF]. *)
Lemma read_loop_returns Read value file i t :
  (forall k, Read (i + k)%nat = file !! k) ->
  forall fuel, (length file < fuel)%nat -> read_loop fuel Read value i t = Some (readPrefixList value file t).
Proof.
  revert i t. induction file as [|l file IH]; intros i t HR [|fuel] Hf; try (cbn in Hf; lia).
  - cbn. pose proof (HR O) as E. rewrite Nat.add_0_r in E. by rewrite E.
  - pose proof (HR O) as E. rewrite Nat.add_0_r in E. cbn in E, Hf.
    assert (forall t', read_loop fuel Read value (S i) t' = Some (readPrefixList value file t')) as IH'.
    { intros t'. apply IH; [|lia]. intros k. change (file !! k) with ((l :: file) !! S k). rewrite <- HR. f_equal. lia. }
    cbn [read_loop readPrefixList]. rewrite E. destruct l as [[|r0 [|r1 row]]|]; try done. by destruct (value r1).
Qed.

(** A reader that goes on failing, as that of a directory does. *)
Lemma read_loop_hangs Read value i t fuel :
  (forall k, (i <= k)%nat -> Read k = Some BadLine) -> read_loop fuel Read value i t = None.
Proof.
  revert i t. induction fuel as [|fuel IH]; intros i t HR; [done|]. cbn. rewrite HR by lia.
  apply IH. intros k Hk. apply HR. lia.
Qed.

(** What becomes of the prefix list, for each of the three segments: a file that
    cannot be opened is an empty list, a file is read to its end within as many
    rounds as it has lines and one more, and where the reads themselves go on failing
    (a directory in place of the file) the loop that reads never ends, so that the
    segment never takes a flow. *)
Theorem prefix_list_read (container : bool) (Open : filesystem) (segment : addnetid.AddNetId) :
  let path := (ContainerVolumePrefix container ++ addnetid.FileName segment)%string in
  match Open path with
  | None => forall fuel, addnetid.load fuel container Open segment = Some (Ok (mktries [] []))
  | Some Read =>
      (forall file, (forall k, Read k = file !! k) -> forall fuel, (length file < fuel)%nat ->
        addnetid.load fuel container Open segment = Some (readPrefixList (addnetid.value segment) file (mktries [] []))) /\
      ((forall k, Read k = Some BadLine) -> forall fuel, addnetid.load fuel container Open segment = None)
  end.
Proof.
  unfold addnetid.load, read_file. cbv zeta. destruct (Open _) as [Read|]; [|done]. split.
  - intros file HR fuel Hf. by apply read_loop_returns.
  - intros HR fuel. apply read_loop_hangs. auto.
Qed.

(** Reading a prefix list in which every record has two columns never
    fails, skips the rejected ones, and leaves in the IPv4 (IPv6) trie
    exactly the prefixes whose first dot or colon is a dot (colon), with
    their values, in file order. *)
Theorem readPrefixList_spec (segment : addnetid.AddNetId) (file : list csv_line) :
  Forall two_columns file ->
  readPrefixList (addnetid.value segment) file {| trieV4 := []; trieV6 := [] |} =
  Ok {| trieV4 := rows_of true (addnetid.value segment) file;
        trieV6 := rows_of false (addnetid.value segment) file |}.
Proof. intros H. by rewrite readPrefixList_ok. Qed.

(** [addcid] without matchboth and with dropunmatched: what leaves the
    segment has a customer id, found for the local address in the trie of
    its family; everything else is dropped. *)
Theorem addcid_drops_unmatched (segment : addcid.AddCid) (t : tries) (msg m : EnrichedFlow) :
  addcid.MatchBoth segment = false -> addcid.DropUnmatched segment = true ->
  EOut m ∈ addcid.body Lookup segment t msg ->
  exists a, laddress msg = Some a /\ m = set_Cid (addcid.cid_of Lookup t a) msg /\
            Cid m <> 0 /\ in_u 32 (Cid m).
Proof.
  intros Hb Hd. unfold addcid.body. rewrite Hb, Hd. simpl.
  destruct (laddress msg) as [a|]; [|by intros ?%elem_of_nil].
  case Z.eqb_spec; simpl; [by intros _ ?%elem_of_nil|].
  intros Hc [= ->]%list_elem_of_singleton. exists a. split_and!; try done.
  apply wrap_range. lia.
Qed.

(** With matchboth, [addcid] forwards every flow, matched or not:
    dropunmatched has no effect in this mode. *)
Theorem addcid_matchboth_never_drops (segment : addcid.AddCid) (t : tries) (msg : EnrichedFlow) :
  addcid.MatchBoth segment = true ->
  addcid.body Lookup segment t msg = [EOut (addcid.match_both Lookup t msg)].
Proof. intros Hb. unfold addcid.body. by rewrite Hb. Qed.

(** [addnetid] without matchboth and with dropunmatched: whether a flow
    passes depends on its customer id, which this segment never sets, and
    not on the outcome of the lookup. *)
Theorem addnetid_drop_ignores_lookup (segment : addnetid.AddNetId) (t : tries) (msg : EnrichedFlow) (a : net.IP) :
  addnetid.MatchBoth segment = false -> addnetid.DropUnmatched segment = true ->
  laddress msg = Some a ->
  (addnetid.body Lookup segment t msg = [] <-> Cid msg = 0).
Proof.
  intros Hb Hd Ha. unfold addnetid.body, addnetid.match_one. rewrite Hb, Hd, Ha. simpl.
  assert (Cid (if addnetid.UseIntIds segment then set_NetId (addnetid.id_of Lookup t a) msg
               else set_NetIdString (addnetid.string_of Lookup t a) msg) = Cid msg) as ->
    by (by destruct (addnetid.UseIntIds segment)).
  case Z.eqb_spec; simpl; intuition discriminate.
Qed.

(** [addnetid] with matchboth and string ids drops a flow exactly when
    neither address matches, whatever dropunmatched says; with integer ids
    only when it is set. *)
Theorem addnetid_matchboth_drops (segment : addnetid.AddNetId) (t : tries) (msg : EnrichedFlow) :
  addnetid.MatchBoth segment = true ->
  (addnetid.body Lookup segment t msg = [] <->
    if addnetid.UseIntIds segment
    then addnetid.DropUnmatched segment = true /\
         addnetid.id_of Lookup t (SrcAddr msg) = 0 /\ addnetid.id_of Lookup t (DstAddr msg) = 0
    else addnetid.string_of Lookup t (SrcAddr msg) = ""%string /\
         addnetid.string_of Lookup t (DstAddr msg) = ""%string).
Proof.
  intros Hb. unfold addnetid.body. rewrite Hb. simpl. destruct (addnetid.UseIntIds segment).
  - unfold addnetid.match_both_int. simpl.
    set (x := addnetid.id_of Lookup t (SrcAddr msg)).
    change (addnetid.id_of Lookup t (DstAddr (set_SrcId x msg))) with (addnetid.id_of Lookup t (DstAddr msg)).
    set (y := addnetid.id_of Lookup t (DstAddr msg)).
    change (SrcId (set_DstId y (set_SrcId x msg))) with x.
    change (DstId (set_DstId y (set_SrcId x msg))) with y.
    destruct (Z.eqb_spec x 0), (Z.eqb_spec y 0), (addnetid.DropUnmatched segment); simpl; intuition congruence.
  - unfold addnetid.match_both_string.
    set (x := addnetid.string_of Lookup t (SrcAddr msg)).
    change (addnetid.string_of Lookup t (DstAddr (set_SrcIdString x msg)))
      with (addnetid.string_of Lookup t (DstAddr msg)).
    set (y := addnetid.string_of Lookup t (DstAddr msg)). cbv zeta.
    change (SrcIdString (set_DstIdString y (set_SrcIdString x msg))) with x.
    change (DstIdString (set_DstIdString y (set_SrcIdString x msg))) with y.
    destruct x, y; simpl; intuition congruence.
Qed.

(** [remoteaddress] with policy cidr marks the source if it matches, else
    the destination if it does, else leaves the mark alone, and it forwards
    every flow: dropunmatched has no effect. *)
Theorem remoteaddress_cidr (segment : remoteaddress.RemoteAddress) (t : tries) (msg : EnrichedFlow) :
  remoteaddress.Policy segment = "cidr"%string ->
  remoteaddress.body Lookup segment t msg = Some [EOut
    (if negb (is_empty (as_string (lookup_addr Lookup t (SrcAddr msg))))
     then set_RemoteAddr EnrichedFlow_Src msg
     else if negb (is_empty (as_string (lookup_addr Lookup t (DstAddr msg))))
     then set_RemoteAddr EnrichedFlow_Dst msg else msg)].
Proof.
  intros Hp. unfold remoteaddress.body. rewrite Hp. simpl.
  destruct (as_string (lookup_addr Lookup t (SrcAddr msg))); [|done]. simpl.
  by destruct (as_string (lookup_addr Lookup t (DstAddr msg))), (remoteaddress.DropUnmatched segment).
Qed.
End facts.

(** Policies border and user are mirror images of each other. *)
Lemma border_user_mirror msg :
  FlowDirection msg = 0 \/ FlowDirection msg = 1 ->
  RemoteAddr (remoteaddress.by_direction 1 2 msg) + RemoteAddr (remoteaddress.by_direction 2 1 msg) = 3.
Proof. unfold remoteaddress.by_direction. intros [-> | ->]; reflexivity. Qed.

(** ** Examples: a library that matches by textual equality of the prefix. *)
Definition exact_lookup (t : trie) (addr : net.IP) : option trie_val :=
  assoc (net.String addr) ((fun p : trie_val * string => (p.2, p.1)) <$> t).
Definition example_tries : tries :=
  {| trieV4 := [(TInt 7, "10.0.0.1"%string)]; trieV6 := [(TStr "x", "2001:db8::1"%string)] |}.
Definition local_flow : EnrichedFlow :=
  set_SrcAddr (Some [10; 0; 0; 1]) (set_RemoteAddr 2 emptyFlow).

Lemma readPrefixList_spec_witness :
  readPrefixList (addnetid.value (addnetid.mkAddNetId "f" false false false))
    [Row ["10.0.0.0/8"; "a"]; BadLine; Row ["2001:db8::/32"; "b"]]%string {| trieV4 := []; trieV6 := [] |}
  = Ok {| trieV4 := [(TStr "a", "10.0.0.0/8"%string)]; trieV6 := [(TStr "b", "2001:db8::/32"%string)] |}.
Proof.
  apply (readPrefixList_spec (addnetid.mkAddNetId "f" false false false)
    [Row ["10.0.0.0/8"; "a"]; BadLine; Row ["2001:db8::/32"; "b"]]%string). by repeat constructor.
Defined.
Lemma addcid_drops_unmatched_witness :
  exists a, laddress local_flow = Some a /\
    set_Cid 7 local_flow = set_Cid (addcid.cid_of exact_lookup example_tries a) local_flow /\
    Cid (set_Cid 7 local_flow) <> 0 /\ in_u 32 (Cid (set_Cid 7 local_flow)).
Proof.
  apply (addcid_drops_unmatched exact_lookup (addcid.mkAddCid "f" true false) example_tries local_flow);
    [done|done|]. vm_compute. left.
Defined.
Lemma addcid_matchboth_never_drops_witness :
  addcid.body exact_lookup (addcid.mkAddCid "f" true true) example_tries emptyFlow
  = [EOut (addcid.match_both exact_lookup example_tries emptyFlow)].
Proof. by apply (addcid_matchboth_never_drops exact_lookup (addcid.mkAddCid "f" true true)). Defined.
Lemma addnetid_drop_ignores_lookup_witness :
  addnetid.body exact_lookup (addnetid.mkAddNetId "f" true false true) example_tries local_flow = [] <->
  Cid local_flow = 0.
Proof.
  by apply (addnetid_drop_ignores_lookup exact_lookup (addnetid.mkAddNetId "f" true false true)
    example_tries local_flow (Some [10; 0; 0; 1])).
Defined.
Lemma addnetid_matchboth_drops_witness :
  addnetid.body exact_lookup (addnetid.mkAddNetId "f" false true false) example_tries emptyFlow = [] <->
  addnetid.string_of exact_lookup example_tries (SrcAddr emptyFlow) = ""%string /\
  addnetid.string_of exact_lookup example_tries (DstAddr emptyFlow) = ""%string.
Proof. by apply (addnetid_matchboth_drops exact_lookup (addnetid.mkAddNetId "f" false true false)). Defined.
Lemma remoteaddress_cidr_witness :
  remoteaddress.body exact_lookup (remoteaddress.mkRemoteAddress "cidr" "f" true) example_tries emptyFlow
  = Some [EOut emptyFlow].
Proof. by apply (remoteaddress_cidr exact_lookup (remoteaddress.mkRemoteAddress "cidr" "f" true)). Defined.
