(* ===== verification/Anonymize.v ===== *)
(** * IP address anonymization ([segments/modify/anonymize])

    The Crypto-PAn module is not part of the repository: [cryptopan_New] is
    its constructor, which may reject the key, and the function it returns is
    its [Anonymize] method. *)

From stdpp Require Import prelude strings list gmap.
From Stdlib Require Import ZArith Lia Ascii.
From S2P Require Import Prelude GoStd EnrichedFlow FlowMethods Segment.

Inductive Mode : Type := ModeCryptoPan | ModeSubNet | ModeAll.
Record SubnetAnonymizer := mkSubnetAnonymizer { MaskV4 : Z; MaskV6 : Z }.

Definition modeFromConfig (s : string) : option Mode :=
  if seqb s "" then Some ModeCryptoPan
  else if seqb s "cryptopan" then Some ModeCryptoPan
  else if seqb s "subnet" then Some ModeSubNet
  else if seqb s "all" then Some ModeAll
  else None.

(** [Anonymize]; the two anonymizers are nil pointers when absent. *)
Record Anonymize := mkAnonymize {
  EncryptionKey : string;
  Fields : list string;
  AnonymizationMode : Mode;
  cryptopanAnonymizer : option (net.IP -> net.IP);
  subnetAnonymizer : option SubnetAnonymizer;
}.

Section New.
Variable cryptopan_New : string -> option (net.IP -> net.IP).

Definition uses_subnet (mode : Mode) : bool := match mode with ModeCryptoPan => false | _ => true end.
Definition uses_cryptopan (mode : Mode) : bool := match mode with ModeSubNet => false | _ => true end.

Definition parse_maskV4 (s : string) : created Z :=
  if is_empty s then Created 16
  else match strconv.Atoi s with
       | Some n => if (32 <? n) || (n <? 8) then NilSegment else Created n
       | None => NilSegment
       end.
(** The lower bound is checked on maskV4. *)
Definition parse_maskV6 (maskV4 : Z) (s : string) : created Z :=
  if is_empty s then Created 52
  else match strconv.Atoi s with
       | Some n => if (128 <? n) || (maskV4 <? 4) then NilSegment else Created n
       | None => NilSegment
       end.
Definition parse_subnet (c : config) : created SubnetAnonymizer :=
  maskV4 ← parse_maskV4 (cfg c "maskV4");
  maskV6 ← parse_maskV6 maskV4 (cfg c "maskV6");
  Created {| MaskV4 := u32 maskV4; MaskV6 := u32 maskV6 |}.

Definition default_fields : list string := ["DstAddr"; "NextHop"; "SamplerAddress"; "SrcAddr"]%string.
Definition parse_fields (s : string) : list string :=
  if is_empty s then default_fields else gostrings.Split s ",".

Definition New (c : config) : created Anonymize :=
  match modeFromConfig (cfg c "mode") with
  | None => NilSegment
  | Some mode =>
      subnet ← (if uses_subnet mode then Some <$> parse_subnet c else Created None);
      pan ← (if uses_cryptopan mode then
               if is_empty (cfg c "key") then NilSegment
               else match cryptopan_New (cfg c "key") with
                    | Some f => Created (Some f)
                    | None => NilSegment
                    end
             else Created None);
      Created {| EncryptionKey := if uses_cryptopan mode then cfg c "key" else "";
                 Fields := parse_fields (cfg c "fields"); AnonymizationMode := mode;
                 cryptopanAnonymizer := pan; subnetAnonymizer := subnet |}
  end.
End New.

(** The mask is built from MaskV4 for both families. *)
Definition reduceIPToSubnet (anon : SubnetAnonymizer) (ip : net.IP) (originalAddrPreservedLen : Z)
    : net.IP * Z :=
  let preserve m :=
    if (originalAddrPreservedLen =? 0) || (m <? originalAddrPreservedLen) then m
    else originalAddrPreservedLen in
  if negb (is_nil (net.To4 ip))
  then (net.Mask ip (net.CIDRMask (MaskV4 anon) 32), preserve (MaskV4 anon))
  else (net.Mask ip (net.CIDRMask (MaskV4 anon) 128), preserve (MaskV6 anon)).

(** [anonymize]; calling a method of a nil anonymizer panics. *)
Definition anonymize (s : Anonymize) (ip : net.IP) (addrPreservedLen : Z) : result (net.IP * Z * Z) :=
  match AnonymizationMode s with
  | ModeCryptoPan =>
      match cryptopanAnonymizer s with
      | Some f => Ok (f ip, EnrichedFlow_CryptoPAN, addrPreservedLen)
      | None => Panic
      end
  | ModeSubNet =>
      match subnetAnonymizer s with
      | Some a => let r := reduceIPToSubnet a ip addrPreservedLen in Ok (r.1, EnrichedFlow_Subnet, r.2)
      | None => Panic
      end
  | ModeAll =>
      match cryptopanAnonymizer s, subnetAnonymizer s with
      | Some f, Some a =>
          let r := reduceIPToSubnet a (f ip) addrPreservedLen in
          Ok (r.1, EnrichedFlow_SubnetAndCryptoPAN, r.2)
      | _, _ => Panic
      end
  end.

(** One case of the switch on the field name. *)
Definition anonymize_field (s : Anonymize) (field : string) (msg : EnrichedFlow) : result EnrichedFlow :=
  if seqb field "SrcAddr" then
    if is_nil (SrcAddr msg) then Ok msg
    else '(ip, t, len) ← anonymize s (SrcAddr msg) (SrcAddrPreservedLen msg);
         Ok (set_SrcAddrPreservedLen len (set_SrcAddrAnon t (set_SrcAddr ip msg)))
  else if seqb field "DstAddr" then
    if is_nil (DstAddr msg) then Ok msg
    else '(ip, t, len) ← anonymize s (DstAddr msg) (DstAddrPreservedLen msg);
         Ok (set_DstAddrPreservedLen len (set_DstAddrAnon t (set_DstAddr ip msg)))
  else if seqb field "SamplerAddress" then
    if is_nil (SamplerAddress msg) then Ok msg
    else '(ip, t, len) ← anonymize s (SamplerAddress msg) 0;
         Ok (set_SamplerAddrPreservedPrefixLen len (set_SamplerAddrAnon t (set_SamplerAddress ip msg)))
  else if seqb field "NextHop" then
    if is_nil (NextHop msg) then Ok msg
    else '(ip, t, len) ← anonymize s (NextHop msg) (NextHopAnonPreservedPrefixLen msg);
         Ok (set_NextHopAnonPreservedPrefixLen len (set_NextHopAnon t (set_NextHop ip msg)))
  else Ok msg.

Fixpoint anonymize_fields (s : Anonymize) (fields : list string) (msg : EnrichedFlow) : result EnrichedFlow :=
  match fields with
  | [] => Ok msg
  | field :: fields => msg ← anonymize_field s field msg; anonymize_fields s fields msg
  end.
#[export] Instance Anonymize_segment : PartialSegment Anonymize := fun _ s msg =>
  m ← anonymize_fields s (Fields s) msg; Ok (s, [EOut m]).

(** ** Facts *)

(** The number a big-endian byte string denotes. *)
Fixpoint be (b : list Z) : Z :=
  match b with [] => 0 | x :: b => x * 256 ^ zlen b + be b end.

Lemma be_range b : net.bytes_ok b -> 0 <= be b < 256 ^ zlen b.
Proof.
  induction 1 as [|x b Hx _ IH]; simpl; [by compute|].
  assert (zlen (x :: b) = Z.succ (zlen b)) as -> by (unfold zlen; simpl; lia).
  rewrite Z.pow_succ_r by apply zlen_nonneg. nia.
Qed.

Lemma land_high x n : 0 <= x < 256 -> 0 <= n < 8 ->
  Z.land x (255 - Z.shiftr 255 n) = x / 2 ^ (8 - n) * 2 ^ (8 - n).
Proof.
  intros Hx Hn.
  assert (255 - Z.shiftr 255 n = Z.shiftl (Z.ones n) (8 - n)) as ->.
  { assert (n = 0 \/ n = 1 \/ n = 2 \/ n = 3 \/ n = 4 \/ n = 5 \/ n = 6 \/ n = 7)
      as [->|[->|[->|[->|[->|[->|[->| ->]]]]]]] by lia; reflexivity. }
  rewrite <- Z.shiftr_div_pow2, <- Z.shiftl_mul_pow2 by lia.
  apply Z.bits_inj'. intros i Hi. rewrite Z.land_spec.
  destruct (Z.ltb_spec i (8 - n)).
  - rewrite !Z.shiftl_spec_low by lia. apply andb_false_r.
  - rewrite !Z.shiftl_spec, Z.shiftr_spec by lia.
    replace (i - (8 - n) + (8 - n)) with i by lia.
    destruct (Z.ltb_spec (i - (8 - n)) n).
    + rewrite Z.ones_spec_low by lia. apply andb_true_r.
    + rewrite Z.ones_spec_high by lia. rewrite andb_false_r.
      symmetry. apply Z.bits_above_log2; [lia|].
      assert (Z.log2 x < 8); [|lia]. destruct (decide (x = 0)) as [->|]; [done|].
      apply Z.log2_lt_pow2; lia.
Qed.

Lemma be_zero_masked b : be (zip_with Z.land b (net.mask_bytes (length b) 0)) = 0.
Proof.
  induction b as [|x b IH]; simpl; [done|]. rewrite IH. change (255 - Z.shiftr 255 0) with 0.
  rewrite Z.land_0_r. lia.
Qed.

Lemma land_255 x : 0 <= x < 256 -> Z.land x 255 = x.
Proof. intros. change 255 with (Z.ones 8). rewrite Z.land_ones by lia. apply Z.mod_small. lia. Qed.

(** Masking with the first [n] bits set clears the low bits of the number. *)
Lemma be_masked b n : net.bytes_ok b -> 0 <= n <= 8 * zlen b ->
  be (zip_with Z.land b (net.mask_bytes (length b) n))
  = be b / 2 ^ (8 * zlen b - n) * 2 ^ (8 * zlen b - n).
Proof.
  intros Hb. revert n. induction Hb as [|x b Hx Hb IH]; intros n Hn.
  { unfold zlen in *; simpl in *. assert (n = 0) as -> by lia. done. }
  assert (zlen (x :: b) = Z.succ (zlen b)) as Hz by (unfold zlen; simpl; lia).
  rewrite Hz in *. pose proof (zlen_nonneg b). pose proof (be_range b Hb).
  assert (256 ^ zlen b = 2 ^ (8 * zlen b)) as E256 by (rewrite Z.pow_mul_r by lia; done).
  simpl. assert (zlen (zip_with Z.land b (net.mask_bytes (length b) (n - 8))) = zlen b /\
                 zlen (zip_with Z.land b (net.mask_bytes (length b) 0)) = zlen b) as [L1 L2].
  { unfold zlen. rewrite !length_zip_with, !net.length_mask_bytes. lia. }
  case Z.leb_spec; intros Hc; simpl.
  - rewrite L1, land_255, IH by lia. replace (8 * Z.succ (zlen b) - n) with (8 * zlen b - (n - 8)) by lia.
    set (k := 8 * zlen b - (n - 8)). assert (0 <= k <= 8 * zlen b) as Hk by (unfold k; lia).
    rewrite E256. replace (8 * zlen b) with ((8 * zlen b - k) + k) by lia.
    assert (0 < 2 ^ k) by (apply Z.pow_pos_nonneg; lia).
    rewrite Z.pow_add_r by lia. rewrite Z.mul_assoc, Z.div_add_l by lia. ring.
  - rewrite L2, be_zero_masked, land_high by lia.
    replace (8 * Z.succ (zlen b) - n) with (8 * zlen b + (8 - n)) by lia.
    rewrite Z.pow_add_r by lia. rewrite <- Z.div_div by lia.
    rewrite E256 in *. rewrite Z.div_add_l, (Z.div_small (be b)) by lia. rewrite !Z.add_0_r. ring.
Qed.

Lemma CIDRMask_ok ones bits : (bits = 32 \/ bits = 128) -> 0 <= ones <= bits ->
  net.CIDRMask ones bits = Some (net.mask_bytes (Z.to_nat (bits / 8)) ones).
Proof.
  intros Hb Ho. unfold net.CIDRMask.
  assert ((bits =? 32) || (bits =? 128) = true) as -> by (destruct Hb as [-> | ->]; done). simpl.
  do 2 (case Z.ltb_spec; [lia|intros _]). done.
Qed.

(** Masking an IPv4 address, in either representation, with a 4-byte mask. *)
Lemma Mask_v4 ip b m : net.To4 ip = Some b -> length m = 4%nat ->
  net.Mask ip (Some m) = Some (zip_with Z.land b m) /\ length b = 4%nat.
Proof.
  destruct ip as [ib|]; simpl; [|done]. intros H Hm. unfold net.Mask, net.IPv4len, net.IPv6len in *; simpl. rewrite Hm; simpl. rewrite Hm; simpl.
  destruct (length ib =? 4)%nat eqn:E4.
  - injection H as <-. apply Nat.eqb_eq in E4. unfold net.is_v4_mapped. rewrite E4; simpl. rewrite E4. done.
  - destruct (net.is_v4_mapped ib) eqn:Em; [|done]. injection H as <-.
    unfold net.is_v4_mapped in Em. apply andb_prop in Em as [Hl _]. apply Nat.eqb_eq in Hl.
    rewrite length_drop, Hl. done.
Qed.

(** Subnet mode on IPv4: the address that leaves consists of the first
    MaskV4 bits of the original (the other bits are zero), so it depends on
    nothing else, and the reported length is the smaller of MaskV4 and an
    earlier anonymization's. *)
Theorem subnet_v4 (anon : SubnetAnonymizer) (ip : net.IP) (b : list Z) (len : Z) :
  net.To4 ip = Some b -> net.bytes_ok b -> 0 <= MaskV4 anon <= 32 ->
  exists b', (reduceIPToSubnet anon ip len).1 = Some b' /\ length b' = 4%nat /\
    be b' = be b / 2 ^ (32 - MaskV4 anon) * 2 ^ (32 - MaskV4 anon) /\
    (reduceIPToSubnet anon ip len).2 = (if len =? 0 then MaskV4 anon else Z.min (MaskV4 anon) len).
Proof.
  intros Hip Hb Hm. unfold reduceIPToSubnet. rewrite Hip. simpl.
  rewrite CIDRMask_ok by lia. change (Z.to_nat (32 / 8)) with 4%nat.
  destruct (Mask_v4 ip b (net.mask_bytes 4 (MaskV4 anon)) Hip (net.length_mask_bytes _ _)) as [-> Hl].
  eexists. split; [done|]. split_and!.
  - rewrite length_zip_with, net.length_mask_bytes, Hl. done.
  - rewrite <- Hl at 1. rewrite be_masked; unfold zlen; rewrite ?Hl; auto; lia.
  - case Z.eqb_spec; simpl; [done|]. case Z.ltb_spec; lia.
Qed.

(** Subnet mode on IPv6 also masks with MaskV4: of a 16-byte address only
    the first MaskV4 bits survive (16 with the defaults), while the reported
    preserved length is computed from MaskV6 (52 with the defaults). *)
Theorem subnet_v6 (anon : SubnetAnonymizer) (b : list Z) (len : Z) :
  length b = 16%nat -> net.is_v4_mapped b = false -> net.bytes_ok b -> 0 <= MaskV4 anon <= 128 ->
  exists b', (reduceIPToSubnet anon (Some b) len).1 = Some b' /\
    be b' = be b / 2 ^ (128 - MaskV4 anon) * 2 ^ (128 - MaskV4 anon) /\
    (reduceIPToSubnet anon (Some b) len).2 = (if len =? 0 then MaskV6 anon else Z.min (MaskV6 anon) len).
Proof.
  intros Hl Hm Hb Hr. unfold reduceIPToSubnet.
  assert (net.To4 (Some b) = None) as -> by (unfold net.To4; rewrite Hl, Hm; done). simpl.
  rewrite CIDRMask_ok by lia. change (Z.to_nat (128 / 8)) with 16%nat.
  rewrite (net.Mask_same_length (Some b) _ b) by (rewrite ?net.length_mask_bytes; done).
  eexists. split; [done|]. split.
  - rewrite <- Hl at 1. rewrite be_masked; unfold zlen; rewrite ?Hl; auto; lia.
  - case Z.eqb_spec; simpl; [done|]. case Z.ltb_spec; lia.
Qed.

(** The invariant [New] establishes: the anonymizers its mode needs exist. *)
Definition well_formed (s : Anonymize) : Prop :=
  (uses_cryptopan (AnonymizationMode s) = true -> is_Some (cryptopanAnonymizer s)) /\
  (uses_subnet (AnonymizationMode s) = true -> is_Some (subnetAnonymizer s)).

Lemma New_well_formed pan c s : New pan c = Created s -> well_formed s.
Proof.
  unfold New. destruct (modeFromConfig _) as [mode|]; [|done].
  intros (subnet & Hs & (f & Hp & [= <-])%created_bind_inv)%created_bind_inv.
  split; simpl; intros Hu; rewrite Hu in *.
  - destruct (is_empty _); [done|]. destruct (pan _); [|done]. injection Hp as <-. by eexists.
  - apply created_fmap_inv in Hs as (a & _ & <-). by eexists.
Qed.

Lemma anonymize_ok s ip len : well_formed s -> exists r, anonymize s ip len = Ok r.
Proof.
  intros [Hp Hs]. unfold anonymize. destruct (AnonymizationMode s); simpl in *.
  - destruct (Hp eq_refl) as [f ->]. by eexists.
  - destruct (Hs eq_refl) as [a ->]. by eexists.
  - destruct (Hp eq_refl) as [f ->], (Hs eq_refl) as [a ->]. by eexists.
Qed.

Lemma anonymize_field_ok s f m : well_formed s -> exists m', anonymize_field s f m = Ok m'.
Proof.
  intros Hw. unfold anonymize_field.
  assert (forall ip len (k : net.IP -> Z -> Z -> EnrichedFlow), exists m',
    ('(ip, t, len) ← anonymize s ip len; Ok (k ip t len)) = Ok m') as Hk.
  { intros ip len k. destruct (anonymize_ok s ip len Hw) as [[[ip' t] len'] ->]. by eexists. }
  repeat (case_match; try (by eexists)).
  - destruct (anonymize_ok s (SrcAddr m) (SrcAddrPreservedLen m) Hw) as [[[] ] ->]. by eexists.
  - destruct (anonymize_ok s (DstAddr m) (DstAddrPreservedLen m) Hw) as [[[] ] ->]. by eexists.
  - destruct (anonymize_ok s (SamplerAddress m) 0 Hw) as [[[] ] ->]. by eexists.
  - destruct (anonymize_ok s (NextHop m) (NextHopAnonPreservedPrefixLen m) Hw) as [[[] ] ->]. by eexists.
Qed.

(** An [anonymize] segment returned by [New] never dereferences a nil
    anonymizer, whatever the configuration: every flow, with any of its
    addresses missing, is forwarded. *)
Theorem anonymize_never_panics (pan : string -> option (net.IP -> net.IP)) (c : config)
    (s : Anonymize) (sub : bool) (m : EnrichedFlow) :
  New pan c = Created s -> exists m', seg_try sub s m = Ok (s, [EOut m']).
Proof.
  intros Hw%New_well_formed. unfold seg_try, Anonymize_segment.
  assert (forall l m, exists m', anonymize_fields s l m = Ok m') as H.
  { induction l as [|f l IH]; intros m0; simpl; [by eexists|].
    destruct (anonymize_field_ok s f m0 Hw) as [m1 ->]. apply IH. }
  destruct (H (Fields s) m) as [m' ->]. by eexists.
Qed.

(** A negative maskV6 passes the check, which looks at maskV4 instead. *)
Example maskV6_unchecked :
  parse_subnet {[ "maskV6"%string := "-5"%string ]} = Created {| MaskV4 := 16; MaskV6 := 4294967291 |}.
Proof. reflexivity. Qed.

Lemma subnet_v4_witness :
  exists b', (reduceIPToSubnet {| MaskV4 := 16; MaskV6 := 52 |} (Some [192; 168; 88; 42]) 0).1 = Some b' /\
    length b' = 4%nat /\ be b' = be [192; 168; 88; 42] / 2 ^ (32 - 16) * 2 ^ (32 - 16) /\
    (reduceIPToSubnet {| MaskV4 := 16; MaskV6 := 52 |} (Some [192; 168; 88; 42]) 0).2 = 16.
Proof.
  apply (subnet_v4 {| MaskV4 := 16; MaskV6 := 52 |} (Some [192; 168; 88; 42]) [192; 168; 88; 42] 0);
    [done|repeat constructor; lia|simpl; lia].
Defined.
Lemma subnet_v6_witness :
  exists b', (reduceIPToSubnet {| MaskV4 := 16; MaskV6 := 52 |} (Some (repeat 32 16)) 0).1 = Some b' /\
    be b' = be (repeat 32 16) / 2 ^ (128 - 16) * 2 ^ (128 - 16) /\
    (reduceIPToSubnet {| MaskV4 := 16; MaskV6 := 52 |} (Some (repeat 32 16)) 0).2 = 52.
Proof.
  apply (subnet_v6 {| MaskV4 := 16; MaskV6 := 52 |} (repeat 32 16) 0);
    [done|done|repeat constructor; lia|simpl; lia].
Defined.
Lemma anonymize_never_panics_witness :
  exists s m', New (fun _ => None) {[ "mode"%string := "subnet"%string ]} = Created s /\
  seg_try false s emptyFlow = Ok (s, [EOut m']).
Proof.
  assert (exists s, New (fun _ => None) {[ "mode"%string := "subnet"%string ]} = Created s) as [s Hs]
    by (eexists; reflexivity).
  destruct (anonymize_never_panics _ _ s false emptyFlow Hs) as [m' H]. by exists s, m'.
Defined.
