(* ===== verification/Lookup.v ===== *)
(** * Segments that query a database or a server
    ([segments/modify/aslookup], [bgp], [geolocation], [reversedns])

    The databases and servers belong to other modules; their lookups are
    parameters.  Opening files and reading them is not modelled: [New] takes
    the outcome of the library's constructor. *)

From stdpp Require Import prelude strings list gmap.
From Stdlib Require Import ZArith Lia.
From S2P Require Import Prelude GoStd GoParse EnrichedFlow FlowMethods Segment PrefixList.

(** ** aslookup *)
Module aslookup.
Record AsLookup := mkAsLookup { FileName : string; Type_ : string }.

(** [opened]: whether the lookup file could be opened. *)
Definition New (opened : bool) (c : config) : created AsLookup :=
  if is_empty (cfg c "filename") then NilSegment
  else
    let t := if seqb (cfg c "type") "db" then "db"%string
             else if seqb (cfg c "type") "mrt" then "mrt"%string else "db"%string in
    if opened then Created {| FileName := cfg c "filename"; Type_ := t |} else NilSegment.

Section body.
(** [asDatabase.Lookup(ip)]: the AS number, or an error. *)
Variable Lookup : net.IP -> option Z.

Definition reparse (ip : net.IP) : net.IP := ParseIP.parse (net.String ip).
Definition body (msg : EnrichedFlow) : EnrichedFlow :=
  match Lookup (reparse (pb.DstAddrObj msg)) with
  | None => msg
  | Some dstAs =>
      let msg := set_DstAs dstAs msg in
      match Lookup (reparse (pb.SrcAddrObj msg)) with
      | None => msg
      | Some srcAs => set_SrcAs srcAs msg
      end
  end.
End body.
End aslookup.

(** ** bgp *)
Module bgp.
(** The fields of [routeinfo.RouteInfo] the segment reads. *)
Inductive Validation : Type := Valid | NotFound | Invalid | OtherValidation.
Record RouteInfo := mkRouteInfo {
  AsPath : list Z; Best : bool; Validation_ : Validation; Med : Z; LocalPref : Z; NextHop : string }.

Record Bgp := mkBgp {
  FileName : string; FallbackRouter : string; UseFallbackOnly : bool; RouterASN : Z;
  Routers : gmap string (string -> list RouteInfo) }.

(** The dynamic value of the YAML key [asn]; a float64 is represented by
    its conversion to uint32. *)
Inductive asn_value : Type := AsnInt (n : Z) | AsnFloat (n : Z) | AsnString (s : string) | AsnOther.
Definition parse_asn (v : option asn_value) : Z :=
  match v with
  | Some (AsnInt n) => u32 n
  | Some (AsnFloat n) => u32 n
  | Some (AsnString s) => match strconv.ParseUint 32 s with Some n => u32 n | None => 0 end
  | _ => 0
  end.

(** [New], given the decoded session file ([None]: unreadable). *)
Definition New (file : option (gmap string (string -> list RouteInfo) * option asn_value))
    (c : config) : created Bgp :=
  match file with
  | None => NilSegment
  | Some (routers, asn) =>
      let bad_fallback := match c !! "fallbackrouter"%string with
                          | Some fallback => match routers !! fallback with None => true | _ => false end
                          | None => false end in
      if (bad_fallback : bool) then NilSegment
      else
        let fallbackonly := default false (strconv.ParseBool (cfg c "usefallbackonly")) in
        if fallbackonly && is_empty (cfg c "fallbackrouter") then NilSegment
        else Created {| FileName := cfg c "filename"; FallbackRouter := cfg c "fallbackrouter";
                        UseFallbackOnly := fallbackonly; RouterASN := parse_asn asn; Routers := routers |}
  end.

Definition status (v : Validation) : Z :=
  match v with
  | Valid => EnrichedFlow_Valid | NotFound => EnrichedFlow_NotFound
  | Invalid => EnrichedFlow_Invalid | OtherValidation => EnrichedFlow_Unknown
  end.

(** The first best path with a non-empty AS path: where both loops break. *)
Definition usable (p : RouteInfo) : bool := Best p && negb (length (AsPath p) =? 0)%nat.
Definition first_best (ps : list RouteInfo) : option RouteInfo := find usable ps.

(** The loop over [srcRouteInfos], with the path it leaves in [srcAsPath]. *)
Definition annotate_src (segment : Bgp) (ps : list RouteInfo) (msg : EnrichedFlow) : EnrichedFlow * list Z :=
  let '(msg, srcAsPath) :=
    match first_best ps with
    | Some p => let path := reverse (AsPath p) in
                (set_ValidationStatus (status (Validation_ p)) (set_AsPath path msg), path)
    | None => (msg, [])
    end in
  if negb (RouterASN segment =? 0)
  then (set_AsPath (EnrichedFlow.AsPath msg ++ [RouterASN segment]) msg, srcAsPath ++ [RouterASN segment])
  else (msg, srcAsPath).

(** The loop over [dstRouteInfos]. *)
Definition annotate_dst (segment : Bgp) (ps : list RouteInfo) (msg : EnrichedFlow) : EnrichedFlow * list Z :=
  match first_best ps with
  | Some p =>
      let dstAsPath := RouterASN segment :: AsPath p in
      let msg := set_AsPath (EnrichedFlow.AsPath msg ++ dstAsPath) msg in
      let msg := set_LocalPref (LocalPref p) (set_Med (Med p) msg) in
      let msg := set_ValidationStatus (status (Validation_ p)) msg in
      let msg := set_NextHopAs (default 0 (head (AsPath p))) (set_DstAs (default 0 (last (AsPath p))) msg) in
      let msg := match ParseIP.parse (NextHop p) with
                 | Some nh => set_NextHop (Some nh) msg
                 | None => msg
                 end in
      (msg, dstAsPath)
  | None => (msg, [])
  end.

(** The router whose table is asked; [Panic]: a method of a nil router. *)
Definition router_of (segment : Bgp) (msg : EnrichedFlow) : result (option (string -> list RouteInfo)) :=
  let fallback := match Routers segment !! FallbackRouter segment with
                  | Some r => Ok (Some r) | None => Panic end in
  if UseFallbackOnly segment then fallback
  else match Routers segment !! net.String (pb.SamplerAddressObj msg) with
       | Some r => Ok (Some r)
       | None => if negb (is_empty (FallbackRouter segment)) then fallback else Ok None
       end.

Definition body (segment : Bgp) (msg : EnrichedFlow) : result EnrichedFlow :=
  r ← router_of segment msg;
  match r with
  | None => Ok msg
  | Some lookup =>
      let dst := lookup (net.String (pb.DstAddrObj msg)) in
      let src := lookup (net.String (pb.SrcAddrObj msg)) in
      let '(msg, srcAsPath) := annotate_src segment src msg in
      let '(msg, dstAsPath) := annotate_dst segment dst msg in
      Ok (set_DstAsPath dstAsPath (set_SrcAsPath srcAsPath msg))
  end.
End bgp.

(** ** geolocation *)
Module geolocation.
Record GeoLocation := mkGeoLocation { FileName : string; DropUnmatched : bool; MatchBoth : bool }.

(** [Open path]: [maxmind.Open] succeeds. *)
Definition New (container : bool) (Open : string -> bool) (c : config) : created GeoLocation :=
  let drop := default false (strconv.ParseBool (cfg c "dropunmatched")) in
  let both := default false (strconv.ParseBool (cfg c "matchboth")) in
  if is_empty (cfg c "filename") then NilSegment
  else if Open (ContainerVolumePrefix container ++ cfg c "filename")%string
  then Created {| FileName := cfg c "filename"; DropUnmatched := drop; MatchBoth := both |}
  else NilSegment.

Section body.
(** [dbHandle.Lookup(ip, &dbrecord)]: the new value of
    [dbrecord.Country.ISOCode], given the old one; [None] is an error. *)
Variable Lookup : net.IP -> string -> option string.

Definition raddress (msg : EnrichedFlow) : option net.IP :=
  if RemoteAddr msg =? 1 then Some (SrcAddr msg)
  else if RemoteAddr msg =? 2 then Some (DstAddr msg) else None.

(** One lookup into the record that the whole loop shares. *)
Definition lookup_into (addr : net.IP) (set : string -> EnrichedFlow -> EnrichedFlow)
    (st : string * EnrichedFlow) : string * EnrichedFlow :=
  match Lookup addr st.1 with
  | Some code => (code, set code st.2)
  | None => st
  end.

(** The state is [dbrecord.Country.ISOCode]. *)
Definition body (segment : GeoLocation) (dbrecord : string) (msg : EnrichedFlow) : string * list emit :=
  if negb (MatchBoth segment) then
    match raddress msg with
    | None => (dbrecord, if negb (DropUnmatched segment) then [EOut msg] else [])
    | Some a => let '(r, msg) := lookup_into a set_RemoteCountry (dbrecord, msg) in (r, [EOut msg])
    end
  else
    let st := lookup_into (SrcAddr msg) set_SrcCountry (dbrecord, msg) in
    let '(r, msg') := lookup_into (DstAddr msg) set_DstCountry st in
    (r, [EOut msg']).
End body.
End geolocation.

(** ** reversedns *)
Module reversedns.
(** Both configured fields are never assigned by [New]. *)
Record ReverseDns := mkReverseDns { Cache : bool; RefreshInterval : string }.

Section New.
Context {P : f64.Platform}.

(** The parsed interval is the period of the refresh ticker, when there
    is one. *)
Definition New (c : config) : created (ReverseDns * option Z) :=
  cache ← (if negb (is_empty (cfg c "cache")) then
             match strconv.ParseBool (cfg c "cache") with
             | Some _ => NilSegment
             | None => Created false
             end
           else Created true);
  let newsegment := {| Cache := false; RefreshInterval := "" |} in
  if (cache : bool) then
    let refresh := if negb (is_empty (cfg c "refreshinterval")) then cfg c "refreshinterval" else "5m"%string in
    match time.ParseDuration refresh with
    | None => NilSegment
    | Some duration => Created (newsegment, Some duration)
    end
  else Created (newsegment, None).
End New.

Section body.
(** [resolver.LookupAddr]: the host names, or an error. *)
Variable LookupAddr : string -> option (list string).

Definition annotate (addr : net.IP) (set : string -> EnrichedFlow -> EnrichedFlow) (msg : EnrichedFlow)
    : EnrichedFlow :=
  match LookupAddr (net.String addr) with
  | Some (name :: _) => set name msg
  | _ => msg
  end.
Definition body (msg : EnrichedFlow) : EnrichedFlow :=
  let msg := annotate (pb.SrcAddrObj msg) set_SrcHostName msg in
  let msg := annotate (pb.DstAddrObj msg) set_DstHostName msg in
  let msg := annotate (pb.NextHopObj msg) set_NextHopHostName msg in
  annotate (pb.SamplerAddressObj msg) set_SamplerHostName msg.
End body.
End reversedns.

(** ** Facts *)
Module lookup_facts.
(** [bgp]: a configuration accepted by [New] never makes [Run] call a
    method of a missing router. *)
Theorem bgp_never_panics file (c : config) (s : bgp.Bgp) (msg : EnrichedFlow) :
  bgp.New file c = Created s -> exists m, bgp.body s msg = Ok m.
Proof.
  intros HN. assert (exists r, bgp.router_of s msg = Ok r) as [r Hr].
  { unfold bgp.New in HN. destruct file as [[routers asn]|]; [|done].
    unfold cfg in HN. unfold bgp.router_of.
    destruct (c !! "fallbackrouter"%string) as [fb|] eqn:Ef; simpl in HN.
    - destruct (routers !! fb) as [r|] eqn:Er; [|done]. simpl in HN.
      destruct (_ && _); [done|]. injection HN as <-. simpl. rewrite Er. repeat case_match; by eexists.
    - rewrite andb_true_r in HN.
      destruct (default false _) eqn:Eo; [done|]. injection HN as <-; simpl.
      repeat case_match; by eexists. }
  unfold bgp.body. rewrite Hr. cbn [mbind result_bind]. destruct r as [lookup|]; [|by eexists].
  destruct (bgp.annotate_src _ _ _) as [m1 p1]. destruct (bgp.annotate_dst _ _ _) as [m2 p2]. by eexists.
Qed.

Lemma first_best_usable ps p : bgp.first_best ps = Some p -> bgp.AsPath p <> [].
Proof.
  intros [_ H]%find_some. unfold bgp.usable in H. apply andb_prop in H as [_ H].
  intros E. by rewrite E in H.
Qed.

(** [bgp] on a flow with a best path on both sides: AsPath is the
    reversed source path, the router's AS number (if there is one), the
    number again (even if there is none) and the destination path; the
    two halves are SrcAsPath and DstAsPath, and the next hop's AS and the
    destination's AS are the ends of the destination path. *)
Theorem bgp_paths (s : bgp.Bgp) (msg m : EnrichedFlow) (lookup : string -> list bgp.RouteInfo)
    (ps pd : bgp.RouteInfo) :
  bgp.router_of s msg = Ok (Some lookup) ->
  bgp.first_best (lookup (net.String (SrcAddr msg))) = Some ps ->
  bgp.first_best (lookup (net.String (DstAddr msg))) = Some pd ->
  bgp.body s msg = Ok m ->
  SrcAsPath m = reverse (bgp.AsPath ps) ++ (if bgp.RouterASN s =? 0 then [] else [bgp.RouterASN s]) /\
  DstAsPath m = bgp.RouterASN s :: bgp.AsPath pd /\
  AsPath m = SrcAsPath m ++ DstAsPath m /\
  Some (NextHopAs m) = head (bgp.AsPath pd) /\ Some (DstAs m) = last (bgp.AsPath pd) /\
  ValidationStatus m = bgp.status (bgp.Validation_ pd).
Proof.
  intros Hr Hs Hd. unfold bgp.body. rewrite Hr. cbn [mbind result_bind].
  unfold pb.DstAddrObj, pb.SrcAddrObj, bgp.annotate_src, bgp.annotate_dst. rewrite Hs, Hd.
  apply first_best_usable in Hd.
  destruct (bgp.AsPath pd) as [|a path] eqn:Ep; [done|].
  destruct (last (a :: path)) as [z|] eqn:El; [|apply last_None in El; done].
  destruct (ParseIP.parse _); destruct (bgp.RouterASN s =? 0); simpl negb; cbv beta iota zeta;
    intros [= <-]; cbn; rewrite ?app_nil_r, <- ?app_assoc; split_and!; try done.
Qed.

(** [geolocation] keeps one record for all its lookups: after a flow
    whose address was found, a flow whose address is not in the database
    gets the country of the earlier one, and is forwarded even with
    dropunmatched. *)
Theorem geolocation_stale_country (Lookup : net.IP -> string -> option string)
    (known : net.IP -> option string) (s : geolocation.GeoLocation) (r0 : string) (m1 m2 : EnrichedFlow)
    (code : string) :
  (forall ip old, Lookup ip old = Some (default old (known ip))) ->
  geolocation.MatchBoth s = false ->
  RemoteAddr m1 = 1 -> known (SrcAddr m1) = Some code ->
  RemoteAddr m2 = 1 -> known (SrcAddr m2) = None ->
  let r1 := geolocation.body Lookup s r0 m1 in
  (geolocation.body Lookup s r1.1 m2).2 = [EOut (set_RemoteCountry code m2)].
Proof.
  intros HL Hb H1 K1 H2 K2 r1. unfold r1, geolocation.body, geolocation.raddress, geolocation.lookup_into.
  rewrite Hb, H1, H2. simpl. rewrite (HL (SrcAddr m1)), K1. simpl. rewrite (HL (SrcAddr m2)), K2. done.
Qed.

(** [reversedns] rejects every valid value of its cache parameter: a
    segment with that parameter is only created from an invalid one, and
    then without a refresh of the cache. *)
Theorem reversedns_cache_inverted {P : f64.Platform} (c : config) :
  cfg c "cache" <> ""%string ->
  (is_Some (strconv.ParseBool (cfg c "cache")) -> reversedns.New c = NilSegment) /\
  (strconv.ParseBool (cfg c "cache") = None ->
   reversedns.New c = Created ({| reversedns.Cache := false; reversedns.RefreshInterval := "" |}, None)).
Proof.
  intros Hne. unfold reversedns.New. destruct (cfg c "cache") as [|a s] eqn:E; [done|]. simpl.
  split; [intros [b ->] | intros ->]; done.
Qed.

(** [aslookup] sets only the two AS numbers; the source is looked up
    only if the destination was found. *)
Theorem aslookup_fields (Lookup : net.IP -> option Z) (msg : EnrichedFlow) :
  aslookup.body Lookup msg =
  match Lookup (aslookup.reparse (DstAddr msg)), Lookup (aslookup.reparse (SrcAddr msg)) with
  | None, _ => msg
  | Some d, None => set_DstAs d msg
  | Some d, Some a => set_SrcAs a (set_DstAs d msg)
  end.
Proof.
  unfold aslookup.body, pb.DstAddrObj, pb.SrcAddrObj.
  destruct (Lookup (aslookup.reparse (DstAddr msg))) as [d|]; [|reflexivity].
  change (SrcAddr (set_DstAs d msg)) with (SrcAddr msg).
  destruct (Lookup (aslookup.reparse (SrcAddr msg))); reflexivity.
Qed.
End lookup_facts.

(** ** Examples *)
Definition example_route : bgp.RouteInfo :=
  bgp.mkRouteInfo [65001; 65002] true bgp.Valid 10 100 "192.0.2.1".
Definition example_routers : gmap string (string -> list bgp.RouteInfo) :=
  {[ "default"%string := fun _ => [example_route] ]}.
Definition example_bgp : bgp.Bgp := bgp.mkBgp "bgp.yml" "default" true 553 example_routers.

Lemma bgp_never_panics_witness :
  exists s m, bgp.New (Some (example_routers, Some (bgp.AsnInt 553)))
    {[ "fallbackrouter"%string := "default"%string ]} = Created s /\ bgp.body s emptyFlow = Ok m.
Proof.
  assert (exists s, bgp.New (Some (example_routers, Some (bgp.AsnInt 553)))
    {[ "fallbackrouter"%string := "default"%string ]} = Created s) as [s Hs] by (eexists; reflexivity).
  destruct (lookup_facts.bgp_never_panics _ _ s emptyFlow Hs) as [m Hm]. by exists s, m.
Defined.
Lemma bgp_paths_witness :
  exists m, bgp.body example_bgp emptyFlow = Ok m /\ SrcAsPath m = [65002; 65001; 553] /\
    DstAsPath m = [553; 65001; 65002] /\ AsPath m = SrcAsPath m ++ DstAsPath m.
Proof.
  assert (exists m, bgp.body example_bgp emptyFlow = Ok m) as [m Hm] by (eexists; reflexivity).
  destruct (lookup_facts.bgp_paths example_bgp emptyFlow m (fun _ => [example_route]) example_route example_route
    eq_refl eq_refl eq_refl Hm) as (H1 & H2 & H3 & _).
  exists m. split_and!; try done.
Defined.

(** A database that knows one address. *)
Definition example_known (ip : net.IP) : option string :=
  if bool_decide (ip = Some [192; 0; 2; 1]) then Some "DE"%string else None.
Lemma geolocation_stale_country_witness :
  let Lookup := fun ip old => Some (default old (example_known ip)) in
  let s := geolocation.mkGeoLocation "f" true false in
  let r1 := geolocation.body Lookup s "" (set_SrcAddr (Some [192; 0; 2; 1]) (set_RemoteAddr 1 emptyFlow)) in
  (geolocation.body Lookup s r1.1 (set_RemoteAddr 1 emptyFlow)).2
  = [EOut (set_RemoteCountry "DE" (set_RemoteAddr 1 emptyFlow))].
Proof.
  apply (lookup_facts.geolocation_stale_country (fun ip old => Some (default old (example_known ip))) example_known
    (geolocation.mkGeoLocation "f" true false) "" (set_SrcAddr (Some [192; 0; 2; 1]) (set_RemoteAddr 1 emptyFlow))
    (set_RemoteAddr 1 emptyFlow) "DE"); done.
Defined.
Lemma reversedns_cache_inverted_witness :
  @reversedns.New f64.amd64 {[ "cache"%string := "true"%string ]} = NilSegment.
Proof.
  apply (@lookup_facts.reversedns_cache_inverted f64.amd64 {[ "cache"%string := "true"%string ]}); [done|].
  by eexists.
Defined.
