(* ===== verification/Snmp.v ===== *)
(** * snmp ([segments/modify/snmp/snmp.go])

    The cache of interface data, the annotation of flows from it, and the
    asynchronous queries behind a semaphore as a transition system.  The SNMP
    client and the regular expressions are parameters; that the cache (go-cache)
    forgets an entry after an hour is a step that may remove any entry, and the
    iteration order of the Go map [oidExts] is an argument. *)

From stdpp Require Import prelude strings list gmap relations.
From Stdlib Require Import ZArith Lia Ascii.
From S2P Require Import Prelude GoStd EnrichedFlow Segment.

(** ** New *)
Record SNMP := mkSNMP { Community : string; Regex : string; ConnLimit : Z; compiledRegex : string -> list string }.

(** [Compile] is [regexp.Compile], a regular expression its [FindStringSubmatch]. *)
Definition New (Compile : string -> option (string -> list string)) (c : config) : created SNMP :=
  connLimit ← (if is_empty (cfg c "connlimit") then Created 16
               else match strconv.ParseUint 32 (cfg c "connlimit") with
                    | Some n => if n =? 0 then NilSegment else Created n
                    | None => Created 16
                    end);
  let regex := if is_empty (cfg c "regex") then "^(.*)$"%string else cfg c "regex" in
  match Compile regex with
  | None => NilSegment
  | Some r => Created {| Community := if is_empty (cfg c "community") then "public"%string else cfg c "community";
                         Regex := regex; ConnLimit := connLimit; compiledRegex := r |}
  end.

(** ** The cache *)

(** The dynamic values in the cache; nil marks a query under way. *)
Inductive cached : Type := CNil | CString (s : string) | CUint64 (n : Z) | COther.
#[export] Instance cached_eq_dec : EqDecision cached.
Proof. solve_decision. Defined.
Record query := mkquery { router : string; iface : Z; key : string }.

Definition oidExts : list (string * Z) := [("name", 1); ("speed", 15); ("desc", 18)]%string.
Definition oid (q : query) : string :=
  ".1.3.6.1.2.1.31.1.1.1." ++ strconv.FormatUint (default 0 (assoc (key q) oidExts)) ++ "." ++ strconv.FormatUint (iface q).
(** [fmt.Sprintf("%s-%d-%s", router, iface, key)] *)
Definition cache_key (q : query) : string := router q ++ "-" ++ strconv.FormatUint (iface q) ++ "-" ++ key q.

Record data := mkdata { name : string; desc : string; speed : Z }.
Definition blank : data := mkdata "" "" 0.

(** The assignment in the switch; a failed type assertion panics. *)
Definition assign (k : string) (value : cached) (d : data) : result data :=
  if seqb k "name" then match value with CString s => Ok (mkdata s (desc d) (speed d)) | _ => Panic end
  else if seqb k "desc" then match value with CString s => Ok (mkdata (name d) s (speed d)) | _ => Panic end
  else if seqb k "speed" then match value with CUint64 n => Ok (mkdata (name d) (desc d) (u32 n)) | _ => Panic end
  else Ok d.

(** The loop over [oidExts] in the order [keys]: what is returned, the cache, and
    the queries started. *)
Section fetch.
Context (rt : string) (ifc : Z).
Fixpoint fetch_loop (keys : list string) (d : data) (cache : gmap string cached) (started : list query)
    : result (data * gmap string cached * list query) :=
  match keys with
  | [] => Ok (d, cache, started)
  | k :: keys =>
      let q := mkquery rt ifc k in
      match cache !! cache_key q with
      | Some CNil => Ok (blank, cache, started)
      | Some value => d ← assign k value d; fetch_loop keys d cache started
      | None => fetch_loop keys d (<[cache_key q := CNil]> cache) (started ++ [q])
      end
  end.
Definition fetchInterfaceData (keys : list string) (cache : gmap string cached) : result (data * gmap string cached * list query) :=
  fetch_loop keys blank cache [].
End fetch.

(** ** Run *)
Section run.
Context (segment : SNMP).

Definition clean (description : string) : string :=
  if is_empty description then description
  else match compiledRegex segment description with _ :: cleanDesc :: _ => cleanDesc | _ => description end.

(** The body of the loop: both interfaces, each with its iteration order. *)
Definition annotate (keys keys' : list string) (msg : EnrichedFlow) (cache : gmap string cached)
    : result (EnrichedFlow * gmap string cached * list query) :=
  let rt := net.String (SamplerAddress msg) in
  '(msg, cache, qs) ← (if 0 <? InIf msg then
      '(d, cache, qs) ← fetchInterfaceData rt (InIf msg) keys cache;
      Ok (set_SrcIfName (name d) (set_SrcIfDesc (clean (desc d)) (set_SrcIfSpeed (speed d) msg)), cache, qs)
    else Ok (msg, cache, []));
  if 0 <? OutIf msg then
    '(d, cache, qs') ← fetchInterfaceData rt (OutIf msg) keys' cache;
    Ok (set_DstIfName (name d) (set_DstIfDesc (clean (desc d)) (set_DstIfSpeed (speed d) msg)), cache, qs ++ qs')
  else Ok (msg, cache, qs).

(** What the router answers to [Get]. *)
Inductive response : Type := ConnectionError | GetError | Variables (vs : list cached).
(** The effect of [querySNMP] on the cache. *)
Definition querySNMP (q : query) (r : response) (cache : gmap string cached) : gmap string cached :=
  match r with
  | ConnectionError | GetError => delete (cache_key q) cache
  | Variables [v] => <[cache_key q := v]> cache
  | Variables _ => cache
  end.

(** Queries wait for the semaphore and then run; [answers] is the history of the
    values the routers sent. *)
Record state := mkstate {
  input : list EnrichedFlow; cache : gmap string cached; waiting : list query; running : list query;
  answers : list (query * cached); out : list EnrichedFlow }.
Definition start (ms : list EnrichedFlow) : state := mkstate ms ∅ [] [] [] [].

Definition iteration (keys : list string) : Prop := keys ≡ₚ oidExts.*1.
Inductive step : state -> state -> Prop :=
  | step_flow keys keys' m m' ms c c' qs w r a o : iteration keys -> iteration keys' -> annotate keys keys' m c = Ok (m', c', qs) ->
      step (mkstate (m :: ms) c w r a o) (mkstate ms c' (w ++ qs) r a (o ++ [m']))
  | step_acquire ms c w w' q r a o : w ≡ₚ q :: w' -> Z.of_nat (length r) < ConnLimit segment ->
      step (mkstate ms c w r a o) (mkstate ms c w' (q :: r) a o)
  | step_answer ms c w q r r' res a o : r ≡ₚ q :: r' ->
      step (mkstate ms c w r a o)
           (mkstate ms (querySNMP q res c) w r' (a ++ match res with Variables [v] => [(q, v)] | _ => [] end) o)
  | step_expire ms c w r a o k : step (mkstate ms c w r a o) (mkstate ms (delete k c) w r a o).
End run.

(** ** Theorems *)

(** *** Cache keys do not collide *)
Definition no_dash (s : string) : bool := gostrings.all_chars (fun a => negb (bool_decide (a = "-"%char))) s.
Lemma no_dash_app r s : no_dash (r ++ String "-" s) = false.
Proof. unfold no_dash. rewrite gostrings.all_chars_app. cbn. by rewrite andb_false_r. Qed.
Lemma last_dash r : forall r' s s', no_dash s = true -> no_dash s' = true ->
  (r ++ String "-" s)%string = (r' ++ String "-" s')%string -> r = r' /\ s = s'.
Proof.
  induction r as [|a r IH]; intros [|b r'] s s' Hs Hs' E; rewrite ?gostrings.append_cons in E; simpl in E.
  - by injection E.
  - injection E as <- ->. by rewrite no_dash_app in Hs.
  - injection E as -> <-. by rewrite no_dash_app in Hs'.
  - injection E as -> E. by destruct (IH r' s s' Hs Hs' E) as [-> ->].
Qed.
Lemma digits_no_dash s : strconv.digits_only s = true -> no_dash s = true.
Proof. apply gostrings.digits_chars. intros a Ha. case_bool_decide as E; [by subst|done]. Qed.
Lemma FormatUint_inj a b : 0 <= a -> 0 <= b -> strconv.FormatUint a = strconv.FormatUint b -> a = b.
Proof.
  intros Ha Hb E. apply (f_equal DecimalString.NilZero.uint_of_string) in E. unfold strconv.FormatUint in E.
  rewrite !strconv.of_to_uint in E. injection E as E. apply (f_equal N.of_uint) in E.
  rewrite !DecimalN.Unsigned.of_to in E. lia.
Qed.

(** The queries of the program: a key of [oidExts] and a positive interface. *)
Definition proper (q : query) : Prop := key q ∈ oidExts.*1 /\ 0 < iface q.
Lemma proper_no_dash q : proper q -> no_dash (key q) = true.
Proof. intros [Hk _]. repeat (apply elem_of_cons in Hk as [->|Hk]; [done|]). by apply elem_of_nil in Hk. Qed.
Lemma cache_key_inj q q' : proper q -> proper q' -> cache_key q = cache_key q' -> q = q'.
Proof.
  intros Hq Hq' E. pose proof (proper_no_dash q Hq) as Hk. pose proof (proper_no_dash q' Hq') as Hk'.
  destruct q as [r i k], q' as [r' i' k']. destruct Hq as [_ Hi], Hq' as [_ Hi']. unfold cache_key in E. cbn in *.
  assert (forall r i k, (r ++ String "-" (strconv.FormatUint i ++ String "-" k))%string
    = ((r ++ String "-" (strconv.FormatUint i)) ++ String "-" k)%string) as Ha.
  { clear. intros r i k. induction r as [|a r IH]; cbn [String.append]; [done|]. rewrite ?gostrings.append_cons. by rewrite IH. }
  change (r ++ "-" ++ strconv.FormatUint i ++ "-" ++ k)%string with (r ++ String "-" (strconv.FormatUint i ++ String "-" k))%string in E.
  change (r' ++ "-" ++ strconv.FormatUint i' ++ "-" ++ k')%string with (r' ++ String "-" (strconv.FormatUint i' ++ String "-" k'))%string in E.
  rewrite !Ha in E. apply last_dash in E as [E <-]; [|done..].
  apply last_dash in E as [<- E]; [|by apply digits_no_dash, strconv.FormatUint_digits..].
  apply FormatUint_inj in E; [by subst|lia..].
Qed.

(** *** One lookup *)
Lemma iteration_cases keys : iteration keys -> keys ∈ permutations oidExts.*1.
Proof. intros H. apply permutations_Permutation. by symmetry. Qed.

Lemma fetch_loop_uncached rt ifc keys : forall d cache started, 0 < ifc -> NoDup keys -> Forall (fun k => k ∈ oidExts.*1) keys ->
  Forall (fun k => cache !! cache_key (mkquery rt ifc k) = None) keys ->
  exists cache', fetch_loop rt ifc keys d cache started = Ok (d, cache', started ++ (mkquery rt ifc <$> keys)) /\
    Forall (fun k => cache' !! cache_key (mkquery rt ifc k) = Some CNil) keys /\
    forall x, Forall (fun k => x <> cache_key (mkquery rt ifc k)) keys -> cache' !! x = cache !! x.
Proof.
  induction keys as [|k keys IH]; intros d cache started Hi Hn Hk Hc; cbn [fetch_loop].
  { exists cache. rewrite app_nil_r. by split_and!. }
  apply NoDup_cons in Hn as [Hnk Hn]. apply Forall_cons in Hk as [Hk Hks]. apply Forall_cons in Hc as [-> Hcs].
  assert (forall k', k' ∈ keys -> cache_key (mkquery rt ifc k) <> cache_key (mkquery rt ifc k')) as Hne.
  { intros k' Hk' E. apply cache_key_inj in E; [by injection E as ->|done|].
    split; [by apply (proj1 (Forall_forall _ _) Hks)|done]. }
  destruct (IH d (<[cache_key (mkquery rt ifc k) := CNil]> cache) (started ++ [mkquery rt ifc k])) as (c' & E & H1 & H2);
    [done..| |].
  { apply Forall_forall. intros k' Hk'. rewrite lookup_insert_ne by by apply Hne. by apply (proj1 (Forall_forall _ _) Hcs). }
  exists c'. split; [|split].
  - rewrite E. by rewrite <- app_assoc.
  - constructor; [|done]. rewrite H2, lookup_insert_eq; [done|]. apply Forall_forall. intros k' Hk'. by apply Hne.
  - intros x [Hx Hxs]%Forall_cons. rewrite H2 by done. by apply lookup_insert_ne.
Qed.

(** The first flow on an interface: whatever the iteration order, three queries are
    started, one per key, and the fields of the flow are overwritten with the
    empty values (the comment says such a flow remains untouched). *)
Theorem snmp_first_flow (rt : string) (ifc : Z) (keys : list string) (cache : gmap string cached) :
  0 < ifc -> iteration keys -> (forall k, cache !! cache_key (mkquery rt ifc k) = None) ->
  exists cache' qs, fetchInterfaceData rt ifc keys cache = Ok (blank, cache', qs) /\
    qs ≡ₚ mkquery rt ifc <$> oidExts.*1 /\ forall k, k ∈ oidExts.*1 -> cache' !! cache_key (mkquery rt ifc k) = Some CNil.
Proof.
  intros Hi Hk Hc. unfold iteration in Hk. destruct (fetch_loop_uncached rt ifc keys blank cache []) as (c' & E & H1 & _); [done| | | |].
  - rewrite Hk. by apply (bool_decide_unpack _).
  - rewrite Hk. by apply Forall_forall.
  - by apply Forall_forall.
  - exists c', (mkquery rt ifc <$> keys). split; [done|]. split; [by rewrite Hk|].
    intros k Hin. rewrite <- Hk in Hin. by apply (proj1 (Forall_forall _ _) H1).
Qed.

(** Once all three answers are in the cache every flow on the interface gets them
    (the speed truncated to 32 bits), whatever the iteration order, and no query
    is started; if one of them has an unexpected type every such flow panics. *)
Theorem snmp_answered (rt : string) (ifc : Z) (keys : list string) (cache : gmap string cached) (n d s : cached) :
  iteration keys ->
  cache !! cache_key (mkquery rt ifc "name") = Some n -> n <> CNil ->
  cache !! cache_key (mkquery rt ifc "desc") = Some d -> d <> CNil ->
  cache !! cache_key (mkquery rt ifc "speed") = Some s -> s <> CNil ->
  fetchInterfaceData rt ifc keys cache =
    match n, d, s with
    | CString n, CString d, CUint64 s => Ok (mkdata n d (u32 s), cache, [])
    | _, _, _ => Panic
    end.
Proof.
  intros Hk En Hn Ed Hd Es Hs. unfold fetchInterfaceData.
  apply iteration_cases in Hk. vm_compute in Hk.
  repeat (apply elem_of_cons in Hk as [->|Hk]; [destruct n, d, s; try done; cbn [fetch_loop]; rewrite ?En, ?Ed, ?Es; cbn;
    rewrite ?En, ?Ed, ?Es; cbn; rewrite ?En, ?Ed, ?Es; done|]). by apply elem_of_nil in Hk.
Qed.

(** A value an entry may have. *)
Definition typed (k : string) (v : cached) : Prop := v = CNil \/ exists d, assign k v blank = Ok d.
Lemma typed_assign k v d : typed k v -> v <> CNil -> exists d', assign k v d = Ok d'.
Proof.
  intros [->|[d0 H]] Hn; [done|]. unfold assign in *.
  repeat (match type of H with context [if ?b then _ else _] => destruct b end; [destruct v; try done; by eexists|]). by eexists.
Qed.

Lemma fetch_loop_waiting rt ifc k keys : forall d cache started, 0 < ifc -> Forall (fun k => k ∈ oidExts.*1) keys -> k ∈ keys ->
  cache !! cache_key (mkquery rt ifc k) = Some CNil ->
  Forall (fun k => match cache !! cache_key (mkquery rt ifc k) with Some v => typed k v | None => True end) keys ->
  exists cache' qs, fetch_loop rt ifc keys d cache started = Ok (blank, cache', started ++ qs) /\
    (mkquery rt ifc k ∉ qs) /\ cache' !! cache_key (mkquery rt ifc k) = Some CNil.
Proof.
  induction keys as [|k' keys IH]; intros d cache started Hi Hks Hk Hc Ht; [by apply elem_of_nil in Hk|].
  apply Forall_cons in Hks as [Hk' Hks]. apply Forall_cons in Ht as [Ht' Ht]. cbn [fetch_loop].
  destruct (cache !! cache_key (mkquery rt ifc k')) as [v|] eqn:Ev.
  - destruct (decide (v = CNil)) as [->|Hv].
    { exists cache, []. rewrite app_nil_r. split_and!; [done| |done]. apply not_elem_of_nil. }
    destruct (typed_assign k' v d Ht' Hv) as [d' Ed].
    assert (k ∈ keys) as Hin by (apply elem_of_cons in Hk as [->|Hk]; [congruence|done]).
    destruct v; [done|..]; rewrite Ed; by apply IH.
  - assert (k ∈ keys) as Hin by (apply elem_of_cons in Hk as [->|Hk]; [congruence|done]).
    assert (mkquery rt ifc k' <> mkquery rt ifc k) as Hne by congruence.
    destruct (IH d (<[cache_key (mkquery rt ifc k') := CNil]> cache) (started ++ [mkquery rt ifc k']))
      as (c' & qs & E & Hq & Hc'); [done..| | |].
    + rewrite lookup_insert_ne; [done|]. intros E. apply cache_key_inj in E; [done|by split..|].
      split; [by apply (proj1 (Forall_forall _ _) Hks)|done].
    + apply Forall_forall. intros x Hx. pose proof (proj1 (Forall_forall _ _) Ht x Hx) as Hxt. cbn in Hxt.
      destruct (decide (cache_key (mkquery rt ifc k') = cache_key (mkquery rt ifc x))) as [->|Hn].
      * rewrite lookup_insert_eq. by left.
      * by rewrite lookup_insert_ne.
    + exists c', (mkquery rt ifc k' :: qs). split_and!; [by rewrite E, <- app_assoc| |done].
      intros [E'|H]%elem_of_cons; [congruence|done].
Qed.

(** While one of the three keys is marked as being queried, every flow on the
    interface loses its fields to the empty values and that key is not queried
    again; a response with no or several variables leaves the mark, so this lasts
    until the entry expires. *)
Theorem snmp_waiting (rt : string) (ifc : Z) (k : string) (keys : list string) (cache : gmap string cached) (vs : list cached) :
  0 < ifc -> iteration keys -> k ∈ oidExts.*1 -> length vs <> 1%nat ->
  (forall k v, k ∈ oidExts.*1 -> cache !! cache_key (mkquery rt ifc k) = Some v -> typed k v) ->
  cache !! cache_key (mkquery rt ifc k) = Some CNil ->
  exists cache' qs, fetchInterfaceData rt ifc keys (querySNMP (mkquery rt ifc k) (Variables vs) cache) = Ok (blank, cache', qs) /\
    (mkquery rt ifc k ∉ qs) /\ cache' !! cache_key (mkquery rt ifc k) = Some CNil.
Proof.
  intros Hi Hks Hk Hv Ht Hc. unfold iteration in Hks. unfold fetchInterfaceData, querySNMP.
  assert (match vs with [v] => <[cache_key (mkquery rt ifc k):=v]> cache | _ => cache end = cache) as ->
    by by destruct vs as [|v [|]].
  apply (fetch_loop_waiting rt ifc k keys blank cache []); [done| |by rewrite Hks|done|].
  - rewrite Hks. by apply Forall_forall.
  - rewrite Hks. apply Forall_forall. intros x Hx. destruct (cache !! cache_key (mkquery rt ifc x)) as [v|] eqn:Ev; [by apply (Ht x v)|done].
Qed.

(** *** The annotations *)
Section annotations.
Context (segment : SNMP).

(** What a router has answered for an interface. *)
Definition reported (a : list (query * cached)) (rt : string) (ifc : Z) (d : data) : Prop :=
  (name d = ""%string \/ (mkquery rt ifc "name", CString (name d)) ∈ a) /\
  (desc d = ""%string \/ (mkquery rt ifc "desc", CString (desc d)) ∈ a) /\
  (speed d = 0 \/ exists n, (mkquery rt ifc "speed", CUint64 n) ∈ a /\ speed d = u32 n).
Definition cache_ok (a : list (query * cached)) (cache : gmap string cached) : Prop :=
  forall k v, cache !! k = Some v -> v = CNil \/ exists q, proper q /\ cache_key q = k /\ (q, v) ∈ a.

Lemma cache_ok_lookup a cache q v : cache_ok a cache -> proper q -> cache !! cache_key q = Some v -> v <> CNil -> (q, v) ∈ a.
Proof.
  intros Ha Hq Hv Hn. destruct (Ha _ _ Hv) as [?|(q' & Hq' & E & Hin)]; [done|].
  apply cache_key_inj in E; [by subst|done..].
Qed.
Lemma cache_ok_insert_nil a cache k : cache_ok a cache -> cache_ok a (<[k := CNil]> cache).
Proof. intros Ha k' v [[_ <-]|[_ Hv]]%lookup_insert_Some; [by left|by apply Ha]. Qed.
Lemma cache_ok_delete a cache k : cache_ok a cache -> cache_ok a (delete k cache).
Proof. intros Ha k' v [_ Hv]%lookup_delete_Some. by apply Ha. Qed.
Lemma cache_ok_mono a b cache : cache_ok a cache -> cache_ok (a ++ b) cache.
Proof. intros Ha k v Hv. destruct (Ha k v Hv) as [?|(q & ? & ? & ?)]; [by left|right; exists q]. split_and!; [done..|]. set_solver. Qed.

Lemma assign_reported a rt ifc k v d d' : assign k v d = Ok d' -> (mkquery rt ifc k, v) ∈ a -> reported a rt ifc d -> reported a rt ifc d'.
Proof.
  unfold assign. intros Ed Hv (H1 & H2 & H3).
  destruct (seqb k "name") eqn:E1; [|destruct (seqb k "desc") eqn:E2; [|destruct (seqb k "speed") eqn:E3; [|by injection Ed as <-]]];
    apply seqb_eq in E1 || apply seqb_eq in E2 || apply seqb_eq in E3; subst k; destruct v; try done; injection Ed as <-;
    split_and!; cbn; eauto.
Qed.
Lemma fetch_loop_reported a rt ifc keys : forall d cache started d' cache' qs,
  0 < ifc -> Forall (fun k => k ∈ oidExts.*1) keys -> cache_ok a cache -> reported a rt ifc d -> Forall proper started ->
  fetch_loop rt ifc keys d cache started = Ok (d', cache', qs) ->
  reported a rt ifc d' /\ cache_ok a cache' /\ Forall proper qs.
Proof.
  assert (reported a rt ifc blank) as Hb by (split_and!; by left).
  induction keys as [|k keys IH]; intros d cache started d' cache' qs Hi Hk Ha Hd Hs; cbn [fetch_loop]; [by intros [= <- <- <-]|].
  apply Forall_cons in Hk as [Hk Hks]. assert (proper (mkquery rt ifc k)) as Hp by by split.
  destruct (cache !! cache_key (mkquery rt ifc k)) as [v|] eqn:Ev.
  - pose proof (cache_ok_lookup a cache _ v Ha Hp Ev) as Hv.
    destruct v as [|s|n|]; [by intros [= <- <- <-]|..]; intros (d1 & Ed & E)%result_bind_inv; specialize (Hv ltac:(done));
      (apply (IH d1 cache started); [done..| |done|exact E]); by eapply assign_reported.
  - apply IH; [done|done|by apply cache_ok_insert_nil|done|]. apply Forall_app. split; [done|by apply Forall_singleton].
Qed.

(** How a flow leaves: the fields of each known interface hold reported data. *)
Definition annotated (a : list (query * cached)) (m m' : EnrichedFlow) : Prop :=
  exists s d, let rt := net.String (SamplerAddress m) in
    reported a rt (InIf m) s /\ reported a rt (OutIf m) d /\
    let m1 := if 0 <? InIf m
              then set_SrcIfName (name s) (set_SrcIfDesc (clean segment (desc s)) (set_SrcIfSpeed (speed s) m)) else m in
    m' = if 0 <? OutIf m
         then set_DstIfName (name d) (set_DstIfDesc (clean segment (desc d)) (set_DstIfSpeed (speed d) m1)) else m1.

Lemma reported_mono a b rt ifc d : reported a rt ifc d -> reported (a ++ b) rt ifc d.
Proof. unfold reported. intros (H1 & H2 & H3). split_and!; [set_solver..|]. destruct H3 as [|(n & ? & ?)]; [by left|right; exists n]. set_solver. Qed.
Lemma annotated_mono a b m m' : annotated a m m' -> annotated (a ++ b) m m'.
Proof. intros (s & d & H1 & H2 & H3). exists s, d. split_and!; [by apply reported_mono..|done]. Qed.

Lemma annotate_annotated a keys keys' m m' c c' qs : iteration keys -> iteration keys' -> cache_ok a c ->
  annotate segment keys keys' m c = Ok (m', c', qs) -> annotated a m m' /\ cache_ok a c' /\ Forall proper qs.
Proof.
  unfold annotate. intros Hk Hk' Ha E. apply result_bind_inv in E as ([[m1 c1] q1] & E1 & E2).
  assert (forall rt ifc, reported a rt ifc blank) as Hb by (intros; split_and!; by left).
  assert (forall ks, iteration ks -> Forall (fun k => k ∈ oidExts.*1) ks) as Hf
    by (intros ks Hks; unfold iteration in Hks; rewrite Hks; by apply Forall_forall).
  assert (exists s, reported a (net.String (SamplerAddress m)) (InIf m) s /\ cache_ok a c1 /\ Forall proper q1 /\
    m1 = if 0 <? InIf m then set_SrcIfName (name s) (set_SrcIfDesc (clean segment (desc s)) (set_SrcIfSpeed (speed s) m)) else m)
    as (s & Hs & Ha1 & Hq1 & ->).
  { destruct (Z.ltb_spec 0 (InIf m)); [|injection E1 as <- <- <-; by exists blank].
    apply result_bind_inv in E1 as ([[s c2] q2] & E1 & E3). injection E3 as <- <- <-.
    apply (fetch_loop_reported a) in E1 as (Hs & ? & ?); [|by auto..]. by exists s. }
  replace (OutIf (if 0 <? InIf m then _ else m)) with (OutIf m) in E2 by by destruct (0 <? InIf m).
  replace (SamplerAddress (if 0 <? InIf m then _ else m)) with (SamplerAddress m) in E2 by by destruct (0 <? InIf m).
  destruct (Z.ltb_spec 0 (OutIf m)) as [Ho|Ho].
  - apply result_bind_inv in E2 as ([[d c2] q2] & E2 & E3). injection E3 as <- <- <-.
    apply (fetch_loop_reported a) in E2 as (Hd & Ha2 & Hq2); [|by auto..].
    split; [|split; [done|by apply Forall_app]]. exists s, d. split_and!; [done..|]. cbv zeta.
    by rewrite (proj2 (Z.ltb_lt _ _) Ho).
  - injection E2 as <- <- <-. split; [|done]. exists s, blank. split_and!; [done..|]. cbv zeta.
    by rewrite (proj2 (Z.ltb_ge _ _) Ho).
Qed.

Definition good (ms : list EnrichedFlow) (st : state) : Prop :=
  cache_ok (answers st) (cache st) /\ Forall proper (waiting st ++ running st) /\
  Z.of_nat (length (running st)) <= Z.max 0 (ConnLimit segment) /\
  exists taken, taken ++ input st = ms /\ Forall2 (annotated (answers st)) taken (out st).

Lemma cache_ok_answer a c q res : proper q -> cache_ok a c ->
  cache_ok (a ++ match res with Variables [v] => [(q, v)] | _ => [] end) (querySNMP q res c).
Proof.
  intros Hq Ha. destruct res as [| |[|v [|v' vs]]]; cbn [querySNMP]; rewrite ?app_nil_r; try done; try by apply cache_ok_delete.
  intros k v' [[<- <-]|[_ Hv]]%lookup_insert_Some.
  - right. exists q. split_and!; [done..|]. set_solver.
  - by apply (cache_ok_mono a [(q, v)] c Ha) in Hv.
Qed.

Lemma snmp_step_good ms st st' : step segment st st' -> good ms st -> good ms st'.
Proof.
  unfold good. destruct 1 as [keys keys' m m' ms' c c' qs w r a o Hk Hk' E|ms' c w w' q r a o Hp Hl|ms' c w q r r' res a o Hp|ms' c w r a o k];
    cbn; intros (Ha & Hq & Hr & taken & Ht & Ho).
  - destruct (annotate_annotated a _ _ _ _ _ _ _ Hk Hk' Ha E) as (Hm & Hc & Hqs). apply Forall_app in Hq as [Hw Hrun].
    split_and!; [done|by rewrite !Forall_app|done|]. exists (taken ++ [m]). rewrite <- app_assoc. split; [done|].
    by apply Forall2_app; [|constructor].
  - split_and!; [done| |lia|by exists taken]. rewrite Hp in Hq. by rewrite <- Permutation_middle.
  - rewrite Hp in Hq, Hr. rewrite <- Permutation_middle in Hq. apply Forall_cons in Hq as [Hq Hqs]. cbn in Hr.
    split_and!; [by apply cache_ok_answer|done|lia|]. exists taken. split; [done|].
    apply (Forall2_impl _ _ _ _ Ho). intros x y. apply annotated_mono.
  - split_and!; [by apply cache_ok_delete|done|done|by exists taken].
Qed.

Lemma reachable_good ms st : rtc (step segment) (start ms) st -> good ms st.
Proof.
  intros Hs. apply (rtc_keeps (fun st1 st2 Hg Hst => snmp_step_good ms st1 st2 Hst Hg) _ _ Hs).
  split_and!; [by intros k v Hv; cbn in Hv; rewrite lookup_empty in Hv|done|cbn; lia|exists []; by split].
Qed.
End annotations.

(** C40. Whatever the schedule, the iteration orders and the expiry of cache entries:
    flows leave in order, changed in their interface fields only, and a non-empty
    name, description or speed is what the flow's own router has answered for
    that interface; no more connections are open than allowed. *)
Theorem snmp_annotations (segment : SNMP) (ms : list EnrichedFlow) (st : state) :
  0 < ConnLimit segment -> rtc (step segment) (start ms) st ->
  (exists taken, taken ++ input st = ms /\ Forall2 (annotated segment (answers st)) taken (out st)) /\
  Z.of_nat (length (running st)) <= ConnLimit segment.
Proof. intros Hc Hs. destruct (reachable_good segment ms st Hs) as (_ & _ & Hr & Ht). split; [done|lia]. Qed.

(** Queries do not block each other forever: from every state a sequence of
    acquisitions and answers leads to one without any, whatever the routers
    answer. *)
Theorem snmp_queries_finish (segment : SNMP) (st : state) (res : query -> response) :
  0 < ConnLimit segment ->
  exists st', rtc (step segment) st st' /\ waiting st' = [] /\ running st' = [] /\ input st' = input st /\ out st' = out st.
Proof.
  intros Hc. destruct st as [ms c w r a o]. revert w c a. 
  assert (forall r w c a, exists c' a', rtc (step segment) (mkstate ms c w r a o) (mkstate ms c' w [] a' o)) as Hdrain.
  { clear r. induction r as [|q r IH]; intros w c a; [exists c, a; apply rtc_refl|].
    destruct (IH w (querySNMP q (res q) c) (a ++ match res q with Variables [v] => [(q, v)] | _ => [] end)) as (c' & a' & Hs).
    exists c', a'. eapply rtc_l; [by apply (step_answer segment _ _ _ q _ r (res q))|exact Hs]. }
  intros w c a. destruct (Hdrain r w c a) as (c1 & a1 & Hs1). clear Hdrain.
  assert (exists c' a', rtc (step segment) (mkstate ms c1 w [] a1 o) (mkstate ms c' [] [] a' o)) as (c' & a' & Hs2).
  { clear Hs1. revert c1 a1. induction w as [|q w IH]; intros c1 a1; [exists c1, a1; apply rtc_refl|].
    destruct (IH (querySNMP q (res q) c1) (a1 ++ match res q with Variables [v] => [(q, v)] | _ => [] end)) as (c' & a' & Hs).
    exists c', a'. eapply rtc_l; [by apply (step_acquire segment _ _ _ w q)|].
    eapply rtc_l; [by apply (step_answer segment _ _ _ q _ [] (res q))|exact Hs]. }
  exists (mkstate ms c' [] [] a' o). split; [by etrans|done].
Qed.

(** ** The theorems at work *)
Module witness.
Definition segment : SNMP := mkSNMP "public" "^(.*)$" 1 (fun s => [s; s]).
Definition flow : EnrichedFlow := set_InIf 7 (set_SamplerAddress (Some [10; 0; 0; 1]) emptyFlow).
Definition q (k : string) : query := mkquery "10.0.0.1" 7 k.
Definition keys : list string := oidExts.*1.
Definition known : gmap string cached :=
  {[ cache_key (q "name") := CString "eth0"; cache_key (q "speed") := CUint64 1000; cache_key (q "desc") := CString "uplink" ]}.
Definition marked : gmap string cached := {[ cache_key (q "name") := CNil; cache_key (q "desc") := CString "uplink" ]}.
Definition after : EnrichedFlow * gmap string cached * list query :=
  match annotate segment keys keys flow ∅ with Ok r => r | _ => (flow, ∅, []) end.
Lemma annotate_flow : annotate segment keys keys flow ∅ = Ok (after.1.1, after.1.2, after.2).
Proof. vm_compute. reflexivity. Qed.
End witness.

Lemma snmp_first_flow_witness :
  exists cache' qs, fetchInterfaceData "10.0.0.1" 7 ["desc"; "name"; "speed"]%string ∅ = Ok (blank, cache', qs) /\
    qs ≡ₚ [witness.q "name"; witness.q "speed"; witness.q "desc"].
Proof.
  destruct (snmp_first_flow "10.0.0.1" 7 ["desc"; "name"; "speed"]%string ∅) as (cache' & qs & E & Hq & _).
  - reflexivity.
  - apply (bool_decide_unpack _). vm_compute. reflexivity.
  - intros k. apply lookup_empty.
  - exists cache', qs. exact (conj E Hq).
Defined.

Lemma snmp_answered_witness :
  fetchInterfaceData "10.0.0.1" 7 witness.keys witness.known = Ok (mkdata "eth0" "uplink" 1000, witness.known, []).
Proof.
  apply (snmp_answered "10.0.0.1" 7 witness.keys witness.known (CString "eth0") (CString "uplink") (CUint64 1000));
    [apply Permutation_refl|vm_compute; reflexivity|discriminate|vm_compute; reflexivity|discriminate|vm_compute; reflexivity|discriminate].
Defined.

Lemma snmp_waiting_witness :
  exists cache' qs, fetchInterfaceData "10.0.0.1" 7 witness.keys (querySNMP (witness.q "name") (Variables []) witness.marked)
    = Ok (blank, cache', qs) /\ (witness.q "name" ∉ qs) /\ cache' !! cache_key (witness.q "name") = Some CNil.
Proof.
  refine (snmp_waiting "10.0.0.1" 7 "name" witness.keys witness.marked [] _ _ _ _ _ _);
    [reflexivity|apply Permutation_refl|apply (bool_decide_unpack _); reflexivity|discriminate| |vm_compute; reflexivity].
  intros k v Hk. unfold oidExts in Hk. cbn in Hk.
  apply elem_of_cons in Hk as [->|Hk]; [|apply elem_of_cons in Hk as [->|Hk]; [|apply list_elem_of_singleton in Hk as ->]].
  - replace (witness.marked !! _) with (Some CNil) by (vm_compute; reflexivity). intros [= <-]. left. reflexivity.
  - replace (witness.marked !! _) with (@None cached) by (vm_compute; reflexivity). discriminate.
  - replace (witness.marked !! _) with (Some (CString "uplink")) by (vm_compute; reflexivity). intros [= <-]. right. by eexists.
Defined.

Lemma snmp_annotations_witness :
  exists taken, taken ++ [] = [witness.flow] /\ Forall2 (annotated witness.segment []) taken [witness.after.1.1].
Proof.
  destruct (snmp_annotations witness.segment [witness.flow]
    (mkstate [] witness.after.1.2 witness.after.2 [] [] [witness.after.1.1])) as [H _]; [reflexivity| |exact H].
  eapply rtc_l; [|apply rtc_refl].
  apply (step_flow witness.segment witness.keys witness.keys witness.flow witness.after.1.1 [] ∅ witness.after.1.2 witness.after.2 [] [] [] []);
    [apply Permutation_refl..|apply witness.annotate_flow].
Defined.

Lemma snmp_queries_finish_witness :
  exists st', rtc (step witness.segment) (mkstate [] ∅ [witness.q "name"] [witness.q "desc"] [] []) st' /\
    waiting st' = [] /\ running st' = [].
Proof.
  destruct (snmp_queries_finish witness.segment (mkstate [] ∅ [witness.q "name"] [witness.q "desc"] [] []) (fun _ => GetError) eq_refl)
    as (st' & Hs & Hw & Hr & _).
  exists st'. exact (conj Hs (conj Hw Hr)).
Defined.
