(* ===== verification/FlowFilter.v ===== *)
(** * The flow filter ([segments/filter/flowfilter])

    [visitor.go] evaluates a filter expression on a flow by walking the syntax
    tree and storing every node's result in the node.  The tree belongs to the
    module [flowfilter/parser], which is not part of the repository: its nodes
    are modelled by what the visitor reads and writes, one constructor per
    alternative of its switches, with the stored results as fields.  [Visit]
    visits a node's children first and stops at the first error. *)

From stdpp Require Import prelude strings list gmap.
From Stdlib Require Import ZArith Lia.
From S2P Require Import Prelude GoStd EnrichedFlow Segment.

(** ** Syntax trees *)

(** Pointers that may be nil are options. *)
Record NumericRange := mkNumericRange {
  Unary : option string; Number : option Z; Lower : option Z; Upper : option Z }.

Inductive keyed : Type := ByNumber (n : Z) | ByKey (k : Z) | NoKey.
Inductive icmp : Type := ByType (n : Z) | ByCode (n : Z) | NoIcmp.
Inductive iface : Type :=
  | SnmpId (n : Z) | IfName (s : string) | Description (s : string) | Speed (r : NumericRange) | NoIface.

(** The alternatives of a [RegularMatchGroup], in the order of the switch. *)
Inductive regular : Type :=
  | RouterMatch (a : net.IP) | NextHopMatch (a : net.IP) | NextHopAsnMatch (n : Z)
  | ByteRangeMatch (r : NumericRange) | PacketRangeMatch (r : NumericRange)
  | RemoteCountryMatch (code : string) | FlowDirectionMatch (d : string) | NormalizedMatch
  | DurationRangeMatch (r : NumericRange) | EtypeMatch (k : keyed) | ProtoMatch (k : keyed)
  | StatusMatch (k : keyed) | TcpFlagsMatch (k : keyed) | IpTosRangeMatch (r : NumericRange)
  | LocalPrefRangeMatch (r : NumericRange) | MedRangeMatch (r : NumericRange)
  | DscpMatch (k : keyed) | EcnMatch (k : keyed) | SamplingRateRangeMatch (r : NumericRange)
  | IcmpMatch (k : icmp) | BpsRangeMatch (r : NumericRange) | PpsRangeMatch (r : NumericRange)
  | PassesThroughListMatch (Numbers : list Z) | RpkiMatch (k : option Z) | NoRegular.

(** The alternatives of a [DirectionalMatchGroup]. *)
Inductive directional : Type :=
  | AddressMatch (Address : net.IP) (Mask : option Z) | InterfaceMatch (i : iface)
  | PortRangeMatch (r : NumericRange) | AsnRangeMatch (r : NumericRange)
  | NetsizeRangeMatch (r : NumericRange) | CidRangeMatch (r : NumericRange)
  | VrfRangeMatch (r : NumericRange) | NoDirectional.

(** [EvalResult], [EvalResultSrc] and [EvalResultDst] of a directional match. *)
Record evals := mkevals { evAny : bool; evSrc : bool; evDst : bool }.

Record RegularMatchGroup := mkRegular { r_match : regular; r_ev : bool; r_EvalResult : bool }.
Record DirectionalMatchGroup := mkDirectional {
  Direction : option string; d_match : directional; d_evs : evals; d_EvalResult : bool }.

(** [Expression] (empty, a statement, or a statement, a conjunction and an
    expression) and [Statement]; the last argument is [EvalResult]. *)
Inductive Expression : Type :=
  | EEmpty (EvalResult : bool)
  | ESingle (Left : Statement) (EvalResult : bool)
  | EBinary (Left : Statement) (Conjunction : string) (Right : Expression) (EvalResult : bool)
with Statement : Type :=
  | SDirectional (Negated : option bool) (m : DirectionalMatchGroup) (EvalResult : bool)
  | SRegular (Negated : option bool) (m : RegularMatchGroup) (EvalResult : bool)
  | SSub (Negated : option bool) (e : Expression) (EvalResult : bool)
  | SNone (Negated : option bool) (EvalResult : bool).

Scheme Expression_mut := Induction for Expression Sort Prop
  with Statement_mut := Induction for Statement Sort Prop.
Combined Scheme tree_ind from Expression_mut, Statement_mut.

Definition expr_result (e : Expression) : bool :=
  match e with EEmpty r | ESingle _ r | EBinary _ _ _ r => r end.
Definition stmt_result (s : Statement) : bool :=
  match s with SDirectional _ _ r | SRegular _ _ r | SSub _ _ r | SNone _ r => r end.

(** ** visitor.go *)

(** [processNumericRange]: the comparison and whether there is an error. *)
Definition processNumericRange (node : NumericRange) (compare : Z) : result (bool * bool) :=
  match Lower node, Upper node with
  | Some lower, Some upper => Ok ((lower <=? compare) && (compare <=? upper), upper <? lower)
  | _, _ =>
      match Number node with
      | None => Panic
      | Some number =>
          let unary := default ""%string (Unary node) in
          Ok (if seqb unary "<" then compare <? number
              else if seqb unary ">" then number <? compare
              else compare =? number, false)
      end
  end.

Definition keyed_eval (k : keyed) (old : bool) (by_number by_key : Z -> bool) : bool :=
  match k with ByNumber n => by_number n | ByKey n => by_key n | NoKey => old end.

(** [sliceEq(a, b)] for slices of the same length. *)
Fixpoint sliceEq (a b : list Z) : bool :=
  match a, b with
  | v :: a, w :: b => if u32 v =? w then sliceEq a b else false
  | _, _ => true
  end.
(** The loop over the start positions; [old] survives if none is tried. *)
Fixpoint passes_loop (Numbers AsPath : list Z) (old : bool) : bool :=
  match AsPath with
  | [] => old
  | _ :: rest =>
      if (length AsPath <? length Numbers)%nat then old
      else if sliceEq Numbers (take (length Numbers) AsPath) then true
      else passes_loop Numbers rest false
  end.

Section visitor.
Variable f : EnrichedFlow.

Definition ok (b : bool) : result (bool * bool) := Ok (b, false).

(** [duration] as in the rate matches: 0 counts as 1. *)
Definition rate_duration : Z :=
  let duration := u64 (TimeFlowEnd f - TimeFlowStart f) in if duration =? 0 then duration + 1 else duration.

(** The cases of [Visit] for regular matches: new [EvalResult] and error. *)
Definition regular_eval (m : regular) (old : bool) : result (bool * bool) :=
  match m with
  | RouterMatch a => ok (net.Equal (SamplerAddress f) a)
  | NextHopMatch a => ok (net.Equal (NextHop f) a)
  | NextHopAsnMatch n => ok (NextHopAs f =? n)
  | ByteRangeMatch r => processNumericRange r (Bytes f)
  | PacketRangeMatch r => processNumericRange r (Packets f)
  | RemoteCountryMatch code => ok (gostrings.Contains (RemoteCountry f) (gostrings.ToUpper code))
  | FlowDirectionMatch d =>
      ok (if seqb d "incoming" then FlowDirection f =? 0
          else if seqb d "outgoing" then FlowDirection f =? 1 else old)
  | NormalizedMatch => ok (Normalized f =? 1)
  | DurationRangeMatch r => processNumericRange r (u64 (TimeFlowEnd f - TimeFlowStart f))
  | EtypeMatch k => ok (keyed_eval k old (fun n => Etype f =? u32 n) (fun n => Etype f =? u32 n))
  | ProtoMatch k => ok (keyed_eval k old (fun n => Proto f =? u32 n) (fun n => Proto f =? u32 n))
  | StatusMatch k => ok (keyed_eval k old (fun n => ForwardingStatus f =? u32 n)
                           (fun n => Z.land (ForwardingStatus f) (u32 n) =? u32 n))
  | TcpFlagsMatch k =>
      ok (if negb (Proto f =? 6) then false
          else keyed_eval k old (fun n => TcpFlags f =? u32 n)
                 (fun n => Z.land (TcpFlags f) (u32 n) =? u32 n))
  | IpTosRangeMatch r => processNumericRange r (IpTos f)
  | LocalPrefRangeMatch r => processNumericRange r (LocalPref f)
  | MedRangeMatch r => processNumericRange r (Med f)
  | DscpMatch k => ok (keyed_eval k old (fun n => Z.shiftr (IpTos f) 2 =? u32 n)
                         (fun n => Z.shiftr (IpTos f) 2 =? u32 n))
  | EcnMatch k => ok (keyed_eval k old (fun n => Z.land (IpTos f) 3 =? u32 n)
                        (fun n => Z.land (IpTos f) 3 =? u32 n))
  | SamplingRateRangeMatch r => processNumericRange r (SamplingRate f)
  | IcmpMatch k =>
      ok (if negb (Proto f =? 1) then false
          else match k with
               | ByType n => u32 n =? DstPort f / 256
               | ByCode n => u32 n =? DstPort f mod 256
               | NoIcmp => old
               end)
  | BpsRangeMatch r =>
      (* the error is assigned but not returned *)
      '(b, _) ← processNumericRange r (u64 (Bytes f * 8) / rate_duration); ok b
  | PpsRangeMatch r => processNumericRange r (Packets f / rate_duration)
  | PassesThroughListMatch Numbers => ok (passes_loop Numbers (AsPath f) old)
  | RpkiMatch k => ok (match k with None => false | Some k => ValidationStatus f =? k end)
  | NoRegular => ok old
  end.

Definition range_pair (r : NumericRange) (src dst : Z) (old : evals) : result (evals * bool) :=
  '(s, _) ← processNumericRange r src;
  '(d, err) ← processNumericRange r dst;
  Ok ({| evAny := evAny old; evSrc := s; evDst := d |}, err).

Definition iface_eval (i : iface) (old : evals) : result (evals * bool) :=
  let set s d := Ok ({| evAny := evAny old; evSrc := s; evDst := d |}, false) in
  let contains a b := gostrings.Contains (gostrings.ToLower a) (gostrings.ToLower b) in
  match i with
  | SnmpId n => set (u32 n =? InIf f) (u32 n =? OutIf f)
  | IfName s => set (contains (SrcIfName f) s) (contains (DstIfName f) s)
  | Description s => set (contains (SrcIfDesc f) s) (contains (DstIfDesc f) s)
  | Speed r =>
      '(e, err) ← range_pair r (SrcIfSpeed f / 1000) (DstIfSpeed f / 1000) old;
      Ok (if (err : bool) then old else e, err)
  | NoIface => Ok (old, false)
  end.

Definition directional_eval (m : directional) (old : evals) : result (evals * bool) :=
  match m with
  | AddressMatch a (Some mask) =>
      let mask := if negb (is_nil (net.To4 a)) then net.CIDRMask mask 32 else net.CIDRMask mask 128 in
      Ok ({| evAny := evAny old; evSrc := net.Contains a mask (SrcAddr f);
             evDst := net.Contains a mask (DstAddr f) |}, false)
  | AddressMatch a None =>
      Ok ({| evAny := evAny old; evSrc := net.Equal (SrcAddr f) a; evDst := net.Equal (DstAddr f) a |}, false)
  | InterfaceMatch i => iface_eval i old
  | PortRangeMatch r => range_pair r (SrcPort f) (DstPort f) old
  | AsnRangeMatch r => range_pair r (SrcAs f) (DstAs f) old
  | NetsizeRangeMatch r => range_pair r (SrcNet f) (DstNet f) old
  | CidRangeMatch r =>
      '(any, _) ← processNumericRange r (Cid f);
      range_pair r (SrcCid f) (DstCid f) {| evAny := any; evSrc := evSrc old; evDst := evDst old |}
  | VrfRangeMatch r => range_pair r (IngressVrfIDBW f) (EgressVrfIDBW f) old
  | NoDirectional => Ok (old, false)
  end.

(** The case for [DirectionalMatchGroup], after its child. *)
Definition direct (direction : option string) (m : directional) (e : evals) (old : bool) : bool :=
  match m with
  | NoDirectional => old
  | _ =>
      match direction with
      | None => match m with CidRangeMatch _ => evAny e || evSrc e || evDst e | _ => evSrc e || evDst e end
      | Some d => if seqb d "src" then evSrc e else if seqb d "dst" then evDst e else old
      end
  end.

(** Visiting a group: its child, then the group unless there was an error. *)
Definition visit_regular (g : RegularMatchGroup) : result (RegularMatchGroup * bool) :=
  '(b, err) ← regular_eval (r_match g) (r_ev g);
  Ok ({| r_match := r_match g; r_ev := b;
         r_EvalResult := if (err : bool) then r_EvalResult g
                         else match r_match g with NoRegular => r_EvalResult g | _ => b end |}, err).
Definition visit_directional (g : DirectionalMatchGroup) : result (DirectionalMatchGroup * bool) :=
  '(e, err) ← directional_eval (d_match g) (d_evs g);
  Ok ({| Direction := Direction g; d_match := d_match g; d_evs := e;
         d_EvalResult := if (err : bool) then d_EvalResult g
                         else direct (Direction g) (d_match g) e (d_EvalResult g) |}, err).

Definition negate (Negated : option bool) (b : bool) : bool :=
  match Negated with Some true => negb b | _ => b end.

(** The last argument of a statement or expression after a visit. *)
Definition conjunction (c : string) (l r old : bool) : bool :=
  if seqb c "and" then l && r else if seqb c "or" then l || r else old.

Fixpoint visit_expr (e : Expression) : result (Expression * bool) :=
  match e with
  | EEmpty _ => Ok (EEmpty true, false)
  | ESingle l old =>
      '(l, err) ← visit_stmt l;
      Ok (ESingle l (if (err : bool) then old else stmt_result l), err)
  | EBinary l c r old =>
      '(l, err) ← visit_stmt l;
      if (err : bool) then Ok (EBinary l c r old, true)
      else
        '(r, err) ← visit_expr r;
        Ok (EBinary l c r (if (err : bool) then old
                           else conjunction c (stmt_result l) (expr_result r) old), err)
  end
with visit_stmt (s : Statement) : result (Statement * bool) :=
  match s with
  | SDirectional n m old =>
      '(m, err) ← visit_directional m;
      Ok (SDirectional n m (if (err : bool) then old else negate n (d_EvalResult m)), err)
  | SRegular n m old =>
      '(m, err) ← visit_regular m;
      Ok (SRegular n m (if (err : bool) then old else negate n (r_EvalResult m)), err)
  | SSub n e old =>
      '(e, err) ← visit_expr e;
      Ok (SSub n e (if (err : bool) then old else negate n (expr_result e)), err)
  | SNone n old => Ok (SNone n (negate n old), false)
  end.
End visitor.

(** [CheckFlow]: the tree after the walk, its result, and whether there was
    an error. *)
Definition CheckFlow (expr : Expression) (flowmsg : EnrichedFlow) : result (Expression * bool * bool) :=
  '(e, err) ← visit_expr flowmsg expr; Ok (e, expr_result e, err).

(** ** flowfilter.go *)
Record FlowFilter := mkFlowFilter { Filter : string; expression : Expression }.

Section New.
(** [parser.Parse] *)
Variable Parse : string -> option Expression.

Definition New (c : config) : created FlowFilter :=
  match Parse (cfg c "filter") with
  | None => NilSegment
  | Some e =>
      match CheckFlow e emptyFlow with
      | Ok (e, _, false) => Created {| Filter := cfg c "filter"; expression := e |}
      | Ok (_, _, true) => NilSegment
      | _ => Panicked
      end
  end.
End New.

#[export] Instance FlowFilter_segment : PartialSegment FlowFilter := fun sub s msg =>
  '(e, matched, _) ← CheckFlow (expression s) msg;
  Ok ({| Filter := Filter s; expression := e |}, if (matched : bool) then [EOut msg] else to_drops sub msg).

(** ** Specification

    What an expression means on a flow, independently of any stored result,
    and which errors it has, independently of any flow. *)

Definition fresh_regular (f : EnrichedFlow) (m : regular) : bool :=
  match regular_eval f m false with Ok (b, _) => b | _ => false end.
Definition no_evals : evals := {| evAny := false; evSrc := false; evDst := false |}.
Definition fresh_directional (f : EnrichedFlow) (d : option string) (m : directional) : bool :=
  match directional_eval f m no_evals with Ok (e, _) => direct d m e false | _ => false end.

Fixpoint sem_expr (f : EnrichedFlow) (e : Expression) : bool :=
  match e with
  | EEmpty _ => true
  | ESingle l _ => sem_stmt f l
  | EBinary l c r _ => if seqb c "and" then sem_stmt f l && sem_expr f r else sem_stmt f l || sem_expr f r
  end
with sem_stmt (f : EnrichedFlow) (s : Statement) : bool :=
  match s with
  | SDirectional n m _ => negate n (fresh_directional f (Direction m) (d_match m))
  | SRegular n m _ => negate n (fresh_regular f (r_match m))
  | SSub n e _ => negate n (sem_expr f e)
  | SNone n _ => negate n false
  end.

Definition range_status (r : NumericRange) : result bool :=
  match Lower r, Upper r with
  | Some lower, Some upper => Ok (upper <? lower)
  | _, _ => match Number r with Some _ => Ok false | None => Panic end
  end.
Definition regular_status (m : regular) : result bool :=
  match m with
  | ByteRangeMatch r | PacketRangeMatch r | DurationRangeMatch r | IpTosRangeMatch r
  | LocalPrefRangeMatch r | MedRangeMatch r | SamplingRateRangeMatch r | PpsRangeMatch r => range_status r
  | BpsRangeMatch r => _ ← range_status r; Ok false
  | _ => Ok false
  end.
Definition directional_status (m : directional) : result bool :=
  match m with
  | PortRangeMatch r | AsnRangeMatch r | NetsizeRangeMatch r | CidRangeMatch r | VrfRangeMatch r
  | InterfaceMatch (Speed r) => range_status r
  | _ => Ok false
  end.
Fixpoint expr_status (e : Expression) : result bool :=
  match e with
  | EEmpty _ => Ok false
  | ESingle l _ => stmt_status l
  | EBinary l _ r _ => err ← stmt_status l; if (err : bool) then Ok true else expr_status r
  end
with stmt_status (s : Statement) : result bool :=
  match s with
  | SDirectional _ m _ => directional_status (d_match m)
  | SRegular _ m _ => regular_status (r_match m)
  | SSub _ e _ => expr_status e
  | SNone _ _ => Ok false
  end.

(** The tree without its stored results. *)
Fixpoint erase_expr (e : Expression) : Expression :=
  match e with
  | EEmpty _ => EEmpty false
  | ESingle l _ => ESingle (erase_stmt l) false
  | EBinary l c r _ => EBinary (erase_stmt l) c (erase_expr r) false
  end
with erase_stmt (s : Statement) : Statement :=
  match s with
  | SDirectional n m _ =>
      SDirectional n {| Direction := Direction m; d_match := d_match m; d_evs := no_evals;
                        d_EvalResult := false |} false
  | SRegular n m _ => SRegular n {| r_match := r_match m; r_ev := false; r_EvalResult := false |} false
  | SSub n e _ => SSub n (erase_expr e) false
  | SNone n _ => SNone n false
  end.

(** Every node assigns its result on this flow: true of what the grammar
    produces, except for an AS path list longer than the flow's AS path. *)
Definition has_key (k : keyed) : bool := match k with NoKey => false | _ => true end.
Definition assigns_regular (f : EnrichedFlow) (m : regular) : bool :=
  match m with
  | FlowDirectionMatch d => seqb d "incoming" || seqb d "outgoing"
  | EtypeMatch k | ProtoMatch k | StatusMatch k | TcpFlagsMatch k | DscpMatch k | EcnMatch k => has_key k
  | IcmpMatch NoIcmp => false
  | PassesThroughListMatch ns => negb (length (AsPath f) =? 0)%nat && (length ns <=? length (AsPath f))%nat
  | NoRegular => false
  | _ => true
  end.
Definition assigns_directional (d : option string) (m : directional) : bool :=
  match d with None => true | Some d => seqb d "src" || seqb d "dst" end &&
  match m with InterfaceMatch NoIface | NoDirectional => false | _ => true end.
Fixpoint assigns_expr (f : EnrichedFlow) (e : Expression) : bool :=
  match e with
  | EEmpty _ => true
  | ESingle l _ => assigns_stmt f l
  | EBinary l c r _ => (seqb c "and" || seqb c "or") && assigns_stmt f l && assigns_expr f r
  end
with assigns_stmt (f : EnrichedFlow) (s : Statement) : bool :=
  match s with
  | SDirectional _ m _ => assigns_directional (Direction m) (d_match m)
  | SRegular _ m _ => assigns_regular f (r_match m)
  | SSub _ e _ => assigns_expr f e
  | SNone _ _ => false
  end.

(** ** Facts about one node *)
Lemma range_cases r c : match range_status r with
  | Ok err => exists b, processNumericRange r c = Ok (b, err)
  | _ => range_status r = Panic /\ processNumericRange r c = Panic end.
Proof.
  unfold range_status, processNumericRange.
  destruct (Lower r), (Upper r), (Number r); simpl; eauto.
Qed.

Lemma range_bounded r c l u : Lower r = Some l -> Upper r = Some u ->
  processNumericRange r c = Ok ((l <=? c) && (c <=? u), u <? l).
Proof. intros Hl Hu. unfold processNumericRange. by rewrite Hl, Hu. Qed.

Lemma regular_status_ok f m old : snd <$> regular_eval f m old = regular_status m.
Proof.
  destruct m; simpl; try reflexivity;
    match goal with r : NumericRange |- context [processNumericRange ?r ?c] =>
      pose proof (range_cases r c) as Hc; destruct (range_status r) eqn:E;
      [destruct Hc as [? ->] | destruct Hc as [? ->] | destruct Hc as [? ->]]; simpl; congruence end.
Qed.

Lemma range_pair_status r x y old :
  snd <$> range_pair r x y old = range_status r.
Proof.
  unfold range_pair. pose proof (range_cases r x) as Hx. pose proof (range_cases r y) as Hy.
  destruct (range_status r) eqn:E; destruct Hx as [? ->]; simpl; [|congruence..].
  by destruct Hy as [? ->].
Qed.

Lemma directional_status_ok f m old : snd <$> directional_eval f m old = directional_status m.
Proof.
  destruct m as [a [mask|]|[]| | | | | |]; simpl; try reflexivity; try apply range_pair_status.
  - pose proof (range_pair_status r (SrcIfSpeed f / 1000) (DstIfSpeed f / 1000) old) as H.
    destruct (range_pair _ _ _ _) as [[e err]| |]; simpl in *; congruence.
  - pose proof (range_cases r (Cid f)) as Hc. destruct (range_status r) eqn:E; destruct Hc as [? ->];
      simpl; [rewrite range_pair_status; done|congruence..].
Qed.

Lemma regular_assigns f m old old' :
  assigns_regular f m = true -> regular_eval f m old = regular_eval f m old'.
Proof.
  destruct m; simpl; try reflexivity; try discriminate;
    try (match goal with k : keyed |- _ => destruct k; done end).
  - unfold ok. destruct (seqb d "incoming"), (seqb d "outgoing"); done.
  - destruct k; done.
  - intros [H1 H2]%andb_prop. unfold ok. do 2 f_equal.
    destruct (AsPath f) as [|a path]; [done|].
    simpl. rewrite (proj2 (Nat.ltb_ge _ _)); [done|]. by apply Nat.leb_le.
Qed.

Lemma directional_assigns f d m old old' r r' e err e' err' :
  assigns_directional d m = true ->
  directional_eval f m old = Ok (e, err) -> directional_eval f m old' = Ok (e', err') ->
  err = false -> direct d m e r = direct d m e' r' /\ err' = false.
Proof.
  intros Ha H H' ->. assert (err' = false) as ->.
  { pose proof (directional_status_ok f m old) as S1. pose proof (directional_status_ok f m old') as S2.
    rewrite H in S1. rewrite H' in S2. simpl in *. congruence. }
  split; [|done]. unfold assigns_directional in Ha. apply andb_prop in Ha as [Hd Hm].
  assert (evSrc e = evSrc e' /\ evDst e = evDst e' /\
          match m with CidRangeMatch _ => evAny e = evAny e' | _ => True end) as (E1 & E2 & E3).
  { destruct m as [a [mask|]|[]| | | | | |]; try discriminate Hm; simpl in *; simplify_eq; simpl; auto;
      unfold range_pair in *;
      repeat match goal with H : context [processNumericRange ?r ?c] |- _ =>
        destruct (processNumericRange r c) as [[]| |]; simpl in * end; simplify_eq; simpl; auto;
      repeat case_match; simplify_eq; auto. }
  unfold direct. destruct m; try discriminate Hm; destruct d as [d|]; rewrite ?E1, ?E2, ?E3; try done;
    destruct (seqb d "src"), (seqb d "dst"); done.
Qed.

(** ** Facts about trees *)

(** The errors of a walk are those of the tree; a walk keeps the tree's shape. *)
Lemma visit_status f :
  (forall e, snd <$> visit_expr f e = expr_status e) /\ (forall s, snd <$> visit_stmt f s = stmt_status s).
Proof.
  apply tree_ind; simpl.
  - done.
  - intros l IH old. destruct (visit_stmt f l) as [[l' []]| |]; simpl in *; congruence.
  - intros l IHl c r IHr old. rewrite <- IHl. destruct (visit_stmt f l) as [[l' []]| |]; simpl; try done.
    rewrite <- IHr. by destruct (visit_expr f r) as [[r' []]| |].
  - intros n m old. unfold visit_directional. rewrite <- (directional_status_ok f _ (d_evs m)).
    by destruct (directional_eval f (d_match m) (d_evs m)) as [[]| |].
  - intros n m old. unfold visit_regular. rewrite <- (regular_status_ok f _ (r_ev m)).
    by destruct (regular_eval f (r_match m) (r_ev m)) as [[]| |].
  - intros n e IH old. rewrite <- IH. by destruct (visit_expr f e) as [[]| |].
  - done.
Qed.

Lemma visit_erase f :
  (forall e e' err, visit_expr f e = Ok (e', err) -> erase_expr e' = erase_expr e) /\
  (forall s s' err, visit_stmt f s = Ok (s', err) -> erase_stmt s' = erase_stmt s).
Proof.
  apply tree_ind; simpl.
  - by intros old e' err [= <- _].
  - intros l IH old e' err. destruct (visit_stmt f l) as [[l' er]| |]; simpl; try done.
    intros [= <- _]. simpl. f_equal. by eapply IH.
  - intros l IHl c r IHr old e' err. destruct (visit_stmt f l) as [[l' []]| |]; simpl; try done.
    + intros [= <- _]. simpl. f_equal. by eapply IHl.
    + destruct (visit_expr f r) as [[r' er]| |]; simpl; try done. intros [= <- _]. simpl.
      f_equal; [by eapply IHl | by eapply IHr].
  - intros n m old s' err. unfold visit_directional.
    destruct (directional_eval f (d_match m) (d_evs m)) as [[]| |]; simpl; try done. by intros [= <- _].
  - intros n m old s' err. unfold visit_regular.
    destruct (regular_eval f (r_match m) (r_ev m)) as [[]| |]; simpl; try done. by intros [= <- _].
  - intros n e IH old s' err. destruct (visit_expr f e) as [[]| |]; simpl; try done.
    intros [= <- _]. simpl. f_equal. by eapply IH.
  - intros n old s' err. by intros [= <- _].
Qed.

(** Meaning, errors and assignment depend on the erased tree only. *)
Lemma erase_sem f :
  (forall e, sem_expr f (erase_expr e) = sem_expr f e /\ expr_status (erase_expr e) = expr_status e /\
             assigns_expr f (erase_expr e) = assigns_expr f e) /\
  (forall s, sem_stmt f (erase_stmt s) = sem_stmt f s /\ stmt_status (erase_stmt s) = stmt_status s /\
             assigns_stmt f (erase_stmt s) = assigns_stmt f s).
Proof.
  apply tree_ind; simpl; auto.
  - intros l (-> & -> & ->) c r (-> & -> & ->) _. done.
  - intros n e (-> & -> & ->) _. done.
Qed.

Lemma same_shape f e1 e2 : erase_expr e1 = erase_expr e2 ->
  sem_expr f e1 = sem_expr f e2 /\ expr_status e1 = expr_status e2 /\ assigns_expr f e1 = assigns_expr f e2.
Proof.
  intros E. destruct (proj1 (erase_sem f) e1) as (<- & <- & <-).
  destruct (proj1 (erase_sem f) e2) as (<- & <- & <-). by rewrite E.
Qed.

(** A walk that assigns every node computes the meaning. *)
Lemma visit_sem f :
  (forall e e' err, assigns_expr f e = true -> expr_status e = Ok false ->
     visit_expr f e = Ok (e', err) -> err = false /\ expr_result e' = sem_expr f e) /\
  (forall s s' err, assigns_stmt f s = true -> stmt_status s = Ok false ->
     visit_stmt f s = Ok (s', err) -> err = false /\ stmt_result s' = sem_stmt f s).
Proof.
  apply tree_ind; simpl.
  - by intros old e' err _ _ [= <- <-].
  - intros l IH old e' err Ha Hs. destruct (visit_stmt f l) as [[l' er]| |]; simpl; try done.
    destruct (IH l' er Ha Hs eq_refl) as [-> E]. by intros [= <- <-].
  - intros l IHl c r IHr old e' err Ha Hs.
    apply andb_prop in Ha as [[Hc Hl]%andb_prop Hr].
    destruct (stmt_status l) as [[]| |] eqn:Sl; simpl in Hs; try done.
    destruct (visit_stmt f l) as [[l' er]| |]; simpl; try done.
    destruct (IHl l' er Hl eq_refl eq_refl) as [-> El].
    destruct (visit_expr f r) as [[r' er]| |]; simpl; try done.
    destruct (IHr r' er Hr Hs eq_refl) as [-> Er]. intros [= <- <-]. split; [done|]. simpl.
    unfold conjunction. rewrite El, Er. destruct (seqb c "and"); [done|]. simpl in Hc. by rewrite Hc.
  - intros n m old s' err Ha Hs. unfold visit_directional, fresh_directional.
    destruct (directional_eval f (d_match m) (d_evs m)) as [[e er]| |] eqn:E1; simpl; try done.
    destruct (directional_eval f (d_match m) no_evals) as [[e0 er0]| |] eqn:E0;
      [|pose proof (directional_status_ok f (d_match m) no_evals) as S; rewrite E0, Hs in S; done..].
    assert (er = false) as ->.
    { pose proof (directional_status_ok f (d_match m) (d_evs m)) as S. rewrite E1, Hs in S. simpl in S. congruence. }
    intros [= <- <-]. split; [done|]. simpl. f_equal.
    by apply (directional_assigns f _ _ (d_evs m) no_evals _ _ e false e0 er0).
  - intros n m old s' err Ha Hs. unfold visit_regular, fresh_regular.
    rewrite (regular_assigns f (r_match m) (r_ev m) false Ha).
    destruct (regular_eval f (r_match m) false) as [[b er]| |] eqn:E; simpl; try done.
    assert (er = false) as ->.
    { pose proof (regular_status_ok f (r_match m) false) as S. rewrite E, Hs in S. simpl in S. congruence. }
    intros [= <- <-]. split; [done|]. simpl. f_equal. by destruct (r_match m).
  - intros n e IH old s' err Ha Hs. destruct (visit_expr f e) as [[e' er]| |]; simpl; try done.
    destruct (IH e' er Ha Hs eq_refl) as [-> E]. intros [= <- <-]. simpl. by rewrite E.
  - done.
Qed.

Lemma sliceEq_spec a b : length a = length b -> sliceEq a b = true <-> (u32 <$> a) = b.
Proof.
  revert b. induction a as [|v a IH]; intros [|w b]; simpl; try done. intros [= Hl].
  case Z.eqb_spec; [intros <-|intros Hne].
  - rewrite (IH b Hl). split; [by intros <-|by intros [= <-]].
  - split; [done|by intros [= <- _]].
Qed.

(** The loop over the AS path finds a contiguous occurrence. *)
Lemma passes_loop_spec ns path : ns <> [] ->
  passes_loop ns path false = true <-> exists a b, path = a ++ (u32 <$> ns) ++ b.
Proof.
  intros Hne. induction path as [|v path IH]; cbn [passes_loop].
  - split; [done|]. intros (a & b & E). symmetry in E. apply app_eq_nil in E as [_ [E _]%app_eq_nil].
    by apply fmap_nil_inv in E.
  - case Nat.ltb_spec; intros Hl.
    + split; [done|]. intros (a & b & E). apply (f_equal length) in E.
      rewrite !length_app, length_fmap in E. simpl in *. lia.
    + destruct (sliceEq ns (take (length ns) (v :: path))) eqn:E.
      * apply sliceEq_spec in E; [|rewrite length_take; lia]. split; [intros _|done].
        exists [], (drop (length ns) (v :: path)). rewrite E. symmetry. apply take_drop.
      * rewrite IH. split.
        -- intros (a & b & ->). by exists (v :: a), b.
        -- intros ([|w a] & b & Ep); [|injection Ep as -> ->; by exists a, b]. exfalso.
           rewrite Ep, app_nil_l, take_app_length' in E by (by rewrite length_fmap).
           assert (sliceEq ns (u32 <$> ns) = true) as E2; [|congruence].
           apply sliceEq_spec; [|done]. symmetry. apply length_fmap.
Qed.

Lemma CheckFlow_total (e : Expression) (f : EnrichedFlow) :
  expr_status e = Ok false -> assigns_expr f e = true ->
  exists e', CheckFlow e f = Ok (e', sem_expr f e, false) /\ erase_expr e' = erase_expr e.
Proof.
  intros Hs Ha. unfold CheckFlow. pose proof (proj1 (visit_status f) e) as S. rewrite Hs in S.
  destruct (visit_expr f e) as [[e' err]| |] eqn:E; try done. simpl.
  destruct (proj1 (visit_sem f) e e' err Ha Hs E) as [-> <-].
  exists e'. split; [done|]. by eapply (proj1 (visit_erase f)).
Qed.

(** C13. [CheckFlow] computes the boolean meaning of the expression, whatever
    results earlier flows have left in the tree, on every flow on which all
    nodes are assigned; it keeps the expression. *)
Theorem CheckFlow_meaning (e : Expression) (f : EnrichedFlow) :
  expr_status e = Ok false -> assigns_expr f e = true ->
  exists e', CheckFlow e f = Ok (e', sem_expr f e, false) /\ erase_expr e' = erase_expr e.
Proof. apply CheckFlow_total. Qed.

Lemma New_inv Parse c s : New Parse c = Created s ->
  expr_status (expression s) = Ok false /\
  exists e, Parse (cfg c "filter") = Some e /\ erase_expr (expression s) = erase_expr e.
Proof.
  unfold New. destruct (Parse _) as [e|]; [|done]. unfold CheckFlow.
  pose proof (proj1 (visit_status emptyFlow) e) as S.
  destruct (visit_expr emptyFlow e) as [[e' []]| |] eqn:E; simpl in *; try done. intros [= <-]; simpl.
  pose proof (proj1 (visit_erase emptyFlow) _ _ _ E) as Her.
  split; [|by exists e]. destruct (same_shape emptyFlow _ _ Her) as (_ & -> & _). done.
Qed.

(** C22. The semantic check of [New] is sound: it walks the tree on an empty
    flow only, but once it has succeeded no flow and no stored result makes
    the walk fail or panic, so [Run] can ignore the error. *)
Theorem New_check_sound (Parse : string -> option Expression) (c : config) (s : FlowFilter)
    (e : Expression) (f : EnrichedFlow) :
  New Parse c = Created s -> erase_expr e = erase_expr (expression s) ->
  exists e' b, CheckFlow e f = Ok (e', b, false).
Proof.
  intros [Hs _]%New_inv He. destruct (same_shape f _ _ He) as (_ & Hse & _).
  pose proof (proj1 (visit_status f) e) as S. rewrite Hse, Hs in S. unfold CheckFlow.
  destruct (visit_expr f e) as [[e' err]| |]; simpl in S; try done.
  injection S as ->. by exists e', (expr_result e').
Qed.

Lemma seg_try_eq sub (s : FlowFilter) msg : seg_try sub s msg =
  ('(e, matched, _) ← CheckFlow (expression s) msg;
   Ok ({| Filter := Filter s; expression := e |}, if (matched : bool) then [EOut msg] else to_drops sub msg)).
Proof. reflexivity. Qed.

Lemma run_meaning sub s ms :
  expr_status (expression s) = Ok false -> Forall (fun m => assigns_expr m (expression s) = true) ms ->
  exists s', run_try sub s ms =
    (flat_map (fun m => if sem_expr m (expression s) then [EOut m] else to_drops sub m) ms, Ok s').
Proof.
  intros Hs Hms. assert (forall e0, erase_expr e0 = erase_expr (expression s) -> exists s',
    run_try sub {| Filter := Filter s; expression := e0 |} ms =
    (flat_map (fun m => if sem_expr m (expression s) then [EOut m] else to_drops sub m) ms, Ok s')) as H;
    [|destruct s as [t e]; by apply H].
  induction Hms as [|m ms Hm _ IH]; intros e0 He0; [by eexists|].
  destruct (same_shape m _ _ He0) as (Em & Es & Ea). rewrite Hs in Es. rewrite Hm in Ea.
  destruct (CheckFlow_total e0 m Es Ea) as (e1 & E & He1).
  cbn [run_try]. rewrite seg_try_eq. cbn [expression Filter]. rewrite E. simpl.
  destruct (IH e1) as [s' ->]; [congruence|]. exists s'. simpl. by rewrite Em.
Qed.

(** C21. A [flowfilter] segment is the filter its expression means: on any
    input on which all nodes are assigned it forwards exactly the matching
    flows, in order and unchanged, and hands exactly the others to the drop
    channel if there is one. *)
Theorem flowfilter_selects (Parse : string -> option Expression) (c : config) (s : FlowFilter)
    (sub : bool) (ms : list EnrichedFlow) :
  New Parse c = Created s -> Forall (fun m => assigns_expr m (expression s) = true) ms ->
  outs (run_try sub s ms).1 = List.filter (fun m => sem_expr m (expression s)) ms /\
  drops (run_try sub s ms).1
  = (if sub then List.filter (fun m => negb (sem_expr m (expression s))) ms else []).
Proof.
  intros [Hs _]%New_inv Hms. destruct (run_meaning sub s ms Hs Hms) as [s' ->]. cbn [fst].
  clear. induction ms as [|m ms IH]; simpl; [by destruct sub|].
  rewrite outs_app, drops_app. destruct IH as [-> ->].
  destruct (sem_expr m (expression s)), sub; done.
Qed.

(** Stale results: an AS path match is not reassigned for a flow whose AS
    path is shorter than the list.  After a matching flow, such a flow is
    forwarded too, although alone it is dropped. *)
Theorem passes_through_stale (ns : list Z) (f1 f2 : EnrichedFlow) :
  ns <> [] -> (exists a b, AsPath f1 = a ++ (u32 <$> ns) ++ b) -> (length (AsPath f2) < length ns)%nat ->
  let e := ESingle (SRegular None {| r_match := PassesThroughListMatch ns; r_ev := false;
                                     r_EvalResult := false |} false) false in
  let s := {| Filter := ""; expression := e |} in
  outs (run_try false s [f1; f2]).1 = [f1; f2] /\ outs (run_try false s [f2]).1 = [].
Proof.
  intros Hne H1 H2 e s. apply (passes_loop_spec ns (AsPath f1) Hne) in H1.
  assert (forall old, passes_loop ns (AsPath f2) old = old) as Hold.
  { intros old. destruct (AsPath f2); [done|]. cbn [passes_loop].
    by rewrite (proj2 (Nat.ltb_lt _ _)). }
  unfold s, e. unfold run_try, seg_try, FlowFilter_segment, CheckFlow. cbn.
  rewrite H1, (Hold false). cbn. by rewrite (Hold true).
Qed.

(** The bits-per-second match drops the error of its range: a filter with
    an inverted bps range passes the check of [New] and matches no flow, while
    the same range of packets per second is rejected. *)
Theorem bps_range_unchecked (r : NumericRange) (l u : Z) (f : EnrichedFlow) :
  Lower r = Some l -> Upper r = Some u -> u < l ->
  let tree m := ESingle (SRegular None {| r_match := m; r_ev := false; r_EvalResult := false |} false) false in
  expr_status (tree (BpsRangeMatch r)) = Ok false /\ sem_expr f (tree (BpsRangeMatch r)) = false /\
  expr_status (tree (PpsRangeMatch r)) = Ok true.
Proof.
  intros Hl Hu Hlt tree. unfold tree; simpl. unfold range_status. rewrite Hl, Hu; simpl.
  split_and!; [done| |f_equal; lia].
  unfold fresh_regular; simpl. rewrite (range_bounded r _ l u Hl Hu). simpl.
  destruct (Z.leb_spec l (u64 (Bytes f * 8) / rate_duration f)); simpl; [|done]. lia.
Qed.

(** ** Examples *)
Definition tcp_expr : Expression :=
  EBinary (SRegular None {| r_match := ProtoMatch (ByKey 6); r_ev := true; r_EvalResult := true |} true) "and"
    (ESingle (SDirectional (Some true) {| Direction := Some "dst"%string;
       d_match := PortRangeMatch {| Unary := None; Number := None; Lower := Some 1; Upper := Some 1023 |};
       d_evs := no_evals; d_EvalResult := false |} false) false) true.
Definition tcp_parse (s : string) : option Expression :=
  if seqb s "proto tcp and not dst port 1-1023" then Some tcp_expr else None.
Definition tcp_filter_config : config := {[ "filter"%string := "proto tcp and not dst port 1-1023"%string ]}.

Lemma tcp_created : exists s, New tcp_parse tcp_filter_config = Created s /\
  erase_expr (expression s) = erase_expr tcp_expr /\
  forall f, assigns_expr f (expression s) = true.
Proof. eexists. split; [reflexivity|]. split; reflexivity. Defined.

Lemma CheckFlow_meaning_witness :
  exists e', CheckFlow tcp_expr emptyFlow = Ok (e', false, false) /\ erase_expr e' = erase_expr tcp_expr.
Proof. by apply (CheckFlow_meaning tcp_expr emptyFlow). Defined.
Lemma New_check_sound_witness :
  exists e' b, CheckFlow tcp_expr (set_Proto 6 (set_DstPort 443 emptyFlow)) = Ok (e', b, false).
Proof.
  destruct tcp_created as (s & Hs & He & _).
  by apply (New_check_sound tcp_parse tcp_filter_config s tcp_expr (set_Proto 6 (set_DstPort 443 emptyFlow)) Hs).
Defined.
Lemma flowfilter_selects_witness :
  exists s, New tcp_parse tcp_filter_config = Created s /\
  outs (run_try true s [set_Proto 6 (set_DstPort 8080 emptyFlow); emptyFlow]).1
  = List.filter (fun m => sem_expr m (expression s)) [set_Proto 6 (set_DstPort 8080 emptyFlow); emptyFlow].
Proof.
  destruct tcp_created as (s & Hs & _ & Ha). exists s. split; [done|].
  apply (flowfilter_selects tcp_parse tcp_filter_config s true
    [set_Proto 6 (set_DstPort 8080 emptyFlow); emptyFlow] Hs). repeat constructor; apply Ha.
Defined.
Lemma passes_through_stale_witness :
  let e := ESingle (SRegular None {| r_match := PassesThroughListMatch [553]; r_ev := false;
                                     r_EvalResult := false |} false) false in
  let s := {| Filter := ""; expression := e |} in
  outs (run_try false s [set_AsPath [1; 553] emptyFlow; emptyFlow]).1 = [set_AsPath [1; 553] emptyFlow; emptyFlow]
  /\ outs (run_try false s [emptyFlow]).1 = [].
Proof.
  apply (passes_through_stale [553] (set_AsPath [1; 553] emptyFlow) emptyFlow); [done| |simpl; lia].
  by exists [1], [].
Defined.
Lemma bps_range_unchecked_witness :
  let r := {| Unary := None; Number := None; Lower := Some 10; Upper := Some 5 |} in
  let tree m := ESingle (SRegular None {| r_match := m; r_ev := false; r_EvalResult := false |} false) false in
  expr_status (tree (BpsRangeMatch r)) = Ok false /\ sem_expr emptyFlow (tree (BpsRangeMatch r)) = false /\
  expr_status (tree (PpsRangeMatch r)) = Ok true.
Proof.
  by apply (bps_range_unchecked {| Unary := None; Number := None; Lower := Some 10; Upper := Some 5 |} 10 5).
Defined.
