(* ===== verification/FlowCache.v ===== *)
(** * Flow caches ([segments/filter/aggregate/flowcache.go],
    [segments/input/bpf/flow_exporter.go])

    Both files implement the same cache: packets are collected per flow key,
    and a record leaves the cache when a TCP FIN is seen or when one of two
    timers finds it too old.  The cache is developed once against the class
    [CachedPacket], which says what it needs from a packet; [Bpf] and
    [Aggregate] at the end are its two instances.

    Times are nanoseconds since the epoch.  A timer visits the map in an
    arbitrary order, which is an argument of the tick. *)

From stdpp Require Import prelude strings list gmap fin_maps.
From Stdlib Require Import ZArith Lia Ascii.
From S2P Require Import Prelude GoStd GoParse EnrichedFlow FlowMethods Segment.

(** [string(b)] for a byte slice. *)
Definition bytes_string (b : list Z) : string :=
  String.string_of_list_ascii ((fun x => ascii_of_nat (Z.to_nat x)) <$> b).

Record FlowKey := mkFlowKey {
  K_SrcAddr : string; K_DstAddr : string; K_SrcPort : Z; K_DstPort : Z; K_Proto : Z; K_IPTos : Z; K_InIface : Z }.
#[export] Instance FlowKey_eq_dec : EqDecision FlowKey.
Proof. solve_decision. Defined.
#[export] Instance FlowKey_countable : Countable FlowKey.
Proof.
  apply (inj_countable'
    (fun k => (K_SrcAddr k, K_DstAddr k, K_SrcPort k, K_DstPort k, K_Proto k, K_IPTos k, K_InIface k))
    (fun '(a, b, c, d, e, f, g) => mkFlowKey a b c d e f g)).
  by intros [].
Defined.

(** What the cache needs from a packet; [packet_time] is the time recorded on
    insertion, given the current time. *)
Class CachedPacket (P : Type) : Type := {
  NewFlowKey : P -> FlowKey;
  packet_time : Z -> P -> Z;
  has_fin : P -> bool;
}.
#[global] Hint Mode CachedPacket ! : typeclass_instances.

Record FlowRecord (P : Type) := mkFlowRecord {
  TimeReceived : Z; LastUpdated : Z; SamplerAddress : net.IP; Packets : list P }.
Arguments mkFlowRecord {P}.
Arguments TimeReceived {P}.
Arguments LastUpdated {P}.
Arguments SamplerAddress {P}.
Arguments Packets {P}.

Record FlowExporter (P : Type) := mkFlowExporter {
  activeTimeout : Z; inactiveTimeout : Z; samplerAddress : net.IP; cache : gmap FlowKey (FlowRecord P) }.
Arguments mkFlowExporter {P}.
Arguments activeTimeout {P}.
Arguments inactiveTimeout {P}.
Arguments samplerAddress {P}.
Arguments cache {P}.

Definition NewFlowExporter {P} `{f64.Platform} (activeTimeout inactiveTimeout : string) : option (FlowExporter P) :=
  a ← time.ParseDuration activeTimeout;
  i ← time.ParseDuration inactiveTimeout;
  Some {| activeTimeout := a; inactiveTimeout := i; samplerAddress := None; cache := ∅ |}.

(** [Start]; [time.NewTicker] panics unless its period is positive. *)
Definition Start {P} (sampler : net.IP) (f : FlowExporter P) : result (FlowExporter P) :=
  if (0 <? activeTimeout f) && (0 <? inactiveTimeout f)
  then Ok {| activeTimeout := activeTimeout f; inactiveTimeout := inactiveTimeout f;
             samplerAddress := sampler; cache := cache f |}
  else Panic.

Section cache.
Context {P : Type} `{CachedPacket P}.
Implicit Types (f : FlowExporter P) (r : FlowRecord P).

Definition with_cache (c : gmap FlowKey (FlowRecord P)) (f : FlowExporter P) : FlowExporter P :=
  {| activeTimeout := activeTimeout f; inactiveTimeout := inactiveTimeout f;
     samplerAddress := samplerAddress f; cache := c |}.

(** [export]: the record leaves the cache and is sent. *)
Definition export (key : FlowKey) (r : FlowRecord P) (f : FlowExporter P)
    : FlowExporter P * list (FlowRecord P) :=
  (with_cache (delete key (cache f)) f, [r]).

(** The record a packet is added to: the cached one, or a new one. *)
Definition record_for (now : Z) (pkt : P) (f : FlowExporter P) : FlowRecord P :=
  default {| TimeReceived := packet_time now pkt; LastUpdated := 0; SamplerAddress := None; Packets := [] |}
    (cache f !! NewFlowKey pkt).
Definition updated (now : Z) (pkt : P) (f : FlowExporter P) : FlowRecord P :=
  let r := record_for now pkt f in
  {| TimeReceived := TimeReceived r; LastUpdated := packet_time now pkt;
     SamplerAddress := samplerAddress f; Packets := Packets r ++ [pkt] |}.

Definition Insert (now : Z) (pkt : P) (f : FlowExporter P) : FlowExporter P * list (FlowRecord P) :=
  let key := NewFlowKey pkt in
  let record := updated now pkt f in
  let f := with_cache (<[key := record]> (cache f)) f in
  if has_fin pkt then export key record f else (f, []).

(** The bodies of the two ticker loops over [f.cache]. *)
Inductive ticker : Type := Inactive | Active.
Definition expired (t : ticker) (now : Z) (f : FlowExporter P) (r : FlowRecord P) : bool :=
  match t with
  | Inactive => inactiveTimeout f <? now - LastUpdated r
  | Active => activeTimeout f <? now - TimeReceived r
  end.
Fixpoint tick (t : ticker) (now : Z) (order : list FlowKey) (f : FlowExporter P)
    : FlowExporter P * list (FlowRecord P) :=
  match order with
  | [] => (f, [])
  | key :: order =>
      match cache f !! key with
      | None => tick t now order f
      | Some record =>
          if expired t now f record then
            let '(f, sent) := export key record f in
            let '(f, sent') := tick t now order f in (f, sent ++ sent')
          else tick t now order f
      end
  end.

(** The mutex makes insertions and ticks atomic: a run is a sequence of them. *)
Inductive event : Type :=
  | Inserted (now : Z) (pkt : P)
  | Ticked (t : ticker) (now : Z) (order : list FlowKey).
Definition step (f : FlowExporter P) (e : event) : FlowExporter P * list (FlowRecord P) :=
  match e with
  | Inserted now pkt => Insert now pkt f
  | Ticked t now order => tick t now order f
  end.
Fixpoint run (f : FlowExporter P) (es : list event) : FlowExporter P * list (FlowRecord P) :=
  match es with
  | [] => (f, [])
  | e :: es =>
      let '(f, sent) := step f e in
      let '(f, sent') := run f es in (f, sent ++ sent')
  end.
Definition inserted (es : list event) : list P :=
  omap (fun e => match e with Inserted _ pkt => Some pkt | Ticked _ _ _ => None end) es.

(** ** Facts *)
Definition packets_of (rs : list (FlowRecord P)) : list P := rs ≫= Packets.
Definition map_packets (c : gmap FlowKey (FlowRecord P)) : list P := packets_of (snd <$> map_to_list c).
Definition cached (f : FlowExporter P) : list P := map_packets (cache f).

(** Every record holds packets of its key only, and at least one. *)
Definition keyed (key : FlowKey) (r : FlowRecord P) : Prop :=
  Packets r <> [] /\ Forall (fun p => NewFlowKey p = key) (Packets r).
Definition invariant (f : FlowExporter P) : Prop := map_Forall keyed (cache f).

#[local] Instance packets_of_proper : Proper ((≡ₚ) ==> (≡ₚ)) packets_of.
Proof.
  intros l l' Hl. unfold packets_of. induction Hl as [|r l l' _ IH|r s l|l l' l'' _ IH1 _ IH2]; simpl.
  - done.
  - by rewrite IH.
  - rewrite !app_assoc. by rewrite (Permutation_app_comm (Packets r)).
  - by rewrite IH1.
Qed.

Lemma packets_of_app rs rs' : packets_of (rs ++ rs') = packets_of rs ++ packets_of rs'.
Proof. apply bind_app. Qed.

Lemma map_packets_insert c key r : c !! key = None ->
  map_packets (<[key := r]> c) ≡ₚ Packets r ++ map_packets c.
Proof. intros Hk. unfold map_packets. by rewrite map_to_list_insert. Qed.

Lemma map_packets_delete c key r : c !! key = Some r ->
  map_packets c ≡ₚ Packets r ++ map_packets (delete key c).
Proof.
  intros Hk. rewrite <- (insert_delete_id c key r Hk) at 1.
  by rewrite map_packets_insert by apply lookup_delete_eq.
Qed.

Lemma Insert_cached now pkt f :
  map_packets (<[NewFlowKey pkt := updated now pkt f]> (cache f)) ≡ₚ pkt :: cached f.
Proof.
  unfold updated, record_for. destruct (cache f !! NewFlowKey pkt) as [r|] eqn:E.
  - unfold cached. rewrite (map_packets_delete (cache f) _ r E), <- (insert_delete_eq (cache f)).
    rewrite map_packets_insert by apply lookup_delete_eq. simpl. rewrite <- app_assoc. simpl.
    by rewrite Permutation_middle.
  - by rewrite map_packets_insert.
Qed.

Lemma keyed_updated now pkt f : invariant f -> keyed (NewFlowKey pkt) (updated now pkt f).
Proof.
  intros Hi. unfold updated, record_for. split; simpl; [by intros []%app_eq_nil|].
  apply Forall_app. split; [|by repeat constructor].
  destruct (cache f !! NewFlowKey pkt) as [r|] eqn:E; simpl; [|constructor]. apply (Hi _ _ E).
Qed.

(** What a step adds is what it sends and what it keeps. *)
Definition accounts (f f' : FlowExporter P) (new : list P) (sent : list (FlowRecord P)) : Prop :=
  invariant f' /\ Forall (fun r => exists key, keyed key r) sent /\
  packets_of sent ++ cached f' ≡ₚ new ++ cached f.

Lemma Insert_accounts now pkt f : invariant f ->
  accounts f (Insert now pkt f).1 [pkt] (Insert now pkt f).2.
Proof.
  intros Hi. pose proof (keyed_updated now pkt f Hi) as Hk. unfold Insert.
  assert (invariant (with_cache (<[NewFlowKey pkt := updated now pkt f]> (cache f)) f)) as Hi'
    by (by apply map_Forall_insert_2).
  destruct (has_fin pkt); simpl.
  - split_and!; [by apply map_Forall_delete|by repeat constructor; eexists|].
    simpl. rewrite app_nil_r, <- (Insert_cached now). symmetry.
    apply (map_packets_delete _ (NewFlowKey pkt) (updated now pkt f)), lookup_insert_eq.
  - split_and!; [done|constructor|]. apply Insert_cached.
Qed.

Lemma accounts_compose f1 f2 f3 n1 n2 s1 s2 :
  accounts f1 f2 n1 s1 -> accounts f2 f3 n2 s2 -> accounts f1 f3 (n1 ++ n2) (s1 ++ s2).
Proof.
  intros (_ & Hs1 & H1) (Hi & Hs2 & H2). split_and!; [done|by apply Forall_app|].
  rewrite packets_of_app, <- app_assoc, H2, app_assoc, (Permutation_app_comm (packets_of s1)), <- app_assoc, H1.
  rewrite !app_assoc. by rewrite (Permutation_app_comm n2).
Qed.

Lemma tick_accounts t now order f : invariant f ->
  accounts f (tick t now order f).1 [] (tick t now order f).2.
Proof.
  revert f. induction order as [|key order IH]; intros f Hi; simpl; [done|].
  destruct (cache f !! key) as [r|] eqn:E; [|by apply IH].
  destruct (expired t now f r); [|by apply IH]. simpl.
  assert (accounts f (with_cache (delete key (cache f)) f) [] [r]) as H1.
  { split_and!; [by apply map_Forall_delete| |].
    - constructor; [|constructor]. exists key. apply (Hi _ _ E).
    - simpl. rewrite app_nil_r. symmetry. by apply map_packets_delete. }
  pose proof (IH _ (proj1 H1)) as H2. destruct (tick t now order _) as [f' sent] eqn:Et.
  simpl in *. exact (accounts_compose _ _ _ _ _ _ _ H1 H2).
Qed.

Lemma run_accounts es f : invariant f -> accounts f (run f es).1 (inserted es) (run f es).2.
Proof.
  revert f. induction es as [|e es IH]; intros f Hi; simpl; [done|].
  assert (accounts f (step f e).1 (inserted [e]) (step f e).2) as H1.
  { destruct e as [now pkt|t now order]; simpl; [by apply Insert_accounts|by apply tick_accounts]. }
  pose proof (IH _ (proj1 H1)) as H2. destruct (step f e) as [f1 s1]. simpl in *.
  destruct (run f1 es) as [f2 s2]. simpl in *.
  pose proof (accounts_compose _ _ _ _ _ _ _ H1 H2) as H3. by destruct e.
Qed.
(** A tick over all keys keeps exactly the records that are not expired. *)
Lemma tick_cache t now order f key :
  cache (tick t now order f).1 !! key =
  match cache f !! key with
  | Some r => if decide (key ∈ order) then (if expired t now f r then None else Some r) else Some r
  | None => None
  end.
Proof.
  revert f. induction order as [|k order IH]; intros f; cbn [tick].
  { cbn [fst]. destruct (cache f !! key); [|done]. by rewrite decide_False by apply not_elem_of_nil. }
  destruct (cache f !! k) as [r|] eqn:E.
  - destruct (expired t now f r) eqn:Ee.
    + unfold export. destruct (tick t now order (with_cache (delete k (cache f)) f)) as [f' s] eqn:Et.
      cbn [fst]. pose proof (IH (with_cache (delete k (cache f)) f)) as IH'. rewrite Et in IH'. cbn [fst] in IH'.
      rewrite IH'. cbn [cache with_cache]. destruct (decide (key = k)) as [->|Hne].
      * rewrite lookup_delete_eq, E. rewrite decide_True by (by left). by rewrite Ee.
      * rewrite lookup_delete_ne by done. destruct (cache f !! key) as [r'|]; [|done].
        rewrite (decide_ext (key ∈ k :: order) (key ∈ order)); [by destruct t|].
        rewrite elem_of_cons. split; [intros []; done|by right].
    + rewrite IH. destruct (decide (key = k)) as [->|Hne].
      * rewrite E, Ee. by repeat case_decide.
      * destruct (cache f !! key) as [r'|]; [|done].
        rewrite (decide_ext (key ∈ k :: order) (key ∈ order)); [done|].
        rewrite elem_of_cons. split; [intros []; done|by right].
  - rewrite IH. destruct (decide (key = k)) as [->|Hne]; [by rewrite E|].
    destruct (cache f !! key) as [r'|]; [|done].
    rewrite (decide_ext (key ∈ k :: order) (key ∈ order)); [done|].
    rewrite elem_of_cons. split; [intros []; done|by right].
Qed.

(** C31. Packets are neither lost nor duplicated by the cache: after any
    sequence of insertions and timer ticks, in any iteration order, the
    packets inserted are, as a multiset, those of the records sent and those
    still cached, and every record sent holds packets of a single key. *)
Theorem cache_conserves_packets (f : FlowExporter P) (es : list event) :
  cache f = ∅ ->
  packets_of (run f es).2 ++ cached (run f es).1 ≡ₚ inserted es /\
  Forall (fun r => exists key, keyed key r) (run f es).2.
Proof.
  intros Hf. assert (invariant f) as Hi by (unfold invariant; rewrite Hf; apply map_Forall_empty).
  destruct (run_accounts es f Hi) as (_ & Hs & Hp). split; [|done].
  rewrite Hp. unfold cached, map_packets. rewrite Hf, map_to_list_empty. simpl. by rewrite app_nil_r.
Qed.

(** A timer tick leaves exactly the records that are not expired,
    unchanged, whatever the order in which the map is visited. *)
Theorem tick_keeps_fresh (f : FlowExporter P) (t : ticker) (now : Z) (order : list FlowKey) (key : FlowKey) :
  (forall k, is_Some (cache f !! k) -> k ∈ order) ->
  cache (tick t now order f).1 !! key = (r ← cache f !! key; if expired t now f r then None else Some r).
Proof.
  intros Ho. rewrite tick_cache. destruct (cache f !! key) as [r|] eqn:E; [|done].
  simpl. by rewrite decide_True by (apply Ho; by eexists).
Qed.

(** A packet with the FIN flag ends its record: the record is sent at once
    with that packet as its last one, and the cache no longer has its key. *)
Theorem fin_exports (f : FlowExporter P) (now : Z) (pkt : P) :
  has_fin pkt = true ->
  exists r, (Insert now pkt f).2 = [r] /\ last (Packets r) = Some pkt /\
    LastUpdated r = packet_time now pkt /\ cache (Insert now pkt f).1 !! NewFlowKey pkt = None.
Proof.
  intros Hfin. unfold Insert. rewrite Hfin. exists (updated now pkt f). simpl.
  rewrite lookup_delete_eq, last_snoc. done.
Qed.
End cache.

(** ** bpf: packets decoded from the kernel's records *)
Module Bpf.
Record Packet := mkPacket {
  SrcAddr : net.IP; DstAddr : net.IP; InIf : Z; OutIf : Z; Bytes : Z; Etype : Z; Proto : Z;
  Ipv6FlowLabel : Z; SrcPort : Z; DstPort : Z; IPTtl : Z; IPTos : Z; IcmpType : Z; IcmpCode : Z;
  TcpFlags : Z; FlowDirection : Z; RemoteAddr : Z }.
Definition zero_packet : Packet := mkPacket None None 0 0 0 0 0 0 0 0 0 0 0 0 0 0 0.

#[global] Instance Packet_cached : CachedPacket Packet := {|
  NewFlowKey := fun pkt => {|
    K_SrcAddr := bytes_string (contents (net.To16 (SrcAddr pkt)));
    K_DstAddr := bytes_string (contents (net.To16 (DstAddr pkt)));
    K_SrcPort := SrcPort pkt; K_DstPort := DstPort pkt; K_Proto := Proto pkt;
    K_IPTos := IPTos pkt; K_InIface := InIf pkt |};
  packet_time := fun now _ => now;
  has_fin := fun pkt => Z.land (TcpFlags pkt) 1 =? 1;
|}.

(** The assignments for the first packet. *)
Definition first_packet (pkt : Packet) (msg : EnrichedFlow) : EnrichedFlow :=
  let msg := set_SrcPort (SrcPort pkt) (set_DstAddr (DstAddr pkt) (set_SrcAddr (SrcAddr pkt) msg)) in
  let msg := set_IpTos (IPTos pkt) (set_Proto (Proto pkt) (set_DstPort (DstPort pkt) msg)) in
  let msg := set_OutIf (OutIf pkt) (set_InIf (InIf pkt) msg) in
  let msg := set_RemoteAddr (RemoteAddr pkt) (set_FlowDirection (FlowDirection pkt) msg) in
  let msg := set_Ipv6FlowLabel (Ipv6FlowLabel pkt) (set_Etype (Etype pkt) msg) in
  set_IcmpCode (IcmpCode pkt) (set_IcmpType (IcmpType pkt) (set_IpTtl (IPTtl pkt) msg)).
(** The accumulation for every packet. *)
Definition add_packet (msg : EnrichedFlow) (pkt : Packet) : EnrichedFlow :=
  let msg := set_TcpFlags (Z.lor (EnrichedFlow.TcpFlags msg) (TcpFlags pkt)) msg in
  let msg := set_Bytes (u64 (EnrichedFlow.Bytes msg + Bytes pkt)) msg in
  set_Packets (u64 (EnrichedFlow.Packets msg + 1)) msg.
Definition BuildFlow (f : FlowRecord Packet) : EnrichedFlow :=
  let msg := set_Type EnrichedFlow_EBPF emptyFlow in
  let msg := EnrichedFlow.set_SamplerAddress (SamplerAddress f) msg in
  let msg := set_TimeFlowStart (u64 (TimeReceived f)) (set_TimeReceived (u64 (TimeReceived f)) msg) in
  let msg := set_TimeFlowEnd (u64 (LastUpdated f)) msg in
  let msg := match Packets f with pkt :: _ => first_packet pkt msg | [] => msg end in
  fold_left add_packet (Packets f) msg.

(** [ConsumeFrom] inserts what it receives before it looks at [ok]: when the
    channel is closed it inserts the zero packet once. *)
Definition ConsumeFrom (pkts : list (Z * Packet)) (closed_at : option Z) (f : FlowExporter Packet)
    : FlowExporter Packet * list (FlowRecord Packet) :=
  run f (map (fun p => Inserted p.1 p.2) pkts ++
         match closed_at with Some now => [Inserted now zero_packet] | None => [] end).

(** [segments/input/bpf/bpf.go] *)
Record Bpf := mkBpf {
  Device : string; BufferSize : Z; ActiveTimeout : string; InactiveTimeout : string;
  exporter : FlowExporter Packet }.

Section New.
Context {Pl : f64.Platform}.

(** The two timeouts; a valid inactivetimeout is stored in ActiveTimeout. *)
Definition timeouts (c : config) : string * string :=
  let active := match time.ParseDuration (cfg c "activetimeout") with
                | None => "30m"%string | Some _ => cfg c "activetimeout" end in
  match time.ParseDuration (cfg c "inactivetimeout") with
  | None => (active, "15s"%string)
  | Some _ => (cfg c "inactivetimeout", ""%string)
  end.

(** [setup]: whether the kernel side could be set up on the device. *)
Definition New (setup : string -> Z -> bool) (c : config) : created Bpf :=
  match c !! "device"%string with
  | None => NilSegment
  | Some device =>
      size ← (if is_empty (cfg c "buffersize") then Created 65536
              else match strconv.ParseInt 32 (cfg c "buffersize") with
                   | Some n => if n <=? 0 then NilSegment else Created n
                   | None => Created 65536
                   end);
      if negb (setup device size) then NilSegment
      else match NewFlowExporter (timeouts c).1 (timeouts c).2 with
           | None => NilSegment
           | Some e => Created {| Device := device; BufferSize := size; ActiveTimeout := (timeouts c).1;
                                  InactiveTimeout := (timeouts c).2; exporter := e |}
           end
  end.
End New.
End Bpf.

(** ** Packets captured with gopacket *)
Module Aggregate.
(** The layers the program looks at, with the fields it reads; the package
    [gopacket] decodes them. *)
Inductive layer : Type :=
  | LayerTypeEthernet (EthernetType : Z) (SrcMAC DstMAC : list Z)
  | LayerTypeIPv4 (SrcIP DstIP : net.IP) (Protocol TOS TTL : Z)
  | LayerTypeIPv6 (SrcIP DstIP : net.IP) (NextHeader TrafficClass HopLimit FlowLabel : Z)
  | LayerTypeTCP (SrcPort DstPort : Z) (URG ACK PSH RST SYN FIN : bool)
  | LayerTypeUDP (SrcPort DstPort : Z)
  | LayerTypeICMPv4 (Type_ Code : Z)
  | LayerTypeICMPv6 (Type_ Code : Z)
  | OtherLayer.
Record Packet := mkPacket { InterfaceIndex : Z; Timestamp : Z; Length : Z; Layers : list layer }.

Definition empty_key : FlowKey := mkFlowKey "" "" 0 0 0 0 0.
Definition key_layer (k : FlowKey) (l : layer) : FlowKey :=
  let ports s d := mkFlowKey (K_SrcAddr k) (K_DstAddr k) (u16 s) (u16 d) (K_Proto k) (K_IPTos k) (K_InIface k) in
  match l with
  | LayerTypeIPv4 src dst proto tos _ =>
      mkFlowKey (bytes_string (contents (net.To16 src))) (bytes_string (contents (net.To16 dst)))
        (K_SrcPort k) (K_DstPort k) (u32 proto) tos (K_InIface k)
  | LayerTypeIPv6 src dst next tc _ _ =>
      mkFlowKey (bytes_string (contents src)) (bytes_string (contents dst))
        (K_SrcPort k) (K_DstPort k) (u32 next) tc (K_InIface k)
  | LayerTypeTCP s d _ _ _ _ _ _ => ports s d
  | LayerTypeUDP s d => ports s d
  | _ => k
  end.
(** [packet.Layer(LayerTypeTCP)] is the first TCP layer. *)
Fixpoint tcp_fin (ls : list layer) : bool :=
  match ls with
  | [] => false
  | LayerTypeTCP _ _ _ _ _ _ _ fin :: _ => fin
  | _ :: ls => tcp_fin ls
  end.
#[global] Instance Packet_cached : CachedPacket Packet := {|
  NewFlowKey := fun packet =>
    fold_left key_layer (Layers packet) (mkFlowKey "" "" 0 0 0 0 (u32 (InterfaceIndex packet)));
  packet_time := fun _ packet => Timestamp packet;
  has_fin := fun packet => tcp_fin (Layers packet);
|}.

(** [NewFlowExporter], [export] and [Insert] of this package, which has a copy of
    the cache: the record is entered empty and updated in place. *)
Definition NewFlowExporter `{f64.Platform} (activeTimeout inactiveTimeout : string) : result (FlowExporter Packet) :=
  match time.ParseDuration activeTimeout with
  | None => Err "[error] active timeout misconfigured"
  | Some activeTimeoutDuration =>
      match time.ParseDuration inactiveTimeout with
      | None => Err "[error] inactive timeout misconfigured"
      | Some inactiveTimeoutDuration => Ok (mkFlowExporter activeTimeoutDuration inactiveTimeoutDuration None ∅)
      end
  end.
Definition export (key : FlowKey) (f : FlowExporter Packet) : result (FlowExporter Packet * list (FlowRecord Packet)) :=
  match cache f !! key with
  | Some flowRecord => Ok (with_cache (delete key (cache f)) f, [flowRecord])
  | None => Panic
  end.
Definition Insert (pkt : Packet) (f : FlowExporter Packet) : result (FlowExporter Packet * list (FlowRecord Packet)) :=
  let key := NewFlowKey pkt in
  let cache := match cache f !! key with
               | Some _ => cache f
               | None => <[key := mkFlowRecord (Timestamp pkt) 0 None []]> (cache f)
               end in
  let cache := alter (fun record => mkFlowRecord (TimeReceived record) (Timestamp pkt) (samplerAddress f) (Packets record ++ [pkt])) key cache in
  let f := with_cache cache f in
  if tcp_fin (Layers pkt) then export key f else Ok (f, []).

(** The copy is the cache of [FlowCache.Insert]. *)
Lemma Insert_shared (now : Z) (pkt : Packet) (f : FlowExporter Packet) : Insert pkt f = Ok (FlowCache.Insert now pkt f).
Proof.
  unfold Insert, FlowCache.Insert, updated, record_for, export, FlowCache.export. cbn [has_fin packet_time Packet_cached].
  assert (forall (c : gmap FlowKey (FlowRecord Packet)) r, c !! NewFlowKey pkt = Some r -> alter (fun record => mkFlowRecord (TimeReceived record) (Timestamp pkt) (samplerAddress f) (Packets record ++ [pkt]))
    (NewFlowKey pkt) c = <[NewFlowKey pkt := mkFlowRecord (TimeReceived r) (Timestamp pkt) (samplerAddress f) (Packets r ++ [pkt])]> c) as Ha.
  { intros c r Hc. apply map_eq. intros k. destruct (decide (k = NewFlowKey pkt)) as [->|Hk].
    - by rewrite lookup_alter_eq, lookup_insert_eq, Hc.
    - by rewrite lookup_alter_ne, lookup_insert_ne. }
  destruct (cache f !! NewFlowKey pkt) as [r|] eqn:E; cbn [default].
  - rewrite (Ha _ _ E). destruct (tcp_fin (Layers pkt)); [|done]. cbn [cache with_cache]. by rewrite lookup_insert_eq.
  - rewrite (Ha _ (mkFlowRecord (Timestamp pkt) 0 None [])) by apply lookup_insert_eq. rewrite insert_insert_eq.
    destruct (tcp_fin (Layers pkt)); [|done]. cbn [cache with_cache]. by rewrite lookup_insert_eq.
Qed.
Lemma NewFlowExporter_shared `{f64.Platform} (a i : string) :
  NewFlowExporter a i = match FlowCache.NewFlowExporter a i with
                        | Some f => Ok f
                        | None => Err (match time.ParseDuration a with
                                     | Some _ => "[error] inactive timeout misconfigured"
                                     | None => "[error] active timeout misconfigured"
                                     end)
                        end.
Proof.
  unfold NewFlowExporter, FlowCache.NewFlowExporter. destruct (time.ParseDuration a); [|done].
  cbn [mbind option_bind]. by destruct (time.ParseDuration i).
Qed.

(** No statement assigns a record's HardwareAddress. *)
Definition HardwareAddress : list Z := [].
Definition flag (b : bool) (bit : Z) (msg : EnrichedFlow) : EnrichedFlow :=
  if b then set_TcpFlags (Z.lor (TcpFlags msg) bit) msg else msg.
Definition build_layer (msg : EnrichedFlow) (l : layer) : EnrichedFlow :=
  match l with
  | LayerTypeEthernet ety src dst =>
      let msg := set_Etype (u32 ety) msg in
      let msg := if bool_decide (src = HardwareAddress)
                 then set_RemoteAddr 2 (set_FlowDirection 1 msg) else msg in
      if bool_decide (dst = HardwareAddress) then set_RemoteAddr 1 (set_FlowDirection 0 msg) else msg
  | LayerTypeIPv4 src dst proto tos ttl =>
      set_IpTtl (u32 ttl) (set_IpTos (u32 tos) (set_Proto (u32 proto) (set_DstAddr dst (set_SrcAddr src msg))))
  | LayerTypeIPv6 src dst next tc hop label =>
      set_Ipv6FlowLabel label (set_IpTtl (u32 hop) (set_IpTos (u32 tc)
        (set_Proto (u32 next) (set_DstAddr dst (set_SrcAddr src msg)))))
  | LayerTypeTCP s d urg ack psh rst syn fin =>
      let msg := set_DstPort (u32 d) (set_SrcPort (u32 s) msg) in
      flag fin 1 (flag syn 2 (flag rst 4 (flag psh 8 (flag ack 16 (flag urg 32 msg)))))
  | LayerTypeUDP s d => set_DstPort (u32 d) (set_SrcPort (u32 s) msg)
  | LayerTypeICMPv4 t c | LayerTypeICMPv6 t c => set_IcmpCode (u32 c) (set_IcmpType (u32 t) msg)
  | OtherLayer => msg
  end.
Definition first_packet (pkt : Packet) (msg : EnrichedFlow) : EnrichedFlow :=
  fold_left build_layer (Layers pkt) (set_InIf (u32 (InterfaceIndex pkt)) msg).
Definition add_packet (msg : EnrichedFlow) (pkt : Packet) : EnrichedFlow :=
  let msg := set_Bytes (u64 (Bytes msg + u64 (Length pkt))) msg in
  set_Packets (u64 (EnrichedFlow.Packets msg + 1)) msg.
Section BuildFlow.
(** [proto.Merge(msg, flow)]. *)
Context (Merge : EnrichedFlow -> EnrichedFlow -> EnrichedFlow).
(** [BuildFlow]; [flows] is the record's field Flows, which is empty in the
    records of [Insert]. *)
Definition BuildFlow (f : FlowRecord Packet) (flows : list EnrichedFlow) : EnrichedFlow :=
  let msg := set_Type EnrichedFlow_EBPF emptyFlow in
  let msg := EnrichedFlow.set_SamplerAddress (SamplerAddress f) msg in
  let msg := set_TimeFlowStart (u64 (TimeReceived f)) (set_TimeReceived (u64 (TimeReceived f)) msg) in
  let msg := set_TimeFlowEnd (u64 (LastUpdated f)) msg in
  let msg := match Packets f with pkt :: _ => first_packet pkt msg | [] => msg end in
  fold_left Merge flows (fold_left add_packet (Packets f) msg).
End BuildFlow.

(** *** [InsertFlow] and the [aggregate] segment *)

(** A *sync.RWMutex: the nil pointer, or a mutex. *)
Inductive mutex : Type := NilMutex | Unlocked | Locked.
(** A statement completes, waits forever, or panics. *)
Inductive outcome (A : Type) : Type := Completes (a : A) | Blocks | Panics.
Arguments Completes {A} a.
Arguments Blocks {A}.
Arguments Panics {A}.
Definition Lock (m : mutex) : outcome mutex :=
  match m with NilMutex => Panics | Unlocked => Completes Locked | Locked => Blocks end.

Definition key_of_flow (flow : EnrichedFlow) : FlowKey :=
  mkFlowKey (net.String (pb.SrcAddrObj flow)) (net.String (pb.DstAddrObj flow))
    (u16 (SrcPort flow)) (u16 (DstPort flow)) (Proto flow) (u8 (IpTos flow)) (InIf flow).

(** A record of flows, and the fields [InsertFlow] works on; a nil map is
    [None]. *)
Record flow_record := mkflow_record {
  fr_TimeReceived : Z; fr_LastUpdated : Z; fr_SamplerAddress : net.IP; fr_Flows : list EnrichedFlow }.
Record flow_state := mkflow_state {
  fs_mutex : mutex; fs_sampler : net.IP; fs_cache : option (gmap FlowKey flow_record) }.
(** [time.Unix(int64(n), 0)] *)
Definition Unix (n : Z) : Z := i64 n * 10 ^ 9.
Definition flow_inserted (flow : EnrichedFlow) (sampler : net.IP) (r : option flow_record) : flow_record :=
  let r := default {| fr_TimeReceived := Unix (TimeFlowStart flow); fr_LastUpdated := 0;
                      fr_SamplerAddress := None; fr_Flows := [] |} r in
  {| fr_TimeReceived := fr_TimeReceived r; fr_LastUpdated := Unix (TimeFlowEnd flow);
     fr_SamplerAddress := sampler; fr_Flows := fr_Flows r ++ [flow] |}.
(** The lock taken here is not released.  Reading a nil map finds nothing and
    writing to it panics. *)
Definition InsertFlow (flow : EnrichedFlow) (st : flow_state) : outcome flow_state :=
  match Lock (fs_mutex st) with
  | Panics => Panics
  | Blocks => Blocks
  | Completes m =>
      match fs_cache st with
      | None => Panics
      | Some c =>
          let key := key_of_flow flow in
          Completes {| fs_mutex := m; fs_sampler := fs_sampler st;
                       fs_cache := Some (<[key := flow_inserted flow (fs_sampler st) (c !! key)]> c) |}
      end
  end.
(** The segment's loop over its input: it stops at the first flow that does
    not complete. *)
Fixpoint insert_all (flows : list EnrichedFlow) (st : flow_state) : outcome flow_state :=
  match flows with
  | [] => Completes st
  | flow :: flows =>
      match InsertFlow flow st with
      | Completes st => insert_all flows st
      | Blocks => Blocks
      | Panics => Panics
      end
  end.

(** [Aggregate.New] builds a zero FlowExporter; [NewFlowExporter] would have
    made the mutex and the map. *)
Definition New (c : config) : flow_state := {| fs_mutex := NilMutex; fs_sampler := None; fs_cache := None |}.
Definition constructed : flow_state := {| fs_mutex := Unlocked; fs_sampler := None; fs_cache := Some ∅ |}.
End Aggregate.

(** ** Facts about the instances *)

(** Folding an accumulation that adds [len] to Bytes and 1 to Packets. *)
Lemma fold_totals {P} (add : EnrichedFlow -> P -> EnrichedFlow) (len : P -> Z) :
  (forall m p, Bytes (add m p) = u64 (Bytes m + len p)) ->
  (forall m p, EnrichedFlow.Packets (add m p) = u64 (EnrichedFlow.Packets m + 1)) ->
  forall ps m,
  u64 (Bytes (fold_left add ps m)) = u64 (Bytes m + sum_u 64 (len <$> ps)) /\
  u64 (EnrichedFlow.Packets (fold_left add ps m)) = u64 (EnrichedFlow.Packets m + zlen ps).
Proof.
  intros Hb Hp. induction ps as [|p ps IH]; intros m.
  - unfold sum_u, zlen; simpl. rewrite wrap_add_r, !Z.add_0_r. done.
  - cbn [fold_left]. destruct (IH (add m p)) as [-> ->]. rewrite Hb, Hp.
    assert (zlen (p :: ps) = 1 + zlen ps) as -> by (unfold zlen; simpl; lia).
    rewrite fmap_cons, sum_u_cons.
    autorewrite with wrap_db. split; f_equal; lia.
Qed.

Lemma first_packet_totals p m :
  Bytes (Bpf.first_packet p m) = Bytes m /\ EnrichedFlow.Packets (Bpf.first_packet p m) = EnrichedFlow.Packets m.
Proof. done. Qed.

Lemma build_layers_totals ls m :
  Bytes (fold_left Aggregate.build_layer ls m) = Bytes m /\
  EnrichedFlow.Packets (fold_left Aggregate.build_layer ls m) = EnrichedFlow.Packets m.
Proof.
  revert m. induction ls as [|l ls IH]; intros m; [done|]. cbn [fold_left].
  destruct (IH (Aggregate.build_layer m l)) as [-> ->].
  destruct l; simpl; unfold Aggregate.flag; repeat case_match; done.
Qed.

(** C33. The flow a bpf record is exported as carries the number of its packets
    and the sum of their sizes, both modulo 2^64, and the or of their TCP
    flags. *)
Theorem bpf_BuildFlow_totals (r : FlowRecord Bpf.Packet) :
  u64 (Bytes (Bpf.BuildFlow r)) = sum_u 64 (Bpf.Bytes <$> Packets r) /\
  u64 (EnrichedFlow.Packets (Bpf.BuildFlow r)) = u64 (zlen (Packets r)) /\
  EnrichedFlow.TcpFlags (Bpf.BuildFlow r) = foldl Z.lor 0 (Bpf.TcpFlags <$> Packets r).
Proof.
  unfold Bpf.BuildFlow. set (m0 := match Packets r with [] => _ | _ => _ end).
  destruct (fold_totals Bpf.add_packet Bpf.Bytes ltac:(done) ltac:(done) (Packets r) m0) as [-> ->].
  assert (Bytes m0 = 0 /\ EnrichedFlow.Packets m0 = 0 /\ EnrichedFlow.TcpFlags m0 = 0) as (-> & -> & Ht)
    by (subst m0; by destruct (Packets r)).
  split_and!; [rewrite Z.add_0_l; apply wrap_wrap|done|].
  rewrite <- Ht. generalize (Packets r) m0. clear. intros ps.
  induction ps as [|p ps IH]; intros m; [done|]. cbn [fold_left fmap list_fmap foldl]. by rewrite IH.
Qed.

(** The flow an aggregate record of packets is exported as carries the
    number of its packets and the sum of their lengths, modulo 2^64. *)
Theorem aggregate_BuildFlow_totals Merge (r : FlowRecord Aggregate.Packet) :
  u64 (Bytes (Aggregate.BuildFlow Merge r [])) = sum_u 64 ((u64 ∘ Aggregate.Length) <$> Packets r) /\
  u64 (EnrichedFlow.Packets (Aggregate.BuildFlow Merge r [])) = u64 (zlen (Packets r)).
Proof.
  unfold Aggregate.BuildFlow. cbn [fold_left]. set (m0 := match Packets r with [] => _ | _ => _ end).
  destruct (fold_totals Aggregate.add_packet (u64 ∘ Aggregate.Length) ltac:(done) ltac:(done) (Packets r) m0) as [-> ->].
  assert (Bytes m0 = 0 /\ EnrichedFlow.Packets m0 = 0) as [-> ->].
  { subst m0. destruct (Packets r) as [|p ps]; [done|]. unfold Aggregate.first_packet.
    destruct (build_layers_totals (Aggregate.Layers p) (set_InIf (u32 (Aggregate.InterfaceIndex p))
      (set_TimeFlowEnd (u64 (LastUpdated r)) (set_TimeFlowStart (u64 (TimeReceived r))
        (set_TimeReceived (u64 (TimeReceived r)) (EnrichedFlow.set_SamplerAddress (SamplerAddress r)
          (set_Type EnrichedFlow_EBPF emptyFlow))))))) as [-> ->]. done. }
  split; [rewrite Z.add_0_l; apply wrap_wrap|done].
Qed.

(** The aggregate segment cannot insert a flow: the segment its constructor
    returns panics on the first one, whose mutex is nil; with the mutex and the
    map that [NewFlowExporter] makes, the first flow is inserted and the second
    one waits forever for the lock that was never released. *)
Theorem aggregate_insert_fails (c : config) (flow : EnrichedFlow) (flows : list EnrichedFlow) :
  Aggregate.insert_all (flow :: flows) (Aggregate.New c) = Aggregate.Panics /\
  (exists st, Aggregate.insert_all [flow] Aggregate.constructed = Aggregate.Completes st) /\
  forall flow', Aggregate.insert_all (flow :: flow' :: flows) Aggregate.constructed = Aggregate.Blocks.
Proof. split_and!; [done|by eexists|done]. Qed.

(** The bpf segment cannot be built with a valid inactivetimeout: its
    constructor overwrites the active timeout with it, and the inactive timeout
    stays empty, which the exporter does not parse. *)
Theorem bpf_inactivetimeout_rejected `{f64.Platform} setup (c : config) d :
  time.ParseDuration (cfg c "inactivetimeout") = Some d ->
  forall seg, Bpf.New setup c <> Created seg.
Proof.
  intros Hd seg. unfold Bpf.New, Bpf.timeouts. rewrite Hd. cbn [fst snd].
  assert (NewFlowExporter (P := Bpf.Packet) (cfg c "inactivetimeout") "" = None) as ->.
  { unfold NewFlowExporter. rewrite Hd. reflexivity. }
  intros Hn. destruct (c !! "device"%string) as [dev|]; [|done].
  apply created_bind_inv in Hn as (size & _ & Hn). by destruct (setup dev size).
Qed.

(** When the packet channel is closed, bpf inserts the packet the receive
    yields, which is the zero packet: it ends up in the cache although it was
    never captured. *)
Theorem bpf_ConsumeFrom_phantom (f : FlowExporter Bpf.Packet) pkts now :
  cache f = ∅ ->
  packets_of (Bpf.ConsumeFrom pkts (Some now) f).2 ++ cached (Bpf.ConsumeFrom pkts (Some now) f).1
    ≡ₚ (snd <$> pkts) ++ [Bpf.zero_packet].
Proof.
  intros Hf. unfold Bpf.ConsumeFrom. set (es := map _ pkts ++ _).
  assert (invariant f) as Hi by (unfold invariant; rewrite Hf; apply map_Forall_empty).
  destruct (run_accounts es f Hi) as (_ & _ & Hp). rewrite Hp.
  unfold cached, map_packets. rewrite Hf, map_to_list_empty. cbn. rewrite app_nil_r.
  subst es. unfold inserted. rewrite omap_app. simpl.
  assert (forall l : list (Z * Bpf.Packet), omap (fun e => match e with Inserted _ pkt => Some pkt | Ticked _ _ _ => None end)
    (map (fun p => Inserted p.1 p.2) l) = snd <$> l) as ->; [|done].
  intros l. induction l as [|p l IH]; [done|]. exact (f_equal (cons p.2) IH).
Qed.

(** ** The theorems at work *)
Module witness.
Import Bpf.
Definition pkt (src flags : Z) : Packet :=
  mkPacket (Some [10; 0; 0; src]) (Some [10; 0; 0; 9]) 1 2 100 2048 6 0 1000 443 64 0 0 0 flags 0 0.
Definition empty : FlowExporter Packet := mkFlowExporter 30 15 None ∅.
Definition two : FlowExporter Packet := (run empty [Inserted 0 (pkt 1 2); Inserted 10 (pkt 2 2)]).1.
End witness.

(** Two keys, three packets of the first of which the last one has FIN. *)
Lemma cache_conserves_packets_witness :
  let es := [Inserted 0 (witness.pkt 1 2); Inserted 1 (witness.pkt 2 2); Inserted 2 (witness.pkt 1 1)] in
  (length (run witness.empty es).2 = 1)%nat /\
  packets_of (run witness.empty es).2 ++ cached (run witness.empty es).1 ≡ₚ inserted es.
Proof.
  split; [by vm_compute|]. apply (cache_conserves_packets witness.empty). reflexivity.
Defined.

(** At time 20 the first record, last updated at 0, is inactive. *)
Lemma tick_keeps_fresh_witness :
  let key := NewFlowKey (witness.pkt 1 2) in
  let order := [NewFlowKey (witness.pkt 2 2); key] in
  cache (tick Inactive 20 order witness.two).1 !! key = None.
Proof.
  intros key order. rewrite (tick_keeps_fresh witness.two Inactive 20 order key); [by vm_compute|].
  intros k Hk. apply elem_of_dom in Hk.
  assert (dom (cache witness.two) ⊆ (list_to_set order : gset FlowKey)) as Hd
    by (eapply bool_decide_eq_true_1; vm_compute; reflexivity).
  by apply (elem_of_list_to_set (C := gset FlowKey)), Hd.
Defined.

Lemma fin_exports_witness :
  exists r, (Insert 3 (witness.pkt 2 1) witness.two).2 = [r] /\ last (Packets r) = Some (witness.pkt 2 1) /\
    LastUpdated r = packet_time 3 (witness.pkt 2 1) /\ cache (Insert 3 (witness.pkt 2 1) witness.two).1 !! NewFlowKey (witness.pkt 2 1) = None.
Proof. apply (fin_exports witness.two 3 (witness.pkt 2 1)). reflexivity. Defined.

Lemma bpf_ConsumeFrom_phantom_witness :
  packets_of (Bpf.ConsumeFrom [] (Some 5) witness.empty).2 ++ cached (Bpf.ConsumeFrom [] (Some 5) witness.empty).1
    ≡ₚ [Bpf.zero_packet].
Proof. apply (bpf_ConsumeFrom_phantom witness.empty [] 5). reflexivity. Defined.

Lemma bpf_inactivetimeout_rejected_witness :
  let c : config := {[ "device"%string := "eth0"%string; "inactivetimeout"%string := "20s"%string ]} in
  @time.ParseDuration f64.amd64 (cfg c "inactivetimeout") = Some (20 * 10 ^ 9) /\
  (forall seg, @Bpf.New f64.amd64 (fun _ _ => true) c <> Created seg) /\
  exists seg, @Bpf.New f64.amd64 (fun _ _ => true) {[ "device"%string := "eth0"%string ]} = Created seg.
Proof.
  intros c. assert (@time.ParseDuration f64.amd64 (cfg c "inactivetimeout") = Some (20 * 10 ^ 9)) as Hd
    by (vm_compute; reflexivity).
  split; [exact Hd|]. split; [exact (bpf_inactivetimeout_rejected (fun _ _ => true) c _ Hd)|].
  eexists. vm_compute. reflexivity.
Defined.
