(* ===== verification/Exporter.v ===== *)
(** * The capture segments at work ([segments/filter/aggregate/flowcache.go],
      [segments/input/packet/packet.go], [segments/input/bpf/bpf.go])

    A capture segment runs four goroutines over one flow cache ([FlowCache.v]):
    the consumer of the packets, the two timers, and [Run], which passes on the
    exported flows and those of its input.  Whoever changes the cache holds the
    mutex, also while it hands an exported flow to [Run].

    Their interleavings are the steps of a transition system.  Its
    specification is the sequential cache: [represents] says that a state is
    what a sequence of insertions and of (parts of) timer ticks leads to. *)

From stdpp Require Import prelude strings list gmap fin_maps relations.
From Stdlib Require Import ZArith Lia.
From S2P Require Import Prelude GoStd GoParse EnrichedFlow Segment FlowCache.

#[export] Instance ticker_eq_dec : EqDecision ticker.
Proof. solve_decision. Defined.

Section exporter.
Context {P : Type} `{CachedPacket P} (BuildFlow : FlowRecord P -> EnrichedFlow).
(** Whether the packets come from a file, whose end is not an error. *)
Context (from_file : bool).

(** ConsumeFrom: in its select, waiting for the mutex in Insert, sending on
    Flows in export, or returned. *)
Inductive consumer : Type := Consuming | Locking (pkt : P) | Exporting (r : FlowRecord P) | Consumed.
(** exportInactive and exportActive: in the select, waiting for the mutex with
    the time of the tick, inside the loop with the keys still to visit, sending
    on Flows, or returned. *)
Inductive timer : Type :=
  | Waiting | Due (now : Z) | Visiting (now : Z) (order : list FlowKey)
  | Handing (now : Z) (r : FlowRecord P) (order : list FlowKey) | Stopped.
(** Run: in its select, sending on Out, or returned. *)
Inductive runner : Type := Selecting | Sending (m : EnrichedFlow) | Returned.
(** The goroutine that holds the mutex. *)
Inductive owner : Type := ByConsumer | ByTimer (t : ticker).

Record state := mkstate {
  packets : list P; exporter : FlowExporter P; mutex : option owner;
  consumes : consumer; timers : ticker -> timer;
  runs : runner; input : list EnrichedFlow; stop : bool; out : list EnrichedFlow }.

Definition set_timer (t : ticker) (x : timer) (f : ticker -> timer) : ticker -> timer :=
  fun t' => if decide (t' = t) then x else f t'.

(** [ConsumeFrom] and [Insert]; the mutex is released unless the record is to
    be exported. *)
Inductive consume : state -> state -> Prop :=
  | consume_receive p ps f l ts r ms b o :
      consume (mkstate (p :: ps) f l Consuming ts r ms b o) (mkstate ps f l (Locking p) ts r ms b o)
  | consume_insert now p ps f ts r ms b o : (Insert now p f).2 = [] ->
      consume (mkstate ps f None (Locking p) ts r ms b o) (mkstate ps (Insert now p f).1 None Consuming ts r ms b o)
  | consume_export now p x ps f ts r ms b o : (Insert now p f).2 = [x] ->
      consume (mkstate ps f None (Locking p) ts r ms b o)
        (mkstate ps (Insert now p f).1 (Some ByConsumer) (Exporting x) ts r ms b o)
  | consume_end f l ts r ms b o : from_file = true ->
      consume (mkstate [] f l Consuming ts r ms b o) (mkstate [] f l Consumed ts r ms b o)
  | consume_stop ps f l ts r ms o :
      consume (mkstate ps f l Consuming ts r ms true o) (mkstate ps f l Consumed ts r ms true o).

(** [exportInactive] and [exportActive]; the loop visits every key of the map
    once, in some order. *)
Inductive time : ticker -> state -> state -> Prop :=
  | time_tick t now ps f l c ts r ms b o : ts t = Waiting ->
      time t (mkstate ps f l c ts r ms b o) (mkstate ps f l c (set_timer t (Due now) ts) r ms b o)
  | time_lock t now order ps f c ts r ms b o : ts t = Due now ->
      NoDup order -> (forall k, is_Some (cache f !! k) <-> k ∈ order) ->
      time t (mkstate ps f None c ts r ms b o)
        (mkstate ps f (Some (ByTimer t)) c (set_timer t (Visiting now order) ts) r ms b o)
  | time_keep t now k order ps f l c ts r ms b o : ts t = Visiting now (k :: order) -> (tick t now [k] f).2 = [] ->
      time t (mkstate ps f l c ts r ms b o)
        (mkstate ps (tick t now [k] f).1 l c (set_timer t (Visiting now order) ts) r ms b o)
  | time_export t now k order x ps f l c ts r ms b o : ts t = Visiting now (k :: order) -> (tick t now [k] f).2 = [x] ->
      time t (mkstate ps f l c ts r ms b o)
        (mkstate ps (tick t now [k] f).1 l c (set_timer t (Handing now x order) ts) r ms b o)
  | time_unlock t now ps f l c ts r ms b o : ts t = Visiting now [] ->
      time t (mkstate ps f l c ts r ms b o) (mkstate ps f None c (set_timer t Waiting ts) r ms b o)
  | time_stop t ps f l c ts r ms o : ts t = Waiting ->
      time t (mkstate ps f l c ts r ms true o) (mkstate ps f l c (set_timer t Stopped ts) r ms true o).

(** [Run]; a send on Flows and its receive are one step, after which the
    sender goes on.  When In is closed, [Stop] closes [f.stop]. *)
Inductive run_loop : state -> state -> Prop :=
  | run_consumer x ps f l ts ms b o :
      run_loop (mkstate ps f l (Exporting x) ts Selecting ms b o)
        (mkstate ps f None Consuming ts (Sending (BuildFlow x)) ms b o)
  | run_timer t now x order ps f l c ts ms b o : ts t = Handing now x order ->
      run_loop (mkstate ps f l c ts Selecting ms b o)
        (mkstate ps f l c (set_timer t (Visiting now order) ts) (Sending (BuildFlow x)) ms b o)
  | run_input m ps f l c ts ms b o :
      run_loop (mkstate ps f l c ts Selecting (m :: ms) b o) (mkstate ps f l c ts (Sending m) ms b o)
  | run_send m ps f l c ts ms b o :
      run_loop (mkstate ps f l c ts (Sending m) ms b o) (mkstate ps f l c ts Selecting ms b (o ++ [m]))
  | run_close ps f l c ts b o :
      run_loop (mkstate ps f l c ts Selecting [] b o) (mkstate ps f l c ts Returned [] true o).

Inductive step (st st' : state) : Prop :=
  | step_consume : consume st st' -> step st st'
  | step_time t : time t st st' -> step st st'
  | step_run : run_loop st st' -> step st st'.

(** After [Start]. *)
Definition start (f : FlowExporter P) (ps : list P) (ms : list EnrichedFlow) : state :=
  mkstate ps f None Consuming (fun _ => Waiting) Selecting ms false [].

(** ** The sequential cache as the specification *)
Definition held (r : runner) : list EnrichedFlow := match r with Sending m => [m] | _ => [] end.
Definition inserting (c : consumer) : list P := match c with Locking p => [p] | _ => [] end.
Definition handed (t : timer) : list (FlowRecord P) := match t with Handing _ r _ => [r] | _ => [] end.
(** The exported record that nobody received yet. *)
Definition exporting (c : consumer) : list (FlowRecord P) := match c with Exporting r => [r] | _ => [] end.
Definition pending (st : state) : list (FlowRecord P) :=
  exporting (consumes st) ++ handed (timers st Inactive) ++ handed (timers st Active).

(** After the events [es] the cache is as it is and has sent the records that
    were received, [ex], and the pending one; the packets of [es] and those
    still to be inserted are all packets, in their order. *)
Definition represents (f0 : FlowExporter P) (ps : list P) (ms : list EnrichedFlow) (st : state) : Prop :=
  exists es ex, inserted es ++ inserting (consumes st) ++ packets st = ps /\
    run f0 es = (exporter st, ex ++ pending st) /\
    out st ++ held (runs st) ++ input st ≡ₚ (BuildFlow <$> ex) ++ ms.

(** Nobody but the owner of the mutex is inside the critical section. *)
Definition critical (t : timer) : bool := match t with Visiting _ _ | Handing _ _ _ => true | _ => false end.
Definition guarded (l : option owner) (c : consumer) (ts : ticker -> timer) : Prop :=
  match l with
  | None => (forall r, c <> Exporting r) /\ forall t, critical (ts t) = false
  | Some ByConsumer => (exists r, c = Exporting r) /\ forall t, critical (ts t) = false
  | Some (ByTimer t) => (forall r, c <> Exporting r) /\ critical (ts t) = true /\
                        forall t', t' <> t -> critical (ts t') = false
  end.
Definition exclusive (st : state) : Prop := guarded (mutex st) (consumes st) (timers st).

Lemma run_snoc (f : FlowExporter P) es e :
  run f (es ++ [e]) = ((FlowCache.step (run f es).1 e).1, (run f es).2 ++ (FlowCache.step (run f es).1 e).2).
Proof.
  revert f. induction es as [|x es IH]; intros f; cbn [app run fst snd].
  - destruct (FlowCache.step f e) as [f' s]. simpl. by rewrite app_nil_r.
  - destruct (FlowCache.step f x) as [f1 s1]. rewrite IH. destruct (run f1 es) as [f2 s2]. simpl. by rewrite app_assoc.
Qed.
Lemma inserted_snoc (es : list (event (P := P))) e :
  inserted (es ++ [e]) = inserted es ++ match e with Inserted _ p => [p] | Ticked _ _ _ => [] end.
Proof. unfold inserted. rewrite omap_app. by destruct e. Qed.

Lemma set_timer_eq t x ts : set_timer t x ts t = x.
Proof. unfold set_timer. by rewrite decide_True. Qed.
Lemma set_timer_ne t t' x ts : t' <> t -> set_timer t x ts t' = ts t'.
Proof. intros Hne. unfold set_timer. by rewrite decide_False. Qed.
Lemma critical_set t x ts : (forall t', t' <> t -> critical (ts t') = false) -> forall t', t' <> t -> critical (set_timer t x ts t') = false.
Proof. intros Hc t' Hne. rewrite set_timer_ne by done. by apply Hc. Qed.
Lemma critical_same t x ts : critical x = critical (ts t) -> forall t', critical (set_timer t x ts t') = critical (ts t').
Proof. intros Hc t'. unfold set_timer. case_decide; [by subst|done]. Qed.

(** What is pending, by the owner of the mutex. *)
Lemma guarded_free c ts : guarded None c ts -> exporting c = [] /\ handed (ts Inactive) ++ handed (ts Active) = [].
Proof.
  intros [Hc Ht]. split; [destruct c; try done; by edestruct Hc|]. pose proof (Ht Inactive). pose proof (Ht Active).
  by destruct (ts Inactive), (ts Active).
Qed.
Lemma guarded_exporting l x ts : guarded l (Exporting x) ts -> l = Some ByConsumer /\ handed (ts Inactive) ++ handed (ts Active) = [].
Proof.
  intros Hg. destruct l as [[|t]|]; [|by destruct Hg as [Hc _]; destruct (Hc x)..].
  destruct Hg as [_ Ht]. split; [done|]. pose proof (Ht Inactive). pose proof (Ht Active). by destruct (ts Inactive), (ts Active).
Qed.
Lemma guarded_visiting l c ts (t : ticker) : guarded l c ts -> critical (ts t) = true ->
  exporting c = [] /\ forall x, handed (set_timer t x ts Inactive) ++ handed (set_timer t x ts Active) = handed x.
Proof.
  intros Hg Ht. destruct l as [[|t2]|]; [by rewrite (proj2 Hg) in Ht| |by rewrite (proj2 Hg) in Ht].
  destruct Hg as (Hc & _ & Ho). destruct (decide (t = t2)) as [<-|Hne]; [|by rewrite Ho in Ht].
  split; [destruct c; try done; by edestruct Hc|]. intros x. unfold set_timer. destruct t.
  - specialize (Ho Active ltac:(done)). destruct (ts Active); try done; apply app_nil_r.
  - specialize (Ho Inactive ltac:(done)). by destruct (ts Inactive).
Qed.
Lemma handed_set t x ts : handed x = handed (ts t) -> forall t' : ticker, handed (set_timer t x ts t') = handed (ts t').
Proof. intros Hx t'. unfold set_timer. case_decide; [by subst|done]. Qed.
Lemma set_timer_id t ts : forall t' : ticker, set_timer t (ts t) ts t' = ts t'.
Proof. intros t'. unfold set_timer. case_decide; [by subst|done]. Qed.

(** Moves of the consumer outside of the section, and of a timer within or
    outside of it. *)
Lemma guarded_consumer l c c' ts :
  (forall r, c <> Exporting r) -> (forall r, c' <> Exporting r) -> guarded l c ts -> guarded l c' ts.
Proof. intros Hc Hc' Hg. destruct l as [[|t]|]; [by destruct Hg as [[r ->] _]; edestruct Hc|split; [done|by apply Hg]..]. Qed.
Lemma guarded_set t x l c ts : critical x = critical (ts t) -> guarded l c ts -> guarded l c (set_timer t x ts).
Proof.
  unfold guarded. intros Hx Hg. pose proof (critical_same t x ts Hx) as E.
  destruct l as [[|t2]|]; [destruct Hg as [? Hg]|destruct Hg as (? & Hg1 & Hg2)|destruct Hg as [? Hg]];
    split_and?; try done; intros; rewrite E; eauto.
Qed.

Lemma exclusive_step st st' : exclusive st -> step st st' -> exclusive st'.
Proof.
  unfold exclusive. intros He Hs. destruct Hs as [Hs|t Hs|Hs]; destruct Hs;
    simpl in *; try done; try (by eapply guarded_consumer; [| |exact He]); try (by apply guarded_set; [match goal with H : _ = _ |- _ => by rewrite H end|]).
  - by split; [done|apply He].
  - split; [by eexists|apply He].
  - destruct He as [Hx Hc]. split; [done|]. split; [by rewrite set_timer_eq|]. by apply critical_set.
  - assert (critical (ts t) = true) as Hct by (by match goal with E : ts t = _ |- _ => rewrite E end).
    destruct l as [[|t2]|]; [by rewrite (proj2 He) in Hct| |by rewrite (proj2 He) in Hct].
    destruct He as (Hx & _ & Ho). destruct (decide (t = t2)) as [<-|Hne]; [|by rewrite Ho in Hct].
    split; [done|]. intros t'. destruct (decide (t' = t)) as [->|Hne]; [by rewrite set_timer_eq|].
    rewrite set_timer_ne by done. by apply Ho.
  - destruct l as [[|t]|]; [|by destruct He as [Hx _]; destruct (Hx x)..].
    by destruct He as [_ He].
Qed.

Lemma represents_step f0 ps0 ms0 st st' :
  exclusive st -> represents f0 ps0 ms0 st -> step st st' -> represents f0 ps0 ms0 st'.
Proof.
  unfold exclusive, represents, pending. intros Hg (es & ex & Hp & Hr & Ho) Hs.
  assert (forall es e, run f0 (es ++ [e]) = ((FlowCache.step (run f0 es).1 e).1, (run f0 es).2 ++ (FlowCache.step (run f0 es).1 e).2))
    as Hrun by (intros; apply run_snoc).
  destruct Hs as [Hs|t Hs|Hs]; [destruct Hs as [| | | |]|destruct Hs as [t ? ? ? ? ? ts ? ? ? ? E|t ? ? ? ? ? ts ? ? ? ? E|t ? ? ? ? ? ? ? ts ? ? ? ? E E2|
    t ? ? ? ? ? ? ? ? ts ? ? ? ? E E2|t ? ? ? ? ? ts ? ? ? ? E|t ? ? ? ? ts ? ? ? E]|destruct Hs as [|t ? ? ? ? ? ? ? ts ? ? ? E| | |]];
    cbn [packets exporter mutex consumes timers runs input stop out inserting exporting held] in *;
    try (by exists es, ex); try (by exists es, ex; rewrite !handed_set by (by rewrite E)).
  - exists (es ++ [Inserted now p]), ex. rewrite inserted_snoc, Hrun, Hr, <- app_assoc. cbn [fst snd FlowCache.step].
    by rewrite H0, app_nil_r.
  - destruct (guarded_free _ _ Hg) as [_ Hh]. rewrite Hh in *. exists (es ++ [Inserted now p]), ex.
    rewrite inserted_snoc, Hrun, Hr, <- app_assoc. cbn [fst snd FlowCache.step]. by rewrite H0, !app_nil_r.
  - exists (es ++ [Ticked t now [k]]), ex. rewrite !handed_set by (by rewrite E).
    rewrite inserted_snoc, app_nil_r, Hrun, Hr. cbn [fst snd FlowCache.step]. by rewrite E2, app_nil_r.
  - destruct (guarded_visiting _ _ _ t Hg ltac:(by rewrite E)) as [Hc Hh]. exists (es ++ [Ticked t now [k]]), ex.
    pose proof (Hh (ts t)) as Hold. rewrite !set_timer_id, E in Hold. rewrite Hc, Hold in Hr. rewrite Hh, Hc.
    rewrite inserted_snoc, app_nil_r, Hrun, Hr. cbn [fst snd FlowCache.step]. by rewrite E2, !app_nil_r.
  - destruct (guarded_exporting _ _ _ Hg) as [_ Hh]. rewrite Hh in *. exists es, (ex ++ [x]).
    rewrite fmap_app. split_and!; [done|by rewrite Hr, !app_nil_r|]. simpl in *. rewrite <- app_assoc. simpl.
    by rewrite <- !Permutation_middle, Ho.
  - destruct (guarded_visiting _ _ _ t Hg ltac:(by rewrite E)) as [Hc Hh]. exists es, (ex ++ [x]).
    pose proof (Hh (ts t)) as Hold. rewrite !set_timer_id, E in Hold. rewrite Hc, Hold in Hr. rewrite Hh, Hc.
    rewrite fmap_app. split_and!; [done|by rewrite Hr, !app_nil_r|]. simpl in *. rewrite <- app_assoc. simpl.
    by rewrite <- !Permutation_middle, Ho.
  - exists es, ex. rewrite <- app_assoc. done.
Qed.

(** C32. Whatever the interleaving of the four goroutines, a capture segment is the
    sequential cache: there is a sequence of insertions, of the packets in
    their order, and of timer ticks after which the cache is as it is and has
    sent the records exported so far, in order; the flows on Out are those of
    the records that Run received and of the segment's input, each once.  In
    particular no packet is lost or counted twice: each one is in an exported
    record, in the cache, or still to be inserted. *)
Theorem capture_refines_cache (f0 : FlowExporter P) (ps : list P) (ms : list EnrichedFlow) (st : state) :
  cache f0 = ∅ -> rtc step (start f0 ps ms) st ->
  represents f0 ps ms st /\
  exists rs, packets_of rs ++ cached (exporter st) ++ inserting (consumes st) ++ packets st ≡ₚ ps /\
    out st ++ held (runs st) ++ input st ++ (BuildFlow <$> pending st) ≡ₚ (BuildFlow <$> rs) ++ ms.
Proof.
  intros Hf Hs.
  assert (exclusive st /\ represents f0 ps ms st) as [_ Hr].
  { apply (@rtc_keeps state step (fun st => exclusive st /\ represents f0 ps ms st)) in Hs; [done| |].
    - intros st1 st2 [He Hr] Hst. split; [by eapply exclusive_step|by eapply represents_step].
    - split; [by split|]. by exists [], []. }
  split; [done|]. destruct Hr as (es & ex & Hp & Hr & Ho).
  assert (invariant f0) as Hi by (unfold invariant; rewrite Hf; apply map_Forall_empty).
  destruct (run_accounts es f0 Hi) as (_ & _ & Hc). rewrite Hr in Hc. cbn [fst snd] in Hc.
  exists (ex ++ pending st). split.
  - rewrite app_assoc, Hc, <- Hp. unfold cached at 1, map_packets. rewrite Hf, map_to_list_empty. cbn. by rewrite app_nil_r.
  - rewrite fmap_app, !app_assoc, <- (app_assoc _ _ (input st)), Ho. solve_perm.
Qed.

(** Packets without FIN go into the cache one after the other. *)
Lemma consume_all ps : forall f ts r ms b o, Forall (fun p => has_fin p = false) ps ->
  exists f', cached f' ≡ₚ ps ++ cached f /\
    rtc step (mkstate ps f None Consuming ts r ms b o) (mkstate [] f' None Consuming ts r ms b o).
Proof.
  induction ps as [|p ps IH]; intros f ts r ms b o Hps; [by exists f|].
  apply Forall_cons in Hps as [Hp Hps].
  assert ((Insert 0 p f).2 = []) as E by (unfold Insert; by rewrite Hp).
  destruct (IH (Insert 0 p f).1 ts r ms b o Hps) as (f' & Hc & Hs). exists f'. split.
  - rewrite Hc. unfold Insert. rewrite Hp. simpl. unfold cached at 1. simpl. rewrite Insert_cached. by rewrite Permutation_middle.
  - eapply rtc_l; [apply step_consume, consume_receive|]. eapply rtc_l; [apply step_consume, (consume_insert 0), E|]. done.
Qed.
Lemma pass_all ms : forall ps f l c ts b o,
  rtc step (mkstate ps f l c ts Selecting ms b o) (mkstate ps f l c ts Selecting [] b (o ++ ms)).
Proof.
  induction ms as [|m ms IH]; intros ps f l c ts b o; [rewrite app_nil_r; apply rtc_refl|].
  eapply rtc_l; [apply step_run, run_input|]. eapply rtc_l; [apply step_run, run_send|].
  rewrite (cons_middle m o ms), app_assoc. apply IH.
Qed.

(** The end of a capture file ends the segment with its cache full: the
    consumer asks for the shutdown as soon as it has read the file, and nothing
    exports what the cache then holds.  A file without FIN packets, read faster
    than the timeouts, yields no flow at all. *)
Theorem capture_file_loses (f0 : FlowExporter P) (ps : list P) (ms : list EnrichedFlow) :
  from_file = true -> cache f0 = ∅ -> Forall (fun p => has_fin p = false) ps ->
  exists st, rtc step (start f0 ps ms) st /\
    runs st = Returned /\ consumes st = Consumed /\ (forall t, timers st t = Stopped) /\
    out st = ms /\ cached (exporter st) ≡ₚ ps.
Proof.
  intros Hfile Hf Hps. destruct (consume_all ps f0 (fun _ => Waiting) Selecting ms false [] Hps) as (f' & Hc & Hs).
  eexists. split; [|split_and!].
  - etransitivity; [exact Hs|]. eapply rtc_l; [by apply step_consume, consume_end|].
    etransitivity; [apply pass_all|]. eapply rtc_l; [apply step_run, run_close|].
    eapply rtc_l; [by apply (step_time _ _ Inactive), time_stop|].
    eapply rtc_l; [by apply (step_time _ _ Active), time_stop|]. apply rtc_refl.
  - done.
  - done.
  - by intros [].
  - done.
  - simpl. rewrite Hc. unfold cached, map_packets. rewrite Hf, map_to_list_empty. cbn. by rewrite app_nil_r.
Qed.

(** An export that meets the end of Run: the exporting goroutine keeps the
    mutex and the flow for ever, and with it the timers that are due. *)
Theorem capture_stop_blocks (f0 : FlowExporter P) (p : P) (ps : list P) :
  has_fin p = true ->
  exists st r, rtc step (start f0 (p :: ps) []) st /\ consumes st = Exporting r /\
    forall st', rtc step st st' -> consumes st' = Exporting r /\ mutex st' = Some ByConsumer /\ out st' = [] /\
      forall t now, timers st t = Due now -> timers st' t = Due now.
Proof.
  intros Hp. set (x := updated 0 p f0).
  assert ((Insert 0 p f0).2 = [x]) as E by (unfold Insert; by rewrite Hp).
  eexists _, x. split; [|split].
  - eapply rtc_l; [apply step_consume, consume_receive|]. eapply rtc_l; [apply step_consume, (consume_export 0), E|].
    eapply rtc_l; [by apply (step_time _ _ Inactive), (time_tick _ 0)|].
    eapply rtc_l; [apply step_run, run_close|]. apply rtc_refl.
  - done.
  - intros st' Hs.
    assert (consumes st' = Exporting x /\ mutex st' = Some ByConsumer /\ runs st' = Returned /\ out st' = [] /\
            timers st' Inactive = Due 0 /\ critical (timers st' Active) = false) as (H1 & H2 & _ & H4 & H5 & _).
    { apply (@rtc_keeps state step (fun st' => consumes st' = Exporting x /\ mutex st' = Some ByConsumer /\ runs st' = Returned /\
        out st' = [] /\ timers st' Inactive = Due 0 /\ critical (timers st' Active) = false)) in Hs; [done| |done].
      intros st1 st2 (H1 & H2 & H3 & H4 & H5 & H6) Hst.
      destruct Hst as [Hst|t Hst|Hst]; destruct Hst as []; simpl in *; try congruence; destruct t; try congruence;
        try match goal with E : _ = _ |- _ => rewrite E in H6; discriminate end; unfold set_timer; simpl; split_and!; congruence. }
    split_and!; try done. intros t now Ht. simpl in Ht. destruct t; [|by unfold set_timer in Ht].
    rewrite H5. unfold set_timer in Ht. simpl in Ht. congruence.
Qed.
End exporter.

(** ** The theorems at work *)
Module witness.
Import FlowCache.witness.
Abbreviation step := (step Bpf.BuildFlow true).
Abbreviation fin := (pkt 1 1).
(** A packet with FIN is inserted, exported and sent. *)
Definition record : FlowRecord Bpf.Packet := updated 0 fin empty.
Definition sent : state := mkstate [] (Insert 0 fin empty).1 None Consuming (fun _ => Waiting) Selecting [] false [Bpf.BuildFlow record].
Lemma sent_reachable : rtc step (start empty [fin] []) sent.
Proof.
  eapply rtc_l; [apply step_consume, consume_receive|].
  eapply rtc_l; [by apply step_consume, (consume_export _ 0 _ record)|].
  eapply rtc_l; [apply step_run, run_consumer|].
  eapply rtc_l; [apply step_run, run_send|]. apply rtc_refl.
Qed.
End witness.

Lemma capture_refines_cache_witness :
  exists rs, packets_of rs ++ cached (exporter witness.sent) ++ [] ≡ₚ [witness.fin] /\
    out witness.sent ≡ₚ Bpf.BuildFlow <$> rs.
Proof.
  destruct (capture_refines_cache Bpf.BuildFlow true FlowCache.witness.empty [witness.fin] [] witness.sent eq_refl witness.sent_reachable)
    as [_ (rs & Hp & Ho)].
  exists rs. split; [exact Hp|]. rewrite <- (app_nil_r (_ <$> rs)). exact Ho.
Defined.
Lemma capture_file_loses_witness :
  exists st, rtc witness.step (start FlowCache.witness.empty [FlowCache.witness.pkt 1 2] []) st /\
    runs st = Returned /\ consumes st = Consumed /\ (forall t, timers st t = Stopped) /\
    out st = [] /\ cached (exporter st) ≡ₚ [FlowCache.witness.pkt 1 2].
Proof.
  apply (capture_file_loses Bpf.BuildFlow true FlowCache.witness.empty [FlowCache.witness.pkt 1 2] []); [done|done|by repeat constructor].
Defined.
Lemma capture_stop_blocks_witness :
  exists st r, rtc witness.step (start FlowCache.witness.empty [witness.fin] []) st /\ consumes st = Exporting r /\
    forall st', rtc witness.step st st' -> consumes st' = Exporting r /\ mutex st' = Some ByConsumer /\ out st' = [] /\
      forall t now, timers st t = Due now -> timers st' t = Due now.
Proof. apply (capture_stop_blocks Bpf.BuildFlow true FlowCache.witness.empty witness.fin []). reflexivity. Defined.
