(* ===== verification/Capture.v ===== *)
(** * Capture ([segments/input/bpf/packet_dumper.go], [segments/input/bpf/bpf.go],
      [segments/input/packet/packet.go])

    The decoding of the kernel's records for bpf, in the byte order of the machine
    that wrote them, the loops of the two segments, and the parameters of packet.  The flow caches are those of FlowCache.v; the
    kernel side, libpcap and pf_ring are parameters. *)

From stdpp Require Import prelude strings list gmap.
From Stdlib Require Import ZArith Lia Ascii.
From S2P Require Import Prelude GoStd GoParse EnrichedFlow Segment.
From S2P Require FlowCache.
Import FlowCache.Bpf(Packet, mkPacket).

(** ** packet_dumper.go *)
Record rawPacket := mkraw {
  SrcAddrHi : Z; SrcAddrLo : Z; DstAddrHi : Z; DstAddrLo : Z; InIf : Z; OutIf : Z; Bytes : Z; Etype : Z; Proto : Z;
  Ipv6FlowLabel : Z; SrcAddr : Z; DstAddr : Z; SrcPort : Z; DstPort : Z; IPTtl : Z; IPTos : Z; IcmpType : Z;
  IcmpCode : Z; TcpFlags : Z; FlowDirection : Z; RemoteAddr : Z }.

(** [encoding/binary]: numbers of [n] bytes. *)
Fixpoint little (bytes : list Z) : Z := match bytes with [] => 0 | b :: bytes => b + 256 * little bytes end.
Fixpoint put_big (n : nat) (x : Z) : list Z :=
  match n with O => [] | S n => put_big n (x / 256) ++ [x mod 256] end.
Fixpoint read_words (widths : list nat) (bytes : list Z) : option (list Z) :=
  match widths with
  | [] => Some []
  | w :: widths =>
      if (length bytes <? w)%nat then None
      else words ← read_words widths (drop w bytes); Some (little (take w bytes) :: words)
  end.
(** The sizes of the fields of rawPacket, which [binary.Read] reads in order. *)
Definition raw_widths : list nat := [8; 8; 8; 8; 4; 4; 4; 4; 4; 4; 4; 4; 2; 2; 1; 1; 1; 1; 1; 1; 1]%nat.
Definition raw_of (words : list Z) : option rawPacket :=
  match words with
  | [a; b; c; d; e; f; g; h; i; j; k; l; m; n; o; p; q; r; s; t; u] => Some (mkraw a b c d e f g h i j k l m n o p q r s t u)
  | _ => None
  end.
Definition Read (bytes : list Z) : option rawPacket := words ← read_words raw_widths bytes; raw_of words.

Definition parseRawPacket (r : rawPacket) : Packet :=
  let '(srcip, dstip) :=
    if Etype r =? 0x0800 then (Some (put_big 4 (SrcAddr r)), Some (put_big 4 (DstAddr r)))
    else if Etype r =? 0x86dd then
      (Some (put_big 8 (SrcAddrHi r) ++ put_big 8 (SrcAddrLo r)), Some (put_big 8 (DstAddrHi r) ++ put_big 8 (DstAddrLo r)))
    else (None, None) in
  mkPacket srcip dstip (InIf r) (OutIf r) (Bytes r) (Etype r) (Proto r) (Ipv6FlowLabel r) (SrcPort r) (DstPort r)
    (IPTtl r) (IPTos r) (IcmpType r) (IcmpCode r) (TcpFlags r) (FlowDirection r) (RemoteAddr r).

(** What the perf reader returns. *)
Inductive perf : Type := ErrClosed | ReadError | Record_ (LostSamples : Z) (RawSample : list Z).
(** The goroutine of [Packets]: the packets it sends. *)
Fixpoint Packets (reads : list perf) : list Packet :=
  match reads with
  | [] | ErrClosed :: _ => []
  | ReadError :: reads => Packets reads
  | Record_ lost sample :: reads =>
      if negb (lost =? 0) then Packets reads
      else match Read sample with Some r => parseRawPacket r :: Packets reads | None => Packets reads end
  end.

(** An address of an interface: a *net.IPNet or another type. *)
Inductive addr : Type := IPNet (ip : net.IP) | OtherAddr.
(** [net.IP.IsLoopback] *)
Definition IsLoopback (ip : net.IP) : bool :=
  match net.To4 ip with
  | Some (b :: _) => b =? 127
  | Some [] => false
  | None => bool_decide (contents ip = [0; 0; 0; 0; 0; 0; 0; 0; 0; 0; 0; 0; 0; 0; 0; 1])
  end.
(** The loop over the addresses of the interface, of bpf and of packet. *)
Fixpoint first_address (addrs : list addr) : net.IP :=
  match addrs with
  | [] => None
  | IPNet ip :: addrs => if negb (IsLoopback ip) then ip else first_address addrs
  | OtherAddr :: addrs => first_address addrs
  end.

(** [Setup]: [None] is an error; that of [Addrs] is not looked at. *)
Definition Setup (RemoveMemlock loadBpfObjects : bool) (InterfaceByName : option (option (list addr))) : created (option net.IP) :=
  if negb RemoveMemlock then FatalExit
  else if negb loadBpfObjects then FatalExit
  else match InterfaceByName with
       | None => Created None
       | Some Addrs => Created (Some (first_address (default [] Addrs)))
       end.
(** [Start]: the size of the perf buffer, unless one of the calls fails. *)
Definition Start (Socket Bind SetsockoptInt NewReader : bool) (BufSize : Z) : option Z :=
  if negb Socket then None else if negb Bind then None else if negb SetsockoptInt then None
  else let BufSize := if BufSize =? 0 then 2 * 4096 else BufSize in
       if NewReader then Some BufSize else None.

(** The closers of the loaded objects panic. *)
Definition bpfPrograms_Close : result unit := Panic.
Definition bpfMaps_Close : result unit := Panic.
Fixpoint BpfClose (closers : list (result unit)) : result unit :=
  match closers with [] => Ok tt | close :: closers => _ ← close; BpfClose closers end.
Definition Stop : result unit := BpfClose [bpfPrograms_Close; bpfMaps_Close].

(** ** The loops of bpf and packet

    They end when the exporter's channel or the input is closed; bpf then stops the
    dumper. *)
Inductive event : Type := Flow (m : EnrichedFlow) | FlowsClosed | In (m : EnrichedFlow) | InClosed.
Fixpoint loop (es : list event) : list EnrichedFlow * bool :=
  match es with
  | [] => ([], false)
  | (FlowsClosed | InClosed) :: _ => ([], true)
  | (Flow m | In m) :: es => let '(out, ended) := loop es in (m :: out, ended)
  end.
Definition Run_bpf (es : list event) : list EnrichedFlow * result bool :=
  let '(out, ended) := loop es in (out, if (ended : bool) then _ ← Stop; Ok true else Ok false).

(** The whole of [Run]: what was sent, how it ended, and whether Out was closed and
    the wait group told, which is not so after an error of [Start]. *)
Inductive ending : Type := Returned_early | Looping | Done_ | Panics.
Definition Run (started : option Z) (es : list event) : list EnrichedFlow * ending :=
  match started with
  | None => ([], Returned_early)
  | Some _ => let '(out, r) := Run_bpf es in
              (out, match r with Ok true => Done_ | Ok false => Looping | _ => Panics end)
  end.

(** ** packet.go *)
Module packet.
Inductive opt_type : Type := option_ | duration | rfile | iface.
Record opt := mkopt { Name : string; Default : string; Options : list string; Type_ : opt_type }.

Section New.
Context {Pl : f64.Platform}.
(** [os.Stat] and [net.InterfaceByName] succeed; whether the binary has cgo. *)
Context (Stat InterfaceByName : string -> bool) (cgoEnabled : bool).

(** [None] is an error. *)
Definition parseOption (c : config) (o : opt) : option string :=
  match Type_ o with
  | option_ =>
      if is_empty (cfg c (Name o)) then (if is_empty (Default o) then None else Some (Default o))
      else if bool_decide (cfg c (Name o) ∈ Options o) then Some (cfg c (Name o)) else None
  | duration => match time.ParseDuration (cfg c (Name o)) with None => Some (Default o) | Some _ => Some (cfg c (Name o)) end
  | rfile =>
      if Stat (cfg c (Name o)) then Some (cfg c (Name o))
      else if is_empty (Default o) then None
      else if Stat (Default o) then None else Some (Default o)
  | iface =>
      if is_empty (cfg c (Name o)) then (if is_empty (Default o) then None else Some (Default o))
      else if InterfaceByName (cfg c (Name o)) then Some (cfg c (Name o)) else None
  end.

Definition methods : list string := ["pcapgo"; "pcap"; "pfring"; "file"]%string.
Record Packet := mkPacket {
  Method : string; Source : string; Filter : string; ActiveTimeout : string; InactiveTimeout : string;
  exporter : FlowCache.FlowExporter FlowCache.Aggregate.Packet }.
Definition or_nil {A} (o : option A) : created A := match o with Some a => Created a | None => NilSegment end.
Definition New (c : config) : created Packet :=
  active ← or_nil (parseOption c (mkopt "activetimeout" "30m" [] duration));
  inactive ← or_nil (parseOption c (mkopt "inactivetimeout" "15s" [] duration));
  method ← or_nil (parseOption c (mkopt "method" "pcapgo" methods option_));
  source ← or_nil (if seqb method "file" then parseOption c (mkopt "source" "" [] rfile)
                   else parseOption c (mkopt "source" "" [] iface));
  e ← or_nil (FlowCache.NewFlowExporter active inactive);
  Created {| Method := method; Source := source; Filter := if cgoEnabled then cfg c "filter" else "";
             ActiveTimeout := active; InactiveTimeout := inactive; exporter := e |}.
End New.

(** *** The source of the packets *)

(** A gopacket source reads from one of these. *)
Inductive source : Type := EthernetHandle | PcapHandle (filter : string) | PcapFile (filter : string) | NgReader.
Section Run.
(** Whether these calls succeed; [NewNgReader] gives the text of its error. *)
Context (NewEthernetHandle NewInactiveHandle Activate OpenOffline Open SetBPFFilter : string -> bool)
  (NewNgReader : string -> option string) (cgoEnabled : bool).

(** [packet_cgo.go] *)
Definition getPcapHandle (source_ filter : string) : created source :=
  if negb (NewInactiveHandle source_) then FatalExit
  else if negb (Activate source_) then FatalExit
  else if negb (SetBPFFilter filter) then FatalExit
  else Created (PcapHandle filter).
Definition getPcapFile (source_ filter : string) : created source :=
  if negb (OpenOffline source_) then FatalExit
  else if negb (SetBPFFilter filter) then FatalExit
  else Created (PcapFile filter).
(** A variable that nothing assigns: calling it panics. *)
Definition getPfringHandle (source_ filter : string) : created source := Panicked.

(** The switch of [Run]; [None] is a nil source. *)
Definition open_source (segment : Packet) : created (option source) :=
  let src := Source segment in
  let filter := Filter segment in
  if seqb (Method segment) "pcapgo" then if NewEthernetHandle src then Created (Some EthernetHandle) else FatalExit
  else if seqb (Method segment) "pcap" then if negb cgoEnabled then FatalExit else Some <$> getPcapHandle src filter
  else if seqb (Method segment) "pfring" then if negb cgoEnabled then FatalExit else Some <$> getPfringHandle src filter
  else if seqb (Method segment) "file" then
    if negb (Open src) then FatalExit
    else if negb (is_empty filter) && cgoEnabled then Some <$> getPcapFile src filter
    else match NewNgReader src with
         | None => Created (Some NgReader)
         | Some err => if seqb err "Unknown magic a1b2c3d4" && cgoEnabled then Some <$> getPcapFile src filter else FatalExit
         end
  else Created None.

(** *** The sampler address *)

(** [Addrs] of the interface; a nil interface or an error ends the process. *)
Definition sampler (segment : Packet) (Addrs : option (list addr)) : created net.IP :=
  if seqb (Method segment) "file" then Created None
  else match Addrs with None => FatalExit | Some addrs => Created (first_address addrs) end.
End Run.
End packet.

(** ** Theorems *)

(** *** Numbers *)
Fixpoint put_little (n : nat) (x : Z) : list Z := match n with O => [] | S n => x mod 256 :: put_little n (x / 256) end.
Lemma length_put_little n : forall x, length (put_little n x) = n.
Proof. induction n as [|n IH]; intros x; cbn; [done|by rewrite IH]. Qed.
Lemma little_put n : forall x, 0 <= x < 256 ^ Z.of_nat n -> little (put_little n x) = x.
Proof.
  induction n as [|n IH]; intros x Hx; cbn [put_little little]; [cbn in Hx; lia|].
  rewrite Nat2Z.inj_succ, Z.pow_succ_r in Hx by lia.
  rewrite IH by (split; [apply Z.div_pos; lia|apply Z.div_lt_upper_bound; lia]). pose proof (Z.div_mod x 256). lia.
Qed.
Lemma length_put_big n : forall x, length (put_big n x) = n.
Proof. induction n as [|n IH]; intros x; cbn; [done|]. rewrite length_app, IH. cbn. lia. Qed.
Fixpoint big (acc : Z) (bytes : list Z) : Z := match bytes with [] => acc | b :: bytes => big (256 * acc + b) bytes end.
Lemma big_app l : forall acc k, big acc (l ++ k) = big (big acc l) k.
Proof. induction l as [|b l IH]; intros acc k; cbn; [done|apply IH]. Qed.
Lemma big_put n : forall x, 0 <= x < 256 ^ Z.of_nat n -> big 0 (put_big n x) = x.
Proof.
  induction n as [|n IH]; intros x Hx; cbn [put_big]; [cbn in *; lia|].
  rewrite Nat2Z.inj_succ, Z.pow_succ_r in Hx by lia. rewrite big_app.
  rewrite IH by (split; [apply Z.div_pos; lia|apply Z.div_lt_upper_bound; lia]). cbn. pose proof (Z.div_mod x 256). lia.
Qed.

(** The kernel's side of a record: the fields one after the other, in the byte
    order of the machine for which the embedded object was compiled.  That object,
    bpf_bpfeb.o, is a big-endian one, while [Packets] reads little-endian. *)
Inductive order : Type := LittleEndian | BigEndian.
Definition put (o : order) (n : nat) (x : Z) : list Z :=
  match o with LittleEndian => put_little n x | BigEndian => put_big n x end.
Definition words_of (r : rawPacket) : list Z :=
  [SrcAddrHi r; SrcAddrLo r; DstAddrHi r; DstAddrLo r; InIf r; OutIf r; Bytes r; Etype r; Proto r; Ipv6FlowLabel r;
   SrcAddr r; DstAddr r; SrcPort r; DstPort r; IPTtl r; IPTos r; IcmpType r; IcmpCode r; TcpFlags r; FlowDirection r; RemoteAddr r].
Definition raw_sample (o : order) (r : rawPacket) : list Z := concat (zip_with (put o) raw_widths (words_of r)).
(** A record with the bytes of every field reversed. *)
Definition swap (n : nat) (x : Z) : Z := little (put_big n x).
Definition swapped (r : rawPacket) : rawPacket := default r (raw_of (zip_with swap raw_widths (words_of r))).
Definition in_width (w : nat) (x : Z) : Prop := 0 <= x < 256 ^ Z.of_nat w.

Lemma length_put o w x : length (put o w x) = w.
Proof. destruct o; [apply length_put_little|apply length_put_big]. Qed.
Lemma read_words_put o rest : forall ws xs, length ws = length xs ->
  read_words ws (concat (zip_with (put o) ws xs) ++ rest) = Some (zip_with (fun w x => little (put o w x)) ws xs).
Proof.
  induction ws as [|w ws IH]; intros [|x xs] Hl; try done. injection Hl as Hl.
  cbn [zip_with concat read_words]. rewrite <- app_assoc.
  assert ((length (put o w x ++ concat (zip_with (put o) ws xs) ++ rest) <? w)%nat = false) as ->
    by (apply Nat.ltb_ge; rewrite length_app, length_put; lia).
  rewrite drop_app_length', take_app_length' by (symmetry; apply length_put). by rewrite IH.
Qed.
Lemma read_little ws xs : Forall2 in_width ws xs -> zip_with (fun w x => little (put LittleEndian w x)) ws xs = xs.
Proof. induction 1 as [|w x ws xs Hx _ IH]; [done|]. cbn [zip_with]. f_equal; [by apply little_put|exact IH]. Qed.

(** C35. A record of the kernel, followed by any padding, is read back as the packet
    it describes if the kernel wrote it in little-endian byte order; of an IPv4 or
    IPv6 packet the addresses are then the big-endian bytes of the numbers, of any
    other packet they are nil.  A record written in big-endian order, as by the
    embedded object, is read with the bytes of every field reversed, so that IPv4
    and IPv6 packets lose their addresses. *)
Theorem raw_roundtrip (r : rawPacket) (padding : list Z) :
  Forall2 in_width raw_widths (words_of r) ->
  Packets [Record_ 0 (raw_sample LittleEndian r ++ padding); ErrClosed] = [parseRawPacket r] /\
  (Etype r = 0x0800 -> exists src dst, FlowCache.Bpf.SrcAddr (parseRawPacket r) = Some src /\ FlowCache.Bpf.DstAddr (parseRawPacket r) = Some dst /\
     length src = 4%nat /\ length dst = 4%nat /\ big 0 src = SrcAddr r /\ big 0 dst = DstAddr r) /\
  (Etype r = 0x86dd -> exists src dst, FlowCache.Bpf.SrcAddr (parseRawPacket r) = Some src /\ FlowCache.Bpf.DstAddr (parseRawPacket r) = Some dst /\
     length src = 16%nat /\ length dst = 16%nat /\ big 0 src = SrcAddrHi r * 2 ^ 64 + SrcAddrLo r /\ big 0 dst = DstAddrHi r * 2 ^ 64 + DstAddrLo r) /\
  (Etype r <> 0x0800 -> Etype r <> 0x86dd -> FlowCache.Bpf.SrcAddr (parseRawPacket r) = None /\ FlowCache.Bpf.DstAddr (parseRawPacket r) = None) /\
  Packets [Record_ 0 (raw_sample BigEndian r ++ padding); ErrClosed] = [parseRawPacket (swapped r)] /\
  (Etype r = 0x0800 \/ Etype r = 0x86dd ->
     FlowCache.Bpf.SrcAddr (parseRawPacket (swapped r)) = None /\ FlowCache.Bpf.DstAddr (parseRawPacket (swapped r)) = None).
Proof.
  intros Hr. assert (forall hi lo, in_width 8 hi -> in_width 8 lo -> big 0 (put_big 8 hi ++ put_big 8 lo) = hi * 2 ^ 64 + lo) as H8.
  { intros hi lo Hh Hl. rewrite big_app, (big_put 8 hi Hh).
    enough (forall n acc x, 0 <= x < 256 ^ Z.of_nat n -> big acc (put_big n x) = acc * 256 ^ Z.of_nat n + x) as H by (by rewrite H).
    clear. induction n as [|n IH]; intros acc x Hx; cbn [put_big]; [cbn in *; lia|].
    rewrite Nat2Z.inj_succ, Z.pow_succ_r in * by lia. rewrite big_app.
    rewrite IH by (split; [apply Z.div_pos; lia|apply Z.div_lt_upper_bound; lia]). cbn [big]. pose proof (Z.div_mod x 256). lia. }
  split_and!.
  - cbn [Packets]. unfold Read, raw_sample. by rewrite read_words_put, read_little.
  - intros E. unfold parseRawPacket. rewrite E. cbn [Z.eqb Pos.eqb]. repeat (apply Forall2_cons in Hr as [? Hr]).
    eexists _, _. split_and!; [done|done|apply length_put_big|apply length_put_big|by apply big_put|by apply big_put].
  - intros E. unfold parseRawPacket. rewrite E. cbn [Z.eqb Pos.eqb]. repeat (apply Forall2_cons in Hr as [? Hr]).
    eexists _, _. split_and!; [done|done|by rewrite length_app, !length_put_big|by rewrite length_app, !length_put_big|by apply H8|by apply H8].
  - intros H1 H2. unfold parseRawPacket. rewrite (proj2 (Z.eqb_neq _ _) H1), (proj2 (Z.eqb_neq _ _) H2). done.
  - cbn [Packets]. unfold Read, raw_sample. by rewrite read_words_put.
  - unfold parseRawPacket. assert (Etype (swapped r) = swap 4 (Etype r)) as -> by done. by intros [-> | ->].
Qed.

(** Every regular end of the bpf segment panics: the closers of the loaded objects
    are not implemented. *)
Theorem bpf_stop_panics (es : list event) (e : event) (rest : list event) (ms : list EnrichedFlow) :
  Forall2 (fun e m => e = Flow m \/ e = In m) es ms -> e = FlowsClosed \/ e = InClosed ->
  Run_bpf (es ++ e :: rest) = (ms, Panic).
Proof.
  intros H He. unfold Run_bpf. assert (loop (es ++ e :: rest) = (ms, true)) as ->; [|done].
  induction H as [|x m es ms Hx _ IH]; [by destruct He as [-> | ->]|]. cbn [app loop]. rewrite IH. by destruct Hx as [-> | ->].
Qed.

(** The packet segment is created exactly when its method is one of the four (or
    missing) and its source exists, whatever its timeouts: one that does not parse
    is replaced by its default, so the exporter never fails. *)
Theorem packet_New_total {Pl : f64.Platform} (Stat InterfaceByName : string -> bool) (cgo : bool) (c : config) :
  is_Some (time.ParseDuration "30m") -> is_Some (time.ParseDuration "15s") ->
  let method := if is_empty (cfg c "method") then "pcapgo"%string else cfg c "method" in
  (exists s, packet.New Stat InterfaceByName cgo c = Created s /\ packet.Method s = method) <->
  method ∈ packet.methods /\
  if seqb method "file" then Stat (cfg c "source") = true
  else cfg c "source" <> ""%string /\ InterfaceByName (cfg c "source") = true.
Proof.
  intros Ha Hi method.
  assert (forall key dflt, is_Some (time.ParseDuration dflt) ->
    exists d, packet.parseOption Stat InterfaceByName c (packet.mkopt key dflt [] packet.duration) = Some d /\ is_Some (time.ParseDuration d)) as Hd.
  { intros key dflt H. unfold packet.parseOption. cbn. destruct (time.ParseDuration (cfg c key)) eqn:E; by eexists. }
  destruct (Hd "activetimeout"%string "30m"%string Ha) as (a & Ea & [ta Pa]).
  destruct (Hd "inactivetimeout"%string "15s"%string Hi) as (i & Ei & [ti Pi]). clear Hd.
  unfold packet.New. rewrite Ea, Ei. cbn [packet.or_nil mbind created_bind].
  assert (packet.parseOption Stat InterfaceByName c (packet.mkopt "method" "pcapgo" packet.methods packet.option_) =
    if bool_decide (method ∈ packet.methods) then Some method else None) as ->.
  { unfold packet.parseOption, method. cbn [packet.Type_ packet.Name packet.Default packet.Options].
    destruct (is_empty (cfg c "method")); [by rewrite bool_decide_true by (apply (bool_decide_unpack _); done)|done]. }
  case_bool_decide as Hm; cbn [packet.or_nil mbind created_bind]; [|by split; [intros (s & ? & _)|intros [? _]]].
  assert ((if seqb method "file" then packet.parseOption Stat InterfaceByName c (packet.mkopt "source" "" [] packet.rfile)
    else packet.parseOption Stat InterfaceByName c (packet.mkopt "source" "" [] packet.iface)) =
    if (if seqb method "file" then Stat (cfg c "source") else negb (is_empty (cfg c "source")) && InterfaceByName (cfg c "source"))
    then Some (cfg c "source") else None) as ->.
  { unfold packet.parseOption. cbn. destruct (seqb method "file"); [done|]. by destruct (cfg c "source"). }
  assert ((if seqb method "file" then Stat (cfg c "source") = true
    else cfg c "source" <> ""%string /\ InterfaceByName (cfg c "source") = true) <->
    (if seqb method "file" then Stat (cfg c "source") else negb (is_empty (cfg c "source")) && InterfaceByName (cfg c "source")) = true) as ->.
  { destruct (seqb method "file"); [done|]. rewrite andb_true_iff. destruct (cfg c "source"); cbn; intuition congruence. }
  destruct (if seqb method "file" then _ else _); cbn [packet.or_nil mbind created_bind].
  - unfold FlowCache.NewFlowExporter. rewrite Pa, Pi. cbn. split; [done|]. intros _. by eexists.
  - split; [by intros (s & ? & _)|by intros [_ ?]].
Qed.

(** The sampler address is the first address of the interface that is an IP network
    and not a loopback, and nil exactly if there is none (or it is nil itself). *)
Theorem first_address_spec (addrs : list addr) (ip : net.IP) :
  first_address addrs = ip ->
  (exists before after, addrs = before ++ IPNet ip :: after /\ IsLoopback ip = false /\
     Forall (fun a => match a with IPNet i => IsLoopback i = true | OtherAddr => True end) before) \/
  (ip = None /\ Forall (fun a => match a with IPNet i => IsLoopback i = true | OtherAddr => True end) addrs).
Proof.
  intros <-. induction addrs as [|[i|] addrs IH]; cbn [first_address]; [by right| |].
  - destruct (IsLoopback i) eqn:E; cbn [negb].
    + destruct IH as [(b & a & Ea & Hl & Hb)|[En Hb]]; [left|right; by split; [|constructor]].
      exists (IPNet i :: b), a. split_and!; [simpl; congruence|done|by constructor].
    + left. by exists [], addrs.
  - destruct IH as [(b & a & Ea & Hl & Hb)|[En Hb]]; [left|right; by split; [|constructor]].
    exists (OtherAddr :: b), a. split_and!; [simpl; congruence|done|by constructor].
Qed.

(** Which source is used for which method; with pfring a binary built with cgo calls a
    function that is nil, the guard asking for cgo instead of pfring. *)
Theorem open_source_cases (Ethernet Inactive Activate Offline Open SetFilter : string -> bool) (Ng : string -> option string)
    (cgo : bool) (s : packet.Packet) :
  let run := packet.open_source Ethernet Inactive Activate Offline Open SetFilter Ng cgo s in
  packet.Method s ∈ packet.methods ->
  (forall r, run = Created r -> r <> None) /\
  (run = Panicked <-> packet.Method s = "pfring"%string /\ cgo = true) /\
  (packet.Method s = "file"%string -> cgo = false -> forall r, run = Created r -> r = Some packet.NgReader).
Proof.
  intros run Hm. subst run. unfold packet.open_source, packet.getPcapHandle, packet.getPcapFile, packet.getPfringHandle, packet.methods in *.
  rewrite !elem_of_cons in Hm.
  destruct Hm as [-> | [-> | [-> | [-> | []%elem_of_nil]]]]; cbn [seqb String.eqb Ascii.eqb eqb];
    destruct cgo; cbn [negb andb]; rewrite ?andb_false_r; repeat case_goal; cbn; split_and!; try done;
    try (split; [done|by intros []]); intros; simplify_eq; rewrite ?andb_false_r in *; congruence.
Qed.

(** An error while the bpf segment starts makes [Run] return without closing Out and
    without telling the wait group: the rest of the pipeline never ends. *)
Theorem bpf_start_fails (Socket Bind Setsockopt NewReader : bool) (size : Z) (es : list event) :
  (Run (Start Socket Bind Setsockopt NewReader size) es).2 = Returned_early <->
  ~ (Socket = true /\ Bind = true /\ Setsockopt = true /\ NewReader = true).
Proof.
  unfold Run, Start. destruct Socket, Bind, Setsockopt, NewReader; cbn; try (split; [intros _ (?&?&?&?); done|done]).
  split; [|intros []; done]. unfold Run_bpf. destruct (loop es) as [out []]; cbn; done.
Qed.

(** ** The theorems at work *)
Module witness.
Definition raw : rawPacket := mkraw 0 0 0 0 3 4 1500 0x0800 6 0 0x0A000001 0x0A000002 443 50000 64 0 0 0 2 0 0.
End witness.

(** The byte count 1500 is read as 0xDC050000 from a big-endian record. *)
Lemma raw_roundtrip_witness :
  Packets [Record_ 0 (raw_sample LittleEndian witness.raw ++ [0]); ErrClosed] = [parseRawPacket witness.raw] /\
  (exists src dst, FlowCache.Bpf.SrcAddr (parseRawPacket witness.raw) = Some src /\ FlowCache.Bpf.DstAddr (parseRawPacket witness.raw) = Some dst /\
    length src = 4%nat /\ length dst = 4%nat /\ big 0 src = 0x0A000001 /\ big 0 dst = 0x0A000002) /\
  Packets [Record_ 0 (raw_sample BigEndian witness.raw ++ [0]); ErrClosed] =
    [mkPacket None None 0x03000000 0x04000000 0xDC050000 0x80000 0x06000000 0 0xBB01 0x50C3 64 0 0 0 2 0 0].
Proof.
  destruct (raw_roundtrip witness.raw [0]) as (H1 & H2 & _ & _ & H3 & _).
  { repeat (constructor; [vm_compute; split; [discriminate|reflexivity]|]). constructor. }
  split; [exact H1|]. split; [apply H2; reflexivity|]. rewrite H3. vm_compute. reflexivity.
Defined.

Lemma bpf_stop_panics_witness : Run_bpf [Flow emptyFlow; InClosed] = ([emptyFlow], Panic).
Proof.
  apply (bpf_stop_panics [Flow emptyFlow] InClosed [] [emptyFlow]); [repeat constructor|by right].
Defined.

Lemma packet_New_total_witness :
  exists s, @packet.New f64.amd64 (fun _ => true) (fun _ => false) true {[ "method"%string := "file"%string; "source"%string := "x.pcap"%string ]} = Created s
    /\ packet.Method s = "file"%string.
Proof.
  apply (proj2 (@packet_New_total f64.amd64 (fun _ => true) (fun _ => false) true
    {[ "method"%string := "file"%string; "source"%string := "x.pcap"%string ]} ltac:(by eexists) ltac:(by eexists))).
  split; [apply (bool_decide_unpack _); vm_compute; exact I|reflexivity].
Defined.

Lemma first_address_spec_witness :
  first_address [IPNet (Some [127; 0; 0; 1]); OtherAddr; IPNet (Some [10; 0; 0; 1])] = Some [10; 0; 0; 1] /\
  exists before after, [IPNet (Some [127; 0; 0; 1]); OtherAddr; IPNet (Some [10; 0; 0; 1])] = before ++ IPNet (Some [10; 0; 0; 1]) :: after.
Proof.
  split; [reflexivity|].
  destruct (first_address_spec [IPNet (Some [127; 0; 0; 1]); OtherAddr; IPNet (Some [10; 0; 0; 1])] (Some [10; 0; 0; 1]) eq_refl)
    as [(b & a & E & _)|[E _]]; [by exists b, a|discriminate].
Defined.
Lemma open_source_cases_witness :
  packet.open_source (fun _ => true) (fun _ => true) (fun _ => true) (fun _ => true) (fun _ => true) (fun _ => true) (fun _ => None) true
    (packet.mkPacket "pfring" "eth0" "" "30m" "15s" (FlowCache.mkFlowExporter 1 1 None ∅)) = Panicked.
Proof.
  apply (open_source_cases (fun _ => true) (fun _ => true) (fun _ => true) (fun _ => true) (fun _ => true) (fun _ => true) (fun _ => None) true
    (packet.mkPacket "pfring" "eth0" "" "30m" "15s" (FlowCache.mkFlowExporter 1 1 None ∅))); [|by split].
  apply (bool_decide_unpack _). vm_compute. exact I.
Defined.
