(* ===== verification/Elephant.v ===== *)
(** * elephant ([segments/filter/elephant/elephant.go])

    The sliding window is the package [rolling], which is not part of the
    repository: the class [Rolling] names the operations the program uses, and
    [RollingLaws] what is relied on.  The clock is a sequence of readings. *)

From stdpp Require Import prelude strings list gmap.
From Stdlib Require Import ZArith Lia Ascii SpecFloat.
From S2P Require Import Prelude GoStd GoParse EnrichedFlow FlowMethods Segment.

Record Elephant := mkElephant {
  Aspect : string; Percentile : f64.float64; Exact : bool; Window : Z; RampupTime : Z }.

(** A time policy over a window of one-second buckets: [Append] and [Reduce]
    read the clock themselves. *)
Class Rolling (W : Type) : Type := {
  NewTimePolicy : Z -> W;
  Append : Z -> f64.float64 -> W -> W;
  PercentileExact : Z -> f64.float64 -> W -> f64.float64;
  PercentileFast : Z -> f64.float64 -> W -> f64.float64;
}.
#[global] Hint Mode Rolling ! : typeclass_instances.

Section elephant.
Context {W : Type} `{Rolling W}.

(** *** New *)
Definition aspects : list string := ["bytes"; "packets"; "bps"; "pps"]%string.
Definition New_aspect (c : config) : string :=
  if negb (is_empty (cfg c "aspect")) && bool_decide (gostrings.ToLower (cfg c "aspect") ∈ aspects)
  then gostrings.ToLower (cfg c "aspect") else "bytes".
Definition New_percentile (c : config) : created f64.float64 :=
  if is_empty (cfg c "percentile") then Created (f64.of_Z 99)
  else match ParseFloat.parse (cfg c "percentile") with
       | Some p => if SFeqb p (S754_zero false) then NilSegment else Created p
       | None => Created (f64.of_Z 99)
       end.
Definition New_exact (c : config) : bool :=
  if is_empty (cfg c "exact") then false else default false (strconv.ParseBool (cfg c "exact")).
(** An integer parameter with a smallest value and a default. *)
Definition New_int (c : config) (key : string) (least dflt : Z) : created Z :=
  if is_empty (cfg c key) then Created dflt
  else match strconv.ParseInt 64 (cfg c key) with
       | Some n => if n <? least then NilSegment
                   else if 2 ^ 63 - 1 <? n then NilSegment else Created n
       | None => Created dflt
       end.
Definition New (c : config) : created Elephant :=
  percentile ← New_percentile c;
  window ← New_int c "window" 1 300;
  rampuptime ← New_int c "rampuptime" 0 0;
  Created {| Aspect := New_aspect c; Percentile := percentile; Exact := New_exact c;
             Window := window; RampupTime := rampuptime |}.

(** *** Run *)
(** The duration of a flow, at least 1 unless End is before Start. *)
Definition duration (msg : EnrichedFlow) : Z :=
  let d := u64 (TimeFlowEnd msg - TimeFlowStart msg) in if d =? 0 then u64 (d + 1) else d.
(** [var aspect float64], which keeps its zero for any other name. *)
Definition aspect_of (aspect : string) (msg : EnrichedFlow) : f64.float64 :=
  if seqb aspect "bytes" then f64.of_Z (Bytes msg)
  else if seqb aspect "bps" then f64.of_Z (u64 (Bytes msg * 8) / duration msg)
  else if seqb aspect "pps" then f64.of_Z (Packets msg / duration msg)
  else if seqb aspect "packets" then f64.of_Z (Packets msg)
  else f64.of_Z 0.

(** The loop's variables; [clock (reading s)] is what the next [time.Now]
    returns, in nanoseconds. *)
Record running := mkrunning {
  segment : Elephant; window : W; inRampup : bool; rampupEnd : Z; clock : nat -> Z; reading : nat }.
Definition now (s : running) : Z := clock s (reading s).
Definition start (e : Elephant) (clock : nat -> Z) : running :=
  let ramp := 0 <? RampupTime e in
  {| segment := e; window := NewTimePolicy (Window e); inRampup := ramp;
     rampupEnd := if ramp then clock 0%nat + i64 (RampupTime e * time.Second) else 0;
     clock := clock; reading := 1 |}.

Definition threshold (s : running) (w : W) : f64.float64 :=
  if Exact (segment s) then PercentileExact (now s) (Percentile (segment s)) w
  else PercentileFast (now s) (Percentile (segment s)) w.
(** The state after a message is appended and the clock is looked at. *)
Definition appended (s : running) (msg : EnrichedFlow) : running :=
  {| segment := segment s; window := Append (now s) (aspect_of (Aspect (segment s)) msg) (window s);
     inRampup := inRampup s && negb (rampupEnd s <? now s);
     rampupEnd := rampupEnd s; clock := clock s; reading := S (reading s) |}.
Definition selected (s : running) (msg : EnrichedFlow) : bool :=
  negb (inRampup (appended s msg)) &&
  f64.leb (threshold s (window (appended s msg))) (aspect_of (Aspect (segment s)) msg).

#[export] Instance Elephant_segment : Segment running := {|
  seg_filter := true;
  seg_step := fun b s msg =>
    (appended s msg, if selected s msg then [EOut msg] else to_drops b msg)
|}.
#[export] Instance Elephant_selects : Selects running.
Proof. intros b s m. simpl. destruct (selected s m); auto. Qed.
#[export] Instance Elephant_laws : SegmentLaws running.
Proof.
  split; [|done]. intros s m. simpl. destruct (selected s m); repeat constructor.
Qed.

(** *** Facts *)
Lemma New_int_range c key least dflt n :
  New_int c key least dflt = Created n -> least <= dflt <= 2 ^ 63 - 1 -> least <= n <= 2 ^ 63 - 1.
Proof. unfold New_int. repeat case_goal; intros; simplify_eq; lia. Qed.

Lemma New_aspect_known c : New_aspect c ∈ aspects.
Proof.
  unfold New_aspect. destruct (negb _); simpl; [|by left].
  case_bool_decide as E; [exact E|by left].
Qed.

(** A configured elephant segment has one of the four aspects, a positive
    window, and a ramp-up time that is not negative, whatever the configuration
    says; its percentile is never zero. *)
Theorem elephant_New_valid c e :
  New c = Created e ->
  Aspect e ∈ aspects /\ 1 <= Window e <= 2 ^ 63 - 1 /\ 0 <= RampupTime e <= 2 ^ 63 - 1 /\
  SFeqb (Percentile e) (S754_zero false) = false.
Proof.
  unfold New. intros (p & Hp & (w & Hw & (r & Hr & He)%created_bind_inv)%created_bind_inv)%created_bind_inv.
  injection He as <-. simpl. split; [apply New_aspect_known|].
  apply New_int_range in Hw; [|lia]. apply New_int_range in Hr; [|lia].
  split_and!; try lia. unfold New_percentile in Hp.
  repeat case_hyp Hp; simplify_eq; done.
Qed.

Lemma duration_positive msg : 0 < duration msg < 2 ^ 64.
Proof.
  unfold duration. pose proof (wrap_range 64 (TimeFlowEnd msg - TimeFlowStart msg)) as Hr.
  unfold in_u in Hr. destruct (Z.eqb_spec (u64 (TimeFlowEnd msg - TimeFlowStart msg)) 0) as [->|Hne].
  - by vm_compute.
  - lia.
Qed.

Lemma duration_ordered msg :
  in_u 64 (TimeFlowStart msg) -> in_u 64 (TimeFlowEnd msg) -> TimeFlowStart msg <= TimeFlowEnd msg ->
  duration msg = Z.max 1 (TimeFlowEnd msg - TimeFlowStart msg).
Proof.
  unfold in_u, duration. intros Hs He Hle. rewrite wrap_small by (unfold in_u; lia).
  destruct (Z.eqb_spec (TimeFlowEnd msg - TimeFlowStart msg) 0) as [->|]; [done|lia].
Qed.

(** The rate aspects never divide by zero, and on flows that do not end
    before they start and whose bit count fits in 64 bits they are the integer
    quotients of the counts by the duration, a duration of zero counting as
    one. *)
Theorem elephant_rates msg :
  in_u 64 (TimeFlowStart msg) -> in_u 64 (TimeFlowEnd msg) -> TimeFlowStart msg <= TimeFlowEnd msg ->
  in_u 64 (Bytes msg * 8) ->
  let d := Z.max 1 (TimeFlowEnd msg - TimeFlowStart msg) in
  0 < d /\ aspect_of "bps" msg = f64.of_Z (Bytes msg * 8 / d) /\ aspect_of "pps" msg = f64.of_Z (Packets msg / d).
Proof.
  intros Hs He Hle Hb d. split; [lia|]. unfold aspect_of. simpl.
  rewrite duration_ordered by done. by rewrite (wrap_small 64 (Bytes msg * 8)).
Qed.

Lemma appended_rampup s msg :
  inRampup s = true -> now s <= rampupEnd s -> inRampup (appended s msg) = true.
Proof. intros Hr Hn. simpl. rewrite Hr. simpl. case Z.ltb_spec; [lia|done]. Qed.

(** Ramp-up: as long as the clock has not passed the end of the ramp-up
    time every flow is dropped, whatever its size, and still counts for the
    window. *)
Theorem elephant_rampup_drops b (s : running) ms :
  inRampup s = true ->
  (forall k, (k < length ms)%nat -> clock s (reading s + k)%nat <= rampupEnd s) ->
  outs (run b s ms).2 = [] /\ drops (run b s ms).2 = (if b then ms else []) /\
  reading (run b s ms).1 = (reading s + length ms)%nat.
Proof.
  revert s. induction ms as [|m ms IH]; intros s Hr Hc; [by destruct b|].
  assert (inRampup (appended s m) = true) as Hr'.
  { apply appended_rampup; [done|]. unfold now. specialize (Hc 0%nat). simpl in Hc.
    rewrite Nat.add_0_r in Hc. apply Hc. lia. }
  destruct (IH (appended s m) Hr') as (Ho & Hd & Hk).
  { intros k Hk. specialize (Hc (S k)). simpl in *. rewrite Nat.add_succ_r in Hc. apply Hc. lia. }
  rewrite run_cons. cbn [seg_step Elephant_segment fst snd]. unfold selected.
  rewrite Hr'. cbn [negb andb]. rewrite outs_app, drops_app, Ho, Hd, Hk.
  destruct b; simpl; split_and!; try done; lia.
Qed.

(** What the program relies on: a percentile of the values in a window does
    not exceed their maximum, and [Append] adds one value to those present. *)
Class RollingLaws (values : Z -> W -> list f64.float64) : Prop := {
  values_append : forall now x w, values now (Append now x w) ≡ₚ x :: values now w;
  exact_below_max : forall now p w x, x ∈ values now w ->
    Forall (fun y => f64.leb y x = true) (values now w) -> f64.leb (PercentileExact now p w) x = true;
  fast_below_max : forall now p w x, x ∈ values now w ->
    Forall (fun y => f64.leb y x = true) (values now w) -> f64.leb (PercentileFast now p w) x = true;
}.

(** The largest flow of the window always passes once the ramp-up time is
    over: a flow whose aspect is at least that of every flow still in the
    window is forwarded, for either kind of percentile. *)
Theorem elephant_largest_passes values `{!RollingLaws values} b (s : running) msg :
  inRampup s = false \/ rampupEnd s < now s ->
  f64.leb (aspect_of (Aspect (segment s)) msg) (aspect_of (Aspect (segment s)) msg) = true ->
  Forall (fun y => f64.leb y (aspect_of (Aspect (segment s)) msg) = true) (values (now s) (window s)) ->
  (seg_step b s msg).2 = [EOut msg].
Proof.
  intros Hr Hx Hmax. cbn [seg_step Elephant_segment snd].
  assert (selected s msg = true) as ->; [|done]. unfold selected, threshold. simpl.
  assert (inRampup s && negb (rampupEnd s <? now s) = false) as ->.
  { destruct Hr as [->|Hr]; [done|]. apply Z.ltb_lt in Hr. rewrite Hr. apply andb_false_r. }
  simpl. remember (aspect_of (Aspect (segment s)) msg) as v eqn:Hv.
  pose proof (values_append (now s) v (window s)) as Hp.
  assert (v ∈ values (now s) (Append (now s) v (window s))) by (rewrite Hp; by left).
  assert (Forall (fun y => f64.leb y v = true) (values (now s) (Append (now s) v (window s))))
    by (rewrite Hp; by constructor).
  destruct (Exact (segment s)); [by eapply exact_below_max|by eapply fast_below_max].
Qed.
End elephant.

(** ** The theorems at work

    A window that keeps everything, whose percentiles are its first value. *)
Module witness.
#[export] Instance list_rolling : Rolling (list f64.float64) := {|
  NewTimePolicy := fun _ => [];
  Append := fun _ x w => w ++ [x];
  PercentileExact := fun _ _ w => default (f64.of_Z 0) (head w);
  PercentileFast := fun _ _ w => default (f64.of_Z 0) (head w);
|}.
Lemma head_below_max (w : list f64.float64) x :
  x ∈ w -> Forall (fun y => f64.leb y x = true) w -> f64.leb (default (f64.of_Z 0) (head w)) x = true.
Proof. intros Hx Hw. destruct Hw; [by apply not_elem_of_nil in Hx|done]. Qed.
#[export] Instance list_laws : RollingLaws (fun _ w => w).
Proof.
  split.
  - intros n x w. simpl. by rewrite Permutation_app_comm.
  - intros n p w x. apply head_below_max.
  - intros n p w x. apply head_below_max.
Qed.
Definition flow (bytes : Z) : EnrichedFlow := set_Bytes bytes (set_TimeFlowStart 10 (set_TimeFlowEnd 12 emptyFlow)).
Definition segment : Elephant := mkElephant "bytes" (f64.of_Z 99) false 300 60.
Definition state (clock : nat -> Z) : @running (list f64.float64) := start segment clock.
End witness.
Import witness.

Lemma elephant_New_valid_witness :
  let c : config := {[ "aspect"%string := "BPS"%string; "window"%string := "60"%string ]} in
  exists e, New c = Created e /\ Aspect e ∈ aspects /\ 1 <= Window e <= 2 ^ 63 - 1 /\
    0 <= RampupTime e <= 2 ^ 63 - 1 /\ SFeqb (Percentile e) (S754_zero false) = false.
Proof. intros c. eexists. split; [vm_compute; reflexivity|]. apply (elephant_New_valid c). vm_compute. reflexivity. Defined.

Lemma elephant_rates_witness :
  aspect_of "bps" (witness.flow 1000) = f64.of_Z 4000.
Proof.
  destruct (elephant_rates (witness.flow 1000)) as (_ & Hb & _);
    [unfold in_u; simpl; lia..|exact Hb].
Defined.

(** Sixty seconds of ramp-up: two large flows at 1s and 2s are dropped. *)
Lemma elephant_rampup_drops_witness :
  let clock := fun n => Z.of_nat n * 10 ^ 9 in
  let ms := [witness.flow 5000; witness.flow 6000] in
  drops (run true (witness.state clock) ms).2 = ms.
Proof.
  intros clock ms. destruct (elephant_rampup_drops true (witness.state clock) ms) as (_ & Hd & _);
    [reflexivity| |exact Hd].
  intros [|[|k]] Hk; [vm_compute; discriminate..|]. simpl in Hk. lia.
Defined.

Lemma elephant_largest_passes_witness :
  let s := (seg_step false (witness.state (fun n => Z.of_nat n * 10 ^ 12)) (witness.flow 100)).1 in
  (seg_step false s (witness.flow 100)).2 = [EOut (witness.flow 100)].
Proof.
  intros s. apply (elephant_largest_passes (fun _ w => w) false s (witness.flow 100)).
  - right. reflexivity.
  - reflexivity.
  - by repeat constructor.
Defined.
