(* ===== verification/TopTalkers.v ===== *)
(** * Top talkers ([segments/analysis/toptalkers_metrics])

    A [Record] counts the traffic of one address in a ring of buckets; a
    [Database] maps keys to records, advances all rings once per bucket and
    deletes the empty records from time to time.  [history] is what a record
    stands for: the buckets from the current one back in time.  The locks make
    each operation atomic.  Prometheus is not modelled beyond the values it is
    given, and the parameters of the HTTP server beyond their configuration. *)

From stdpp Require Import prelude strings list gmap fin_maps.
From Stdlib Require Import ZArith Lia.
From S2P Require Import Prelude GoStd EnrichedFlow FlowMethods Segment.

(** ** toptalker_database.go: Record *)
Record Record_ := mkRecord {
  FwdBytes : list Z; FwdPackets : list Z; DropBytes : list Z; DropPackets : list Z;
  capacity : Z; pointer : Z; aboveThreshold : bool; Address : string }.

(** [make] panics on a negative length. *)
Definition NewRecord (windowSize : Z) (address : string) : result Record_ :=
  if windowSize <? 0 then Panic
  else let zeros := replicate (Z.to_nat windowSize) 0 in
       Ok {| FwdBytes := zeros; FwdPackets := zeros; DropBytes := zeros; DropPackets := zeros;
             capacity := windowSize; pointer := 0; aboveThreshold := false; Address := address |}.

(** [l[i]] and [l[i] = x]; an index out of range panics. *)
Definition index (l : list Z) (i : Z) : result Z :=
  if i <? 0 then Panic else match l !! Z.to_nat i with Some x => Ok x | None => Panic end.
Definition assign (l : list Z) (i x : Z) : result (list Z) :=
  _ ← index l i; Ok (<[Z.to_nat i := x]> l).
Definition add_at (l : list Z) (i x : Z) : result (list Z) :=
  y ← index l i; assign l i (u64 (y + x)).

Definition set_fwd (fb fp : list Z) (r : Record_) : Record_ :=
  {| FwdBytes := fb; FwdPackets := fp; DropBytes := DropBytes r; DropPackets := DropPackets r;
     capacity := capacity r; pointer := pointer r; aboveThreshold := aboveThreshold r; Address := Address r |}.
Definition set_drop (db dp : list Z) (r : Record_) : Record_ :=
  {| FwdBytes := FwdBytes r; FwdPackets := FwdPackets r; DropBytes := db; DropPackets := dp;
     capacity := capacity r; pointer := pointer r; aboveThreshold := aboveThreshold r; Address := Address r |}.

Definition Append (bytes packets : Z) (statusFwd : bool) (record : Record_) : result Record_ :=
  if statusFwd then
    fb ← add_at (FwdBytes record) (pointer record) bytes;
    fp ← add_at (FwdPackets record) (pointer record) packets;
    Ok (set_fwd fb fp record)
  else
    db ← add_at (DropBytes record) (pointer record) bytes;
    dp ← add_at (DropPackets record) (pointer record) packets;
    Ok (set_drop db dp record).

(** The loop over [0 .. capacity-1]. *)
Fixpoint empty_loop (record : Record_) (n : nat) (i : Z) : result bool :=
  match n with
  | O => Ok true
  | S n =>
      fp ← index (FwdPackets record) i;
      if 0 <? fp then Ok false
      else dp ← index (DropPackets record) i;
           if 0 <? dp then Ok false else empty_loop record n (i + 1)
  end.
Definition isEmpty (record : Record_) : result bool := empty_loop record (Z.to_nat (capacity record)) 0.

(** The counters of one bucket. *)
Record bucket := mkbucket { fwd_bytes : Z; fwd_packets : Z; drop_bytes : Z; drop_packets : Z }.
Definition no_traffic : bucket := mkbucket 0 0 0 0.
Definition add_bucket (a b : bucket) : bucket :=
  mkbucket (u64 (fwd_bytes a + fwd_bytes b)) (u64 (fwd_packets a + fwd_packets b))
           (u64 (drop_bytes a + drop_bytes b)) (u64 (drop_packets a + drop_packets b)).
Definition bucket_at (record : Record_) (pos : Z) : result bucket :=
  fb ← index (FwdBytes record) pos; fp ← index (FwdPackets record) pos;
  db ← index (DropBytes record) pos; dp ← index (DropPackets record) pos;
  Ok (mkbucket fb fp db dp).
(** The position one bucket back. *)
Definition back (record : Record_) (pos : Z) : Z := if pos <=? 0 then capacity record - 1 else pos - 1.

(** The loop of GetMetrics. *)
Fixpoint metrics_loop (record : Record_) (n : nat) (pos : Z) (sums : bucket) : result bucket :=
  match n with
  | O => Ok sums
  | S n =>
      let pos := back record pos in
      b ← bucket_at record pos;
      metrics_loop record n pos (add_bucket sums b)
  end.
(** A sum over [buckets] buckets as a rate. *)
Definition rate (sum buckets bucketDuration : Z) : f64.float64 :=
  f64.div (f64.of_Z sum) (f64.of_Z (i64 (buckets * bucketDuration))).
Record metrics := mkmetrics {
  sumFwdBps : f64.float64; sumFwdPps : f64.float64; sumDropBps : f64.float64; sumDropPps : f64.float64 }.
Definition rates (b : bucket) (buckets bucketDuration : Z) : metrics :=
  {| sumFwdBps := rate (u64 (fwd_bytes b * 8)) buckets bucketDuration;
     sumFwdPps := rate (fwd_packets b) buckets bucketDuration;
     sumDropBps := rate (u64 (drop_bytes b * 8)) buckets bucketDuration;
     sumDropPps := rate (drop_packets b) buckets bucketDuration |}.
Definition GetMetrics (buckets bucketDuration : Z) (record : Record_) : result (metrics * string) :=
  let buckets := if buckets =? 0 then capacity record else buckets in
  b ← metrics_loop record (Z.to_nat buckets) (pointer record) no_traffic;
  Ok (rates b buckets bucketDuration, Address record).

(** The loop of tick: sums of bytes and of packets. *)
Fixpoint threshold_loop (record : Record_) (n : nat) (pos sumBytes sumPackets : Z) : result (Z * Z) :=
  match n with
  | O => Ok (sumBytes, sumPackets)
  | S n =>
      let pos := back record pos in
      b ← bucket_at record pos;
      threshold_loop record n pos (u64 (u64 (sumBytes + fwd_bytes b) + drop_bytes b))
                                  (u64 (u64 (sumPackets + fwd_packets b) + drop_packets b))
  end.

Section tick.
Context `{f64.Platform}.

Definition exceeds (sumBytes sumPackets buckets bucketDuration thresholdBps thresholdPps : Z) : bool :=
  let bps := f64.u64_of (rate (u64 (sumBytes * 8)) buckets bucketDuration) in
  let pps := f64.u64_of (rate sumPackets buckets bucketDuration) in
  (thresholdBps <? bps) && (thresholdPps <? pps).

Definition advance (record : Record_) : Record_ :=
  let p := pointer record + 1 in
  {| FwdBytes := FwdBytes record; FwdPackets := FwdPackets record; DropBytes := DropBytes record;
     DropPackets := DropPackets record; capacity := capacity record;
     pointer := if capacity record <=? p then 0 else p;
     aboveThreshold := aboveThreshold record; Address := Address record |}.
Definition set_above (b : bool) (r : Record_) : Record_ :=
  {| FwdBytes := FwdBytes r; FwdPackets := FwdPackets r; DropBytes := DropBytes r; DropPackets := DropPackets r;
     capacity := capacity r; pointer := pointer r; aboveThreshold := b; Address := Address r |}.
Definition clear (record : Record_) : result Record_ :=
  fb ← assign (FwdBytes record) (pointer record) 0;
  fp ← assign (FwdPackets record) (pointer record) 0;
  db ← assign (DropBytes record) (pointer record) 0;
  dp ← assign (DropPackets record) (pointer record) 0;
  Ok (set_drop db dp (set_fwd fb fp record)).

Definition tick (thresholdBuckets bucketDuration thresholdBps thresholdPps : Z) (record : Record_) : result Record_ :=
  let record := advance record in
  let thresholdBuckets := if thresholdBuckets =? 0 then capacity record else thresholdBuckets in
  '(sumBytes, sumPackets) ← threshold_loop record (Z.to_nat thresholdBuckets) (pointer record) 0 0;
  clear (set_above (exceeds sumBytes sumPackets thresholdBuckets bucketDuration thresholdBps thresholdPps) record).
End tick.

(** ** What a record stands for *)

(** The current bucket and the finished ones, the latest first. *)
Record history := mkhistory { current : bucket; finished : list bucket }.
Definition nth_bucket (h : history) (k : nat) : bucket := nth k (current h :: finished h) no_traffic.
(** The [n] latest finished buckets; before the start there was no traffic. *)
Definition latest (n : nat) (h : history) : list bucket :=
  (fun k => nth k (finished h) no_traffic) <$> seq 0 n.
Definition counted (bytes packets : Z) (statusFwd : bool) (b : bucket) : bucket :=
  if statusFwd then mkbucket (u64 (fwd_bytes b + bytes)) (u64 (fwd_packets b + packets)) (drop_bytes b) (drop_packets b)
  else mkbucket (fwd_bytes b) (fwd_packets b) (u64 (drop_bytes b + bytes)) (u64 (drop_packets b + packets)).
Definition spec_append (bytes packets : Z) (statusFwd : bool) (h : history) : history :=
  mkhistory (counted bytes packets statusFwd (current h)) (finished h).
Definition spec_tick (h : history) : history := mkhistory no_traffic (current h :: finished h).

(** The ring shows the last [capacity] buckets of the history. *)
Record shows (r : Record_) (h : history) : Prop := {
  shows_pointer : 0 <= pointer r < capacity r;
  shows_buckets : forall k : nat, Z.of_nat k < capacity r ->
    bucket_at r ((pointer r - Z.of_nat k) mod capacity r) = Ok (nth_bucket h k) }.

(** The sums the segment compares and exports. *)
Definition bytes_of (b : bucket) : Z := fwd_bytes b + drop_bytes b.
Definition packets_of (b : bucket) : Z := fwd_packets b + drop_packets b.
Definition sums (bs : list bucket) : bucket :=
  mkbucket (sum_u 64 (fwd_bytes <$> bs)) (sum_u 64 (fwd_packets <$> bs))
           (sum_u 64 (drop_bytes <$> bs)) (sum_u 64 (drop_packets <$> bs)).

Lemma index_insert l i j x y : index l i = Ok y ->
  index (<[Z.to_nat i := x]> l) j = if i =? j then Ok x else index l j.
Proof.
  unfold index. destruct (Z.ltb_spec i 0); [done|].
  destruct (l !! Z.to_nat i) eqn:E; [|done]. intros _.
  destruct (Z.eqb_spec i j) as [->|Hne].
  - destruct (Z.ltb_spec j 0); [lia|]. rewrite list_lookup_insert_eq; [done|]. by eapply lookup_lt_Some.
  - destruct (Z.ltb_spec j 0); [done|]. by rewrite list_lookup_insert_ne by lia.
Qed.

Lemma bucket_at_inv r p b : bucket_at r p = Ok b ->
  index (FwdBytes r) p = Ok (fwd_bytes b) /\ index (FwdPackets r) p = Ok (fwd_packets b) /\
  index (DropBytes r) p = Ok (drop_bytes b) /\ index (DropPackets r) p = Ok (drop_packets b).
Proof.
  unfold bucket_at.
  destruct (index (FwdBytes r) p), (index (FwdPackets r) p), (index (DropBytes r) p), (index (DropPackets r) p);
    simpl; intros; simplify_eq; done.
Qed.

(** Each write touches the bucket under the pointer only. *)
Definition written (r r' : Record_) (b : bucket) : Prop :=
  pointer r' = pointer r /\ capacity r' = capacity r /\ Address r' = Address r /\
  forall p, bucket_at r' p = if pointer r =? p then Ok b else bucket_at r p.

Lemma Append_written bytes packets fwd r b : bucket_at r (pointer r) = Ok b ->
  exists r', Append bytes packets fwd r = Ok r' /\ written r r' (counted bytes packets fwd b).
Proof.
  intros (Hfb & Hfp & Hdb & Hdp)%bucket_at_inv. unfold Append, add_at, assign.
  destruct fwd; [rewrite Hfb, Hfp|rewrite Hdb, Hdp]; simpl; eexists; (split; [done|]);
    (split_and!; [done..|]); intros p; unfold bucket_at; simpl;
    [rewrite (index_insert _ _ _ _ _ Hfb), (index_insert _ _ _ _ _ Hfp)
    |rewrite (index_insert _ _ _ _ _ Hdb), (index_insert _ _ _ _ _ Hdp)];
    destruct (Z.eqb_spec (pointer r) p) as [<-|]; rewrite ?Hfb, ?Hfp, ?Hdb, ?Hdp; done.
Qed.

Lemma clear_written r b : bucket_at r (pointer r) = Ok b ->
  exists r', clear r = Ok r' /\ written r r' no_traffic /\ aboveThreshold r' = aboveThreshold r.
Proof.
  intros (Hfb & Hfp & Hdb & Hdp)%bucket_at_inv. unfold clear, assign. rewrite Hfb, Hfp, Hdb, Hdp. simpl.
  eexists. split; [done|]. split; [|done]. split_and!; [done..|]. intros p. unfold bucket_at. simpl.
  rewrite (index_insert _ _ _ _ _ Hfb), (index_insert _ _ _ _ _ Hfp), (index_insert _ _ _ _ _ Hdb),
    (index_insert _ _ _ _ _ Hdp).
  by destruct (Z.eqb_spec (pointer r) p).
Qed.

Lemma mod_distinct p k c : 0 <= p < c -> 0 < Z.of_nat k < c -> (p - Z.of_nat k) mod c <> p.
Proof.
  intros Hp Hk E. destruct (Z.leb_spec (Z.of_nat k) p).
  - rewrite Z.mod_small in E by lia. lia.
  - rewrite <- (Z.mod_unique (p - Z.of_nat k) c (-1) (p - Z.of_nat k + c)) in E by lia. lia.
Qed.

Lemma shows_current r h : shows r h -> bucket_at r (pointer r) = Ok (current h).
Proof.
  intros [Hp Hb]. specialize (Hb 0%nat ltac:(lia)). rewrite Z.sub_0_r, Z.mod_small in Hb by done. exact Hb.
Qed.

(** Writing the current bucket. *)
Lemma shows_written r r' h b : shows r h -> written r r' b -> shows r' (mkhistory b (finished h)).
Proof.
  intros Hs (Hp & Hc & _ & Hb). pose proof Hs as [Hr Hbs]. split; rewrite Hp, Hc; [done|].
  intros [|k] Hk; rewrite Hb.
  - rewrite Z.sub_0_r, Z.mod_small, Z.eqb_refl by done. done.
  - destruct (Z.eqb_spec (pointer r) ((pointer r - Z.of_nat (S k)) mod capacity r)) as [E|].
    + symmetry in E. apply mod_distinct in E; [done|done|lia].
    + by rewrite Hbs.
Qed.

Lemma advance_pointer r : 0 <= pointer r < capacity r ->
  pointer (advance r) = (pointer r + 1) mod capacity r /\ 0 <= pointer (advance r) < capacity r.
Proof.
  intros Hp. simpl. destruct (Z.leb_spec (capacity r) (pointer r + 1)).
  - assert (pointer r + 1 = capacity r) as -> by lia. rewrite Z.mod_same by lia. lia.
  - rewrite Z.mod_small by lia. lia.
Qed.

(** One bucket back, seen from the advanced pointer. *)
Lemma advance_back r k : 0 <= pointer r < capacity r ->
  (pointer (advance r) - Z.of_nat (S k)) mod capacity r = (pointer r - Z.of_nat k) mod capacity r.
Proof.
  intros Hp. destruct (advance_pointer r Hp) as [-> _].
  rewrite Zminus_mod_idemp_l. f_equal. lia.
Qed.

(** The buckets a loop meets on its way back from [pos]. *)
Fixpoint visits (r : Record_) (pos : Z) (bs : list bucket) : Prop :=
  match bs with
  | [] => True
  | b :: bs => bucket_at r (back r pos) = Ok b /\ visits r (back r pos) bs
  end.

Lemma back_mod r pos : 0 <= pos < capacity r ->
  back r pos = (pos - 1) mod capacity r /\ 0 <= back r pos < capacity r.
Proof.
  intros Hp. unfold back. destruct (Z.leb_spec pos 0).
  - rewrite <- (Z.mod_unique (pos - 1) (capacity r) (-1) (pos - 1 + capacity r)); lia.
  - rewrite Z.mod_small; lia.
Qed.

Lemma visits_map r (f : nat -> bucket) n : forall pos j, 0 <= pos < capacity r ->
  (forall k, (k < n)%nat -> bucket_at r ((pos - Z.of_nat (S k)) mod capacity r) = Ok (f (j + k)%nat)) ->
  visits r pos (f <$> seq j n).
Proof.
  induction n as [|n IH]; intros pos j Hp Hf; [done|]. cbn [seq fmap list_fmap visits].
  destruct (back_mod r pos Hp) as [Eb Hb]. split.
  - rewrite Eb. specialize (Hf 0%nat ltac:(lia)). by rewrite Nat.add_0_r in Hf.
  - apply IH; [done|]. intros k Hk. rewrite Eb, Zminus_mod_idemp_l. specialize (Hf (S k) ltac:(lia)).
    rewrite Nat.add_succ_r in Hf. simpl Nat.add. rewrite <- Hf. f_equal. f_equal. lia.
Qed.

Lemma metrics_loop_sums r bs : forall pos s, visits r pos bs ->
  in_u 64 (fwd_bytes s) -> in_u 64 (fwd_packets s) -> in_u 64 (drop_bytes s) -> in_u 64 (drop_packets s) ->
  metrics_loop r (length bs) pos s = Ok (add_bucket s (sums bs)).
Proof.
  induction bs as [|b bs IH]; intros pos [fb fp db dp] Hv H1 H2 H3 H4; simpl in *.
  - unfold add_bucket, sums, sum_u; simpl. autorewrite with wrap_db. rewrite !Z.add_0_r, !wrap_small by done. done.
  - destruct Hv as [Hb Hv]. rewrite Hb. simpl.
    rewrite (IH (back r pos)) by (try done; by apply wrap_range).
    unfold add_bucket, sums. rewrite !fmap_cons, !sum_u_cons. simpl. autorewrite with wrap_db.
    do 2 f_equal; f_equal; lia.
Qed.

Lemma wrap_sum3 a c d e : u64 (u64 (u64 (a + c) + d) + u64 e) = u64 (a + u64 (c + d + u64 e)).
Proof.
  rewrite (wrap_add_l 64 (a + c)), wrap_add_l. autorewrite with wrap_db.
  replace (a + (c + d + u64 e)) with (a + c + d + u64 e) by lia. by rewrite wrap_add_r.
Qed.

Lemma threshold_loop_sums r bs : forall pos sb sp, visits r pos bs -> in_u 64 sb -> in_u 64 sp ->
  threshold_loop r (length bs) pos sb sp =
  Ok (u64 (sb + sum_u 64 (bytes_of <$> bs)), u64 (sp + sum_u 64 (packets_of <$> bs))).
Proof.
  induction bs as [|b bs IH]; intros pos sb sp Hv H1 H2;
    cbn [length threshold_loop visits] in *.
  - unfold sum_u; simpl. autorewrite with wrap_db. by rewrite !Z.add_0_r, !wrap_small by done.
  - destruct Hv as [Hb Hv]. rewrite Hb. cbn [mbind result_bind].
    rewrite (IH (back r pos)) by (try done; by apply wrap_range).
    rewrite !fmap_cons, !sum_u_cons. unfold sum_u. by rewrite !wrap_sum3.
Qed.

(** The [n] latest buckets at a tick, when the current one is finished. *)
Definition closing (n : nat) (h : history) : list bucket := latest n (spec_tick h).

Lemma visits_advance r h n b : shows r h -> Z.of_nat n <= capacity r ->
  visits (set_above b (advance r)) (pointer (advance r)) (closing n h).
Proof.
  intros Hs Hn. pose proof Hs as [Hp Hb]. apply (visits_map _ (fun k => nth_bucket h k)).
  - apply (advance_pointer r Hp).
  - intros k Hk. cbn [capacity set_above advance]. change (0 + k)%nat with k. rewrite <- (Hb k) by lia.
    rewrite <- (advance_back r k Hp). reflexivity.
Qed.

(** Outside the wrap-around the loop of GetMetrics meets finished buckets. *)
Lemma visits_latest r h n : shows r h -> Z.of_nat n < capacity r -> visits r (pointer r) (latest n h).
Proof.
  intros [Hp Hb] Hn. apply (visits_map _ (fun k => nth k (finished h) no_traffic)); [done|].
  intros k Hk. rewrite Hb by lia. done.
Qed.

Lemma visits_app r bs : forall pos bs', visits r pos bs ->
  visits r (Nat.iter (length bs) (back r) pos) bs' -> visits r pos (bs ++ bs').
Proof.
  induction bs as [|b bs IH]; intros pos bs' Hv Hv'; [done|]. cbn [visits app length] in *.
  destruct Hv as [Hb Hv]. split; [done|]. apply IH; [done|]. by rewrite Nat.iter_swap.
Qed.

Lemma iter_back r n pos : 0 <= pos < capacity r ->
  Nat.iter n (back r) pos = (pos - Z.of_nat n) mod capacity r.
Proof.
  intros Hp. induction n as [|n IH]; simpl.
  - rewrite Z.sub_0_r, Z.mod_small; done.
  - rewrite IH. destruct (back_mod r ((pos - Z.of_nat n) mod capacity r)) as [-> _].
    + apply Z.mod_pos_bound. lia.
    + rewrite Zminus_mod_idemp_l. f_equal. lia.
Qed.

(** Over the whole window the loop ends with the current bucket. *)
Lemma visits_window r h : shows r h ->
  visits r (pointer r) (latest (Z.to_nat (capacity r - 1)) h ++ [current h]).
Proof.
  intros Hs. pose proof Hs as [Hp Hb]. apply visits_app; [apply visits_latest; [done|lia]|].
  unfold latest. rewrite length_fmap, length_seq, iter_back by done.
  rewrite Z2Nat.id by lia. cbn [visits]. split; [|done].
  destruct (back_mod r ((pointer r - (capacity r - 1)) mod capacity r)) as [-> _];
    [apply Z.mod_pos_bound; lia|].
  rewrite Zminus_mod_idemp_l. replace (pointer r - (capacity r - 1) - 1) with (pointer r + -1 * capacity r) by lia.
  rewrite Z.mod_add, Z.mod_small by lia. by apply shows_current.
Qed.

Section record_theorems.
Context `{f64.Platform}.

Definition window_of (buckets : Z) (r : Record_) : Z := if buckets =? 0 then capacity r else buckets.

(** What a tick does, when the threshold window fits into the ring. *)
Lemma tick_shows nb dur bps pps r h : shows r h -> 0 <= nb <= capacity r ->
  exists r', tick nb dur bps pps r = Ok r' /\ shows r' (spec_tick h) /\
    capacity r' = capacity r /\ Address r' = Address r /\
    let n := window_of nb r in
    let bs := closing (Z.to_nat n) h in
    aboveThreshold r' = exceeds (sum_u 64 (bytes_of <$> bs)) (sum_u 64 (packets_of <$> bs)) n dur bps pps.
Proof.
  intros Hs Hnb. pose proof Hs as [Hp Hb]. unfold tick, window_of. cbv zeta.
  change (capacity (advance r)) with (capacity r). set (n := if nb =? 0 then capacity r else nb). assert (0 <= n <= capacity r) as Hn.
  { subst n. destruct (Z.eqb_spec nb 0); simpl; lia. }
  pose proof (visits_advance r h (Z.to_nat n) (aboveThreshold r) Hs ltac:(lia)) as Hv.
  assert (length (closing (Z.to_nat n) h) = Z.to_nat n) as Hl by (unfold closing, latest; by rewrite length_fmap, length_seq).
  assert (in_u 64 0) as H0 by (unfold in_u; lia).
  pose proof (threshold_loop_sums _ _ _ 0 0 Hv H0 H0) as El. rewrite Hl in El.
  change (threshold_loop (advance r) (Z.to_nat n) (pointer (advance r)) 0 0 = Ok
    (u64 (0 + sum_u 64 (bytes_of <$> closing (Z.to_nat n) h)), u64 (0 + sum_u 64 (packets_of <$> closing (Z.to_nat n) h)))) in El.
  rewrite El, !Z.add_0_l, !wrap_small by (apply wrap_range; lia). cbn [mbind result_bind].
  set (above := exceeds _ _ _ _ _ _). destruct (advance_pointer r Hp) as [Ea Ha].
  assert (exists b, bucket_at (set_above above (advance r)) (pointer (advance r)) = Ok b) as [b Hc].
  { exists (nth_bucket h (Z.to_nat (capacity r - 1))). rewrite <- (Hb (Z.to_nat (capacity r - 1))) by lia.
    change (bucket_at r (pointer (advance r)) = bucket_at r ((pointer r - Z.of_nat (Z.to_nat (capacity r - 1))) mod capacity r)).
    f_equal. rewrite Ea, Z2Nat.id by lia.
    replace (pointer r - (capacity r - 1)) with (pointer r + 1 + -1 * capacity r) by lia.
    by rewrite Z.mod_add by lia. }
  destruct (clear_written _ b Hc) as (r' & Hr' & (Hpt & Hcap & Hadr & Hw) & Habv).
  exists r'. split; [exact Hr'|]. split; [|done]. split; rewrite Hpt, Hcap.
  - exact Ha.
  - change (pointer (set_above above (advance r))) with (pointer (advance r)).
    change (capacity (set_above above (advance r))) with (capacity r).
    intros [|k] Hk; rewrite Hw; change (pointer (set_above above (advance r))) with (pointer (advance r)).
    + rewrite Z.sub_0_r, Z.mod_small, Z.eqb_refl by exact Ha. done.
    + destruct (Z.eqb_spec (pointer (advance r)) ((pointer (advance r) - Z.of_nat (S k)) mod capacity r)) as [E|].
      * symmetry in E. apply mod_distinct in E; [done|exact Ha|lia].
      * rewrite advance_back by done. change (bucket_at r ((pointer r - Z.of_nat k) mod capacity r) = Ok (nth_bucket h k)).
        apply Hb. lia.
Qed.

(** A record's life: flows are added and the clock ticks. *)
Inductive record_event : Type :=
  | Added (bytes packets : Z) (statusFwd : bool)
  | Tick.
Context (thresholdBuckets bucketDuration thresholdBps thresholdPps : Z).
Definition record_step (e : record_event) (r : Record_) : result Record_ :=
  match e with
  | Added bytes packets fwd => Append bytes packets fwd r
  | Tick => tick thresholdBuckets bucketDuration thresholdBps thresholdPps r
  end.
Fixpoint record_run (es : list record_event) (r : Record_) : result Record_ :=
  match es with [] => Ok r | e :: es => r ← record_step e r; record_run es r end.
Definition spec_step (h : history) (e : record_event) : history :=
  match e with Added bytes packets fwd => spec_append bytes packets fwd h | Tick => spec_tick h end.

Lemma record_step_shows e r h : shows r h -> 0 <= thresholdBuckets <= capacity r ->
  exists r', record_step e r = Ok r' /\ shows r' (spec_step h e) /\ capacity r' = capacity r /\ Address r' = Address r.
Proof.
  intros Hs Hn. destruct e as [bytes packets fwd|].
  - destruct (Append_written bytes packets fwd r (current h) (shows_current r h Hs)) as (r' & Hr' & Hw).
    exists r'. split; [done|]. split; [by eapply shows_written|]. by destruct Hw as (_ & -> & -> & _).
  - destruct (tick_shows thresholdBuckets bucketDuration thresholdBps thresholdPps r h Hs Hn)
      as (r' & Hr' & Hs' & Hc & Ha & _). by exists r'.
Qed.

Lemma record_run_shows es : forall r h, shows r h -> 0 <= thresholdBuckets <= capacity r ->
  exists r', record_run es r = Ok r' /\ shows r' (fold_left spec_step es h) /\
    capacity r' = capacity r /\ Address r' = Address r.
Proof.
  induction es as [|e es IH]; intros r h Hs Hn; [by exists r|].
  destruct (record_step_shows e r h Hs Hn) as (r1 & Hr1 & Hs1 & Hc1 & Ha1).
  destruct (IH r1 _ Hs1) as (r2 & Hr2 & Hs2 & Hc2 & Ha2); [by rewrite Hc1|].
  exists r2. simpl. rewrite Hr1. simpl. split_and!; [done|done|congruence..].
Qed.

Lemma NewRecord_shows windowSize address : 0 < windowSize ->
  exists r, NewRecord windowSize address = Ok r /\ shows r (mkhistory no_traffic []) /\
    capacity r = windowSize /\ Address r = address /\ aboveThreshold r = false.
Proof.
  intros Hw. unfold NewRecord. destruct (Z.ltb_spec windowSize 0); [lia|]. eexists. split; [done|].
  split; [|done]. split; simpl; [lia|]. intros k Hk. unfold bucket_at, index; simpl.
  pose proof (Z.mod_pos_bound (0 - Z.of_nat k) windowSize Hw) as Hm.
  destruct (Z.ltb_spec ((0 - Z.of_nat k) mod windowSize) 0); [lia|].
  rewrite lookup_replicate_2 by lia. simpl. unfold nth_bucket. destruct k as [|[|k]]; done.
Qed.

(** C16. A record refines its history: whatever flows are added and however
    often the clock ticks, no operation indexes out of range, and the ring holds
    the last [windowSize] buckets of the traffic, the current one first, as long
    as the threshold window is not larger than the ring. *)
Theorem record_refines_history (windowSize : Z) (address : string) (es : list record_event) :
  0 <= thresholdBuckets <= windowSize -> 0 < windowSize ->
  exists r, (r ← NewRecord windowSize address; record_run es r) = Ok r /\
    shows r (fold_left spec_step es (mkhistory no_traffic [])) /\ capacity r = windowSize /\ Address r = address.
Proof.
  intros Hn Hw. destruct (NewRecord_shows windowSize address Hw) as (r & Hr & Hs & Hc & Ha & _).
  destruct (record_run_shows es r _ Hs) as (r' & Hr' & Hs' & Hc' & Ha'); [by rewrite Hc|].
  exists r'. rewrite Hr. simpl. split_and!; [done|done|congruence..].
Qed.
End record_theorems.

Section averages.
Context `{f64.Platform}.

(** The threshold check: a tick finds a record above the thresholds if and
    only if the averages of forwarded and dropped traffic together over the
    last thresholdBuckets finished buckets (all buckets of the ring if that is
    0) exceed both the bit rate and the packet rate. *)
Theorem tick_above_threshold nb dur bps pps (r : Record_) (h : history) :
  shows r h -> 0 <= nb <= capacity r ->
  exists r', tick nb dur bps pps r = Ok r' /\
    let n := window_of nb r in
    let bs := closing (Z.to_nat n) h in
    aboveThreshold r' = exceeds (sum_u 64 (bytes_of <$> bs)) (sum_u 64 (packets_of <$> bs)) n dur bps pps.
Proof.
  intros Hs Hn. destruct (tick_shows nb dur bps pps r h Hs Hn) as (r' & Hr' & _ & _ & _ & Ha). by exists r'.
Qed.
End averages.

(** The exported rates: over fewer buckets than the ring has they are the
    averages of the latest finished buckets, without the current one; over the
    whole ring the current bucket replaces the oldest one. *)
Theorem GetMetrics_averages (buckets dur : Z) (r : Record_) (h : history) :
  shows r h -> 0 <= buckets <= capacity r ->
  GetMetrics buckets dur r =
  let n := window_of buckets r in
  Ok (rates (sums (if n <? capacity r then latest (Z.to_nat n) h
                   else latest (Z.to_nat (capacity r - 1)) h ++ [current h])) n dur, Address r).
Proof.
  intros Hs Hb. unfold GetMetrics, window_of. cbv zeta.
  set (n := if buckets =? 0 then capacity r else buckets).
  assert (0 <= n <= capacity r) as Hn by (subst n; pose proof (shows_pointer r h Hs); destruct (buckets =? 0); simpl; lia).
  set (bs := if n <? capacity r then _ else _).
  assert (visits r (pointer r) bs /\ length bs = Z.to_nat n) as [Hv Hl].
  { subst bs. destruct (Z.ltb_spec n (capacity r)).
    - split; [apply visits_latest; [done|lia]|]. unfold latest. by rewrite length_fmap, length_seq.
    - split; [by apply visits_window|]. unfold latest. rewrite length_app, length_fmap, length_seq. simpl.
      pose proof (shows_pointer r h Hs). lia. }
  assert (in_u 64 0) as H0 by (unfold in_u; lia).
  pose proof (metrics_loop_sums r bs (pointer r) no_traffic Hv H0 H0 H0 H0) as El. rewrite Hl in El.
  rewrite El. cbn [mbind result_bind]. do 3 f_equal. unfold add_bucket, sums, sum_u. simpl.
  by autorewrite with wrap_db.
Qed.

(** ** toptalker_prometheus.go: the parameters *)
Record params := mkparams {
  TrafficType : string; Buckets : Z; ThresholdBuckets : Z; ReportBuckets : Z; BucketDuration : Z;
  ThresholdBps : Z; ThresholdPps : Z; RelevantAddress : string; CleanupWindowSizes : Z }.
Definition zero_params : params := mkparams "" 0 0 0 0 0 0 "" 0.
Definition if_zero (n dflt : Z) : Z := if n =? 0 then dflt else n.
Definition InitDefaultPrometheusMetricParams (p : params) : params :=
  {| TrafficType := TrafficType p; Buckets := if_zero (Buckets p) 60;
     ThresholdBuckets := if_zero (ThresholdBuckets p) 60; ReportBuckets := if_zero (ReportBuckets p) 60;
     BucketDuration := if_zero (BucketDuration p) 1; ThresholdBps := ThresholdBps p; ThresholdPps := ThresholdPps p;
     RelevantAddress := if is_empty (RelevantAddress p) then "destination" else RelevantAddress p;
     CleanupWindowSizes := if_zero (CleanupWindowSizes p) 5 |}.

(** A positive integer parameter, or the default. *)
Definition parse_buckets (c : config) (key : string) (dflt : Z) : result Z :=
  if is_empty (cfg c key) then Ok dflt
  else match strconv.ParseInt 64 (cfg c key) with
       | Some n => if n <=? 0 then Err (key ++ " has to be >0")
                   else if 2 ^ 63 - 1 <? n then Err (key ++ " out of range") else Ok n
       | None => Ok dflt
       end.
Definition parse_threshold (c : config) (key : string) (dflt : Z) : Z :=
  if is_empty (cfg c key) then dflt else default dflt (strconv.ParseUint 32 (cfg c key)).
Definition relevant : list string := ["destination"; "source"; "both"; "connection"]%string.
Definition ParsePrometheusConfig (c : config) (p : params) : result params :=
  b ← parse_buckets c "buckets" (Buckets p);
  tb ← parse_buckets c "thresholdbuckets" (ThresholdBuckets p);
  rb ← parse_buckets c "reportbuckets" (ReportBuckets p);
  Ok {| TrafficType := if is_empty (cfg c "traffictype") then TrafficType p else cfg c "traffictype";
        Buckets := b; ThresholdBuckets := tb; ReportBuckets := rb; BucketDuration := BucketDuration p;
        ThresholdBps := parse_threshold c "thresholdbps" (ThresholdBps p);
        ThresholdPps := parse_threshold c "thresholdpps" (ThresholdPps p);
        RelevantAddress := if bool_decide (cfg c "relevantaddress" ∈ relevant)
                           then cfg c "relevantaddress" else RelevantAddress p;
        CleanupWindowSizes := CleanupWindowSizes p |}.

(** ** toptalker_database.go: Database *)
Record Database := mkDatabase { db_params : params; database : gmap string Record_; cleanupCounter : Z }.
Definition NewDatabase (p : params) : Database :=
  {| db_params := p; database := ∅; cleanupCounter := i64 (Buckets p * CleanupWindowSizes p) |}.
Definition with_database (m : gmap string Record_) (db : Database) : Database :=
  {| db_params := db_params db; database := m; cleanupCounter := cleanupCounter db |}.

Definition record_key (typeLabel address : string) : string := typeLabel ++ ": " ++ address.
(** [GetTypedRecord]: the key of the record, which is in the map afterwards. *)
Definition GetTypedRecord (typeLabel address : string) (db : Database) : result (Database * string) :=
  let key := record_key typeLabel address in
  match database db !! key with
  | Some _ => Ok (db, key)
  | None =>
      r ← NewRecord (ReportBuckets (db_params db)) address;
      Ok (with_database (<[key := r]> (database db)) db, key)
  end.
Definition GetRecord (address : string) (db : Database) : result (Database * string) :=
  GetTypedRecord "" address db.
(** [Append] through the record's pointer; the new record's threshold flag. *)
Definition append_to (key : string) (bytes packets : Z) (fwd : bool) (db : Database) : result (Database * bool) :=
  match database db !! key with
  | None => Panic
  | Some r => r ← Append bytes packets fwd r;
              Ok (with_database (<[key := r]> (database db)) db, aboveThreshold r)
  end.

Section database.
Context `{f64.Platform}.

(** The ticker bodies of Clock and Cleanup; [order] is the order in which the
    map is visited. *)
Fixpoint Clock (order : list string) (db : Database) : result Database :=
  match order with
  | [] => Ok db
  | key :: order =>
      match database db !! key with
      | None => Clock order db
      | Some r =>
          let p := db_params db in
          r ← tick (ThresholdBuckets p) (BucketDuration p) (ThresholdBps p) (ThresholdPps p) r;
          Clock order (with_database (<[key := r]> (database db)) db)
      end
  end.
Fixpoint delete_empty (order : list string) (m : gmap string Record_) : result (gmap string Record_) :=
  match order with
  | [] => Ok m
  | key :: order =>
      match m !! key with
      | None => delete_empty order m
      | Some r => e ← isEmpty r; delete_empty order (if (e : bool) then delete key m else m)
      end
  end.
Definition Cleanup (order : list string) (db : Database) : result Database :=
  let counter := i64 (cleanupCounter db - 1) in
  if counter <=? 0 then
    m ← delete_empty order (database db);
    Ok {| db_params := db_params db; database := m;
          cleanupCounter := i64 (Buckets (db_params db) * CleanupWindowSizes (db_params db)) |}
  else Ok {| db_params := db_params db; database := database db; cleanupCounter := counter |}.

(** [Collect] for one database: what is exported for the records above the
    thresholds. *)
Fixpoint Collect (order : list string) (db : Database) : result (list (metrics * string)) :=
  match order with
  | [] => Ok []
  | key :: order =>
      match database db !! key with
      | None => Collect order db
      | Some r =>
          if aboveThreshold r then
            m ← GetMetrics (ReportBuckets (db_params db)) (BucketDuration (db_params db)) r;
            ms ← Collect order db; Ok (m :: ms)
          else Collect order db
      end
  end.
End database.

(** ** toptalkers_metrics.go *)
Record ToptalkersMetrics := mkToptalkersMetrics {
  tm_params : params; Endpoint : string; MetricsPath : string; FlowdataPath : string }.
Definition or_default (c : config) (key dflt : string) : string :=
  if is_empty (cfg c key) then dflt else cfg c key.
Definition New (c : config) : created ToptalkersMetrics :=
  match ParsePrometheusConfig c (InitDefaultPrometheusMetricParams zero_params) with
  | Ok p => Created {| tm_params := p; Endpoint := or_default c "endpoint" ":8080";
                       MetricsPath := or_default c "metricspath" "/metrics";
                       FlowdataPath := or_default c "flowdatapath" "/flowdata" |}
  | Err _ => NilSegment
  | Panic => Panicked
  end.

(** The addresses a flow is counted for. *)
Definition keys (relevantAddress : string) (msg : EnrichedFlow) : list string :=
  let src := net.String (pb.SrcAddrObj msg) in
  let dst := net.String (pb.DstAddrObj msg) in
  if seqb relevantAddress "source" then [src]
  else if seqb relevantAddress "destination" then [dst]
  else if seqb relevantAddress "both" then [src; dst]
  else [].
Fixpoint count (ks : list string) (msg : EnrichedFlow) (forward : bool) (db : Database) : result (Database * bool) :=
  match ks with
  | [] => Ok (db, forward)
  | k :: ks =>
      '(db, key) ← GetRecord k db;
      '(db, above) ← append_to key (Bytes msg) (Packets msg) (pb.IsForwarded msg) db;
      count ks msg (forward || above) db
  end.

(** The loop's state is the database; Clock and Cleanup work on it in between. *)
#[export] Instance ToptalkersMetrics_segment : PartialSegment Database := fun sub db msg =>
  '(db, forward) ← count (keys (RelevantAddress (db_params db)) msg) msg false db;
  Ok (db, if (forward : bool) then [EOut msg] else to_drops sub msg).

(** ** Facts about the database *)

(** Every record shows a history in a ring of ReportBuckets buckets, which is
    large enough for the threshold window. *)
Definition good_params (p : params) : Prop := 0 <= ThresholdBuckets p <= ReportBuckets p /\ 0 < ReportBuckets p.
Definition good_record (p : params) (r : Record_) : Prop := (exists h, shows r h) /\ capacity r = ReportBuckets p.
Definition good (db : Database) : Prop :=
  good_params (db_params db) /\ map_Forall (fun _ => good_record (db_params db)) (database db).
(** Whether the record of a key is above the thresholds. *)
Definition above (db : Database) (key : string) : bool :=
  match database db !! key with Some r => aboveThreshold r | None => false end.
(** The same flags, the same parameters. *)
Definition agrees (db db' : Database) : Prop := db_params db' = db_params db /\ forall k, above db' k = above db k.

Lemma agrees_trans db1 db2 db3 : agrees db1 db2 -> agrees db2 db3 -> agrees db1 db3.
Proof. intros [E1 H1] [E2 H2]. split; [congruence|]. intros k. by rewrite H2. Qed.

Lemma above_insert db key r k :
  above (with_database (<[key := r]> (database db)) db) k = if decide (key = k) then aboveThreshold r else above db k.
Proof.
  unfold above. simpl. case_decide as E; [subst; by rewrite lookup_insert_eq|by rewrite lookup_insert_ne].
Qed.

Lemma good_insert db key r : good db -> good_record (db_params db) r ->
  good (with_database (<[key := r]> (database db)) db).
Proof. intros [Hp Hm] Hr. split; [done|]. by apply map_Forall_insert_2. Qed.

Lemma Append_above bytes packets fwd r r' : Append bytes packets fwd r = Ok r' -> aboveThreshold r' = aboveThreshold r.
Proof.
  unfold Append. destruct fwd; intros (x & _ & (y & _ & Hr)%result_bind_inv)%result_bind_inv; by injection Hr as <-.
Qed.

Lemma GetTypedRecord_ok typeLabel address db : good db ->
  exists db', GetTypedRecord typeLabel address db = Ok (db', record_key typeLabel address) /\
    good db' /\ agrees db db' /\ is_Some (database db' !! record_key typeLabel address).
Proof.
  intros Hg. unfold GetTypedRecord. destruct (database db !! record_key typeLabel address) as [r|] eqn:E.
  - exists db. rewrite E. split_and!; [done|done|by split|by eexists].
  - pose proof Hg as [[Ht Hr] Hm]. destruct (NewRecord_shows (ReportBuckets (db_params db)) address Hr)
      as (r & -> & Hs & Hc & _ & Ha). eexists. split; [done|]. split_and!.
    + apply good_insert; [done|]. split; [by eexists|done].
    + split; [done|]. intros k. rewrite above_insert, Ha. case_decide as Ek; [|done].
      subst. unfold above. by rewrite E.
    + simpl. rewrite lookup_insert_eq. by eexists.
Qed.

Lemma append_to_ok key bytes packets fwd db : good db -> is_Some (database db !! key) ->
  exists db', append_to key bytes packets fwd db = Ok (db', above db key) /\ good db' /\ agrees db db'.
Proof.
  intros Hg [r Hr]. unfold append_to. rewrite Hr.
  pose proof Hg as [Hp Hm]. destruct (Hm _ _ Hr) as [[h Hs] Hc].
  destruct (Append_written bytes packets fwd r (current h) (shows_current r h Hs)) as (r' & Er & Hw).
  rewrite Er. cbn [mbind result_bind]. pose proof (Append_above _ _ _ _ _ Er) as Ha.
  assert (aboveThreshold r' = above db key) as Ha' by (unfold above; by rewrite Hr).
  rewrite Ha'. eexists. split; [done|]. split.
  - apply good_insert; [done|]. split; [eexists; by eapply shows_written|].
    destruct Hw as (_ & -> & _). done.
  - split; [done|]. intros k. rewrite above_insert. case_decide as E; [by subst|done].
Qed.

Lemma count_ok ks msg : forall forward db, good db ->
  exists db', count ks msg forward db = Ok (db', forward || existsb (fun k => above db (record_key "" k)) ks) /\
    good db' /\ agrees db db'.
Proof.
  induction ks as [|k ks IH]; intros forward db Hg; cbn [count existsb].
  - exists db. rewrite orb_false_r. split; [done|]. by split.
  - unfold GetRecord. destruct (GetTypedRecord_ok "" k db Hg) as (db1 & -> & Hg1 & Ha1 & Hk). cbn [mbind result_bind].
    destruct (append_to_ok (record_key "" k) (Bytes msg) (Packets msg) (pb.IsForwarded msg) db1 Hg1 Hk)
      as (db2 & -> & Hg2 & Ha2). cbn [mbind result_bind].
    destruct (IH (forward || above db1 (record_key "" k)) db2 Hg2) as (db3 & -> & Hg3 & Ha3).
    pose proof (agrees_trans _ _ _ Ha1 Ha2) as Ha12. exists db3. split; [|split; [done|by eapply agrees_trans]].
    do 2 f_equal. rewrite <- orb_assoc. f_equal. f_equal; [by destruct Ha1 as [_ ->]|].
    clear -Ha12. induction ks as [|k' ks IH]; [done|]. simpl. by rewrite IH, (proj2 Ha12).
Qed.

(** C29. toptalkers_metrics as a filter: on a good database the loop never
    panics, and a flow is forwarded if and only if the record of one of its
    relevant addresses was above the thresholds at the last tick; otherwise it
    goes to the drop channel. *)
Theorem toptalkers_selects sub (db : Database) msg :
  good db ->
  exists db', good db' /\ agrees db db' /\
    seg_try sub db msg =
    Ok (db', if existsb (fun k => above db (record_key "" k)) (keys (RelevantAddress (db_params db)) msg)
             then [EOut msg] else to_drops sub msg).
Proof.
  intros Hg. destruct (count_ok (keys (RelevantAddress (db_params db)) msg) msg false db Hg) as (db' & E & Hg' & Ha).
  exists db'. split; [done|]. split; [done|]. unfold seg_try, ToptalkersMetrics_segment. by rewrite E.
Qed.

Lemma toptalkers_run msg (db : Database) :
  good db -> exists db', (forall sub, exists es, seg_try sub db msg = Ok (db', es)) /\ good db'.
Proof.
  intros Hg. destruct (count_ok (keys (RelevantAddress (db_params db)) msg) msg false db Hg) as (db' & E & Hg' & _).
  exists db'. split; [|done]. intros sub. eexists. unfold seg_try, ToptalkersMetrics_segment. by rewrite E.
Qed.

(** The option "connection" is accepted for relevantaddress, but the loop
    has no case for it: no flow is counted and every flow is dropped. *)
Theorem toptalkers_connection_drops (c : config) (s : ToptalkersMetrics) sub ms :
  cfg c "relevantaddress" = "connection"%string -> New c = Created s ->
  run_try sub (NewDatabase (tm_params s)) ms = (flat_map (to_drops sub) ms, Ok (NewDatabase (tm_params s))).
Proof.
  intros Hc Hs. assert (RelevantAddress (tm_params s) = "connection"%string) as Hr.
  { unfold New in Hs. destruct (ParsePrometheusConfig c _) as [p| |] eqn:Ep; [|done|done].
    injection Hs as <-. simpl. unfold ParsePrometheusConfig in Ep.
    apply result_bind_inv in Ep as (b & _ & (tb & _ & (rb & _ & Ep)%result_bind_inv)%result_bind_inv).
    injection Ep as <-. simpl. rewrite Hc. done. }
  clear Hs Hc. induction ms as [|m ms IH]; [done|]. cbn [run_try flat_map].
  unfold seg_try at 1, ToptalkersMetrics_segment at 1. cbn [db_params NewDatabase]. rewrite Hr.
  unfold keys. simpl. by rewrite IH.
Qed.

(** Seen by index instead of by age. *)
Lemma shows_index r h i : shows r h -> 0 <= i < capacity r ->
  bucket_at r i = Ok (nth_bucket h (Z.to_nat ((pointer r - i) mod capacity r))).
Proof.
  intros [Hp Hb] Hi. pose proof (Z.mod_pos_bound (pointer r - i) (capacity r) ltac:(lia)) as Hm.
  rewrite <- Hb by lia. rewrite Z2Nat.id by lia. rewrite Zminus_mod_idemp_r.
  replace (pointer r - (pointer r - i)) with i by lia. by rewrite Z.mod_small.
Qed.

Definition idle (b : bucket) : Prop := fwd_packets b <= 0 /\ drop_packets b <= 0.
Lemma empty_loop_spec r (g : Z -> bucket) n : forall i,
  (forall j, i <= j < i + Z.of_nat n -> bucket_at r j = Ok (g j)) ->
  exists e, empty_loop r n i = Ok e /\ (e = true <-> forall j, i <= j < i + Z.of_nat n -> idle (g j)).
Proof.
  induction n as [|n IH]; intros i Hg; cbn [empty_loop].
  - exists true. split; [done|]. split; [intros _ j Hj; lia|done].
  - destruct (bucket_at_inv r i (g i)) as (_ & Hfp & _ & Hdp); [apply Hg; lia|].
    rewrite Hfp. cbn [mbind result_bind]. destruct (Z.ltb_spec 0 (fwd_packets (g i))) as [Hf|Hf].
    { exists false. split; [done|]. split; [done|]. intros Hi. destruct (Hi i ltac:(lia)). lia. }
    rewrite Hdp. cbn [mbind result_bind]. destruct (Z.ltb_spec 0 (drop_packets (g i))) as [Hd|Hd].
    { exists false. split; [done|]. split; [done|]. intros Hi. destruct (Hi i ltac:(lia)). lia. }
    destruct (IH (i + 1)) as (e & He & Hiff); [intros j Hj; apply Hg; lia|].
    exists e. split; [done|]. rewrite Hiff. split; intros Hi j Hj; [|apply Hi; lia].
    destruct (Z.eq_dec j i) as [->|]; [done|]. apply Hi. lia.
Qed.

Lemma isEmpty_loop (r : Record_) (h : history) :
  shows r h ->
  exists e, isEmpty r = Ok e /\ (e = true <-> forall k, Z.of_nat k < capacity r -> idle (nth_bucket h k)).
Proof.
  intros Hs. pose proof Hs as [Hp Hb]. unfold isEmpty.
  destruct (empty_loop_spec r (fun i => nth_bucket h (Z.to_nat ((pointer r - i) mod capacity r)))
    (Z.to_nat (capacity r)) 0) as (e & He & Hiff); [intros j Hj; apply shows_index; [done|lia]|].
  exists e. split; [done|]. rewrite Hiff. split.
  - intros Hi k Hk. specialize (Hi ((pointer r - Z.of_nat k) mod capacity r)).
    pose proof (Z.mod_pos_bound (pointer r - Z.of_nat k) (capacity r) ltac:(lia)).
    rewrite Zminus_mod_idemp_r in Hi.
    replace (pointer r - (pointer r - Z.of_nat k)) with (Z.of_nat k) in Hi by lia.
    rewrite (Z.mod_small (Z.of_nat k)), Nat2Z.id in Hi by lia. apply Hi. lia.
  - intros Hi j Hj. pose proof (Z.mod_pos_bound (pointer r - j) (capacity r) ltac:(lia)). apply Hi. lia.
Qed.

(** The cleanup's test: a record is empty if and only if no packet was
    counted in the last [capacity] buckets, the current one included. *)
Theorem isEmpty_meaning (r : Record_) (h : history) :
  shows r h ->
  exists e, isEmpty r = Ok e /\ (e = true <-> forall k, Z.of_nat k < capacity r -> idle (nth_bucket h k)).
Proof.
  apply isEmpty_loop.
Qed.

Lemma Clock_good `{f64.Platform} order : forall db, good db ->
  exists db', Clock order db = Ok db' /\ good db' /\ db_params db' = db_params db.
Proof.
  induction order as [|key order IH]; intros db Hg; cbn [Clock]; [by exists db|].
  destruct (database db !! key) as [r|] eqn:E; [|by apply IH].
  pose proof Hg as [[Ht Hr] Hm]. destruct (Hm _ _ E) as [[h Hs] Hc].
  destruct (tick_shows (ThresholdBuckets (db_params db)) (BucketDuration (db_params db))
    (ThresholdBps (db_params db)) (ThresholdPps (db_params db)) r h Hs) as (r' & -> & Hs' & Hc' & _); [by rewrite Hc|].
  cbn [mbind result_bind]. destruct (IH (with_database (<[key := r']> (database db)) db)) as (db' & Hd & Hg' & Hp').
  - apply good_insert; [done|]. split; [by eexists|congruence].
  - exists db'. by split.
Qed.

Lemma delete_empty_good p order : forall m, map_Forall (fun _ => good_record p) m ->
  exists m', delete_empty order m = Ok m' /\ m' ⊆ m /\ map_Forall (fun _ => good_record p) m'.
Proof.
  induction order as [|key order IH]; intros m Hm; cbn [delete_empty]; [by exists m|].
  destruct (m !! key) as [r|] eqn:E; [|by apply IH].
  destruct (Hm _ _ E) as [[h Hs] Hc]. destruct (isEmpty_loop r h Hs) as (e & -> & _). cbn [mbind result_bind].
  destruct e; [|by apply IH]. destruct (IH (delete key m)) as (m' & Hd & Hsub & Hg); [by apply map_Forall_delete|].
  exists m'. split_and!; [done| |done]. etrans; [done|]. apply delete_subseteq.
Qed.

(** The timers keep the database good and never index out of range: a tick
    of the clock keeps every record, a cleanup only deletes records. *)
Theorem timers_keep_good `{f64.Platform} order (db : Database) :
  good db ->
  (exists db', Clock order db = Ok db' /\ good db') /\
  (exists db', Cleanup order db = Ok db' /\ good db' /\ database db' ⊆ database db).
Proof.
  intros Hg. split.
  - destruct (Clock_good order db Hg) as (db' & Hd & Hg' & _). by exists db'.
  - unfold Cleanup. destruct (_ <=? 0).
    + destruct Hg as [Hp Hm]. destruct (delete_empty_good (db_params db) order _ Hm) as (m' & -> & Hsub & Hm').
      cbn [mbind result_bind]. eexists. split; [done|]. by split.
    + eexists. split; [done|]. split; [exact Hg|done].
Qed.

(** ** The theorems at work *)
Module witness.
#[export] Instance platform : f64.Platform := f64.amd64.
Definition flow (last bytes packets : Z) : EnrichedFlow :=
  set_ForwardingStatus 64 (set_Bytes bytes (set_Packets packets (set_DstAddr (Some [10; 0; 0; last]) emptyFlow))).
(** Three buckets of one second; the thresholds are 0. *)
Definition cfg3 : config :=
  {[ "reportbuckets"%string := "3"%string; "thresholdbuckets"%string := "2"%string ]}.
Definition segment : ToptalkersMetrics :=
  match New cfg3 with Created s => s | _ => mkToptalkersMetrics zero_params "" "" "" end.
Definition start : Database := NewDatabase (tm_params segment).
(** One flow to 10.0.0.1 and a tick of the clock. *)
Definition key1 : string := record_key "" "10.0.0.1".
Definition busy : Database :=
  match run_try false start [flow 1 1000 10] with
  | (_, Ok db) => match Clock [key1] db with Ok db => db | _ => start end
  | _ => start
  end.
Definition events : list record_event := [Added 1000 10 true; Tick; Added 500 5 false; Added 24 1 true; Tick; Tick].
Definition h : history := fold_left spec_step events (mkhistory no_traffic []).

Lemma start_good : good start.
Proof.
  split; [by vm_compute|]. assert (database start = ∅) as -> by reflexivity. apply map_Forall_empty.
Qed.
Lemma busy_good : good busy.
Proof.
  destruct (toptalkers_run (flow 1 1000 10) start start_good) as (db & Hr & Hg).
  destruct (Hr false) as [es Hes]. destruct (Clock_good [key1] db Hg) as (db' & Hc & Hg' & _).
  assert (busy = db') as ->; [|done]. unfold busy. cbn [run_try]. rewrite Hes. cbn [snd]. by rewrite Hc.
Qed.
Lemma shown : exists r, (r ← NewRecord 3 "a"; record_run 2 1 0 0 events r) = Ok r /\ shows r h /\ capacity r = 3.
Proof.
  destruct (NewRecord_shows 3 "a" ltac:(lia)) as (r & Hr & Hs & Hc & _).
  destruct (record_run_shows 2 1 0 0 events r _ Hs) as (r' & Hr' & Hs' & Hc' & _); [lia|].
  exists r'. rewrite Hr. cbn [mbind result_bind]. split_and!; [done|done|congruence].
Qed.
End witness.
Import witness.

Lemma record_refines_history_witness :
  exists r, (r ← NewRecord 3 "a"; record_run 2 1 0 0 events r) = Ok r /\ shows r witness.h /\
    latest 2 witness.h = [no_traffic; mkbucket 24 1 500 5].
Proof.
  destruct (record_refines_history 2 1 0 0 3 "a" events) as (r & Hr & Hs & _); [lia|lia|].
  exists r. split; [exact Hr|]. split; [exact Hs|reflexivity].
Defined.

(** The next tick closes an empty bucket; the two latest ones have no traffic. *)
Lemma tick_above_threshold_witness :
  exists r r', shows r witness.h /\ tick 2 1 0 0 r = Ok r' /\ aboveThreshold r' = false.
Proof.
  destruct witness.shown as (r & _ & Hs & Hc). exists r.
  destruct (tick_above_threshold 2 1 0 0 r witness.h Hs) as (r' & Hr' & Ha); [lia|].
  exists r'. split; [exact Hs|]. split; [exact Hr'|]. rewrite Ha. vm_compute. reflexivity.
Defined.

Lemma GetMetrics_averages_witness :
  exists r, shows r witness.h /\
    GetMetrics 2 1 r = Ok (rates (mkbucket 24 1 500 5) 2 1, Address r).
Proof.
  destruct witness.shown as (r & _ & Hs & Hc). exists r. split; [exact Hs|].
  rewrite (GetMetrics_averages 2 1 r witness.h Hs) by lia. rewrite Hc. reflexivity.
Defined.

Lemma isEmpty_meaning_witness :
  exists r, shows r witness.h /\ isEmpty r = Ok false.
Proof.
  destruct witness.shown as (r & _ & Hs & Hc). exists r. split; [exact Hs|].
  destruct (isEmpty_meaning r witness.h Hs) as ([|] & He & Hiff); [|exact He].
  exfalso. destruct (proj1 Hiff eq_refl 2%nat) as [Hi _]; [lia|]. vm_compute in Hi. by apply Hi.
Defined.

(** After the tick 10.0.0.1 is above the thresholds of 0: its next flow passes. *)
Lemma toptalkers_selects_witness :
  (exists db', seg_try true witness.busy (witness.flow 1 10 1) = Ok (db', [EOut (witness.flow 1 10 1)])) /\
  (exists db', seg_try true witness.busy (witness.flow 2 10 1) = Ok (db', [EDrop (witness.flow 2 10 1)])).
Proof.
  split.
  - destruct (toptalkers_selects true witness.busy (witness.flow 1 10 1) witness.busy_good) as (db' & _ & _ & H).
    exists db'. rewrite H. vm_compute. reflexivity.
  - destruct (toptalkers_selects true witness.busy (witness.flow 2 10 1) witness.busy_good) as (db' & _ & _ & H).
    exists db'. rewrite H. vm_compute. reflexivity.
Defined.

Lemma toptalkers_connection_drops_witness :
  let c : config := {[ "relevantaddress"%string := "connection"%string ]} in
  exists s, New c = Created s /\
    (run_try true (NewDatabase (tm_params s)) [witness.flow 1 10 1]).1 = [EDrop (witness.flow 1 10 1)].
Proof.
  intros c. eexists. split; [vm_compute; reflexivity|].
  rewrite (toptalkers_connection_drops c); vm_compute; reflexivity.
Defined.

Lemma timers_keep_good_witness :
  exists db', Clock [witness.key1] witness.busy = Ok db' /\ good db'.
Proof. apply (timers_keep_good [witness.key1] witness.busy witness.busy_good). Defined.
