(* ===== verification/Traffic.v ===== *)
(** * Traffic specific top talkers
      ([segments/analysis/traffic_specific_toptalkers/traffic-specific-toptalkers.go],
       [pipeline/config/toptalker_config.go])

    A forest of filters, given by the configuration: a flow is offered to every
    root, a node that matches counts it in its database (if it names a traffic
    type) and offers it to its children.  Records, databases and their timers are
    those of TopTalkers.v, filter expressions those of FlowFilter.v. *)

From stdpp Require Import prelude strings list gmap.
From Stdlib Require Import ZArith Lia.
From S2P Require Import Prelude GoStd EnrichedFlow FlowMethods Segment FlowFilter TopTalkers.

(** ** Configuration *)

(** The parameters of a definition are those of [params] but
    CleanupWindowSizes, which YAML cannot set. *)
Inductive ThresholdMetricDefinition : Type := mkDefinition {
  definition_params : params; definition_filter : string; definition_subs : list ThresholdMetricDefinition }.

Inductive ThresholdMetric : Type := mkMetric {
  metric_params : params; metric_db : option Database; metric_expr : Expression; FilterDefinition : string;
  SubDefinitions : list ThresholdMetric }.

(** Induction over trees. *)
Section metric_ind.
Context (P : ThresholdMetric -> Prop)
  (IH : forall p db e fd subs, Forall P subs -> P (mkMetric p db e fd subs)).
Fixpoint metric_ind (d : ThresholdMetric) : P d :=
  match d with
  | mkMetric p db e fd subs =>
      IH p db e fd subs ((fix go l : Forall P l :=
        match l with [] => Forall_nil_2 P | d :: l => Forall_cons_2 P d l (metric_ind d) (go l) end) subs)
  end.
End metric_ind.

(** A segment's ThresholdMetricDefinition may hold nil pointers. *)
Record TrafficSpecificToptalkers := mkTraffic {
  Endpoint : string; MetricsPath : string; FlowdataPath : string; ts_relevant : string;
  ts_metrics : list (option ThresholdMetric) }.

(** The value of metricspath goes to FlowdataPath. *)
Definition New (c : config) : TrafficSpecificToptalkers :=
  let flowdata := or_default c "metricspath" "/flowdata" in
  {| Endpoint := or_default c "endpoint" ":8080"; MetricsPath := "/metrics";
     FlowdataPath := or_default c "flowdatapath" flowdata; ts_relevant := cfg c "relevantaddress"; ts_metrics := [] |}.

Definition set_relevant (a : string) (p : params) : params :=
  {| TrafficType := TrafficType p; Buckets := Buckets p; ThresholdBuckets := ThresholdBuckets p;
     ReportBuckets := ReportBuckets p; BucketDuration := BucketDuration p; ThresholdBps := ThresholdBps p;
     ThresholdPps := ThresholdPps p; RelevantAddress := a; CleanupWindowSizes := CleanupWindowSizes p |}.

Section custom.
(** [parser.Parse] *)
Context (Parse : string -> option Expression).

(** [None] is a nil metric with an error.  The parse of a node comes before
    those of its children, the first error ends the walk. *)
Fixpoint metricFromDefinition (relevantAddress : string) (definition : ThresholdMetricDefinition) : option ThresholdMetric :=
  let p := InitDefaultPrometheusMetricParams (definition_params definition) in
  let p := if is_empty relevantAddress then p else set_relevant relevantAddress p in
  e ← Parse (definition_filter definition);
  subs ← mapM (metricFromDefinition relevantAddress) (definition_subs definition);
  Some (mkMetric p None e (definition_filter definition) subs).

(** An error is logged, and the nil metric appended nevertheless. *)
Definition AddCustomConfig (definitions : list ThresholdMetricDefinition) (s : TrafficSpecificToptalkers) : TrafficSpecificToptalkers :=
  {| Endpoint := Endpoint s; MetricsPath := MetricsPath s; FlowdataPath := FlowdataPath s; ts_relevant := ts_relevant s;
     ts_metrics := ts_metrics s ++ (metricFromDefinition (ts_relevant s) <$> definitions) |}.
End custom.

(** ** Run *)
Fixpoint initDatabasesForFilter (filterDef : ThresholdMetric) : ThresholdMetric :=
  let p := metric_params filterDef in
  mkMetric p (if is_empty (TrafficType p) then metric_db filterDef else Some (NewDatabase p))
    (metric_expr filterDef) (FilterDefinition filterDef) (initDatabasesForFilter <$> SubDefinitions filterDef).
(** A nil pointer among the metrics is dereferenced. *)
Definition initDatabasesAndCollector (segment : TrafficSpecificToptalkers) : result (list ThresholdMetric) :=
  mapM (fun m => match m with Some m => Ok (initDatabasesForFilter m) | None => Panic end) (ts_metrics segment).
(** The databases in the order of the collector. *)
Fixpoint databases (d : ThresholdMetric) : list Database :=
  (match metric_db d with Some db => [db] | None => [] end) ++ concat (databases <$> SubDefinitions d).

(** The keys of a flow; here "connection" has a case of its own. *)
Definition keys (relevantAddress : string) (msg : EnrichedFlow) : list string :=
  let src := net.String (pb.SrcAddrObj msg) in
  let dst := net.String (pb.DstAddrObj msg) in
  if seqb relevantAddress "source" then [src]
  else if seqb relevantAddress "destination" then [dst]
  else if seqb relevantAddress "both" then [src; dst]
  else if seqb relevantAddress "connection" then [(src ++ " -> " ++ dst)%string]
  else [].
Fixpoint count (typeLabel : string) (ks : list string) (msg : EnrichedFlow) (db : option Database) : result (option Database) :=
  match ks with
  | [] => Ok db
  | k :: ks =>
      match db with
      | None => Panic
      | Some db =>
          '(db, key) ← GetTypedRecord typeLabel k db;
          '(db, _) ← append_to key (Bytes msg) (Packets msg) (pb.IsForwarded msg) db;
          count typeLabel ks msg (Some db)
      end
  end.
Definition count_at (msg : EnrichedFlow) (p : params) (db : option Database) : result (option Database) :=
  if is_empty (TrafficType p) then Ok db else count (TrafficType p) (keys (RelevantAddress p) msg) msg db.

(** The error of CheckFlow is ignored. *)
Fixpoint addMessageToMatchingToptalkers (msg : EnrichedFlow) (definition : ThresholdMetric) : result ThresholdMetric :=
  match definition with
  | mkMetric p db e fd subs =>
      '(e, matched, _) ← CheckFlow e msg;
      if (matched : bool) then
        db ← count_at msg p db;
        subs ← mapM (addMessageToMatchingToptalkers msg) subs;
        Ok (mkMetric p db e fd subs)
      else Ok (mkMetric p db e fd subs)
  end.

(** The loop of [Run]: every flow is forwarded. *)
#[export] Instance Traffic_segment : PartialSegment (list ThresholdMetric) := fun sub ds msg =>
  ds ← mapM (addMessageToMatchingToptalkers msg) ds; Ok (ds, [EOut msg]).

(** The timers of one database, which work in between the flows: the node of the
    database is given by its path. *)
Fixpoint at_node (f : Database -> result Database) (path : list nat) (ds : list ThresholdMetric) : result (list ThresholdMetric) :=
  match path with
  | [] => Ok ds
  | i :: path =>
      match ds !! i with
      | None => Ok ds
      | Some (mkMetric p db e fd subs) =>
          d ← match path, db with
              | [], Some db => db ← f db; Ok (mkMetric p (Some db) e fd subs)
              | _, _ => subs ← at_node f path subs; Ok (mkMetric p db e fd subs)
              end;
          Ok (<[i := d]> ds)
      end
  end.

(** ** Specification *)

(** The bucket that currently counts for a key. *)
Definition current_of (db : Database) (key : string) : bucket :=
  match database db !! key with
  | Some r => match bucket_at r (pointer r) with Ok b => b | _ => no_traffic end
  | None => no_traffic
  end.
(** What one flow adds for a list of addresses: it is counted once per
    occurrence of the key. *)
Fixpoint tally (typeLabel : string) (ks : list string) (msg : EnrichedFlow) (key : string) (b : bucket) : bucket :=
  match ks with
  | [] => b
  | k :: ks =>
      tally typeLabel ks msg key
        (if decide (record_key typeLabel k = key) then counted (Bytes msg) (Packets msg) (pb.IsForwarded msg) b else b)
  end.

(** The node at a path, and whether a flow gets there: all filters on the way,
    its own included, match. *)
Fixpoint node_at (path : list nat) (ds : list ThresholdMetric) : option ThresholdMetric :=
  match path with
  | [] => None
  | i :: path => d ← ds !! i; match path with [] => Some d | _ => node_at path (SubDefinitions d) end
  end.
Fixpoint reached (msg : EnrichedFlow) (path : list nat) (ds : list ThresholdMetric) : bool :=
  match path with
  | [] => true
  | i :: path =>
      match ds !! i with
      | Some d => sem_expr msg (metric_expr d) && reached msg path (SubDefinitions d)
      | None => false
      end
  end.

(** A node with a traffic type has a good database with the node's parameters,
    any other node has none, and no filter dereferences nil. *)
Definition typed (p : params) (db : option Database) : Prop :=
  if is_empty (TrafficType p) then db = None else exists d, db = Some d /\ good d /\ db_params d = p.
Definition safe_expr (e : Expression) : Prop := exists err, expr_status e = Ok err.
Inductive wf : ThresholdMetric -> Prop :=
  | wf_metric p db e fd subs : typed p db -> safe_expr e -> Forall wf subs -> wf (mkMetric p db e fd subs).
(** Every node is assigned on the flow and its ranges are in order, as in
    [CheckFlow_meaning]. *)
Inductive assigned (msg : EnrichedFlow) : ThresholdMetric -> Prop :=
  | assigned_metric p db e fd subs : expr_status e = Ok false -> assigns_expr msg e = true ->
      Forall (assigned msg) subs -> assigned msg (mkMetric p db e fd subs).

(** ** Lemmas on databases *)
Lemma current_insert db key r k :
  current_of (with_database (<[key := r]> (database db)) db) k =
  if decide (key = k) then match bucket_at r (pointer r) with Ok b => b | _ => no_traffic end else current_of db k.
Proof.
  unfold current_of. simpl. case_decide as E; [subst; by rewrite lookup_insert_eq|by rewrite lookup_insert_ne].
Qed.

Lemma GetTypedRecord_current typeLabel a db db' key : good db -> GetTypedRecord typeLabel a db = Ok (db', key) ->
  key = record_key typeLabel a /\ forall k, current_of db' k = current_of db k.
Proof.
  intros [[_ Hr] _]. unfold GetTypedRecord. destruct (database db !! record_key typeLabel a) as [r|] eqn:E.
  { by intros [= <- <-]. }
  destruct (NewRecord_shows (ReportBuckets (db_params db)) a Hr) as (r & -> & Hs & _).
  intros [= <- <-]. split; [done|]. intros k. rewrite current_insert. case_decide as Ek; [|done]. subst.
  rewrite (shows_current _ _ Hs). unfold current_of. by rewrite E.
Qed.

Lemma append_to_current key bytes packets fwd db db' b : good db -> append_to key bytes packets fwd db = Ok (db', b) ->
  forall k, current_of db' k = if decide (key = k) then counted bytes packets fwd (current_of db k) else current_of db k.
Proof.
  intros [_ Hm]. unfold append_to. destruct (database db !! key) as [r|] eqn:E; [|done].
  destruct (Hm _ _ E) as [[h Hs] _].
  destruct (Append_written bytes packets fwd r (current h) (shows_current r h Hs)) as (r' & -> & Hw).
  intros [= <- <-] k. rewrite current_insert. case_decide as Ek; [|done]. subst.
  rewrite (shows_current r' _ (shows_written r r' h _ Hs Hw)). unfold current_of.
  by rewrite E, (shows_current _ _ Hs).
Qed.

Lemma count_typed ty ks msg : forall db, good db ->
  exists db', count ty ks msg (Some db) = Ok (Some db') /\ good db' /\ db_params db' = db_params db /\
    forall key, current_of db' key = tally ty ks msg key (current_of db key).
Proof.
  induction ks as [|k ks IH]; intros db Hg; cbn [count tally]; [by exists db|].
  destruct (GetTypedRecord_ok ty k db Hg) as (db1 & E1 & Hg1 & Ha1 & Hk). rewrite E1. cbn [mbind result_bind].
  destruct (GetTypedRecord_current ty k db db1 _ Hg E1) as [_ Hc1].
  destruct (append_to_ok (record_key ty k) (Bytes msg) (Packets msg) (pb.IsForwarded msg) db1 Hg1 Hk)
    as (db2 & E2 & Hg2 & Ha2). rewrite E2. cbn [mbind result_bind].
  pose proof (append_to_current _ _ _ _ _ _ _ Hg1 E2) as Hc2.
  destruct (IH db2 Hg2) as (db3 & -> & Hg3 & Hp3 & Hc3). exists db3. split_and!; [done|done| |].
  - destruct Ha1, Ha2. congruence.
  - intros key. rewrite Hc3, Hc2, Hc1. done.
Qed.

Lemma count_at_typed msg p db : typed p db -> exists db', count_at msg p db = Ok db' /\ typed p db' /\
  forall d, db = Some d -> exists d', db' = Some d' /\
    forall key, current_of d' key = tally (TrafficType p) (keys (RelevantAddress p) msg) msg key (current_of d key).
Proof.
  unfold typed, count_at. destruct (is_empty (TrafficType p)).
  - intros ->. by exists None.
  - intros (d & -> & Hg & Hp).
    destruct (count_typed (TrafficType p) (keys (RelevantAddress p) msg) msg d Hg) as (d' & -> & Hg' & Hp' & Hc).
    exists (Some d'). split; [done|]. split; [exists d'; split_and!; [done|done|congruence]|].
    intros ? [= <-]. by exists d'.
Qed.

(** ** Lemmas on trees *)
Lemma CheckFlow_safe e msg : safe_expr e ->
  exists e' b err, CheckFlow e msg = Ok (e', b, err) /\ erase_expr e' = erase_expr e /\ safe_expr e'.
Proof.
  intros [err Hs]. unfold CheckFlow. pose proof (proj1 (visit_status msg) e) as S. rewrite Hs in S.
  destruct (visit_expr msg e) as [[e' err']| |] eqn:E; try done. simpl.
  exists e', (expr_result e'), err'. pose proof (proj1 (visit_erase msg) _ _ _ E) as He.
  split_and!; [done|done|]. exists err. by destruct (same_shape msg _ _ He) as (_ & -> & _).
Qed.

Lemma addMessage_wf msg d : wf d -> exists d', addMessageToMatchingToptalkers msg d = Ok d' /\ wf d'.
Proof.
  induction d as [p db e fd subs IH] using metric_ind. inversion 1 as [? ? ? ? ? Ht He Hs]; subst.
  cbn [addMessageToMatchingToptalkers]. destruct (CheckFlow_safe e msg He) as (e' & b & err & -> & _ & He').
  cbn [mbind result_bind]. destruct b; [|by eexists; split; [done|constructor]].
  destruct (count_at_typed msg p db Ht) as (db' & -> & Ht' & _). cbn [mbind result_bind].
  destruct (mapM_total (addMessageToMatchingToptalkers msg) wf subs) as (subs' & -> & Hs').
  - rewrite Forall_forall in *. intros d Hd. by apply IH, Hs.
  - cbn [mbind result_bind]. eexists. split; [done|]. by constructor.
Qed.

(** What a flow does to the database of a node. *)
Definition counts (msg : EnrichedFlow) (hit : bool) (d d' : ThresholdMetric) : Prop :=
  let p := metric_params d in
  match metric_db d with
  | None => metric_db d' = None
  | Some db => exists db', metric_db d' = Some db' /\ forall key, current_of db' key =
      if hit then tally (TrafficType p) (keys (RelevantAddress p) msg) msg key (current_of db key) else current_of db key
  end.

Lemma counts_not msg d d' : metric_db d' = metric_db d -> counts msg false d d'.
Proof. unfold counts. intros ->. destruct (metric_db d); [by eexists|done]. Qed.

(** A node the flow does not match keeps its whole subtree. *)
Lemma addMessage_at msg d d' : wf d -> assigned msg d -> addMessageToMatchingToptalkers msg d = Ok d' ->
  metric_params d' = metric_params d /\ counts msg (sem_expr msg (metric_expr d)) d d' /\
  if sem_expr msg (metric_expr d) then mapM (addMessageToMatchingToptalkers msg) (SubDefinitions d) = Ok (SubDefinitions d')
  else SubDefinitions d' = SubDefinitions d.
Proof.
  inversion 1 as [p db e fd subs Ht _ _]; subst. inversion 1 as [? ? ? ? ? Hs Ha _]; subst.
  cbn [addMessageToMatchingToptalkers metric_expr SubDefinitions metric_params].
  destruct (CheckFlow_total e msg Hs Ha) as (e' & -> & _). cbn [mbind result_bind].
  destruct (sem_expr msg e); [|intros [= <-]; split_and!; [done|by apply counts_not|done]].
  destruct (count_at_typed msg p db Ht) as (db' & -> & Ht' & Hc). cbn [mbind result_bind].
  intros (subs' & Hsubs & [= <-])%result_bind_inv. split_and!; [done| |done].
  unfold counts. cbn. destruct db as [db|]; [by apply Hc|].
  unfold typed in *. by destruct (is_empty (TrafficType p)); [|destruct Ht as (? & ? & _)].
Qed.

Lemma forest_counts msg path : forall ds ds' d, Forall wf ds -> Forall (assigned msg) ds ->
  mapM (addMessageToMatchingToptalkers msg) ds = Ok ds' -> node_at path ds = Some d ->
  exists d', node_at path ds' = Some d' /\ metric_params d' = metric_params d /\ counts msg (reached msg path ds) d d'.
Proof.
  induction path as [|i path IH]; intros ds ds' d Hw Ha Hm; [done|]. cbn [node_at reached].
  destruct (ds !! i) as [d0|] eqn:E; [|done]. cbn [mbind option_bind].
  apply mapM_Ok in Hm. destruct (Forall2_lookup_l _ _ _ _ _ Hm E) as (d0' & E' & H0). rewrite E'. cbn.
  pose proof (Forall_lookup_1 _ _ _ _ Hw E) as Hw0. pose proof (Forall_lookup_1 _ _ _ _ Ha E) as Ha0.
  destruct (addMessage_at msg d0 d0' Hw0 Ha0 H0) as (Hp & Hc & Hsub).
  destruct path as [|j path]; [intros [= <-]; exists d0'; by rewrite andb_true_r|]. intros Hd.
  destruct (sem_expr msg (metric_expr d0)); cbn [andb].
  - apply (IH (SubDefinitions d0)); [by inversion Hw0|by inversion Ha0|done|done].
  - rewrite Hsub. exists d. split_and!; [done|done|by apply counts_not].
Qed.

(** C17. Take a forest of well-typed filters whose databases fit their
    parameters ([wf]) and a flow on which every node of these filters is assigned
    a result, their ranges being in order, as CheckFlow_meaning asks too
    ([assigned]; a filter with an unassigned node keeps the result of an earlier
    flow).  The flow is offered to the whole forest, forwarded whatever
    matches, and counted exactly at the nodes it reaches: those whose filter and
    whose parents' filters all match.  There the current bucket of the key of every relevant
    address grows by the flow, and every other bucket stays. *)
Theorem traffic_counts_matching (sub : bool) (ds : list ThresholdMetric) (msg : EnrichedFlow) :
  Forall wf ds -> Forall (assigned msg) ds ->
  exists ds', seg_try sub ds msg = Ok (ds', [EOut msg]) /\
    forall path d, node_at path ds = Some d ->
      exists d', node_at path ds' = Some d' /\ metric_params d' = metric_params d /\
        counts msg (reached msg path ds) d d'.
Proof.
  intros Hw Ha. destruct (mapM_total (addMessageToMatchingToptalkers msg) wf ds) as (ds' & E & _).
  { apply (Forall_impl _ _ _ Hw). intros d. apply addMessage_wf. }
  exists ds'. unfold seg_try, Traffic_segment. rewrite E. split; [done|].
  intros path d. by apply forest_counts.
Qed.

(** ** The whole run *)
Section events.
Context `{f64.Platform}.

Inductive event : Type :=
  | Message (msg : EnrichedFlow) | ClockTick (path : list nat) (order : list string)
  | CleanupTick (path : list nat) (order : list string).
Definition handle (e : event) (ds : list ThresholdMetric) : result (list ThresholdMetric * list EnrichedFlow) :=
  match e with
  | Message msg => '(ds, es) ← seg_try false ds msg; Ok (ds, outs es)
  | ClockTick path order => ds ← at_node (Clock order) path ds; Ok (ds, [])
  | CleanupTick path order => ds ← at_node (Cleanup order) path ds; Ok (ds, [])
  end.
Fixpoint run_events (es : list event) (ds : list ThresholdMetric) : result (list ThresholdMetric * list EnrichedFlow) :=
  match es with
  | [] => Ok (ds, [])
  | e :: es => '(ds, out) ← handle e ds; '(ds, out') ← run_events es ds; Ok (ds, out ++ out')
  end.
Definition messages (es : list event) : list EnrichedFlow :=
  omap (fun e => match e with Message msg => Some msg | _ => None end) es.

Definition keeps (f : Database -> result Database) : Prop :=
  forall db, good db -> exists db', f db = Ok db' /\ good db' /\ db_params db' = db_params db.

Lemma at_node_wf f path : keeps f -> forall ds, Forall wf ds -> exists ds', at_node f path ds = Ok ds' /\ Forall wf ds'.
Proof.
  intros Hf. induction path as [|i path IH]; intros ds Hw; cbn [at_node]; [by exists ds|].
  destruct (ds !! i) as [d|] eqn:E; [|by exists ds]. pose proof (Forall_lookup_1 _ _ _ _ Hw E) as Hd.
  destruct Hd as [p db e fd subs Ht He Hs]. destruct (IH subs Hs) as (subs' & Es & Hs').
  enough (exists d, (match path, db with
     | [], Some db => db ← f db; Ok (mkMetric p (Some db) e fd subs)
     | _, _ => subs ← at_node f path subs; Ok (mkMetric p db e fd subs) end) = Ok d /\ wf d) as (d & -> & Hd).
  { cbn [mbind result_bind]. eexists. split; [done|]. by apply Forall_insert. }
  assert (wf (mkMetric p db e fd subs')) as Hsub by by constructor.
  destruct path as [|j path]; [destruct db as [db|]|]; try (rewrite Es; cbn [mbind result_bind]; by eexists).
  unfold typed in Ht. destruct (is_empty (TrafficType p)) eqn:Ep; [done|]. destruct Ht as (? & [= <-] & Hg & Hp).
  destruct (Hf db Hg) as (db' & -> & Hg' & Hp'). cbn [mbind result_bind]. eexists. split; [done|].
  constructor; [|done|done]. unfold typed. rewrite Ep. exists db'. split_and!; [done|done|congruence].
Qed.

Lemma Cleanup_keeps order : keeps (Cleanup order).
Proof.
  intros db Hg. unfold Cleanup. destruct (_ <=? 0).
  - pose proof Hg as [Hp Hm]. destruct (delete_empty_good (db_params db) order _ Hm) as (m' & -> & _ & Hm').
    cbn [mbind result_bind]. eexists. by split.
  - by eexists.
Qed.

Lemma handle_wf e ds : Forall wf ds -> exists ds', handle e ds = Ok (ds', messages [e]) /\ Forall wf ds'.
Proof.
  intros Hw. destruct e as [msg|path order|path order]; cbn [handle].
  - unfold seg_try, Traffic_segment. destruct (mapM_total (addMessageToMatchingToptalkers msg) wf ds) as (ds' & -> & Hw').
    { apply (Forall_impl _ _ _ Hw). intros d. apply addMessage_wf. }
    by exists ds'.
  - destruct (at_node_wf (Clock order) path (Clock_good order) ds Hw) as (ds' & -> & Hw'). by exists ds'.
  - destruct (at_node_wf (Cleanup order) path (Cleanup_keeps order) ds Hw) as (ds' & -> & Hw'). by exists ds'.
Qed.

Lemma run_events_wf es : forall ds, Forall wf ds ->
  exists ds', run_events es ds = Ok (ds', messages es) /\ Forall wf ds'.
Proof.
  induction es as [|e es IH]; intros ds Hw; [by exists ds|]. cbn [run_events].
  destruct (handle_wf e ds Hw) as (ds1 & -> & Hw1). cbn [mbind result_bind].
  destruct (IH ds1 Hw1) as (ds2 & -> & Hw2). exists ds2. split; [|done].
  cbn [mbind result_bind]. unfold messages. cbn [omap list_omap]. by destruct e.
Qed.
End events.

(** ** From the configuration to the forest *)

(** The filters of a definition, and what is asked of a definition's
    parameters and of its filters. *)
Fixpoint filters (d : ThresholdMetricDefinition) : list string :=
  definition_filter d :: concat (filters <$> definition_subs d).
Section definition_ind.
Context (P : ThresholdMetricDefinition -> Prop) (IH : forall p f subs, Forall P subs -> P (mkDefinition p f subs)).
Fixpoint definition_ind (d : ThresholdMetricDefinition) : P d :=
  match d with
  | mkDefinition p f subs =>
      IH p f subs ((fix go l : Forall P l :=
        match l with [] => Forall_nil_2 P | d :: l => Forall_cons_2 P d l (definition_ind d) (go l) end) subs)
  end.
End definition_ind.

Section custom_theorems.
Context (Parse : string -> option Expression).

Definition unparsable (d : ThresholdMetricDefinition) : Prop := exists f, f ∈ filters d /\ Parse f = None.

Lemma metricFromDefinition_None a d : metricFromDefinition Parse a d = None <-> unparsable d.
Proof.
  unfold unparsable. induction d as [p f subs IH] using definition_ind. cbn [metricFromDefinition filters].
  cbn [definition_params definition_filter definition_subs].
  destruct (Parse f) as [e|] eqn:E; cbn [mbind option_bind]; [|split; [|done]; intros _; exists f; split; [left|done]].
  destruct (mapM (metricFromDefinition Parse a) subs) as [subs'|] eqn:Es; cbn [mbind option_bind].
  - split; [done|]. intros (g & [->|Hg]%elem_of_cons & Hp); [congruence|].
    apply list_elem_of_In, in_concat in Hg as (fs & Hfs%list_elem_of_In & Hg%list_elem_of_In).
    apply list_elem_of_fmap in Hfs as (d & -> & Hd).
    apply mapM_Some in Es. rewrite Forall_forall in IH.
    apply list_elem_of_lookup in Hd as [i Hi]. destruct (Forall2_lookup_l _ _ _ _ _ Es Hi) as (m & _ & Hm).
    assert (metricFromDefinition Parse a d = None); [|congruence]. apply IH; [by eapply list_elem_of_lookup_2|by exists g].
  - split; [|done]. intros _. apply mapM_None in Es. apply Exists_exists in Es as (d & Hd & Hn).
    rewrite Forall_forall in IH. apply (IH d Hd) in Hn as (g & Hg & Hp). exists g. split; [|done]. right.
    apply list_elem_of_In, in_concat. exists (filters d). split; apply list_elem_of_In; [|done].
    by apply list_elem_of_fmap_2.
Qed.

(** A filter that does not parse is logged and then kills the process: its
    definition is added as a nil pointer, which Run dereferences before the first
    flow.  That is the only way the initialisation fails. *)
Theorem traffic_parse_error_panics (c : config) (definitions : list ThresholdMetricDefinition) :
  initDatabasesAndCollector (AddCustomConfig Parse definitions (New c)) = Panic <-> Exists unparsable definitions.
Proof.
  unfold initDatabasesAndCollector, AddCustomConfig, New. cbn [ts_metrics ts_relevant]. rewrite app_nil_l.
  generalize (cfg c "relevantaddress") as a. intros a.
  induction definitions as [|d ds IH]; [split; [done|by intros ?%Exists_nil]|]. rewrite Exists_cons, <- IH, <- (metricFromDefinition_None a d).
  cbn [fmap list_fmap mapM]. destruct (metricFromDefinition Parse a d) as [m|]; cbn [mbind result_bind]; [|by split; [left|]].
  destruct (mapM _ (_ <$> ds)) as [k| |] eqn:E; cbn [mbind result_bind]; split; try done; try (by right); intros [?|?]; done.
Qed.

(** What a usable definition is: filters that parse and are in order, and a
    threshold window that fits the ring, wherever there is a traffic type. *)
Inductive usable : ThresholdMetricDefinition -> Prop :=
  | usable_definition p f subs e : Parse f = Some e -> safe_expr e ->
      (TrafficType p <> ""%string -> good_params (InitDefaultPrometheusMetricParams p)) ->
      Forall usable subs -> usable (mkDefinition p f subs).

Lemma NewDatabase_good p : good_params p -> good (NewDatabase p).
Proof. intros Hp. split; [done|]. apply map_Forall_empty. Qed.

Lemma usable_wf a d : usable d -> exists m, metricFromDefinition Parse a d = Some m /\ wf (initDatabasesForFilter m).
Proof.
  induction d as [p f subs IH] using definition_ind. inversion 1 as [? ? ? e Hp He Hg Hs]; subst.
  cbn [metricFromDefinition definition_params definition_filter definition_subs]. rewrite Hp. cbn [mbind option_bind].
  assert (exists ms, mapM (metricFromDefinition Parse a) subs = Some ms /\ Forall wf (initDatabasesForFilter <$> ms)) as (ms & -> & Hms).
  { clear -IH Hs. induction IH as [|d ds Hd _ IHd]; [by exists []|]. apply Forall_cons in Hs as [Hu Hs].
    destruct (Hd Hu) as (m & Hm & Hw). destruct (IHd Hs) as (ms & Hms & Hws). exists (m :: ms). cbn [mapM].
    rewrite Hm. cbn [mbind option_bind]. rewrite Hms. split; [done|by constructor]. }
  cbn [mbind option_bind]. eexists. split; [done|]. cbn [initDatabasesForFilter metric_params SubDefinitions metric_expr].
  constructor; [|done|done]. unfold typed.
  set (q := if is_empty a then _ else _).
  assert (TrafficType q = TrafficType p /\ (good_params (InitDefaultPrometheusMetricParams p) -> good_params q)) as [Et Hq].
  { unfold q, good_params. destruct (is_empty a); by split. }
  rewrite Et. destruct (is_empty (TrafficType p)) eqn:Ee; [done|].
  exists (NewDatabase q). split_and!; [done| |done]. apply NewDatabase_good, Hq, Hg. by intros E; rewrite E in Ee.
Qed.

Lemma init_wf c definitions : Forall usable definitions ->
  exists ds, initDatabasesAndCollector (AddCustomConfig Parse definitions (New c)) = Ok ds /\ Forall wf ds.
Proof.
  intros Hu. unfold initDatabasesAndCollector, AddCustomConfig, New. cbn [ts_metrics ts_relevant]. rewrite app_nil_l.
  apply mapM_total, Forall_fmap. apply (Forall_impl _ _ _ Hu). intros d Hd. cbn.
  destruct (usable_wf (cfg c "relevantaddress") d Hd) as (m & -> & Hw). by exists (initDatabasesForFilter m).
Qed.

(** C30. Every reachable forest is well typed: a node has a database exactly if
    it names a traffic type, the database has the node's parameters and its
    records are rings of the configured size.  So with a usable configuration no
    interleaving of flows, clock ticks and cleanups panics, and the flows leave in
    order and unchanged. *)
Theorem traffic_well_typed `{f64.Platform} (c : config) (definitions : list ThresholdMetricDefinition) (es : list event) :
  Forall usable definitions ->
  exists ds0 ds, initDatabasesAndCollector (AddCustomConfig Parse definitions (New c)) = Ok ds0 /\
    run_events es ds0 = Ok (ds, messages es) /\ Forall wf ds.
Proof.
  intros Hu. destruct (init_wf c definitions Hu) as (ds0 & E0 & Hw0).
  destruct (run_events_wf es ds0 Hw0) as (ds & E & Hw). by exists ds0, ds.
Qed.
End custom_theorems.

(** The parameter metricspath is not the path of the metrics: it changes the
    path of the flow data, unless flowdatapath is set as well. *)
Theorem metricspath_misplaced (c : config) : cfg c "metricspath" <> ""%string ->
  MetricsPath (New c) = "/metrics"%string /\
  (cfg c "flowdatapath" = ""%string -> FlowdataPath (New c) = cfg c "metricspath").
Proof.
  intros Hm. split; [done|]. intros Hf. unfold New, or_default. cbn [FlowdataPath]. rewrite Hf.
  by destruct (cfg c "metricspath").
Qed.

(** ** The theorems at work *)
Module witness.
#[export] Instance platform : f64.Platform := f64.amd64.
(** TCP traffic, and in it what does not go to a low port, which is counted by
    destination. *)
Definition tcp : Expression :=
  ESingle (SRegular None {| r_match := ProtoMatch (ByKey 6); r_ev := false; r_EvalResult := false |} false) false.
Definition high : Expression :=
  ESingle (SDirectional (Some true) {| Direction := Some "dst"%string;
    d_match := PortRangeMatch {| Unary := None; Number := None; Lower := Some 1; Upper := Some 1023 |};
    d_evs := no_evals; d_EvalResult := false |} false) false.
Definition parse (s : string) : option Expression :=
  if seqb s "proto tcp" then Some tcp else if seqb s "not dst port 1-1023" then Some high else None.
Definition high_params : params := mkparams "high" 0 0 0 0 0 0 "" 0.
Definition tree (filter : string) : ThresholdMetricDefinition :=
  mkDefinition zero_params "proto tcp" [mkDefinition high_params filter []].
Definition definitions : list ThresholdMetricDefinition := [tree "not dst port 1-1023"].
Definition forest : list ThresholdMetric :=
  match initDatabasesAndCollector (AddCustomConfig parse definitions (New ∅)) with Ok ds => ds | _ => [] end.
Definition flow (proto port : Z) : EnrichedFlow :=
  set_Bytes 100 (set_Packets 1 (set_ForwardingStatus 64 (set_DstAddr (Some [10; 0; 0; 1]) (set_Proto proto (set_DstPort port emptyFlow))))).
Lemma usable_definitions : Forall (usable parse) definitions.
Proof.
  constructor; [|constructor]. apply (usable_definition parse _ _ _ tcp); [done|by exists false|done|].
  constructor; [|constructor]. apply (usable_definition parse _ _ _ high); [done|by exists false| |constructor].
  intros _. unfold good_params. cbn. lia.
Qed.
Lemma forest_wf : Forall wf forest.
Proof. destruct (init_wf parse ∅ definitions usable_definitions) as (ds & E & Hw). unfold forest. by rewrite E. Qed.
Lemma forest_assigned msg : Forall (assigned msg) forest.
Proof. repeat constructor. Qed.
End witness.

Lemma traffic_counts_matching_witness :
  exists ds', seg_try false witness.forest (witness.flow 6 8080) = Ok (ds', [EOut (witness.flow 6 8080)]) /\
    exists d' db', node_at [0; 0]%nat ds' = Some d' /\ metric_db d' = Some db' /\
      current_of db' "high: 10.0.0.1" = mkbucket 100 1 0 0.
Proof.
  destruct (traffic_counts_matching false witness.forest (witness.flow 6 8080) witness.forest_wf
    (witness.forest_assigned _)) as (ds' & E & H).
  exists ds'. split; [exact E|].
  destruct (H [0; 0]%nat (default (mkMetric zero_params None witness.tcp "" []) (node_at [0; 0]%nat witness.forest)) eq_refl)
    as (d' & Hd & _ & db' & Hdb & Hc).
  exists d', db'. split; [exact Hd|]. split; [exact Hdb|]. rewrite Hc. reflexivity.
Defined.

Lemma traffic_well_typed_witness :
  exists ds0 ds, initDatabasesAndCollector (AddCustomConfig witness.parse witness.definitions (New ∅)) = Ok ds0 /\
    @run_events witness.platform [Message (witness.flow 6 8080); ClockTick [0; 0]%nat ["high: 10.0.0.1"%string]] ds0
    = Ok (ds, [witness.flow 6 8080]) /\ Forall wf ds.
Proof.
  exact (@traffic_well_typed witness.parse witness.platform ∅ witness.definitions
    [Message (witness.flow 6 8080); ClockTick [0; 0]%nat ["high: 10.0.0.1"%string]] witness.usable_definitions).
Defined.

Lemma metricspath_misplaced_witness :
  FlowdataPath (New {[ "metricspath"%string := "/m"%string ]}) = "/m"%string.
Proof. refine (proj2 (metricspath_misplaced {[ "metricspath"%string := "/m"%string ]} _) _); [discriminate|reflexivity]. Defined.
