(* ===== verification/Branch.v ===== *)
(** * branch ([segments/controlflow/branch/branch.go])

    A branch runs three pipelines, here networks of plain segments
    ([OpenNet.v]).  The goroutines of the branch itself are the parts of a
    transition system: [Run] with the shutdown in its deferred function,
    [forwardBasedOnCondition] and [drainOutput].  The two helpers ask for the
    drop channels when they start, while the pipelines and [Run] are already
    running: [launched] is the state after the [go] statements, [ready] the one
    in which both helpers are in their loops.

    The state of a channel variable set to nil in the forwarder is not needed:
    a closed [Out] gives nothing, and nobody closes the drop channel of a
    pipeline, so that the forwarder never returns. *)

From stdpp Require Import prelude strings list gmap relations.
From Stdlib Require Import ZArith Lia.
From S2P Require Import Prelude GoStd EnrichedFlow FlowMethods Segment Pipeline OpenNet.

Record Branch := mkBranch { bypassMessages : bool }.
Definition New (c : config) : created Branch :=
  if is_empty (cfg c "bypass-messages") then Created {| bypassMessages := false |}
  else match strconv.ParseBool (cfg c "bypass-messages") with
       | Some b => Created {| bypassMessages := b |}
       | None => FatalExit
       end.

(** Run's goroutine: reading In, then inside the three Close calls of the
    deferred function, then finished, with Out closed. *)
Inductive phase : Type := Reading | CloseCondition | CloseThen | CloseElse | Finished.
(** forwardBasedOnCondition: before its call of GetDrop, in its select, or
    sending what it received to one of the branches. *)
Inductive forwarder : Type := Asking | Waiting | Holding (to_then : bool) (m : EnrichedFlow).
(** drainOutput: before its first and its second call of GetDrop, in its
    select, sending what it received, or returned. *)
Inductive drainer : Type := AskingThen | AskingElse | Selecting | Sending (e : emit) | Returned.

Record state := mkstate {
  input : list EnrichedFlow; main : phase;
  condition : net; then_branch : net; else_branch : net;
  forwarding : forwarder; draining : drainer; sent : list emit }.

Section branch.
(** The segment, and whether somebody subscribed to its drops. *)
Context (segment : Branch) (subscribed : bool).

(** What drainOutput does with a message of a branch. *)
Definition route (e : emit) : list emit :=
  match e with
  | EOut m => [EOut m]
  | EDrop m => if bypassMessages segment then [EOut m] else to_drops subscribed m
  end.

Inductive step : state -> state -> Prop :=
  (* Run *)
  | step_read m ms c c' t e f d s : accepts m c c' ->
      step (mkstate (m :: ms) Reading c t e f d s) (mkstate ms Reading c' t e f d s)
  | step_close_condition c c' t e f d s : closes c c' ->
      step (mkstate [] Reading c t e f d s) (mkstate [] CloseCondition c' t e f d s)
  | step_close_then ms c t t' e f d s : closed_down c -> closes t t' ->
      step (mkstate ms CloseCondition c t e f d s) (mkstate ms CloseThen c t' e f d s)
  | step_close_else ms c t e e' f d s : closed_down t -> closes e e' ->
      step (mkstate ms CloseThen c t e f d s) (mkstate ms CloseElse c t e' f d s)
  | step_finish ms c t e f d s : closed_down e ->
      step (mkstate ms CloseElse c t e f d s) (mkstate ms Finished c t e f d s)
  (* the goroutines of the pipelines *)
  | step_condition ms p c c' t e f d s : internal c c' ->
      step (mkstate ms p c t e f d s) (mkstate ms p c' t e f d s)
  | step_then ms p c t t' e f d s : internal t t' ->
      step (mkstate ms p c t e f d s) (mkstate ms p c t' e f d s)
  | step_else ms p c t e e' f d s : internal e e' ->
      step (mkstate ms p c t e f d s) (mkstate ms p c t e' f d s)
  (* forwardBasedOnCondition *)
  | step_ask ms p c t e d s :
      step (mkstate ms p c t e Asking d s) (mkstate ms p (subscribe c) t e Waiting d s)
  | step_take ms p c c' t e d s m : gives m c c' ->
      step (mkstate ms p c t e Waiting d s) (mkstate ms p c' t e (Holding true m) d s)
  | step_take_drop ms p c c' t e d s m : gives_drop m c c' ->
      step (mkstate ms p c t e Waiting d s) (mkstate ms p c' t e (Holding false m) d s)
  | step_to_then ms p c t t' e m d s : accepts m t t' ->
      step (mkstate ms p c t e (Holding true m) d s) (mkstate ms p c t' e Waiting d s)
  | step_to_else ms p c t e e' m d s : accepts m e e' ->
      step (mkstate ms p c t e (Holding false m) d s) (mkstate ms p c t e' Waiting d s)
  (* drainOutput *)
  | step_ask_then ms p c t e f s :
      step (mkstate ms p c t e f AskingThen s) (mkstate ms p c (subscribe t) e f AskingElse s)
  | step_ask_else ms p c t e f s :
      step (mkstate ms p c t e f AskingElse s) (mkstate ms p c t (subscribe e) f Selecting s)
  | step_from_then ms p c t t' e f s m : gives m t t' ->
      step (mkstate ms p c t e f Selecting s) (mkstate ms p c t' e f (Sending (EOut m)) s)
  | step_from_else ms p c t e e' f s m : gives m e e' ->
      step (mkstate ms p c t e f Selecting s) (mkstate ms p c t e' f (Sending (EOut m)) s)
  | step_from_then_drop ms p c t t' e f s m : gives_drop m t t' ->
      step (mkstate ms p c t e f Selecting s) (mkstate ms p c t' e f (Sending (EDrop m)) s)
  | step_from_else_drop ms p c t e e' f s m : gives_drop m e e' ->
      step (mkstate ms p c t e f Selecting s) (mkstate ms p c t e' f (Sending (EDrop m)) s)
  | step_send ms p c t e f s x : p <> Finished \/ route x = [] ->
      step (mkstate ms p c t e f (Sending x) s) (mkstate ms p c t e f Selecting (s ++ route x))
  | step_return ms p c t e f s : out_closed t \/ out_closed e ->
      step (mkstate ms p c t e f Selecting s) (mkstate ms p c t e f Returned s).

(** A send on a closed channel is enabled. *)
Definition panics (st : state) : Prop :=
  Pipeline.panics (condition st) \/ Pipeline.panics (then_branch st) \/ Pipeline.panics (else_branch st) \/
  match forwarding st with
  | Holding true _ => nin (then_branch st) ∈ nclosed (then_branch st)
  | Holding false _ => nin (else_branch st) ∈ nclosed (else_branch st)
  | _ => False
  end \/
  match draining st with Sending x => main st = Finished /\ route x <> [] | _ => False end.
(** The branch has shut down and nothing is under way. *)
Definition quiet (st : state) : Prop :=
  main st = Finished /\ forwarding st = Waiting /\ match draining st with Sending _ => False | _ => True end.

(** After the [go] statements of [Run], and once the helpers have subscribed. *)
Definition launched (c t e : pipeline) (ms : list EnrichedFlow) : state :=
  mkstate ms Reading (Start c []) (Start t []) (Start e []) Asking AskingThen [].
Definition ready (c t e : pipeline) (ms : list EnrichedFlow) : state :=
  mkstate ms Reading (Start (GetDrop c) []) (Start (GetDrop t) []) (Start (GetDrop e) []) Waiting Selecting [].

(** *** What a branch is meant to send *)
Definition emits (outputs dropped : list EnrichedFlow) : list emit := (EOut <$> outputs) ++ (EDrop <$> dropped).
(** [ds] is the order in which the drops of the condition were received. *)
Definition expected (cs ts es : list proc) (ms ds : list EnrichedFlow) : list emit :=
  let t := rest ts (rest cs ms).1 in
  let e := rest es ds in
  flat_map route (emits t.1 t.2 ++ emits e.1 e.2).

(** *** Invariant *)
Definition number (p : phase) : nat :=
  match p with Reading => 0 | CloseCondition => 1 | CloseThen => 2 | CloseElse => 3 | Finished => 4 end.
Definition held (d : bool) (f : forwarder) : list EnrichedFlow :=
  match f with Holding d' m => if eqb d d' then [m] else [] | _ => [] end.
Definition drains (d : drainer) : list emit := match d with Sending x => route x | _ => [] end.

Record shutdown (st : state) : Prop := {
  sd_forwarding : forwarding st <> Asking;
  sd_draining_then : draining st <> AskingThen;
  sd_draining_else : draining st <> AskingElse;
  sd_input : (1 <= number (main st))%nat -> input st = [];
  sd_condition : (2 <= number (main st))%nat -> closed_down (condition st);
  sd_then : (3 <= number (main st))%nat -> closed_down (then_branch st);
  sd_else : (4 <= number (main st))%nat -> closed_down (else_branch st) }.

Record flows (cs ts es : list proc) (ms : list EnrichedFlow) (st : state) : Prop := {
  fl_condition : exists read, ms = read ++ input st /\ tracks cs read (condition st);
  fl_then : exists mt, noutput (condition st) = mt ++ held true (forwarding st) /\ tracks ts mt (then_branch st);
  fl_else : exists me, ndropped (condition st) = me ++ held false (forwarding st) /\ tracks es me (else_branch st);
  fl_sent : sent st ++ drains (draining st) ≡ₚ
    flat_map route (emits (noutput (then_branch st)) (ndropped (then_branch st)) ++
                    emits (noutput (else_branch st)) (ndropped (else_branch st))) }.

Definition good (cs ts es : list proc) (ms : list EnrichedFlow) (st : state) : Prop :=
  flows cs ts es ms st /\ shutdown st.

(** A pipeline in use is not closed down. *)
Ltac not_closed_down :=
  match goal with
  | T : tracks _ _ ?n, H : internal ?n _ |- _ => pose proof (fun c => closed_down_stuck _ _ _ _ T c (proj1 H)); clear H
  | T : tracks _ _ ?n, H : gives _ ?n _ |- _ => pose proof (fun c => closed_down_stuck _ _ _ _ T c (proj1 H)); clear H
  | T : tracks _ _ ?n, H : gives_drop _ ?n _ |- _ => pose proof (fun c => closed_down_stuck _ _ _ _ T c (proj1 H)); clear H
  | H : accepts _ ?n _ |- _ => pose proof (fun c => closed_down_accepts _ _ _ c H); clear H
  end.

Lemma step_shutdown cs ts es ms st st' : flows cs ts es ms st -> shutdown st -> step st st' -> shutdown st'.
Proof.
  intros [(read & _ & Tc) (mt & _ & Tt) (me & _ & Te) _] [Hf Hd1 Hd2 Hi Hc Ht He] Hs.
  destruct Hs; try match goal with p : phase |- _ => destruct p end; simpl in *; try not_closed_down;
    repeat match goal with H : (?a <= ?b)%nat -> _ |- _ => first [specialize (H ltac:(lia)) | clear H] end;
    split; simpl; intros; try lia; first [congruence | done].
Qed.

(** What is seen of a pipeline after a step of each kind. *)
Ltac observe :=
  match goal with
  | T : tracks _ _ ?n, H : internal ?n _ |- _ =>
      pose proof (tracks_internal _ _ _ _ T H) as T'; destruct H as (_ & Ho & Hd & _)
  | T : tracks _ _ ?n, H : closes ?n _ |- _ =>
      pose proof (tracks_closes _ _ _ _ T H) as T'; apply closes_same in H as [Ho Hd]
  | T : tracks _ _ ?n, H : accepts _ ?n _ |- _ =>
      pose proof (tracks_accepts _ _ _ _ T _ H) as T'; apply accepts_same in H as (_ & _ & Ho & Hd)
  | T : tracks _ _ ?n, H : gives _ ?n _ |- _ =>
      pose proof (tracks_gives _ _ _ _ T _ (or_introl H)) as T'; pose proof (gives_dropped _ _ _ H) as Hd; destruct H as [_ Ho]
  | T : tracks _ _ ?n, H : gives_drop _ ?n _ |- _ =>
      pose proof (tracks_gives _ _ _ _ T _ (or_intror H)) as T'; pose proof (gives_drop_output _ _ _ H) as Ho; destruct H as [_ Hd]
  end.

Lemma flat_map_perm (l k : list emit) : l ≡ₚ k -> flat_map route l ≡ₚ flat_map route k.
Proof. apply Permutation_flat_map. Qed.
Lemma emits_snoc o d m : emits (o ++ [m]) d ≡ₚ EOut m :: emits o d /\ emits o (d ++ [m]) ≡ₚ EDrop m :: emits o d.
Proof. unfold emits. rewrite !fmap_app. simpl. split; solve_perm. Qed.

Lemma route_snoc o d m l :
  flat_map route (emits (o ++ [m]) d ++ l) ≡ₚ flat_map route (emits o d ++ l) ++ route (EOut m) /\
  flat_map route (emits o (d ++ [m]) ++ l) ≡ₚ flat_map route (emits o d ++ l) ++ route (EDrop m).
Proof.
  destruct (emits_snoc o d m) as [E1 E2].
  rewrite !flat_map_app, (flat_map_perm _ _ E1), (flat_map_perm _ _ E2). cbn [flat_map]. split; solve_perm.
Qed.
Lemma route_snoc_r o d m l :
  flat_map route (l ++ emits (o ++ [m]) d) ≡ₚ flat_map route (l ++ emits o d) ++ route (EOut m) /\
  flat_map route (l ++ emits o (d ++ [m])) ≡ₚ flat_map route (l ++ emits o d) ++ route (EDrop m).
Proof.
  destruct (emits_snoc o d m) as [E1 E2].
  rewrite !flat_map_app, (flat_map_perm _ _ E1), (flat_map_perm _ _ E2). cbn [flat_map]. split; solve_perm.
Qed.

Ltac tracked := eexists; split; [|eassumption]; rewrite ?app_nil_r in *; subst; rewrite <- ?app_assoc; simpl; congruence.
Lemma step_flows cs ts es ms st st' : shutdown st -> flows cs ts es ms st -> step st st' -> flows cs ts es ms st'.
Proof.
  intros [Hf Hd1 Hd2 _ _ _ _] [(read & Ei & Tc) (mt & Eo & Tt) (me & Ed & Te) Es] Hs.
  destruct Hs; simpl in Hf, Hd1, Hd2, Ei, Tc, Eo, Tt, Ed, Te, Es; try done; try observe;
    (split; cbn [input main condition then_branch else_branch forwarding draining sent held eqb drains] in *;
     [tracked|tracked|tracked|]); rewrite ?Ho, ?Hd, ?app_nil_r in *;
    rewrite ?(proj1 (route_snoc _ _ _ _)), ?(proj2 (route_snoc _ _ _ _)),
      ?(proj1 (route_snoc_r _ _ _ _)), ?(proj2 (route_snoc_r _ _ _ _)), <- ?Es; done.
Qed.

Lemma step_good cs ts es ms st st' : good cs ts es ms st -> step st st' -> good cs ts es ms st'.
Proof. intros [Hf Hd] Hs. split; [by eapply step_flows|by eapply step_shutdown]. Qed.

(** *** From the start *)
Section started.
Context (cs ts es : list proc) (c t e : pipeline) (ms : list EnrichedFlow).
Hypotheses (Hcs : Forall fresh cs) (Hts : Forall fresh ts) (Hes : Forall fresh es).
Hypotheses (Hc : Pipeline.New ((fun q => Some (Single q)) <$> cs) = Some c)
  (Ht : Pipeline.New ((fun q => Some (Single q)) <$> ts) = Some t)
  (He : Pipeline.New ((fun q => Some (Single q)) <$> es) = Some e).
(** The goroutines of a pipeline whose drops are read. *)
Abbreviation procs l := (Pipeline.subscribed true (effective l)).

Lemma ready_good : good (procs cs) (procs ts) (procs es) ms (ready c t e ms).
Proof using All.
  split; [|by split; simpl; intros; try lia].
  split; [exists []|exists []|exists []|done]; (split; [done|]);
    [apply (tracks_start true cs c)|apply (tracks_start true ts t)|apply (tracks_start true es e)]; done.
Qed.

(** Three steps lead from the [go] statements to the loops of the helpers. *)
Lemma launched_ready : rtc step (launched c t e ms) (ready c t e ms).
Proof using Hc Ht He.
  unfold launched, ready.
  rewrite <- (subscribe_start cs c Hc), <- (subscribe_start ts t Ht), <- (subscribe_start es e He).
  eapply rtc_l; [apply step_ask|]. eapply rtc_l; [apply step_ask_then|]. eapply rtc_l; [apply step_ask_else|].
  apply rtc_refl.
Qed.

Lemma quiet_sent st : rtc step (ready c t e ms) st -> quiet st ->
  exists ds, ds ≡ₚ (rest (procs cs) ms).2 /\ sent st ≡ₚ expected (procs cs) (procs ts) (procs es) ms ds.
Proof using All.
  intros Hs (Hm & Hf & Hd).
  destruct (rtc_keeps (step_good _ _ _ _) _ _ Hs ready_good)
    as [[(read & Ei & Tc) (mt & Eo & Tt) (me & Ed & Te) Es] [_ _ _ Hi Hcl Htl Hel]].
  rewrite Hm in Hi, Hcl, Htl, Hel. rewrite Hf in Eo, Ed. cbn [held number] in *.
  rewrite app_nil_r in Eo, Ed. rewrite Hi, app_nil_r in Ei by lia. subst read.
  destruct (tracks_closed_down _ _ _ Tc (Hcl ltac:(lia))) as [Oc Dc].
  destruct (tracks_closed_down _ _ _ Tt (Htl ltac:(lia))) as [Ot Dt].
  destruct (tracks_closed_down _ _ _ Te (Hel ltac:(lia))) as [Oe De].
  exists (ndropped (condition st)). split; [done|].
  assert (drains (draining st) = []) as E by (by destruct (draining st)).
  rewrite E, app_nil_r in Es. rewrite Es. unfold expected. rewrite <- Oc, Eo, <- Ot, Ed, <- Oe.
  apply flat_map_perm. unfold emits. by rewrite Dt, De.
Qed.

(** C23. What a branch delivers once its helpers have subscribed to the drops of
    its pipelines ([ready]), for pipelines of plain segments, whatever the
    interleaving from there on of its goroutines and of those of its three
    pipelines: in every run in which it shuts down with nothing under way
    ([quiet]; it may also panic, branch_close_panics, or hang, branch_close_hangs,
    and a flow dropped before the subscription is lost, branch_startup_loses), it
    has sent, as a multiset, what the condition passed on through the then
    pipeline and what the condition dropped, in some order, through the else
    pipeline, and the drops of both as bypass-messages says. *)
Theorem branch_delivers st : rtc step (ready c t e ms) st -> quiet st ->
  exists ds, ds ≡ₚ (rest (procs cs) ms).2 /\ sent st ≡ₚ expected (procs cs) (procs ts) (procs es) ms ds.
Proof using All. apply quiet_sent. Qed.

Lemma emits_parts l k : outs (emits l k) = l /\ drops (emits l k) = k.
Proof.
  unfold emits. rewrite outs_app, drops_app.
  assert (outs (EOut <$> l) = l /\ drops (EOut <$> l) = []) as [-> ->].
  { induction l as [|m l [IH1 IH2]]; [done|].
    change (m :: outs (EOut <$> l) = m :: l /\ drops (EOut <$> l) = []). by rewrite IH1, IH2. }
  assert (outs (EDrop <$> k) = [] /\ drops (EDrop <$> k) = k) as [-> ->].
  { induction k as [|m k [IH1 IH2]]; [done|].
    change (outs (EDrop <$> k) = [] /\ m :: drops (EDrop <$> k) = m :: k). by rewrite IH1, IH2. }
  by rewrite app_nil_r.
Qed.

Lemma outs_route_bypass l : bypassMessages segment = true ->
  outs (flat_map route l) ≡ₚ outs l ++ drops l /\ drops (flat_map route l) = [].
Proof.
  intros Hb. induction l as [|[m|m] l [IHo IHd]]; [done| |]; cbn [flat_map route app]; rewrite ?Hb; cbn [app];
    unfold outs, drops in *; simpl; (split; [|done]); rewrite IHo; [done|]. apply Permutation_middle.
Qed.

(** C24. With bypass-messages, a branch whose helpers have subscribed to the drops
    ([ready]) and whose three pipelines consist of filters and of passing segments
    forwards every flow exactly once and drops none, in every run in which it
    shuts down with nothing under way ([quiet]).  Flows of runs that panic or
    hang, or that are dropped before the subscription, may be lost:
    branch_close_panics, branch_close_hangs, branch_startup_loses. *)
Theorem branch_bypass_forwards_all st :
  Forall (fun q => selecting (pm q)) (cs ++ ts ++ es) ->
  bypassMessages segment = true -> rtc step (ready c t e ms) st -> quiet st ->
  outs (sent st) ≡ₚ ms /\ drops (sent st) = [].
Proof using All.
  intros [Sc [St Se]%Forall_app]%Forall_app Hb Hs Hq.
  destruct (quiet_sent st Hs Hq) as (ds & Eds & E). unfold expected in E.
  assert (forall l, Forall fresh l -> Forall (fun q => selecting (pm q)) l ->
    forall k, (rest (procs l) k).1 ++ (rest (procs l) k).2 ≡ₚ k) as Hpart
    by (intros l Hl Hsl k; apply rest_selecting, effective_selecting, Forall_and; by split).
  set (rc := rest (procs cs) ms) in *. set (rt := rest (procs ts) rc.1) in *. set (re := rest (procs es) ds) in *.
  destruct (outs_route_bypass (emits rt.1 rt.2 ++ emits re.1 re.2) Hb) as [Ho Hd].
  split.
  - assert (outs (sent st) ≡ₚ outs (flat_map route (emits rt.1 rt.2 ++ emits re.1 re.2))) as ->
      by (unfold outs; by rewrite E).
    rewrite Ho, outs_app, drops_app, !(proj1 (emits_parts _ _)), !(proj2 (emits_parts _ _)).
    pose proof (Hpart cs Hcs Sc ms) as Pc. pose proof (Hpart ts Hts St rc.1) as Pt.
    pose proof (Hpart es Hes Se ds) as Pe. fold rc in Pc. fold rt in Pt. fold re in Pe.
    rewrite <- Pc, <- Eds, <- Pt, <- Pe. solve_perm.
  - apply Permutation_nil. rewrite <- Hd. symmetry. unfold drops. by rewrite E.
Qed.
End started.
End branch.

(** ** Branches with pipelines of one segment *)
#[export] Instance Pass_selects : Selects Pass.
Proof. by left. Qed.

Section shutdown_examples.
Context (segment : Branch) (subscribed : bool).
Abbreviation step := (step segment subscribed).

(** C25. Run closes the then pipeline as soon as the condition has ended, while
    forwardBasedOnCondition may still hold the last flow it received: its send
    on the closed channel panics.  One flow and three pass pipelines suffice. *)
Theorem branch_close_panics (m : EnrichedFlow) :
  exists st, rtc step (ready pass_pipeline pass_pipeline pass_pipeline [m]) st /\ panics segment subscribed st.
Proof.
  eexists. split.
  - next ltac:(eapply step_read, (solo_accepts (passing true)); solve_solo).
    next ltac:(eapply step_close_condition, solo_closes; solve_solo).
    next ltac:(eapply step_take, solo_gives; solve_solo).
    next ltac:(eapply step_condition, solo_eof; solve_solo).
    next ltac:(eapply step_close_then; [apply solo_closed_down|apply (solo_closes (passing true))]; solve_solo).
    apply rtc_refl.
  - right. right. right. left. apply elem_of_new.
Qed.

(** drainOutput returns when the first of its channels is closed: the then
    pipeline ends first, and a flow still in the else pipeline is never
    received.  It is lost, and Run waits for the else pipeline forever. *)
Theorem branch_close_hangs (m : EnrichedFlow) :
  exists st, rtc step (ready drop_pipeline pass_pipeline pass_pipeline [m]) st /\
    main st = CloseElse /\ sent st = [] /\ ~ (exists st', step st st') /\ ~ panics segment subscribed st.
Proof.
  eexists. split.
  - next ltac:(eapply step_read, (solo_accepts (dropping true)); solve_solo).
    next ltac:(eapply step_take_drop, solo_gives_drop; solve_solo).
    next ltac:(eapply step_close_condition, solo_closes; solve_solo).
    next ltac:(eapply step_condition, solo_eof; solve_solo).
    next ltac:(eapply step_to_else, (solo_accepts (passing true)); solve_solo).
    next ltac:(eapply step_close_then; [apply solo_closed_down|apply (solo_closes (passing true))]; solve_solo).
    next ltac:(eapply step_then, solo_eof; solve_solo).
    next ltac:(eapply step_return; left; apply elem_of_new).
    next ltac:(eapply step_close_else; [apply solo_closed_down|apply solo_closes]; solve_solo).
    apply rtc_refl.
  - split_and!; [done|done| |].
    + intros [st' Hst].
      assert (forall q cl o d n, pdone q = true -> ppend q = [] -> 0%nat ∈ cl -> Pipeline.step (solo q cl o d) n -> False) as Hdone
        by (intros; by eapply solo_done).
      inversion Hst; subst; try done;
        match goal with
        | H : closed_down _ |- _ => by destruct H
        | H : internal _ _ |- _ => destruct H as (Hi & E & _)
        | H : gives _ _ _ |- _ => destruct H as [Hi E]
        | H : gives_drop _ _ _ |- _ => destruct H as [Hi E]
        end; try (eapply Hdone in Hi; [done|done|done|set_solver]).
      eapply solo_pending in Hi; [|done|set_solver]. by rewrite Hi in E.
    + intros [Hp|[Hp|[Hp|[[]|[]]]]]; destruct Hp as (j & q & [_ <-]%list_lookup_singleton_Some & Hout & Hp); simpl in *.
      * destruct Hp as [[[? _]%ready_spec _]|(? & ? & [=])]. done.
      * destruct Hp as [[[? _]%ready_spec _]|(? & ? & [=])]. done.
      * set_solver.
Qed.

(** The helpers ask for the drops when the pipelines and Run are already at
    work: what the condition drops before that is lost, and the branch shuts
    down without having sent it, even with bypass-messages. *)
Theorem branch_startup_loses (m : EnrichedFlow) :
  exists st, rtc step (launched drop_pipeline pass_pipeline pass_pipeline [m]) st /\ quiet st /\ sent st = [].
Proof.
  eexists. split.
  - next ltac:(eapply step_read, (solo_accepts (dropping false)); solve_solo).
    next ltac:(apply step_ask). next ltac:(apply step_ask_then). next ltac:(apply step_ask_else).
    next ltac:(eapply step_close_condition, (solo_closes (SubscribeDrops (receive m (dropping false)))); solve_solo).
    next ltac:(eapply step_condition, solo_eof; solve_solo).
    next ltac:(eapply step_close_then; [apply solo_closed_down|apply (solo_closes (passing true))]; solve_solo).
    next ltac:(eapply step_then, solo_eof; solve_solo).
    next ltac:(eapply step_close_else; [apply solo_closed_down|apply (solo_closes (passing true))]; solve_solo).
    next ltac:(eapply step_else, solo_eof; solve_solo).
    next ltac:(apply step_finish, solo_closed_down; solve_solo).
    apply rtc_refl.
  - done.
Qed.
End shutdown_examples.

(** ** The theorems at work *)
Module witness.
Definition flow : EnrichedFlow := set_Bytes 7 emptyFlow.
(** A branch that lets the flow through the condition and then shuts down. *)
Lemma passed : exists st,
  rtc (step (mkBranch false) false) (ready pass_pipeline pass_pipeline pass_pipeline [flow]) st /\
  quiet st /\ sent st = [EOut flow].
Proof.
  eexists. split.
  - next ltac:(eapply step_read, (solo_accepts (passing true)); solve_solo).
    next ltac:(eapply step_take, solo_gives; solve_solo).
    next ltac:(eapply step_to_then, (solo_accepts (passing true)); solve_solo).
    next ltac:(eapply step_from_then, solo_gives; solve_solo).
    next ltac:(by apply step_send; left).
    next ltac:(eapply step_close_condition, solo_closes; solve_solo).
    next ltac:(eapply step_condition, solo_eof; solve_solo).
    next ltac:(eapply step_close_then; [apply solo_closed_down|apply solo_closes]; solve_solo).
    next ltac:(eapply step_then, solo_eof; solve_solo).
    next ltac:(eapply step_close_else; [apply solo_closed_down|apply (solo_closes (passing true))]; solve_solo).
    next ltac:(eapply step_else, solo_eof; solve_solo).
    next ltac:(apply step_finish, solo_closed_down; solve_solo).
    apply rtc_refl.
  - done.
Qed.
(** A flow dropped by the condition and by the else pipeline, with
    bypass-messages. *)
Lemma bypassed : exists st,
  rtc (step (mkBranch true) true) (ready drop_pipeline pass_pipeline drop_pipeline [flow]) st /\
  quiet st /\ sent st = [EOut flow].
Proof.
  eexists. split.
  - next ltac:(eapply step_read, (solo_accepts (dropping true)); solve_solo).
    next ltac:(eapply step_take_drop, solo_gives_drop; solve_solo).
    next ltac:(eapply step_to_else, (solo_accepts (dropping true)); solve_solo).
    next ltac:(eapply step_from_else_drop, solo_gives_drop; solve_solo).
    next ltac:(by apply step_send; left).
    next ltac:(eapply step_close_condition, solo_closes; solve_solo).
    next ltac:(eapply step_condition, solo_eof; solve_solo).
    next ltac:(eapply step_close_then; [apply solo_closed_down|apply (solo_closes (passing true))]; solve_solo).
    next ltac:(eapply step_then, solo_eof; solve_solo).
    next ltac:(eapply step_close_else; [apply solo_closed_down|apply solo_closes]; solve_solo).
    next ltac:(eapply step_else, solo_eof; solve_solo).
    next ltac:(apply step_finish, solo_closed_down; solve_solo).
    apply rtc_refl.
  - done.
Qed.
End witness.

Lemma branch_delivers_witness : exists ds, ds ≡ₚ [] /\
  [EOut witness.flow] ≡ₚ expected (mkBranch false) false (SubscribeDrops <$> [new_proc Pass mkPass])
    (SubscribeDrops <$> [new_proc Pass mkPass]) (SubscribeDrops <$> [new_proc Pass mkPass]) [witness.flow] ds.
Proof.
  destruct witness.passed as (st & Hs & Hq & <-).
  refine (branch_delivers (mkBranch false) false [] [] [] pass_pipeline pass_pipeline pass_pipeline [witness.flow]
    (Forall_nil_2 _) (Forall_nil_2 _) (Forall_nil_2 _) eq_refl eq_refl eq_refl st Hs Hq).
Defined.

Lemma branch_bypass_forwards_all_witness : outs [EOut witness.flow] ≡ₚ [witness.flow] /\ drops [EOut witness.flow] = [].
Proof.
  destruct witness.bypassed as (st & Hs & Hq & <-).
  refine (branch_bypass_forwards_all (mkBranch true) true drop_procs [] drop_procs drop_pipeline pass_pipeline drop_pipeline
    [witness.flow] drop_fresh (Forall_nil_2 _) drop_fresh eq_refl eq_refl eq_refl st _ eq_refl Hs Hq).
  assert (selecting (pack Drop)) by (by apply (pack_selecting Drop)). by repeat constructor.
Defined.
