(* ===== verification/BranchConfig.v ===== *)
(** * The embedded pipelines of a branch ([AddCustomConfig] and the start of [Run] in
      [segments/controlflow/branch/branch.go])

    The three fields are interface values: nil, or a pointer to a pipeline, which may
    itself be nil.  [Branch.v] models what happens once the pipelines run. *)

From stdpp Require Import prelude strings list gmap.
From Stdlib Require Import ZArith Lia.
From S2P Require Import Prelude GoStd EnrichedFlow Segment Pipeline Config.

Inductive field : Type := NilInterface | Holding (p : option pipeline).
Record branches := mkbranches { condition : field; then_branch : field; else_branch : field }.
(** As [New] leaves them. *)
Definition unset : branches := mkbranches NilInterface NilInterface NilInterface.

Section custom_config.
Context (Args : list string) (Getenv : string -> string) (registry : gmap string template).
Abbreviation SegmentsFromRepr := (SegmentsFromRepr Args Getenv registry).

Definition embedded (reprs : list SegmentRepr) : created field := l ← SegmentsFromRepr reprs; Created (Holding (New l)).
Definition AddCustomConfig (repr : SegmentRepr) : created branches :=
  c ← embedded (If_ repr);
  t ← embedded (Then_ repr);
  e ← embedded (Else_ repr);
  Created (mkbranches c t e).
End custom_config.

(** The start of [Run]: it returns at once, without closing its channels, when a
    field is nil; [Start] on a nil pointer panics. *)
Inductive started : Type := ReturnedAtOnce | StartPanics | Started (c t e : pipeline).
Definition is_nil (f : field) : bool := match f with NilInterface => true | Holding _ => false end.
Definition Run_start (b : branches) : started :=
  if is_nil (condition b) || is_nil (then_branch b) || is_nil (else_branch b) then ReturnedAtOnce
  else match condition b, then_branch b, else_branch b with
       | Holding (Some c), Holding (Some t), Holding (Some e) => Started c t e
       | _, _, _ => StartPanics
       end.

Lemma rewire_all_None i l : rewire_all i l = None <-> None ∈ l.
Proof.
  revert i. induction l as [|[s|] l IH]; intros i; cbn [rewire_all].
  - split; [done|]. by intros ?%elem_of_nil.
  - rewrite fmap_None, IH, elem_of_cons. split; [by right|]. by intros [|].
  - split; [|done]. intros _. by left.
Qed.
Lemma New_None l : New l = None <-> None ∈ l.
Proof.
  unfold New. destruct l as [|s l]; [split; [done|by intros ?%elem_of_nil]|]. rewrite <- (rewire_all_None 0). cbv zeta iota beta.
  destruct (rewire_all 0 (s :: l)); done.
Qed.
Lemma New_cases l : (None ∈ l /\ New l = None) \/ (None ∉ l /\ exists p, New l = Some p).
Proof.
  destruct (New l) as [p|] eqn:E; [right|left; by rewrite <- New_None]. split; [|by eexists]. rewrite <- New_None. by rewrite E.
Qed.

(** The check for uninitialised branches only holds before AddCustomConfig: after it
    no field is a nil interface, so that a segment of the branch that could not be
    created (a nil entry of one of the lists) lets the process panic; otherwise all
    three pipelines are started. *)
Theorem branch_configured (Args : list string) (Getenv : string -> string) (registry : gmap string template) (repr : SegmentRepr) (b : branches) :
  AddCustomConfig Args Getenv registry repr = Created b ->
  exists c t e, SegmentsFromRepr Args Getenv registry (If_ repr) = Created c /\
    SegmentsFromRepr Args Getenv registry (Then_ repr) = Created t /\ SegmentsFromRepr Args Getenv registry (Else_ repr) = Created e /\
    (Run_start b = StartPanics <-> None ∈ c \/ None ∈ t \/ None ∈ e) /\
    (Run_start b <> StartPanics -> exists pc pt pe, New c = Some pc /\ New t = Some pt /\ New e = Some pe /\ Run_start b = Started pc pt pe).
Proof.
  intros (fc & (c & Hc & [= <-])%created_bind_inv & (ft & (t & Ht & [= <-])%created_bind_inv &
    (fe & (e & He & [= <-])%created_bind_inv & [= <-])%created_bind_inv)%created_bind_inv)%created_bind_inv.
  exists c, t, e. split_and!; [done..| |]; unfold Run_start; cbn [condition then_branch else_branch is_nil orb];
    destruct (New_cases c) as [[? Ec]|[? [pc Ec]]], (New_cases t) as [[? Et]|[? [pt Et]]], (New_cases e) as [[? Ee]|[? [pe Ee]]];
    rewrite ?Ec, ?Et, ?Ee; try tauto; try (split; [done|tauto]).
  intros _. by exists pc, pt, pe.
Qed.

(** ** The theorem at work *)
Module witness.
(** A branch whose condition is a segment that rejects its configuration. *)
Definition registry : gmap string template :=
  {[ "pass"%string := plain_template (fun _ => Created (new_proc Pass mkPass)); "broken"%string := plain_template (fun _ => NilSegment) ]}.
Definition branch : SegmentRepr := mkRepr "branch" ∅ 1 [mkRepr "broken" ∅ 1 [] [] []] [mkRepr "pass" ∅ 1 [] [] []] [].
Definition configured : branches :=
  match AddCustomConfig [] (fun _ => ""%string) registry branch with Created b => b | _ => unset end.
End witness.

Lemma branch_configured_witness : Run_start witness.configured = StartPanics.
Proof.
  destruct (branch_configured [] (fun _ => ""%string) witness.registry witness.branch witness.configured eq_refl)
    as (c & t & e & Hc & _ & _ & H & _).
  apply H. left. vm_compute in Hc. injection Hc as <-. left.
Defined.
