(* ===== verification/DiskBuffer.v ===== *)
(** * diskbuffer ([segments/input/diskbuffer/diskbuffer.go])

    A queue in memory that overflows to files.  [New] reads the configuration;
    [step] is the transition system of the goroutines [Run] starts, one relation each: the feeder
    (In to the queue), the sender (queue to Out), and the decider, which runs
    [WriteToDisk] or [ReadFromDisk] with their watchdogs.

    A file is its list of lines.  JSON encoding, size strings and the file system
    belong to other modules: they are parameters, with the laws used in
    [JsonLaws].  The file system works, or, with [faults], it may fail: a file
    cannot be created, written, examined, opened, read or removed. *)

From stdpp Require Import prelude strings list gmap relations.
From Stdlib Require Import ZArith Lia Ascii.
From S2P Require Import Prelude GoStd GoParse GoIO EnrichedFlow.

(** ** New *)
Record DiskBuffer := mkDiskBuffer {
  BatchSize : Z; BatchDebugPrintf : option bool; QueueStatusInterval : Z; FileSize : Z; BufferDir : string;
  HighMemoryMark : Z; LowMemoryMark : Z; ReadingMemoryMark : Z; MaxCacheSize : Z; Capacity : Z }.

Definition defaultQueueSize : Z := 65536.
Definition defaultBatchSize : Z := 128.
Definition defaultHighMemoryMark : Z := 70.
Definition defaultLowMemoryMark : Z := 30.
Definition defaultReadingMemoryMark : Z := 5.
Definition defaultFileSize : Z := 50 * 10 ^ 6.
Definition defaultMaxCacheSize : Z := 10 ^ 9.

Section New.
Context `{f64.Platform}.
(** The file system: whether a path is a directory ([None]: it cannot be
    examined) and whether it is writeable; [humanize.ParseBytes]. *)
Context (Stat : string -> option bool) (Access : string -> bool) (ParseBytes : string -> option Z).

Definition New_dir (c : config) : created string :=
  let dir := cfg c "bufferdir" in
  if is_empty dir then FatalExit
  else is_dir ← required (Stat dir) any_value;
       if negb is_dir then FatalExit else if negb (Access dir) then FatalExit else Created dir.

(** The receiver is the registered template, which [New] changes and returns;
    BatchDebugPrintf keeps its value when batchdebug is not set. *)
Definition New (c : config) (template : DiskBuffer) : created DiskBuffer :=
  dir ← New_dir c;
  high ← optional c "highmemorymark" "highmemorymark" defaultHighMemoryMark strconv.Atoi (between 10 95);
  reading ← optional c "readingmemorymark" "highmemorymark" defaultReadingMemoryMark strconv.Atoi (between 1 50);
  low ← optional c "lowmemorymark" "lowmemorymark" defaultLowMemoryMark strconv.Atoi (between 5 70);
  _ ← required (Some tt) (fun _ => negb (high <? low));
  _ ← required (Some tt) (fun _ => negb (low <? reading));
  _ ← optional c "maxcachesize" "maxcachesize" 0 ParseBytes any_value;
  filesize ← optional c "filesize" "filesize" defaultFileSize ParseBytes any_value;
  batch ← optional c "batchsize" "batchsize" defaultBatchSize strconv.Atoi any_value;
  debug ← optional c "batchdebug" "batchdebug" (BatchDebugPrintf template) (fun s => Some <$> strconv.ParseBool s) any_value;
  interval ← optional c "queuestatusinterval" "queuestatusinterval" 0 time.ParseDuration any_value;
  buflen ← optional c "queuesize" "queuesize" defaultQueueSize strconv.Atoi any_value;
  Created {| BatchSize := if batch <? 0 then defaultBatchSize else batch; BatchDebugPrintf := debug;
             QueueStatusInterval := interval; FileSize := filesize; BufferDir := dir;
             HighMemoryMark := high; LowMemoryMark := low; ReadingMemoryMark := reading;
             MaxCacheSize := defaultMaxCacheSize;
             Capacity := if buflen <? 64 then defaultQueueSize else buflen |}.

(** A configured disk buffer has marks in the order and ranges the code
    checks, a queue of at least 64 flows, a batch size that is not negative, and
    the default limit for the cache: the parameter maxcachesize is parsed and
    ignored. *)
Theorem diskbuffer_New_valid c t s :
  New c t = Created s ->
  (1 <= ReadingMemoryMark s <= LowMemoryMark s /\ LowMemoryMark s <= HighMemoryMark s <= 95 /\
   5 <= LowMemoryMark s <= 70 /\ ReadingMemoryMark s <= 50) /\
  64 <= Capacity s /\ 0 <= BatchSize s /\ MaxCacheSize s = defaultMaxCacheSize /\ BufferDir s <> ""%string.
Proof.
  unfold New. intros Hn. split_created Hn. injection Hn as <-. cbn.
  apply optional_inv in Hx0 as [Hx0 _], Hx1 as [Hx1 _], Hx2 as [Hx2 _]; try done.
  apply required_inv in Hx3 as [_ Hx3], Hx4 as [_ Hx4].
  unfold between in *. split_and!; try lia; try done.
  - destruct (Z.ltb_spec x10 64); [done|lia].
  - destruct (Z.ltb_spec x7 0); [done|lia].
  - unfold New_dir in Hx. intros ->. destruct (cfg c "bufferdir"); [done|]. simpl in Hx.
    apply created_bind_inv in Hx as (d & _ & Hx). destruct d; [|done]. simpl in Hx.
    by destruct (Access _).
Qed.

(** The value of readingmemorymark is never read: setting it makes the
    segment parse highmemorymark in its place, so without that parameter the
    process ends, and with it the reading mark is the high mark. *)
Theorem readingmemorymark_unread c t s :
  cfg c "readingmemorymark" <> ""%string ->
  (cfg c "highmemorymark" = ""%string -> New c t <> Created s) /\
  (New c t = Created s -> ReadingMemoryMark s = HighMemoryMark s).
Proof.
  intros Hr. assert (New c t = Created s -> cfg c "highmemorymark" <> ""%string /\ ReadingMemoryMark s = HighMemoryMark s) as Hk.
  { unfold New. intros Hn. split_created Hn. injection Hn as <-. cbn. unfold optional in Hx0, Hx1.
    destruct (cfg c "readingmemorymark") as [|a r]; [done|]. simpl in Hx1.
    apply required_inv in Hx1 as [Hx1 _]. destruct (cfg c "highmemorymark") as [|b h]; [done|]. simpl in Hx0.
    apply required_inv in Hx0 as [Hx0 _]. split; [done|congruence]. }
  split; intros Hh; [intros Hn; by apply Hk in Hn as [? _]|by apply Hk].
Qed.
End New.

(** ** Files *)

(** [fmt.Fprintln(w, b)] of a byte slice prints its numbers in brackets. *)
Definition Sprint_bytes (b : list Z) : string := fmt.brackets (strconv.FormatUint <$> b).

(** [protojson] on a message and on a line. *)
Class Json : Type := {
  Marshal : EnrichedFlow -> option string;
  Unmarshal : string -> option EnrichedFlow;
}.

Section files.
Context `{Json}.

(** A line [WriteToDisk] prints, unless the flow cannot be encoded. *)
Definition line_of (msg : EnrichedFlow) : list string := match Marshal msg with Some l => [l] | None => [] end.
(** The flows a file yields: empty lines and lines that do not decode are
    skipped. *)
Definition flows_of (ls : list string) : list EnrichedFlow :=
  omap (fun l => if is_empty l then None else Unmarshal l) ls.

(** What is relied on: a flow without broken strings is encoded as a line that
    is decoded to it again, and a JSON array is not a message. *)
Class JsonLaws (encodable : EnrichedFlow -> Prop) : Prop := {
  Unmarshal_Marshal : forall m, encodable m -> exists l, Marshal m = Some l /\ l <> ""%string /\ Unmarshal l = Some m;
  Unmarshal_array : forall s, Unmarshal (String "[" s) = None;
}.

Lemma flows_of_app l k : flows_of (l ++ k) = flows_of l ++ flows_of k.
Proof. apply omap_app. Qed.

Lemma flows_of_line `{!JsonLaws encodable} m : encodable m -> flows_of (line_of m) = [m].
Proof.
  intros Hm. destruct (Unmarshal_Marshal m Hm) as (l & El & Hl & Eu). unfold line_of. rewrite El.
  unfold flows_of. simpl. destruct l; [done|]. simpl. by rewrite Eu.
Qed.

Lemma flows_of_printed `{!JsonLaws encodable} ls : flows_of (Sprint_bytes ∘ bytes_of_string <$> ls) = [].
Proof.
  induction ls as [|l ls IH]; [done|].
  change (flows_of ([Sprint_bytes (bytes_of_string l)] ++ (Sprint_bytes ∘ bytes_of_string <$> ls)) = []).
  rewrite flows_of_app, IH, app_nil_r. unfold flows_of. cbn [omap list_omap].
  change (is_empty (Sprint_bytes (bytes_of_string l))) with false. cbn iota.
  assert (Unmarshal (Sprint_bytes (bytes_of_string l)) = None) as ->; [apply Unmarshal_array|done].
Qed.
End files.

(** ** WatchCacheFiles

    The sum of one round, on the files its glob has found; [Stat] gives the size of
    a file that still exists.  For one that does not, the error is logged and the nil
    information is used all the same. *)
Fixpoint cache_size (Stat : string -> option Z) (CacheFiles : list string) (CacheFilesSize : Z) : result Z :=
  match CacheFiles with
  | [] => Ok CacheFilesSize
  | filename :: CacheFiles =>
      match Stat filename with
      | Some size => cache_size Stat CacheFiles (i64 (CacheFilesSize + size))
      | None => Panic
      end
  end.
(** What the file system answers in a round ([Glob]: [None] is a malformed pattern),
    and whether its select takes the signal or the timer. *)
Record watch_round := mkwatch { Glob : string -> option (list string); Stat_ : string -> option Z; Signal_ : bool }.
Inductive watch_end : Type := Watching | WatchReturned | WatchFatal | WatchPanic.
(** The watcher over its rounds: the listing the other goroutines read through the
    pointer, and how far it came.  A listing that fails is nil, and stored all the same. *)
Fixpoint WatchCacheFiles (segment : DiskBuffer) (CacheFiles : list string) (rounds : list watch_round) : list string * watch_end :=
  match rounds with
  | [] => (CacheFiles, Watching)
  | r :: rounds =>
      match Glob r (BufferDir segment ++ "/*.json.zst")%string with
      | None => ([], WatchFatal)
      | Some CacheFiles =>
          match cache_size (Stat_ r) CacheFiles 0 with
          | Ok _ => if Signal_ r then (CacheFiles, WatchReturned) else WatchCacheFiles segment CacheFiles rounds
          | _ => (CacheFiles, WatchPanic)
          end
      end
  end.

Lemma cache_size_ok Stat files n : Forall (fun f => is_Some (Stat f)) files -> exists s, cache_size Stat files n = Ok s.
Proof.
  intros H. revert n. induction H as [|f files [s E] _ IH]; intros n; cbn; [by eexists|]. rewrite E. apply IH.
Qed.

(** As long as no listed file disappears during a round, the watcher goes on until it
    is signalled, and the other goroutines see the last listing. *)
Theorem watcher_follows (segment : DiskBuffer) (CacheFiles : list string) (rounds : list watch_round) (last : watch_round)
    (listing : watch_round -> list string) :
  Forall (fun r => Glob r (BufferDir segment ++ "/*.json.zst")%string = Some (listing r) /\
                   Forall (fun f => is_Some (Stat_ r f)) (listing r)) (rounds ++ [last]) ->
  Forall (fun r => Signal_ r = false) rounds -> Signal_ last = true ->
  WatchCacheFiles segment CacheFiles (rounds ++ [last]) = (listing last, WatchReturned).
Proof.
  intros Hr Hs Hl. revert CacheFiles Hr. induction Hs as [|r rounds Hr0 _ IH]; intros CacheFiles Hr; cbn in Hr.
  - apply Forall_cons in Hr as [[E Hst] _]. cbn. rewrite E. destruct (cache_size_ok _ _ 0 Hst) as [s ->]. by rewrite Hl.
  - apply Forall_cons in Hr as [[E Hst] Hr]. cbn. rewrite E. destruct (cache_size_ok _ _ 0 Hst) as [s ->]. rewrite Hr0. by apply IH.
Qed.

(** A file that the reader removes between the listing and the query of its size lets
    the watcher panic; otherwise the round computes the sum. *)
Theorem watch_race_panics (Stat : string -> option Z) (files : list string) :
  (Exists (fun f => Stat f = None) files -> cache_size Stat files 0 = Panic) /\
  (forall sizes, mapM Stat files = Some sizes -> Forall (fun n => 0 <= n) sizes -> foldr Z.add 0 sizes < 2 ^ 63 ->
     cache_size Stat files 0 = Ok (foldr Z.add 0 sizes)).
Proof.
  split.
  - generalize 0. induction files as [|f files IH]; intros n H; [by apply Exists_nil in H|]. cbn.
    destruct (Stat f) eqn:E; [|done]. apply IH. apply Exists_cons in H as [H|H]; [congruence|done].
  - assert (forall sizes acc, 0 <= acc -> mapM Stat files = Some sizes -> Forall (fun n => 0 <= n) sizes -> acc + foldr Z.add 0 sizes < 2 ^ 63 ->
      cache_size Stat files acc = Ok (acc + foldr Z.add 0 sizes)) as H by
      (induction files as [|f files IH]; intros sizes acc Ha Hm Hp Hs; cbn in Hm;
       [injection Hm as <-; cbn; by rewrite Z.add_0_r|];
       destruct (Stat f) as [n|] eqn:E; [|done]; cbn in Hm; destruct (mapM Stat files) as [ns|]; [|done]; injection Hm as <-;
       apply Forall_cons in Hp as [Hn Hp]; cbn in *; rewrite E;
       assert (0 <= foldr Z.add 0 ns) by (clear -Hp; induction Hp; cbn; lia);
       rewrite swrap_small by (change (64 - 1) with 63; lia); rewrite (IH ns) by (done || lia); f_equal; lia).
    intros sizes Hm Hp Hs. by rewrite (H sizes 0).
Qed.

(** ** Run *)
Section run.
Context `{Json} (segment : DiskBuffer) (faults : bool).

(** The feeder reads In, then waits for room in the queue; at the end of In it
    closes the stop channels. *)
Inductive feeder : Type := Feeding | Queueing (m : EnrichedFlow) | Fed.
(** The sender looks at its stop channel, receives from the queue, sends. *)
Inductive sender : Type := Polling | Receiving | Sending (m : EnrichedFlow) | SenderDone.

(** WriteToDisk: the lines in the writer, whether the file was created, and whether
    a write has failed, after which all fail. *)
Record writer := mkwriter { written : list string; created_ : bool; failed : bool }.
(** ReadFromDisk: the files still to be read, the current one (if any) and its lines
    to come, the flow that waits to be delivered, whether the scanner has an error
    that makes the loop turn without end, whether StopReadingFromDisk and
    EmergencyStopReadingFromDisk are closed, and the file of the emergency. *)
Record reading := mkreading {
  todo : list (list string); current : option (list string * list string); delivering : option EnrichedFlow;
  spinning : bool; stopped : bool; emergency : bool; rest : option (list string) }.
(** The decider: in its loop, having sampled the length of the queue, inside
    WriteToDisk ([final] after the end of In; the writer, the position in the batch,
    whether StopWritingToDisk is closed) or inside ReadFromDisk.  A panic ends the
    process. *)
Inductive decider : Type :=
  | Deciding
  | Sampled (length : Z)
  | Writing (final : bool) (w : writer) (i : Z) (low : bool)
  | Reading (r : reading)
  | DeciderDone
  | Panicked.

(** [lost] and [again] are bookkeeping: the lines lost, and those of files that could
    not be removed after they were read. *)
Inductive cause : Type := Emergency | WriteFailed | ReadFailed.
Record state := mkstate {
  input : list EnrichedFlow; fed : feeder; queue : list EnrichedFlow; sends : sender; out : list EnrichedFlow;
  disk : list (list string); decides : decider; lost : list (cause * string); again : list string }.

Definition start (ms : list EnrichedFlow) (files : list (list string)) : state :=
  mkstate ms Feeding [] Polling [] files Deciding [] [].

Definition len (q : list EnrichedFlow) : Z := Z.of_nat (length q).
(** [mark*Capacity/100] *)
Definition level (mark : Z) : Z := mark * Capacity segment / 100.
(** CacheFilesSize in [Run] is never assigned. *)
Definition CacheFilesSize : Z := 0.

(** The signals of the two watchdogs of ReadFromDisk, and the next line. *)
Definition signalled (stop emerg : bool) (r : reading) : reading :=
  {| todo := todo r; current := current r; delivering := delivering r; spinning := spinning r;
     stopped := stopped r || stop; emergency := emergency r || emerg; rest := rest r |}.
Definition advanced (file ls : list string) (d : option EnrichedFlow) (re : option (list string)) (r : reading) : reading :=
  {| todo := todo r; current := Some (file, ls); delivering := d; spinning := spinning r;
     stopped := stopped r; emergency := emergency r; rest := re |}.
(** What the loop over fromReader does with a line: in an emergency the first
    line is dropped and the later ones are printed to the rest file. *)
Definition handle (file : list string) (l : string) (ls : list string) (r : reading) : reading * list (cause * string) :=
  if is_empty l then (advanced file ls None (rest r) r, [])
  else match rest r with
       | Some re => (advanced file ls None (Some (re ++ [Sprint_bytes (bytes_of_string l)])) r, [(Emergency, l)])
       | None =>
           if emergency r then (advanced file ls None (Some []) r, [(Emergency, l)])
           else (advanced file ls (Unmarshal l) None r, [])
       end.

Definition is_fed (f : feeder) : bool := match f with Fed => true | _ => false end.
Definition ended (f : feeder) : Prop := is_fed f = true.
(** The file of an emergency, which may be missing or cut off. *)
Definition rest_file (r : reading) (file : list (list string)) : Prop :=
  match rest r with
  | None => file = []
  | Some re => file = [re] \/ faults = true /\ (file = [] \/ exists re', re' `prefix_of` re /\ file = [re'])
  end.
(** [os.Create] *)
Definition Create (w : writer) : Prop := written w = [] /\ failed w = false /\ (created_ w = true \/ faults = true).
(** [fmt.Fprintln] on the writer: the line is taken or, after an error or with a new
    one, skipped. *)
Definition Fprintln (l : string) (w w' : writer) (skipped : list string) : Prop :=
  failed w = false /\ w' = mkwriter (written w ++ [l]) (created_ w) false /\ skipped = [] \/
  (failed w = true \/ faults = true) /\ w' = mkwriter (written w) (created_ w) true /\ skipped = [l].
(** The deferred [Flush] and [Close]: the file that is left, and the lines that never
    got there. *)
Definition Close (w : writer) (file : list (list string)) (gone : list string) : Prop :=
  if created_ w
  then exists kept, file = [kept] /\ kept ++ gone = written w /\ (gone = [] \/ faults = true)
  else file = [] /\ gone = written w.

(** The goroutine that reads In. *)
Inductive feed : state -> state -> Prop :=
  | step_read m ms q s o k d x y : feed (mkstate (m :: ms) Feeding q s o k d x y) (mkstate ms (Queueing m) q s o k d x y)
  | step_queue ms m q s o k d x y : len q < Capacity segment ->
      feed (mkstate ms (Queueing m) q s o k d x y) (mkstate ms Feeding (q ++ [m]) s o k d x y)
  | step_fed q s o k d x y : feed (mkstate [] Feeding q s o k d x y) (mkstate [] Fed q s o k d x y).
(** The goroutine that writes to Out: select with default takes the stop
    channel once it is closed. *)
Inductive send : state -> state -> Prop :=
  | step_stop ms f q o k d x y : ended f -> send (mkstate ms f q Polling o k d x y) (mkstate ms f q SenderDone o k d x y)
  | step_poll ms f q o k d x y : ~ ended f -> send (mkstate ms f q Polling o k d x y) (mkstate ms f q Receiving o k d x y)
  | step_receive ms f m q o k d x y :
      send (mkstate ms f (m :: q) Receiving o k d x y) (mkstate ms f q (Sending m) o k d x y)
  | step_send ms f q m o k d x y :
      send (mkstate ms f q (Sending m) o k d x y) (mkstate ms f q Polling (o ++ [m]) k d x y).
(** The decider.  The files it reads are some of those on disk, as the watcher
    lists them every ten seconds. *)
Inductive decide : state -> state -> Prop :=
  | step_final ms f q s o k w x y : ended f -> Create w ->
      decide (mkstate ms f q s o k Deciding x y) (mkstate ms f q s o k (Writing true w 0 false) x y)
  | step_sample ms f q s o k x y : ~ ended f ->
      decide (mkstate ms f q s o k Deciding x y) (mkstate ms f q s o k (Sampled (len q)) x y)
  | step_start_read ms f q s o k fs k' n x y : n < level (ReadingMemoryMark segment) -> k ≡ₚ fs ++ k' ->
      decide (mkstate ms f q s o k (Sampled n) x y)
           (mkstate ms f q s o k' (Reading (mkreading fs None None false false false None)) x y)
  | step_start_write ms f q s o k n w x y : level (HighMemoryMark segment) < n -> CacheFilesSize < MaxCacheSize segment -> Create w ->
      decide (mkstate ms f q s o k (Sampled n) x y) (mkstate ms f q s o k (Writing false w 0 false) x y)
  | step_again ms f q s o k n x y : decide (mkstate ms f q s o k (Sampled n) x y) (mkstate ms f q s o k Deciding x y).
(** A flow that cannot be encoded is skipped.  The file is examined after a batch:
    without one, or when the query fails, its nil information is used all the same.
    The test of the file size only leaves the select statement, so it does not show
    here. *)
Inductive WriteToDisk : state -> state -> Prop :=
  | step_unencodable ms f m q s o k b w i l x y : i < BatchSize segment -> Marshal m = None ->
      WriteToDisk (mkstate ms f (m :: q) s o k (Writing b w i l) x y) (mkstate ms f q s o k (Writing b w (i + 1) l) x y)
  | step_write ms f m q s o k b w w' i l line skipped x y : i < BatchSize segment -> Marshal m = Some line ->
      Fprintln line w w' skipped ->
      WriteToDisk (mkstate ms f (m :: q) s o k (Writing b w i l) x y)
           (mkstate ms f q s o k (Writing b w' (i + 1) l) (x ++ (pair WriteFailed <$> skipped)) y)
  | step_batch ms f q s o k b w i l x y : BatchSize segment <= i -> created_ w = true ->
      WriteToDisk (mkstate ms f q s o k (Writing b w i l) x y) (mkstate ms f q s o k (Writing b w 0 l) x y)
  | step_batch_panic ms f q s o k b w i l file gone x y : BatchSize segment <= i -> created_ w = false \/ faults = true ->
      Close w file gone ->
      WriteToDisk (mkstate ms f q s o k (Writing b w i l) x y)
           (mkstate ms f q s o (k ++ file) Panicked (x ++ (pair WriteFailed <$> gone)) y)
  | step_empty ms f s o k b w i l file gone x y : i < BatchSize segment -> Close w file gone ->
      WriteToDisk (mkstate ms f [] s o k (Writing b w i l) x y)
           (mkstate ms f [] s o (k ++ file) (if b then DeciderDone else Deciding) (x ++ (pair WriteFailed <$> gone)) y)
  | step_low ms f q s o k w file gone x y : Close w file gone ->
      WriteToDisk (mkstate ms f q s o k (Writing false w 0 true) x y)
           (mkstate ms f q s o (k ++ file) Deciding (x ++ (pair WriteFailed <$> gone)) y).
Inductive WriteWatchdogLowMemoryMark : state -> state -> Prop :=
  | step_write_watchdog ms f q s o k w i x y : ~ ended f -> len q < level (LowMemoryMark segment) ->
      WriteWatchdogLowMemoryMark (mkstate ms f q s o k (Writing false w i false) x y) (mkstate ms f q s o k (Writing false w i true) x y).
Inductive ReadWatchdogLowMemoryMark : state -> state -> Prop :=
  | step_read_low ms f q s o k r x y : level (LowMemoryMark segment) < len q ->
      ReadWatchdogLowMemoryMark (mkstate ms f q s o k (Reading r) x y) (mkstate ms f q s o k (Reading (signalled true false r)) x y).
Inductive ReadWatchdogHighMemoryMark : state -> state -> Prop :=
  | step_read_high ms f q s o k r x y : level (HighMemoryMark segment) < len q \/ ended f ->
      ReadWatchdogHighMemoryMark (mkstate ms f q s o k (Reading r) x y) (mkstate ms f q s o k (Reading (signalled false true r)) x y).
(** A file is opened, a line is taken and delivered, to Out or, after ten
    milliseconds, to the queue; a file that ends is deleted.  A file that cannot be
    opened is passed over; one that is cut off ends early; after any other error of
    the scanner, such as a line that is too long, the loop goes on for ever. *)
Inductive ReadFromDisk : state -> state -> Prop :=
  | step_open ms f q s o k file fs d st em re x y :
      ReadFromDisk (mkstate ms f q s o k (Reading (mkreading (file :: fs) None d false st em re)) x y)
           (mkstate ms f q s o k (Reading (mkreading fs (Some (file, file)) d false st em re)) x y)
  | step_open_fails ms f q s o k file fs d st em re x y : faults = true ->
      ReadFromDisk (mkstate ms f q s o k (Reading (mkreading (file :: fs) None d false st em re)) x y)
           (mkstate ms f q s o (k ++ [file]) (Reading (mkreading fs None d false st em re)) x y)
  | step_line ms f q s o k file l ls r x y : current r = Some (file, l :: ls) -> delivering r = None -> spinning r = false ->
      bufio.too_long l = false ->
      ReadFromDisk (mkstate ms f q s o k (Reading r) x y)
           (mkstate ms f q s o k (Reading (handle file l ls r).1) (x ++ (handle file l ls r).2) y)
  | step_scan_error ms f q s o k file ls fs d st em re x y : faults = true \/ (exists l ls', ls = l :: ls' /\ bufio.too_long l = true) ->
      ReadFromDisk (mkstate ms f q s o k (Reading (mkreading fs (Some (file, ls)) d false st em re)) x y)
           (mkstate ms f q s o k (Reading (mkreading fs (Some (file, ls)) d true st em re)) x y)
  | step_cut_off ms f q s o k file ls fs d st em re x y : faults = true ->
      ReadFromDisk (mkstate ms f q s o k (Reading (mkreading fs (Some (file, ls)) d false st em re)) x y)
           (mkstate ms f q s o k (Reading (mkreading fs (Some (file, [])) d false st em re)) (x ++ (pair ReadFailed <$> ls)) y)
  | step_deliver_out ms f q s o k fs c m sp st em re x y :
      ReadFromDisk (mkstate ms f q s o k (Reading (mkreading fs c (Some m) sp st em re)) x y)
           (mkstate ms f q s (o ++ [m]) k (Reading (mkreading fs c None sp st em re)) x y)
  | step_deliver_queue ms f q s o k fs c m sp st em re x y : len q < Capacity segment ->
      ReadFromDisk (mkstate ms f q s o k (Reading (mkreading fs c (Some m) sp st em re)) x y)
           (mkstate ms f (q ++ [m]) s o k (Reading (mkreading fs c None sp st em re)) x y)
  | step_eof ms f q s o k file kept fs d st em re x y : kept = [] \/ faults = true /\ kept = [file] ->
      ReadFromDisk (mkstate ms f q s o k (Reading (mkreading fs (Some (file, [])) d false st em re)) x y)
           (mkstate ms f q s o ((if st || em then k ++ fs else k) ++ kept)
                    (Reading (mkreading (if st || em then [] else fs) None d false st em re)) x (y ++ concat kept))
  | step_read_done ms f q s o k st em re file x y : rest_file (mkreading [] None None false st em re) file ->
      ReadFromDisk (mkstate ms f q s o k (Reading (mkreading [] None None false st em re)) x y)
           (mkstate ms f q s o (k ++ file) Deciding x y).

Definition alive (st : state) : Prop := decides st <> Panicked.
Inductive step (st st' : state) : Prop :=
  | by_feed : alive st -> feed st st' -> step st st'
  | by_send : alive st -> send st st' -> step st st'
  | by_decide : decide st st' -> step st st'
  | by_WriteToDisk : WriteToDisk st st' -> step st st'
  | by_WriteWatchdogLowMemoryMark : WriteWatchdogLowMemoryMark st st' -> step st st'
  | by_ReadWatchdogLowMemoryMark : ReadWatchdogLowMemoryMark st st' -> step st st'
  | by_ReadWatchdogHighMemoryMark : ReadWatchdogHighMemoryMark st st' -> step st st'
  | by_ReadFromDisk : ReadFromDisk st st' -> step st st'.

(** [Run] returns when all its goroutines have. *)
Definition returned (st : state) : Prop := fed st = Fed /\ sends st = SenderDone /\ decides st = DeciderDone.

(** *** Where the flows are *)
Definition feeder_flows (f : feeder) : list EnrichedFlow := match f with Queueing m => [m] | _ => [] end.
Definition sender_flows (s : sender) : list EnrichedFlow := match s with Sending m => [m] | _ => [] end.
Definition opt_list {A} (o : option A) : list A := match o with Some a => [a] | None => [] end.
Definition decider_flows (d : decider) : list EnrichedFlow :=
  match d with
  | Writing _ w _ _ => flows_of (written w)
  | Reading r => flows_of (concat (todo r)) ++ flows_of (from_option snd [] (current r)) ++ opt_list (delivering r)
                   ++ flows_of (default [] (rest r))
  | _ => []
  end.
Definition everything (st : state) : list EnrichedFlow :=
  input st ++ feeder_flows (fed st) ++ queue st ++ sender_flows (sends st) ++ out st
    ++ flows_of (concat (disk st)) ++ decider_flows (decides st) ++ flows_of (snd <$> lost st).

(** The file of an emergency has printed lines only. *)
Definition printed (l : string) : string := Sprint_bytes (bytes_of_string l).
(** What holds inside of WriteToDisk and ReadFromDisk: without faults the file was
    created and takes all lines, and no file is cut off. *)
Definition sound (encodable : EnrichedFlow -> Prop) (st : state) : Prop :=
  (faults = false -> again st = [] /\ Forall (fun x => x.1 = Emergency) (lost st)) /\
  match decides st with
  | Writing _ w _ _ => faults = false -> created_ w = true /\ failed w = false
  | Reading r => (exists ls, default [] (rest r) = printed <$> ls) /\ Forall encodable (flows_of (from_option fst [] (current r))) /\
                 Forall encodable (flows_of (concat (todo r)))
  | Panicked => faults = true
  | _ => True
  end.

#[local] Arguments flows_of : simpl never.
Lemma flows_of_nil : flows_of [] = [].
Proof. done. Qed.
Lemma flows_of_cons l ls :
  flows_of (l :: ls) = (if is_empty l then [] else opt_list (Unmarshal l)) ++ flows_of ls.
Proof. unfold flows_of. cbn [omap list_omap]. destruct (is_empty l); [done|]. by destruct (Unmarshal l). Qed.

Section conservation.
Context (encodable : EnrichedFlow -> Prop) `{!JsonLaws encodable}.

Lemma flows_of_printed_app r l : (exists ls, r = printed <$> ls) ->
  flows_of (r ++ [printed l]) = [] /\ flows_of r = [].
Proof using All.
  intros [ls ->]. change [printed l] with (printed <$> [l]). rewrite <- fmap_app.
  split; apply (flows_of_printed (encodable := encodable)).
Qed.

Lemma concat_perm (k k' : list (list string)) : k ≡ₚ k' -> concat k ≡ₚ concat k'.
Proof. intros Hk. induction Hk; simpl; [done|by f_equiv|solve_perm|by etrans]. Qed.

Lemma concat_snoc {A} (k : list (list A)) w : concat (k ++ [w]) = concat k ++ w.
Proof. rewrite concat_app. simpl. by rewrite app_nil_r. Qed.

#[local] Instance flows_of_proper : Proper ((≡ₚ) ==> (≡ₚ)) flows_of.
Proof. intros l k Hl. unfold flows_of. by rewrite Hl. Qed.

Lemma flows_of_prefix re re' : re' `prefix_of` re -> (exists qs, re = printed <$> qs) -> flows_of re' = [].
Proof using All.
  intros [k ->] [qs E]. symmetry in E. apply fmap_app_inv in E as (q1 & q2 & -> & _ & _).
  apply (flows_of_printed (encodable := encodable)).
Qed.
Lemma flows_of_lost (c : cause) (x : list (cause * string)) (ls : list string) : flows_of (snd <$> x ++ (pair c <$> ls)) = flows_of (snd <$> x) ++ flows_of ls.
Proof using. rewrite fmap_app, flows_of_app. f_equal. f_equal. clear. induction ls as [|l ls IH]; [done|]. cbn. by rewrite IH. Qed.
Lemma emergencies x ls : Forall (fun y : cause * string => y.1 = Emergency) x -> ls = [] \/ faults = true ->
  faults = false -> forall c, Forall (fun y : cause * string => y.1 = Emergency) (x ++ (pair c <$> ls)).
Proof using. intros Hx [->|Hf] H0 c; [by rewrite app_nil_r|congruence]. Qed.

Lemma handle_flows file l ls r : delivering r = None -> current r = Some (file, l :: ls) ->
  (exists qs, default [] (rest r) = printed <$> qs) ->
  decider_flows (Reading (handle file l ls r).1) ++ flows_of (snd <$> (handle file l ls r).2) ≡ₚ decider_flows (Reading r) /\
  (exists qs, default [] (rest (handle file l ls r).1) = printed <$> qs) /\
  current (handle file l ls r).1 = Some (file, ls) /\ todo (handle file l ls r).1 = todo r /\
  Forall (fun y => y.1 = Emergency) (handle file l ls r).2.
Proof using All.
  destruct r as [fs c d sp st em re]. simpl. intros -> -> Hp. unfold handle, advanced. cbn.
  rewrite (flows_of_cons l ls). destruct (is_empty l) eqn:El; cbn.
  { split_and!; [|exact Hp|done|done|done]. rewrite ?flows_of_nil. solve_perm. }
  destruct re as [re|]; cbn in *.
  { destruct (flows_of_printed_app re l Hp) as [Ha Hb]. split_and!.
    - change (Sprint_bytes (bytes_of_string l)) with (printed l). rewrite Ha, Hb, flows_of_cons, El. cbn. rewrite ?flows_of_nil. solve_perm.
    - destruct Hp as [qs ->]. exists (qs ++ [l]). by rewrite fmap_app.
    - done.
    - done.
    - by repeat constructor. }
  destruct em; cbn.
  { split_and!; [|by exists []|done|done|by repeat constructor]. rewrite flows_of_cons, El. cbn. rewrite ?flows_of_nil. solve_perm. }
  split_and!; [|by exists []|done|done|done]. cbn. rewrite ?flows_of_nil. solve_perm.
Qed.
Lemma Close_flows w file gone : Close w file gone -> flows_of (concat file) ++ flows_of gone ≡ₚ flows_of (written w) /\
  (faults = false -> created_ w = true -> gone = []).
Proof using.
  unfold Close. destruct (created_ w).
  - intros (kept & -> & <- & Hg). cbn. rewrite app_nil_r, flows_of_app. split; [done|]. intros Hf _. destruct Hg; [done|congruence].
  - intros [-> ->]. split; [done|]. by intros _ ?.
Qed.

(** A step adds the lines of a file that could not be removed, if any. *)
Definition grows (st st' : state) : Prop :=
  exists d, again st' = again st ++ d /\ everything st' ≡ₚ everything st ++ flows_of d /\ Forall encodable (flows_of d) /\
    sound encodable st'.
Lemma grows_not st st' : again st' = again st -> everything st' ≡ₚ everything st -> sound encodable st' -> grows st st'.
Proof using. intros E1 E2 Hs. exists []. rewrite flows_of_nil, !app_nil_r. by split_and!. Qed.

Ltac parts := unfold everything, sound in *; cbn [input fed queue sends out disk decides lost again] in *.
Lemma write_grows st st' : WriteToDisk st st' -> Forall encodable (everything st) -> sound encodable st -> grows st st'.
Proof using All.
  intros Hs He [Hl Hr]. apply grows_not; destruct Hs; parts; try done.
  - apply Forall_app in He as [_ [_ [Hm _]%Forall_app]%Forall_app]. apply Forall_cons in Hm as [Hm _].
    destruct (Unmarshal_Marshal m Hm) as (l' & El & _). congruence.
  - apply Forall_app in He as [_ [_ [Hm _]%Forall_app]%Forall_app]. apply Forall_cons in Hm as [Hm _].
    pose proof (flows_of_line m Hm) as Em. unfold line_of in Em.
    match goal with H : Marshal m = Some _ |- _ => rewrite H in Em end.
    match goal with H : Fprintln _ _ _ _ |- _ => destruct H as [(_ & -> & ->)|(_ & -> & ->)] end;
      rewrite flows_of_lost; cbn [decider_flows written].
    + rewrite flows_of_app, Em, flows_of_nil. solve_perm.
    + rewrite Em. solve_perm.
  - rewrite concat_app, flows_of_app, flows_of_lost. cbn [decider_flows].
    match goal with H : Close _ _ _ |- _ => destruct (Close_flows _ _ _ H) as [E _]; rewrite <- E end. solve_perm.
  - rewrite concat_app, flows_of_app, flows_of_lost.
    match goal with H : Close _ _ _ |- _ => destruct (Close_flows _ _ _ H) as [E _] end.
    destruct b; cbn [decider_flows]; rewrite <- E; solve_perm.
  - rewrite concat_app, flows_of_app, flows_of_lost. cbn [decider_flows].
    match goal with H : Close _ _ _ |- _ => destruct (Close_flows _ _ _ H) as [E _]; rewrite <- E end. solve_perm.
  - destruct H2 as [(Hw & -> & ->)|(Hw & -> & ->)]; split; cbn [created_ failed].
    + by rewrite app_nil_r.
    + intros Hf. by split; [apply Hr|].
    + intros Hf. destruct (Hr Hf). destruct Hw; congruence.
    + intros Hf. destruct (Hr Hf). destruct Hw; congruence.
  - assert (faults = true) as Hf by (destruct faults; [done|]; destruct (Hr eq_refl); destruct H1; congruence). split; [|done]. congruence.
  - split; [|by destruct b]. intros Hf. destruct (Hl Hf). split; [done|]. destruct (Hr Hf).
    apply emergencies; [done|left; by apply (proj2 (Close_flows _ _ _ H1))|done].
  - split; [|done]. intros Hf. destruct (Hl Hf). split; [done|]. destruct (Hr Hf).
    apply emergencies; [done|left; by apply (proj2 (Close_flows _ _ _ H0))|done].
Qed.
Lemma decide_grows st st' : decide st st' -> Forall encodable (everything st) -> sound encodable st -> grows st st'.
Proof using All.
  intros Hs He [Hl Hr]. apply grows_not; destruct Hs; parts; try done.
  - cbn [decider_flows]. by destruct H1 as (-> & _).
  - cbn [decider_flows]. rewrite H1, concat_app, flows_of_app. cbn. rewrite !flows_of_nil. solve_perm.
  - cbn [decider_flows]. by destruct H2 as (-> & _).
  - split; [done|]. intros Hf. destruct H1 as (_ & -> & [?|?]); [done|congruence].
  - split; [done|]. split_and!; [by exists []|constructor|].
    apply Forall_app in He as [_ [_ [_ [_ [_ [He _]%Forall_app]%Forall_app]%Forall_app]%Forall_app]%Forall_app].
    revert He. rewrite H1, concat_app, flows_of_app. by intros [? _]%Forall_app.
  - split; [done|]. intros Hf. destruct H2 as (_ & -> & [?|?]); [done|congruence].
Qed.
Lemma read_grows st st' : ReadFromDisk st st' -> Forall encodable (everything st) -> sound encodable st -> grows st st'.
Proof using All.
  intros Hs He [Hl Hr].
  destruct Hs as [ms f q s o k file fs d st em re x y|ms f q s o k file fs d st em re x y Hf|ms f q s o k file l ls r x y Hc Hd Hsp Hlen
    |ms f q s o k file ls fs d st em re x y Hx|ms f q s o k file ls fs d st em re x y Hf|ms f q s o k fs c m sp st em re x y
    |ms f q s o k fs c m sp st em re x y Hq|ms f q s o k file kept fs d st em re x y Hk|ms f q s o k st em re file x y Hre]; parts;
    try destruct Hr as (Hp & Hf1 & Hf2).
  - apply grows_not; parts; [done|cbn; rewrite flows_of_app, flows_of_nil; solve_perm|]. split; [done|]. cbn in Hf2 |- *.
    rewrite flows_of_app, Forall_app in Hf2. by destruct Hf2.
  - apply grows_not; parts; [done|rewrite concat_snoc, flows_of_app; cbn; rewrite flows_of_app; solve_perm|].
    split; [done|]. cbn in Hf2 |- *. rewrite flows_of_app, Forall_app in Hf2. by destruct Hf2.
  - destruct (handle_flows file l ls r Hd Hc Hp) as (E & Hp' & Ec & Et & Hem). apply grows_not; parts; [done| |].
    + rewrite fmap_app, flows_of_app, <- E. solve_perm.
    + split; [intros Hf; destruct (Hl Hf); split; [done|by apply Forall_app]|]. rewrite Ec, Et. rewrite Hc in Hf1. by split_and!.
  - by apply grows_not; parts.
  - apply grows_not; parts; [done| |].
    + rewrite flows_of_lost. cbn. rewrite flows_of_nil. solve_perm.
    + split; [|by split_and!]. congruence.
  - apply grows_not; parts; [done|cbn; solve_perm|by split].
  - apply grows_not; parts; [done|cbn; solve_perm|by split].
  - exists (concat kept). parts. split; [done|]. split; [|split; [|split]].
    + rewrite concat_app. destruct (st || em); cbn; rewrite ?concat_app, ?flows_of_app, ?flows_of_nil; solve_perm.
    + destruct Hk as [->|(_ & ->)]; cbn; [constructor|]. by rewrite app_nil_r.
    + intros Hf. destruct (Hl Hf) as [-> ?]. destruct Hk as [->|[? _]]; [done|congruence].
    + split_and!; [done|constructor|]. destruct (st || em); [constructor|exact Hf2].
  - apply grows_not; parts; [done| |done]. cbn [decider_flows todo current delivering rest from_option concat opt_list].
    rewrite concat_app, flows_of_app, !flows_of_nil. unfold rest_file in Hre. cbn [rest] in Hre, Hp.
    destruct re as [re|]; cbn [default from_option] in *; [|subst; cbn; rewrite !flows_of_nil; solve_perm].
    assert (flows_of re = []) as Er by (by apply (flows_of_prefix re re)).
    assert (flows_of (concat file) = []) as ->.
    { destruct Hre as [->|(_ & [->|(re' & Hpre & ->)])]; cbn; rewrite ?app_nil_r; [exact Er|done|by apply (flows_of_prefix re re')]. }
    unfold id. rewrite Er. solve_perm.
Qed.
Lemma step_grows st st' : step st st' -> Forall encodable (everything st) -> sound encodable st -> grows st st'.
Proof using All.
  intros Hs He Hso. destruct Hs as [_ Hs|_ Hs|Hs|Hs|Hs|Hs|Hs|Hs];
    [| |by apply decide_grows|by apply write_grows| | | |by apply read_grows]; destruct Hso as [Hl Hr]; destruct Hs; apply grows_not; parts;
    first [done | by split | cbn; solve_perm].
Qed.

Lemma reachable_grows st st' : rtc step st st' -> Forall encodable (everything st) -> sound encodable st -> grows st st'.
Proof using All.
  intros Hs He Hso. apply (rtc_keeps (P := fun st1 => Forall encodable (everything st1) /\ grows st st1)) in Hs as [_ Hs]; [done| |].
  - intros st1 st2 [He1 (d1 & A1 & E1 & D1 & S1)] H12. destruct (step_grows st1 st2 H12 He1 S1) as (d2 & A2 & E2 & D2 & S2). split.
    + rewrite E2. by apply Forall_app.
    + exists (d1 ++ d2). rewrite A2, A1, E2, E1, flows_of_app, <- !app_assoc. split_and!; [done|done|by apply Forall_app|done].
  - split; [done|by apply grows_not].
Qed.
Lemma start_flows ms files : everything (start ms files) ≡ₚ ms ++ flows_of (concat files) /\ sound encodable (start ms files).
Proof using. parts. cbn. rewrite flows_of_nil. split; [solve_perm|done]. Qed.

End conservation.

Lemma step_bounded st st' : step st st' -> len (queue st) <= Capacity segment -> len (queue st') <= Capacity segment.
Proof.
  unfold len. destruct 1 as [_ Hs|_ Hs|Hs|Hs|Hs|Hs|Hs|Hs]; destruct Hs; cbn [queue]; unfold len in *; rewrite ?length_app; simpl; lia.
Qed.

(** The queue never holds more flows than its capacity. *)
Theorem diskbuffer_bounded ms files st :
  0 <= Capacity segment -> rtc step (start ms files) st -> len (queue st) <= Capacity segment.
Proof.
  intros Hc Hs.
  apply (@rtc_keeps state step (fun st => len (queue st) <= Capacity segment) (fun st1 st2 Hb Hs => step_bounded st1 st2 Hs Hb) _ _ Hs).
  done.
Qed.

Lemma pass_through ms : forall o k, 0 < Capacity segment ->
  rtc step (mkstate ms Feeding [] Receiving o k Deciding [] []) (mkstate [] Feeding [] Receiving (o ++ ms) k Deciding [] []).
Proof.
  induction ms as [|m ms IH]; intros o k Hc; [rewrite app_nil_r; apply rtc_refl|].
  eapply rtc_l; [apply by_feed; [done|apply step_read]|]. eapply rtc_l; [apply by_feed; [done|by apply step_queue]|].
  eapply rtc_l; [apply by_send; [done|apply step_receive]|]. eapply rtc_l; [apply by_send; [done|apply step_send]|].
  eapply rtc_l; [apply by_send; [done|by apply step_poll]|]. replace (o ++ m :: ms) with ((o ++ [m]) ++ ms) by by rewrite <- app_assoc.
  by apply IH.
Qed.

(** The decider's last act on an empty queue. *)
Definition new_writer : writer := mkwriter [] true false.
Lemma new_writer_created : Create new_writer.
Proof. split_and!; [done..|by left]. Qed.
Lemma new_writer_closed : Close new_writer [[]] [].
Proof. exists []. split_and!; [done..|by left]. Qed.
Lemma final_write s o k x y : 0 < BatchSize segment ->
  rtc step (mkstate [] Fed [] s o k Deciding x y) (mkstate [] Fed [] s o (k ++ [[]]) DeciderDone x y).
Proof.
  intros Hb. eapply rtc_l; [apply by_decide, step_final; [done|apply new_writer_created]|].
  eapply rtc_l; [apply by_WriteToDisk, (step_empty [] Fed s o k true new_writer 0 false [[]] []); [done|apply new_writer_closed]|].
  rewrite app_nil_r. apply rtc_refl.
Qed.

(** An idle disk buffer cannot be closed: for any input there is a run
    that delivers all flows in order and in which Run then waits forever, since
    the sender sits in a receive on the queue, which nobody closes. *)
Theorem diskbuffer_hangs ms files :
  0 < Capacity segment -> 0 < BatchSize segment ->
  exists st, rtc step (start ms files) st /\ out st = ms /\ input st = [] /\ fed st = Fed /\
    ~ returned st /\ ~ (exists st', step st st').
Proof.
  intros Hc Hb. eexists. split.
  - eapply rtc_l; [apply by_send; [done|by apply step_poll]|]. etrans; [by apply pass_through|].
    eapply rtc_l; [apply by_feed; [done|apply step_fed]|]. by apply final_write.
  - split_and!; [done..| |]; [by intros (_ & ? & _)|].
    intros [st' Hst]. destruct Hst as [_ Hs|_ Hs|Hs|Hs|Hs|Hs|Hs|Hs]; inversion Hs; subst; simpl in *; congruence.
Qed.

(** Closing the input while cache files are read loses the flows of the file
    being read: the end of the input counts as an emergency, the first line is
    dropped and the others are printed as lists of numbers.  Run returns with
    nothing sent and nothing readable on disk. *)
Theorem diskbuffer_shutdown_loses `{!JsonLaws encodable} (l : string) (ls : list string) :
  Forall (fun l => l <> ""%string /\ bufio.too_long l = false) (l :: ls) ->
  0 < level (ReadingMemoryMark segment) -> 0 < BatchSize segment ->
  exists st, rtc step (start [] [l :: ls]) st /\ returned st /\ out st = [] /\
    flows_of (concat (disk st)) = [] /\ snd <$> lost st = l :: ls.
Proof.
  intros Hne Hr Hb. apply Forall_cons in Hne as [[Hl Hll] Hls]. set (file := l :: ls).
  assert (forall file ls re x, Forall (fun l => l <> ""%string /\ bufio.too_long l = false) ls ->
    rtc step (mkstate [] Fed [] Polling [] [] (Reading (mkreading [] (Some (file, ls)) None false false true (Some re))) x [])
             (mkstate [] Fed [] Polling [] [] (Reading (mkreading [] (Some (file, [])) None false false true (Some (re ++ (printed <$> ls)))))
                (x ++ (pair Emergency <$> ls)) []))
    as Hrest.
  { clear. intros file. induction ls as [|l ls IH]; intros re x Hne; [rewrite !app_nil_r; apply rtc_refl|].
    apply Forall_cons in Hne as [[Hl Hll] Hne]. eapply rtc_l; [by apply by_ReadFromDisk, (step_line _ _ _ _ _ _ file l ls)|].
    unfold handle. destruct l as [|a l]; [done|]. cbn [is_empty fst snd rest]. unfold advanced. cbn [todo stopped emergency spinning].
    specialize (IH (re ++ [printed (String a l)]) (x ++ [(Emergency, String a l)]) Hne).
    by rewrite <- !app_assoc in IH. }
  exists (mkstate [] Fed [] SenderDone [] [printed <$> ls; []] DeciderDone ((Emergency, l) :: (pair Emergency <$> ls)) []).
  split; [|split; [done|]].
  - eapply rtc_l; [by apply by_decide, step_sample|].
    eapply rtc_l; [by apply by_decide, (step_start_read _ _ _ _ _ _ [file] [])|].
    eapply rtc_l; [apply by_ReadFromDisk, step_open|]. eapply rtc_l; [apply by_feed; [done|apply step_fed]|].
    eapply rtc_l; [apply by_ReadWatchdogHighMemoryMark, step_read_high; by right|].
    eapply rtc_l; [by apply by_ReadFromDisk, (step_line _ _ _ _ _ _ file l ls)|].
    unfold handle, signalled, advanced. destruct l as [|a l]; [done|]. cbn [rest emergency is_empty orb fst snd todo stopped spinning].
    etrans; [by apply Hrest|].
    eapply rtc_l; [apply by_ReadFromDisk, (step_eof _ _ _ _ _ _ _ []); by left|]. cbn [orb app concat].
    eapply rtc_l; [apply by_ReadFromDisk, (step_read_done _ _ _ _ _ _ _ _ _ [printed <$> ls]); by left|].
    eapply rtc_l; [apply by_send; [done|by apply step_stop]|]. by apply final_write.
  - cbn. rewrite !app_nil_r. split_and!; [done| |].
    + apply (flows_of_printed (encodable := encodable)).
    + f_equal. clear. induction ls as [|l ls IH]; [done|]. cbn. by rewrite IH.
Qed.

(** A cache file with a line of 64 KiB or more is never finished: the error of the
    scanner stays, the loop over the lines goes on without end, and from then on the
    segment neither reads nor writes files nor returns. *)
Lemma spinning_stays st st' : (exists r, decides st = Reading r /\ spinning r = true) -> step st st' ->
  exists r, decides st' = Reading r /\ spinning r = true.
Proof.
  intros (r & Hd & Hr) Hs. destruct Hs as [_ Hs|_ Hs|Hs|Hs|Hs|Hs|Hs|Hs]; destruct Hs; cbn [decides] in *; try congruence; eauto;
    try (injection Hd as <-; cbn in *; eauto; congruence).
Qed.
Theorem long_line_spins (l : string) (ls : list string) (ms : list EnrichedFlow) :
  bufio.too_long l = true -> 0 < level (ReadingMemoryMark segment) ->
  exists st, rtc step (start ms [l :: ls]) st /\ out st = [] /\
    forall st', rtc step st st' -> (exists r, decides st' = Reading r) /\ ~ returned st'.
Proof.
  intros Hl Hr. eexists. split; [|split].
  - eapply rtc_l; [apply by_decide, step_sample; by intros ?|].
    eapply rtc_l; [by apply by_decide, (step_start_read _ _ _ _ _ _ [l :: ls] [])|].
    eapply rtc_l; [apply by_ReadFromDisk, step_open|].
    eapply rtc_l; [apply by_ReadFromDisk, step_scan_error; right; by exists l, ls|]. apply rtc_refl.
  - done.
  - intros st' Hs. destruct (rtc_keeps spinning_stays _ _ Hs) as (r & Hd & _); [by eexists|].
    split; [by exists r|]. intros (_ & _ & Hx). congruence.
Qed.

(** When the file for the overflow cannot be created, the error is only logged: the
    flows of a batch are taken from the queue, and then the process panics. *)
Theorem create_fails_panics (ms q : list EnrichedFlow) (o : list EnrichedFlow) (k : list (list string)) (n : Z)
    (lines : list string) :
  faults = true -> Forall2 (fun m l => Marshal m = Some l) q lines -> zlen q = BatchSize segment ->
  level (HighMemoryMark segment) < n -> CacheFilesSize < MaxCacheSize segment ->
  exists st, rtc step (mkstate ms Feeding q Receiving o k (Sampled n) [] []) st /\ decides st = Panicked /\
    queue st = [] /\ out st = o /\ disk st = k /\ lost st = pair WriteFailed <$> lines.
Proof.
  intros Hf Hq Hz Hn Hc. set (w ls := mkwriter ls false false).
  assert (forall q lines, Forall2 (fun m l => Marshal m = Some l) q lines -> forall done i, i + zlen q <= BatchSize segment ->
    rtc step (mkstate ms Feeding q Receiving o k (Writing false (w done) i false) [] [])
      (mkstate ms Feeding [] Receiving o k (Writing false (w (done ++ lines)) (i + zlen q) false) [] [])) as Hw.
  { clear -Hf. induction 1 as [|m l q lines Hm _ IH]; intros done i Hi; [rewrite app_nil_r, Z.add_0_r; apply rtc_refl|].
    rewrite zlen_cons in Hi |- *. pose proof (zlen_nonneg q). eapply rtc_l.
    - apply by_WriteToDisk, (step_write _ _ _ _ _ _ _ _ _ (w (done ++ [l])) _ _ l []); [lia|done|by left].
    - cbn [fmap list_fmap app]. pose proof (IH (done ++ [l]) (i + 1) ltac:(lia)) as E. rewrite <- app_assoc in E.
      replace (i + (1 + zlen q)) with (i + 1 + zlen q) by lia. exact E. }
  eexists. split; [|split].
  - eapply rtc_l; [apply by_decide, (step_start_write _ _ _ _ _ _ _ (w [])); [done|done|]; split_and!; [done..|by right]|].
    etrans; [apply (Hw q lines Hq []); lia|].
    eapply rtc_l; [apply by_WriteToDisk, (step_batch_panic _ _ _ _ _ _ _ _ _ _ [] lines); [lia|by left|done]|]. apply rtc_refl.
  - done.
  - split_and!; [done..|by rewrite app_nil_r|done].
Qed.
End run.

(** ** The theorems at work *)
Module witness.
(** A JSON encoding of the byte counter alone. *)
#[export] Instance json : Json := {|
  Marshal := fun m => if 0 <=? Bytes m then Some (strconv.FormatUint (Bytes m)) else None;
  Unmarshal := fun s => (fun n => set_Bytes n emptyFlow) <$> strconv.ParseUint 64 s;
|}.
Definition encodable (m : EnrichedFlow) : Prop := exists n, in_u 64 n /\ m = set_Bytes n emptyFlow.
#[export] Instance json_laws : JsonLaws encodable.
Proof.
  split.
  - intros m (n & Hn & ->). exists (strconv.FormatUint n). split; [|split].
    + simpl. destruct (Z.leb_spec 0 n); [done|]. unfold in_u in Hn. lia.
    + pose proof (strconv.ParseUint_FormatUint 64 n Hn) as Hp. by intros E; rewrite E in Hp.
    + simpl. by rewrite strconv.ParseUint_FormatUint.
  - intros s. unfold Unmarshal, json, strconv.ParseUint, DecimalString.NilZero.uint_of_string. cbn [DecimalString.NilEmpty.uint_of_string].
    by destruct (DecimalString.NilEmpty.uint_of_string s).
Qed.
Definition conf : config := {[ "bufferdir"%string := "/var/spool"%string; "highmemorymark"%string := "40"%string;
  "readingmemorymark"%string := "7"%string; "lowmemorymark"%string := "40"%string ]}.
Definition template : DiskBuffer := mkDiskBuffer 0 None 0 0 "" 0 0 0 0 0.
Definition create (c : config) : created DiskBuffer :=
  @New f64.amd64 (fun _ => Some true) (fun _ => true) (fun _ => None) c template.
Definition segment : DiskBuffer := match create conf with Created s => s | _ => template end.
Definition flow (n : Z) : EnrichedFlow := set_Bytes n emptyFlow.
Lemma flow_encodable n : in_u 64 n -> encodable (flow n).
Proof. intros Hn. by exists n. Qed.
End witness.
Import witness.

Lemma diskbuffer_New_valid_witness :
  exists s, witness.create witness.conf = Created s /\ ReadingMemoryMark s = 40 /\ 64 <= Capacity s.
Proof.
  exists witness.segment. split; [reflexivity|]. split; [reflexivity|].
  apply (@diskbuffer_New_valid f64.amd64 (fun _ => Some true) (fun _ => true) (fun _ => None)
    witness.conf witness.template witness.segment). reflexivity.
Defined.

Lemma readingmemorymark_unread_witness :
  ReadingMemoryMark witness.segment = HighMemoryMark witness.segment.
Proof.
  apply (@readingmemorymark_unread f64.amd64 (fun _ => Some true) (fun _ => true) (fun _ => None)
    witness.conf witness.template witness.segment); [discriminate|reflexivity].
Defined.


Lemma diskbuffer_bounded_witness : len [witness.flow 7] <= Capacity witness.segment.
Proof.
  apply (diskbuffer_bounded witness.segment false [witness.flow 7] [] (mkstate [] Feeding [witness.flow 7] Polling [] [] Deciding [] []));
    [vm_compute; discriminate|].
  eapply rtc_l; [apply by_feed; [done|apply step_read]|]. eapply rtc_l; [apply by_feed; [done|apply step_queue; reflexivity]|]. apply rtc_refl.
Defined.

Lemma diskbuffer_hangs_witness :
  exists st, rtc (step witness.segment false) (start [witness.flow 7] []) st /\ out st = [witness.flow 7] /\
    ~ returned st /\ ~ (exists st', step witness.segment false st st').
Proof.
  destruct (diskbuffer_hangs witness.segment false [witness.flow 7] []) as (st & Hs & Ho & _ & _ & Hr & Hn);
    [reflexivity..|]. exists st. exact (conj Hs (conj Ho (conj Hr Hn))).
Defined.

Lemma diskbuffer_shutdown_loses_witness :
  exists st, rtc (step witness.segment false) (start [] [["7"; "12"]%string]) st /\ returned st /\ out st = [] /\
    flows_of (concat (disk st)) = [].
Proof.
  destruct (diskbuffer_shutdown_loses witness.segment false (encodable := witness.encodable) "7" ["12"%string])
    as (st & Hs & Hr & Ho & Hd & _); [by repeat constructor|reflexivity..|].
  exists st. exact (conj Hs (conj Hr (conj Ho Hd))).
Defined.

Lemma watch_race_panics_witness :
  cache_size (fun f => if seqb f "a.json.zst" then Some 10 else None) ["a.json.zst"; "b.json.zst"]%string 0 = Panic.
Proof.
  apply (proj1 (watch_race_panics (fun f => if seqb f "a.json.zst" then Some 10 else None) ["a.json.zst"; "b.json.zst"]%string)).
  right. left. reflexivity.
Defined.

Lemma long_line_spins_witness :
  exists st, rtc (step witness.segment false) (start [] [[String.concat "" (replicate 65536 "7"%string)]]) st /\ ~ returned st.
Proof.
  destruct (long_line_spins witness.segment false (String.concat "" (replicate 65536 "7"%string)) [] []) as (st & Hs & _ & H);
    [vm_compute; reflexivity|reflexivity|]. exists st. split; [exact Hs|]. apply (H st). apply rtc_refl.
Defined.

Lemma create_fails_panics_witness :
  let segment := {| BatchSize := 1; BatchDebugPrintf := None; QueueStatusInterval := 0; FileSize := 0; BufferDir := "/full";
    HighMemoryMark := 10; LowMemoryMark := 5; ReadingMemoryMark := 1; MaxCacheSize := 1; Capacity := 64 |} in
  exists st, rtc (step segment true) (mkstate [] Feeding [witness.flow 7] Receiving [] [] (Sampled 7) [] []) st /\
    decides st = Panicked /\ lost st = [(WriteFailed, "7"%string)].
Proof.
  intros segment.
  destruct (create_fails_panics segment true [] [witness.flow 7] [] [] 7 ["7"%string] eq_refl) as (st & Hs & Hd & _ & _ & _ & Hl);
    [constructor; [reflexivity|constructor]|reflexivity..|]. exists st. exact (conj Hs (conj Hd Hl)).
Defined.
