(* ===== verification/Lumberjack.v ===== *)
(** * lumberjack ([segments/output/lumberjack])

    Flows are converted to documents of the Elastic Common Schema ([ecs.go]) and
    sent in batches by the goroutines [Run] starts for every server
    ([lumberjack.go], [client.go]).  [writer_step] is one turn of such a
    goroutine's loop; [client.Send] and its rounds are the retries of the client on
    the answers of the network; [step] has the writers at work, the rounds of their
    transmissions and their panics included.  URLs and the network are parameters. *)

From stdpp Require Import prelude strings list gmap.
From Stdlib Require Import ZArith Lia Ascii.
From S2P Require Import Prelude GoStd GoParse EnrichedFlow FlowMethods Iana.

(** ** ecs.go, ecs_event_type.go, ecs_source_dest_type.go, ecs_related_type.go *)
Definition ElasticCommonSchemaVersion : string := "8.17".
Definition ECSEventDefaultModule : string := "lumberjack".
Definition ECSEventDefaultProvider : string := "flowpipeline".
Definition ECSEventKindEvent : string := "event".
Definition ECSEventCategoryNetwork : string := "network".
Definition ECSEventTypeConnection : string := "connection".
Definition ECSEventOutcomeSuccess : string := "success".

Record ECSEvent := mkEvent {
  Kind : string; Category : list string; Type_ : list string; Outcome : string; Created_ : Z; Start : Z; End_ : Z;
  Duration : Z; Provider : string; Module_ : string }.
Record ECSSourceOrDest := mkSourceOrDest {
  Address : string; sd_Bytes : Z; Domain : string; IP : string; MAC : string; sd_Packets : Z; Port : Z;
  RegisteredDomain : string; TopLevelDomain : string; AutonomousSystem : option Z }.
Record ECSNetwork := mkNetwork { IanaNumber : Z; Transport : string; n_Bytes : Z; n_Packets : Z; n_Type : string }.
Record ECSRelatedICMP := mkICMP { icmp_Type : Z; icmp_Code : Z }.
Record ECSRelated := mkRelated { Hash : list string; Hosts : list string; rel_IP : list string; User : list string }.
Record ElasticCommonSchema := mkECS {
  Timestamp : Z; ECS : option string; Event : ECSEvent; Source : option ECSSourceOrDest;
  Destination : option ECSSourceOrDest; Network : option ECSNetwork; ICMP : option ECSRelatedICMP;
  Related : option ECSRelated }.

(** An end of the flow: the string of addrstrings if there is one. *)
Definition address_string (s : string) (addr : slice Z) : string :=
  if negb (is_empty s) then s else default ""%string (net.netip_text (contents addr)).
Definition mac_string (n : Z) (s dashed : string) : string :=
  if n =? 0 then ""%string else if negb (is_empty s) then s else dashed.
Definition as_number (n : Z) : option Z := if n =? 0 then None else Some n.

(** [now] is [time.Now().UnixMilli()]. *)
Definition ECSFromEnrichedFlow (now : Z) (flow : EnrichedFlow) : result ElasticCommonSchema :=
  let src := address_string (SourceIP flow) (SrcAddr flow) in
  let dst := address_string (DestinationIP flow) (DstAddr flow) in
  transport ← IanaProtocolNumberToLowercaseName (Proto flow);
  Ok {| Timestamp := TimeFlowStartMs flow; ECS := Some ElasticCommonSchemaVersion;
        Event := {| Kind := ECSEventKindEvent; Category := [ECSEventCategoryNetwork];
                    Type_ := [ECSEventTypeConnection]; Outcome := ECSEventOutcomeSuccess; Created_ := now;
                    Start := TimeFlowStartMs flow; End_ := TimeFlowEndMs flow;
                    Duration := i64 (u64 (TimeFlowEndNs flow - TimeFlowStartNs flow));
                    Provider := ECSEventDefaultProvider; Module_ := ECSEventDefaultModule |};
        Source := Some {| Address := src; sd_Bytes := Bytes flow; Domain := ""; IP := src;
                          MAC := mac_string (SrcMac flow) (SourceMAC flow) (pb.SrcMacString flow pb.MACSeparatorDash);
                          sd_Packets := Packets flow; Port := SrcPort flow; RegisteredDomain := ""; TopLevelDomain := "";
                          AutonomousSystem := as_number (SrcAs flow) |};
        Destination := Some {| Address := dst; sd_Bytes := 0; Domain := ""; IP := dst;
                          MAC := mac_string (DstMac flow) (DestinationMAC flow) (pb.DstMacString flow pb.MACSeparatorDash);
                          sd_Packets := 0; Port := DstPort flow; RegisteredDomain := ""; TopLevelDomain := "";
                          AutonomousSystem := as_number (DstAs flow) |};
        Network := Some {| IanaNumber := Proto flow; Transport := transport; n_Bytes := Bytes flow; n_Packets := Packets flow;
                           n_Type := if Etype flow =? 2048 then "ipv4" else if Etype flow =? 34525 then "ipv6" else "" |};
        ICMP := if (Proto flow =? 1) || (Proto flow =? 58)
                then Some {| icmp_Type := IcmpType flow; icmp_Code := IcmpCode flow |} else None;
        Related := Some {| Hash := []; Hosts := []; rel_IP := [src; dst]; User := [] |} |}.

(** ** Configuration *)
Record ServerOptions := mkServerOptions {
  UseTLS : bool; VerifyCertificate : bool; CompressionLevel : Z; Parallelism : Z }.
(** [Capacity] is that of LumberjackOut. *)
Record Lumberjack := mkLumberjack {
  Servers : gmap string ServerOptions; BatchSize : Z; BatchTimeout : Z; BatchDebugPrintf : option bool;
  QueueStatusInterval : Z; ReconnectWait : Z; Capacity : Z }.

Definition defaultQueueSize : Z := 65536.
Definition defaultBatchSize : Z := 64.
Definition defaultTimeout : Z := 5 * time.Second.
Definition minimalBatchTimeout : Z := 50 * time.Millisecond.
Definition defaultReconnectWait : Z := 1 * time.Second.

(** What is used of a [*url.URL]. *)
Record URL := mkURL { Scheme : string; Host : string; Get : string -> string }.

(** [strings.ReplaceAll(s, "_", "")] *)
Fixpoint remove_underscores (s : string) : string :=
  match s with
  | EmptyString => EmptyString
  | String a s => if decide (a = "_"%char) then remove_underscores s else String a (remove_underscores s)
  end.

Section New.
Context `{f64.Platform} (Parse : string -> option URL).

Definition compression_level (s : string) (dflt : Z) : created Z :=
  if is_empty s then Created dflt else required (strconv.Atoi s) (between 0 9).
Definition scheme_tls (s : string) : created (bool * bool) :=
  if seqb s "tcp" then Created (false, false) else if seqb s "tls" then Created (true, true)
  else if seqb s "tlsnoverify" then Created (true, false) else FatalExit.
Definition parse_server (defaultCompression : Z) (rawServerString : string) : created (string * ServerOptions) :=
  serverURL ← required (Parse rawServerString) any_value;
  '(useTLS, verifyTLS) ← scheme_tls (Scheme serverURL);
  compressionLevel ← compression_level (Get serverURL "compression") defaultCompression;
  numRoutines ← (if is_empty (Get serverURL "count") then Created 1
                 else n ← required (strconv.Atoi (Get serverURL "count")) any_value; Created (if n <? 1 then 1 else n));
  Created (Host serverURL, {| UseTLS := useTLS; VerifyCertificate := verifyTLS;
                              CompressionLevel := compressionLevel; Parallelism := numRoutines |}).
Fixpoint parse_servers (defaultCompression : Z) (raw : list string) (servers : gmap string ServerOptions) : created (gmap string ServerOptions) :=
  match raw with
  | [] => Created servers
  | s :: raw => '(host, options) ← parse_server defaultCompression s;
                parse_servers defaultCompression raw (<[host := options]> servers)
  end.

(** The length of the buffered channel. *)
Definition queue_length (c : config) : created Z :=
  n ← optional c "queuesize" "queuesize" defaultQueueSize (strconv.Atoi ∘ remove_underscores) any_value;
  Created (if n <? 64 then defaultQueueSize else n).
Definition status_interval (c : config) : created Z :=
  optional c "queuestatusinterval" "queuestatusinterval" 0 time.ParseDuration any_value.

(** The receiver is the registered template; its BatchDebugPrintf stays if
    batchdebug is not set. *)
Definition New (c : config) (template : Lumberjack) : created Lumberjack :=
  defaultCompression ← compression_level (cfg c "compression") 0;
  servers ← parse_servers defaultCompression (gostrings.TrimSpace <$> gostrings.Split (cfg c "servers") ",") ∅;
  batch ← optional c "batchsize" "batchsize" defaultBatchSize (strconv.Atoi ∘ remove_underscores) any_value;
  timeout ← optional c "batchtimeout" "batchtimeout" defaultTimeout time.ParseDuration any_value;
  debug ← optional c "batchdebug" "batchdebug" (BatchDebugPrintf template) (fun s => Some <$> strconv.ParseBool s) any_value;
  wait ← optional c "reconnectwait" "reconnectwait" defaultReconnectWait time.ParseDuration any_value;
  interval ← status_interval c;
  buflen ← queue_length c;
  let timeout := if timeout <? minimalBatchTimeout then defaultTimeout else timeout in
  Created {| Servers := servers; BatchSize := if batch <? 0 then defaultBatchSize else batch;
             BatchTimeout := if time.Minute <? timeout then defaultTimeout else timeout;
             BatchDebugPrintf := debug; QueueStatusInterval := interval; ReconnectWait := wait;
             Capacity := buflen |}.
End New.

(** How the client of a server dials: [tls.Dial] with InsecureSkipVerify, or
    [net.Dial] ([connect], [client.go]). *)
Inductive dialling : Type := DialTLS (InsecureSkipVerify : bool) | DialPlain.
Definition dialFunc (o : ServerOptions) : dialling :=
  if UseTLS o then DialTLS (negb (VerifyCertificate o)) else DialPlain.

(** ** client.go *)
Module client.
(** An answer of the network: to a dial, or to a transmission; of a failed one the
    server may have got the first [n] events. *)
Inductive error : Type := EOF | Timeout | OtherError.
Inductive answer : Type := Dialled (ok : bool) | Transmitted (n : nat) (err : option error).
Inductive call : Type := Dial | Transmit | Close | Sleep.
Section client.
Context {A : Type} (events : list A).

(** One round of [Send], which is dialling ([connect]) or transmitting: the calls it
    makes, the events the server has got, and whether there is a connection
    afterwards; [None] when [Send] returns. *)
Definition round (connected : bool) (a : answer) : option (list call * list A * option bool) :=
  match connected, a with
  | false, Dialled true => Some ([Dial], [], Some true)
  | false, Dialled false => Some ([Dial; Sleep], [], Some false)
  | true, Transmitted _ None => Some ([Transmit], events, None)
  | true, Transmitted n (Some EOF) => Some ([Transmit; Close], take n events, Some false)
  | true, Transmitted n (Some Timeout) => Some ([Transmit], take n events, Some true)
  | true, Transmitted n (Some OtherError) => Some ([Transmit; Sleep; Close], take n events, Some false)
  | _, _ => None
  end.
(** [Send] on the answers it gets: the calls, the events the server has got, and
    whether it has returned. *)
Fixpoint Send (connected : bool) (answers : list answer) : list call * list A * bool :=
  match answers with
  | [] => ([], [], false)
  | a :: answers =>
      match round connected a with
      | None => ([], [], false)
      | Some (calls, got, None) => (calls, got, true)
      | Some (calls, got, Some connected) =>
          let '(calls', got', returned) := Send connected answers in (calls ++ calls', got ++ got', returned)
      end
  end.
(** Answers to the calls that are made. *)
Fixpoint proper (connected : bool) (answers : list answer) : Prop :=
  match answers with
  | [] => True
  | Dialled ok :: l => connected = false /\ proper ok l
  | Transmitted _ None :: _ => connected = true
  | Transmitted _ (Some err) :: l => connected = true /\ proper (match err with Timeout => true | _ => false end) l
  end.
Definition partials (answers : list answer) : list nat :=
  omap (fun a => match a with Transmitted n (Some _) => Some n | _ => None end) answers.
Definition accepted (a : answer) : bool := match a with Transmitted _ None => true | _ => false end.
End client.
End client.

(** ** Run: a writer *)
Section writer.
Context (segment : Lumberjack).

(** The batch (flowInterface[:idx]), whether the timer runs, and whether the
    client has connected.  The timer runs from the first full batch on. *)
Record writer := mkwriter { batch : list ElasticCommonSchema; armed : bool; connected : bool }.
Definition new_writer : writer := mkwriter [] false false.

(** What wakes the loop: a flow, the timer, the end of the queue (with the outcome
    of the last send). *)
Inductive wevent : Type := Received (now : Z) (flow : EnrichedFlow) | Expired | QueueClosed (sent : bool).

(** A call of a nil function pointer panics. *)
Definition debug : result unit := match BatchDebugPrintf segment with Some _ => Ok tt | None => Panic end.

(** The batches sent and what becomes of the writer.  [Send] retries until it
    succeeds and connects first; [SendNoRetry] does not: without a connection the
    method of a nil client is called, which is where the model ends. *)
Definition writer_step (e : wevent) (w : writer) : list (list ElasticCommonSchema) * result writer :=
  match e with
  | Received now flow =>
      if BatchSize segment <=? zlen (batch w) then ([], Panic)
      else match ECSFromEnrichedFlow now flow with
           | Ok d =>
               let b := batch w ++ [d] in
               if zlen b =? BatchSize segment
               then ([b], _ ← debug; Ok (mkwriter [] true true))
               else ([], Ok (mkwriter b (armed w) (connected w)))
           | Err e => ([], Err e)
           | Panic => ([], Panic)
           end
  | Expired =>
      if negb (armed w) then ([], Ok w)
      else match debug with
           | Ok _ => match batch w with
                     | [] => ([], Ok w)
                     | _ => ([batch w], Ok (mkwriter [] true true))
                     end
           | _ => ([], Panic)
           end
  | QueueClosed sent =>
      if connected w
      then (if sent then [batch w] else [], _ ← (if sent then debug else Ok tt); Ok (mkwriter [] (armed w) true))
      else ([], Err "method of a nil client")
  end.
Fixpoint writer_run (es : list wevent) (w : writer) : list (list ElasticCommonSchema) * result writer :=
  match es with
  | [] => ([], Ok w)
  | e :: es =>
      match writer_step e w with
      | (sent, Ok w) => let r := writer_run es w in (sent ++ r.1, r.2)
      | r => r
      end
  end.
End writer.

(** ** Run: the wait groups *)

(** [WaitGroup.Done] panics below zero. *)
Definition Done (counter : Z) : result Z := if counter <=? 0 then Panic else Ok (counter - 1).
Fixpoint Done_times (n : nat) (counter : Z) : result Z :=
  match n with O => Ok counter | S n => counter ← Done counter; Done_times n counter end.
(** writerWG is incremented once per server; every goroutine calls Done. *)
Definition goroutines (segment : Lumberjack) : nat :=
  foldr Nat.add O ((fun p => Z.to_nat (Parallelism p.2)) <$> map_to_list (Servers segment)).
Definition writers_return (segment : Lumberjack) : result Z :=
  Done_times (goroutines segment) (Z.of_nat (size (Servers segment))).

(** ** Run: the segment up to the end of In

    The loop of [Run] puts a flow into LumberjackOut and then forwards it; any
    writer may take the next flow of the queue.  While a writer sends a batch its
    client goes through the rounds of [client.Send]; a panic in any goroutine ends
    the process. *)
Section run.
Context (segment : Lumberjack).

(** A writer waits, or sends a batch, after which [next] comes. *)
Inductive activity : Type :=
  | Waiting (w : writer)
  | Sending (b : list ElasticCommonSchema) (connected : bool) (next : result writer).
(** The turn of a writer, up to its call of [Send] if there is one; and what follows
    the call.  The second component tells of a panic. *)
Definition begin (w : writer) (turn : list (list ElasticCommonSchema) * result writer) : activity * bool :=
  match turn with
  | (b :: _, next) => (Sending b (connected w) next, false)
  | ([], Ok w') => (Waiting w', false)
  | ([], _) => (Waiting w, true)
  end.
Definition finish (next : result writer) : activity * bool :=
  match next with Ok w => (Waiting w, false) | _ => (Waiting new_writer, true) end.

(** [confirmed]: the batches the servers have acknowledged; [repeated]: the events
    they got in transmissions that failed, of which there were [failures];
    [in_hand]: the flow whose handling made the process panic. *)
Record state := mkstate {
  input : list EnrichedFlow; forwarding : option EnrichedFlow; queue : list EnrichedFlow; out : list EnrichedFlow;
  writers : list activity; confirmed : list (list ElasticCommonSchema); repeated : list ElasticCommonSchema; failures : nat;
  in_hand : list EnrichedFlow; crashed : bool }.
Definition start (ms : list EnrichedFlow) : state :=
  mkstate ms None [] [] (replicate (goroutines segment) (Waiting new_writer)) [] [] 0 [] false.

Inductive step : state -> state -> Prop :=
  | step_feed m ms q o ws cs rs n : zlen q < Capacity segment ->
      step (mkstate (m :: ms) None q o ws cs rs n [] false) (mkstate ms (Some m) (q ++ [m]) o ws cs rs n [] false)
  | step_forward ms m q o ws cs rs n :
      step (mkstate ms (Some m) q o ws cs rs n [] false) (mkstate ms None q (o ++ [m]) ws cs rs n [] false)
  | step_receive ms f m q o ws cs rs n i w now a c : ws !! i = Some (Waiting w) ->
      begin w (writer_step segment (Received now m) w) = (a, c) ->
      step (mkstate ms f (m :: q) o ws cs rs n [] false)
        (mkstate ms f q o (<[i := a]> ws) cs rs n (if c then [m] else []) c)
  | step_expired ms f q o ws cs rs n i w a c : ws !! i = Some (Waiting w) ->
      begin w (writer_step segment Expired w) = (a, c) ->
      step (mkstate ms f q o ws cs rs n [] false) (mkstate ms f q o (<[i := a]> ws) cs rs n [] c)
  | step_send ms f q o ws cs rs n i b k next answer calls got k' : ws !! i = Some (Sending b k next) ->
      client.round b k answer = Some (calls, got, Some k') ->
      step (mkstate ms f q o ws cs rs n [] false)
        (mkstate ms f q o (<[i := Sending b k' next]> ws) cs (rs ++ got) (if k then S n else n) [] false)
  | step_sent ms f q o ws cs rs n i b k next answer calls got a c : ws !! i = Some (Sending b k next) ->
      client.round b k answer = Some (calls, got, None) -> finish next = (a, c) ->
      step (mkstate ms f q o ws cs rs n [] false) (mkstate ms f q o (<[i := a]> ws) (cs ++ [got]) rs n [] c).
End run.

(** ** Theorems *)

(** A conversion fails for protocol 256 only, like the name of the protocol. *)
Lemma ECS_total now flow : in_u 32 (Proto flow) -> Proto flow <> 256 -> exists d, ECSFromEnrichedFlow now flow = Ok d.
Proof.
  intros Hr Hp. unfold ECSFromEnrichedFlow, IanaProtocolNumberToLowercaseName.
  destruct (index_name_ok (LowercaseNames iana) (Proto flow) eq_refl) as [s ->]; [unfold in_u in Hr; lia|done|].
  cbn [mbind result_bind]. by eexists.
Qed.

(** The document of a flow: it exists unless the protocol number is 256,
    its bytes and packets are counted once, at the source and for the network, its
    duration is the flow's in nanoseconds, and its addresses are those of the
    flow, which may also come as text. *)
Theorem ECS_document (now : Z) (flow : EnrichedFlow) :
  in_u 32 (Proto flow) ->
  (ECSFromEnrichedFlow now flow = Panic <-> Proto flow = 256) /\
  forall d, ECSFromEnrichedFlow now flow = Ok d ->
    (exists src dst net, Source d = Some src /\ Destination d = Some dst /\ Network d = Some net /\
      sd_Bytes src + sd_Bytes dst = n_Bytes net /\ sd_Packets src + sd_Packets dst = n_Packets net /\
      n_Bytes net = Bytes flow /\ n_Packets net = Packets flow /\
      (forall addr, SourceIP flow = ""%string -> SrcAddr flow = Some addr -> length addr = net.IPv4len ->
       IP src = net.String (SrcAddr flow))) /\
    (0 <= TimeFlowStartNs flow <= TimeFlowEndNs flow -> TimeFlowEndNs flow < 2 ^ 63 ->
     Duration (Event d) = TimeFlowEndNs flow - TimeFlowStartNs flow) /\
    (ICMP d <> None <-> Proto flow = 1 \/ Proto flow = 58).
Proof.
  intros Hr. split; [split|].
  - intros HP. destruct (decide (Proto flow = 256)) as [|Hne]; [done|].
    destruct (ECS_total now flow Hr Hne) as [d Hd]. congruence.
  - intros Hp. unfold ECSFromEnrichedFlow. by rewrite Hp.
  - intros d. unfold ECSFromEnrichedFlow. intros (t & _ & Hd)%result_bind_inv. injection Hd as <-. cbn.
    split_and!.
    + do 3 eexists. split_and!; [done..|cbn; lia|cbn; lia|done|done|].
      intros addr -> -> Hl. by destruct addr as [|? [|? [|? [|? []]]]].
    + intros H1 H2. rewrite (wrap_small 64) by (unfold in_u; lia). rewrite swrap_small; lia.
    + destruct (Z.eqb_spec (Proto flow) 1), (Z.eqb_spec (Proto flow) 58); cbn; split; try done; auto; intros [?|?]; done.
Qed.

Section writer_theorems.
Context (segment : Lumberjack).

(** The documents of the received flows. *)
Definition received (es : list wevent) : list (Z * EnrichedFlow) :=
  omap (fun e => match e with Received now flow => Some (now, flow) | _ => None end) es.
Definition documents (fs : list (Z * EnrichedFlow)) (ds : list ElasticCommonSchema) : Prop :=
  Forall2 (fun f d => ECSFromEnrichedFlow f.1 f.2 = Ok d) fs ds.
Definition proper_batch (b : list ElasticCommonSchema) : Prop := 1 <= zlen b <= BatchSize segment.
Definition room (w : writer) : Prop := zlen (batch w) < BatchSize segment.

(** A turn hands at most one batch to [Send]; nothing is lost but a flow for which
    there is no document, and then, or without a function for debug messages, the
    turn panics. *)
Definition idle (w : writer) : Prop := batch w = [] \/ room w.
Lemma writer_turn e w bs r : idle w -> (forall sent, e <> QueueClosed sent) -> writer_step segment e w = (bs, r) ->
  Forall proper_batch bs /\ (length bs <= 1)%nat /\
  match r with
  | Ok w' => idle w' /\ (room w -> room w') /\ exists ds, documents (received [e]) ds /\ concat bs ++ batch w' = batch w ++ ds
  | _ => bs <> [] /\ BatchDebugPrintf segment = None /\ (exists ds, documents (received [e]) ds /\ concat bs = batch w ++ ds) \/
         bs = [] /\ (BatchDebugPrintf segment = None \/ BatchSize segment <= 0 \/
                     exists now flow, e = Received now flow /\ forall d, ECSFromEnrichedFlow now flow <> Ok d)
  end.
Proof.
  unfold idle, room, proper_batch. intros Hr Hc. pose proof (zlen_nonneg (batch w)) as Hn.
  destruct e as [now flow| |sent]; [| |by destruct (Hc sent)]; cbn [writer_step].
  - destruct (Z.leb_spec (BatchSize segment) (zlen (batch w))) as [Hz|Hz].
    { intros [= <- <-]. split_and!; [constructor|cbn; lia|]. right. split; [done|]. right. left.
      destruct Hr as [E|]; [rewrite E in Hz; exact Hz|lia]. }
    destruct (ECSFromEnrichedFlow now flow) as [d|x|] eqn:Ed; cycle 1;
      [intros [= <- <-]; split_and!; [constructor|cbn; lia|]; right; split; [done|]; right; right;
       exists now, flow; split; [done|]; intros d; congruence..|].
    assert (zlen (batch w ++ [d]) = zlen (batch w) + 1) as El by by rewrite zlen_app.
    assert (documents (received [Received now flow]) [d]) as Hd by by constructor.
    destruct (Z.eqb_spec (zlen (batch w ++ [d])) (BatchSize segment)) as [E|E]; intros [= <- <-].
    + unfold debug. split_and!; [apply Forall_singleton; lia|cbn; lia|].
      destruct (BatchDebugPrintf segment); cbn [mbind result_bind batch].
      * split_and!; [by left|unfold zlen; cbn; lia|]. exists [d]. split; [done|]. cbn. by rewrite !app_nil_r.
      * left. split_and!; [done|done|]. exists [d]. split; [done|]. cbn. by rewrite app_nil_r.
    + cbn [batch]. split_and!; [constructor|cbn; lia|right; lia|lia|]. by exists [d].
  - destruct (armed w); cbn [negb]; cycle 1.
    { intros [= <- <-]. split_and!; [constructor|cbn; lia|done|done|]. exists []. split; [constructor|by rewrite app_nil_r]. }
    unfold debug. destruct (BatchDebugPrintf segment); cycle 1.
    { intros [= <- <-]. split_and!; [constructor|cbn; lia|]. right. split; [done|by left]. }
    destruct (batch w) as [|d ds] eqn:Eb; intros [= <- <-].
    + rewrite Eb. split_and!; [constructor|cbn; lia|done|done|]. exists []. split; [constructor|done].
    + destruct Hr as [|Hr]; [done|]. unfold zlen in *. cbn [batch length] in *.
      split_and!; [apply Forall_singleton; cbn; lia|cbn; lia|by left|lia|]. exists []. split; [constructor|]. cbn. by rewrite !app_nil_r.
Qed.
Lemma writer_step_ok e w b w' : room w -> (forall sent, e <> QueueClosed sent) -> writer_step segment e w = (b, Ok w') ->
  room w' /\ Forall proper_batch b /\ exists ds, documents (received [e]) ds /\ concat b ++ batch w' = batch w ++ ds.
Proof.
  intros Hr Hc Hw. destruct (writer_turn e w b (Ok w') (or_intror Hr) Hc Hw) as (Hb & _ & _ & Hr' & Hd). auto.
Qed.

(** A writer sends what it receives: whatever the timer does, the batches
    sent, then the current batch, are the documents of the received flows in
    order, no batch is empty or larger than the batch size, and the current batch
    is smaller. *)
Theorem writer_batches (es : list wevent) (sent : list (list ElasticCommonSchema)) (w : writer) :
  0 < BatchSize segment -> Forall (fun e => forall b, e <> QueueClosed b) es ->
  writer_run segment es new_writer = (sent, Ok w) ->
  documents (received es) (concat sent ++ batch w) /\ Forall proper_batch sent /\ room w.
Proof.
  intros Hb Hes Hrun. assert (room new_writer) as Hr by exact Hb.
  change (concat sent ++ batch w) with (batch new_writer ++ concat sent ++ batch w).
  enough (exists ds, documents (received es) ds /\ concat sent ++ batch w = batch new_writer ++ ds /\ Forall proper_batch sent /\ room w)
    as (ds & Hd & E & Hp & Hw) by (split_and!; [by rewrite E|done|done]).
  revert Hrun Hr. generalize new_writer as w0. revert sent.
  induction Hes as [|e es He _ IH]; intros sent w0; cbn [writer_run].
  { intros [= <- <-] Hr. exists []. split_and!; [constructor|by rewrite app_nil_r|constructor|done]. }
  destruct (writer_step segment e w0) as [b [w1| |]] eqn:E1; try done. intros Hrun Hr. injection Hrun as <- Hrun.
  destruct (writer_step_ok e w0 b w1 Hr He E1) as (Hr1 & Hb1 & d1 & Hd1 & Ed1).
  destruct (writer_run segment es w1) as [sent1 r1] eqn:E2. cbn in Hrun. subst r1.
  destruct (IH sent1 w1 E2 Hr1) as (d2 & Hd2 & Ed2 & Hb2 & Hw2). exists (d1 ++ d2). split_and!; [| | |done].
  - unfold received. change (e :: es) with ([e] ++ es). rewrite omap_app. by apply Forall2_app.
  - cbn [fst]. rewrite concat_app, <- app_assoc, Ed2, app_assoc, Ed1, <- app_assoc. done.
  - by apply Forall_app.
Qed.

Lemma writer_run_app es es' : forall w, writer_run segment (es ++ es') w =
  match writer_run segment es w with
  | (s, Ok w) => let r := writer_run segment es' w in (s ++ r.1, r.2)
  | r => r
  end.
Proof.
  induction es as [|e es IH]; intros w; cbn [writer_run app]; [by destruct (writer_run segment es' w)|].
  destruct (writer_step segment e w) as [s [w1| |]]; try done. rewrite IH.
  destruct (writer_run segment es w1) as [s1 [w2| |]]; try done. cbn. by rewrite app_assoc.
Qed.

Definition receive (f : Z * EnrichedFlow) : wevent := Received f.1 f.2.
Lemma documents_zlen fs ds : documents fs ds -> zlen fs = zlen ds.
Proof. intros Hd. unfold zlen. by rewrite (Forall2_length _ _ _ Hd). Qed.

(** Until the batch is full, flows only fill it. *)
Lemma receive_more fs : forall w ds, documents fs ds -> zlen (batch w) + zlen ds < BatchSize segment ->
  writer_run segment (receive <$> fs) w = ([], Ok (mkwriter (batch w ++ ds) (armed w) (connected w))).
Proof.
  intros w ds Hd. revert w. induction Hd as [|[now f] d fs ds Hf Hd IH]; intros [b a c] Hl.
  { cbn. by rewrite app_nil_r. }
  pose proof (zlen_nonneg ds) as Hn. rewrite zlen_cons in Hl. cbn in Hf, Hl |- *.
  rewrite (proj2 (Z.leb_gt _ _)) by lia. rewrite Hf.
  assert (zlen (b ++ [d]) = zlen b + 1) as El by by rewrite zlen_app.
  rewrite (proj2 (Z.eqb_neq _ _)) by lia. rewrite IH; cbn [batch armed connected]; [|lia].
  by rewrite <- app_assoc.
Qed.

(** The batch timeout does not bound the delay of the first batch: a writer
    that has received fewer flows than the batch size sends nothing, however often
    the timer would expire, and when the queue is closed it calls its client, which
    it has never connected. *)
Theorem writer_first_batch_waits (fs : list (Z * EnrichedFlow)) (ds : list ElasticCommonSchema) (n : nat) (ok : bool) :
  documents fs ds -> zlen fs < BatchSize segment ->
  writer_run segment ((receive <$> fs) ++ replicate n Expired ++ [QueueClosed ok]) new_writer
  = ([], Err "method of a nil client").
Proof.
  intros Hd Hl. rewrite writer_run_app, (receive_more fs new_writer ds Hd) by (rewrite <- (documents_zlen fs ds Hd); exact Hl).
  cbn. induction n as [|n IH]; [done|]. cbn. destruct (writer_run segment (replicate n Expired ++ _) _) as [s r].
  by injection IH as -> ->.
Qed.

(** Without the parameter batchdebug the first full batch ends the process:
    it is sent, and then the function pointer for debug messages is nil. *)
Theorem writer_full_batch_panics (fs : list (Z * EnrichedFlow)) (ds : list ElasticCommonSchema) (es : list wevent) :
  BatchDebugPrintf segment = None -> 0 < BatchSize segment -> documents fs ds -> zlen fs = BatchSize segment ->
  writer_run segment ((receive <$> fs) ++ es) new_writer = ([ds], Panic).
Proof.
  intros Hdb Hb Hd Hl. destruct fs as [|[now f] fs _] using rev_ind; [unfold zlen in Hl; cbn in Hl; lia|].
  apply Forall2_app_inv_l in Hd as (ds' & ds1 & Hd' & Hd1 & ->). inversion Hd1 as [|? d ? ? Hf Hn]; subst.
  inversion Hn; subst. rewrite zlen_app, (documents_zlen _ _ Hd') in Hl. change (zlen [(now, f)]) with 1 in Hl.
  rewrite fmap_app, <- app_assoc, writer_run_app, (receive_more fs new_writer ds' Hd') by (change (zlen (batch new_writer)) with 0; lia).
  cbn in Hf |- *. rewrite (proj2 (Z.leb_gt _ _)) by lia. rewrite Hf.
  rewrite zlen_app. change (zlen [d]) with 1. rewrite (proj2 (Z.eqb_eq _ _)) by lia. unfold debug. by rewrite Hdb.
Qed.
End writer_theorems.

(** The scheme of a server's URL is what its connections are: certificates go
    unverified only where the URL says so. *)
Theorem server_dials `{f64.Platform} (Parse : string -> option URL) (dflt : Z) (raw host : string) (o : ServerOptions) :
  parse_server Parse dflt raw = Created (host, o) ->
  exists u, Parse raw = Some u /\ host = Host u /\
    match dialFunc o with
    | DialPlain => Scheme u = "tcp"%string
    | DialTLS false => Scheme u = "tls"%string
    | DialTLS true => Scheme u = "tlsnoverify"%string
    end.
Proof.
  unfold parse_server. intros Hp. apply created_bind_inv in Hp as (u & Hu & Hp).
  apply created_bind_inv in Hp as ([tls verify] & Ht & Hp). apply created_bind_inv in Hp as (level & _ & Hp).
  apply created_bind_inv in Hp as (count & _ & Hp). injection Hp as <- <-. apply required_inv in Hu as [Hu _].
  exists u. do 2 (split; [done|]). revert Ht. unfold scheme_tls, dialFunc. cbn.
  repeat match goal with |- context [seqb ?a ?b] => destruct (seqb a b) eqn:? end; intros [= <- <-]; by apply seqb_eq.
Qed.

(** What New accepts. *)
Definition good_options (o : ServerOptions) : Prop := 0 <= CompressionLevel o <= 9 /\ 1 <= Parallelism o.

Section New_theorems.
Context `{f64.Platform} (Parse : string -> option URL).

Lemma compression_level_range s dflt n : compression_level s dflt = Created n -> 0 <= dflt <= 9 -> 0 <= n <= 9.
Proof.
  unfold compression_level. destruct (is_empty s); [by intros [= <-]|].
  intros [_ Hb]%required_inv _. unfold between in Hb. lia.
Qed.

Lemma parse_servers_good dflt raw : forall servers servers', 0 <= dflt <= 9 ->
  map_Forall (fun _ => good_options) servers -> parse_servers Parse dflt raw servers = Created servers' ->
  map_Forall (fun _ => good_options) servers'.
Proof.
  induction raw as [|s raw IH]; intros m m' Hd Hm; cbn [parse_servers]; [by intros [= <-]|].
  intros ([host o] & Hp & Hs)%created_bind_inv. revert Hs. apply IH; [done|]. apply map_Forall_insert_2; [|done].
  unfold parse_server in Hp. apply created_bind_inv in Hp as (u & _ & Hp).
  apply created_bind_inv in Hp as ([tls verify] & _ & Hp). apply created_bind_inv in Hp as (level & Hl & Hp).
  apply created_bind_inv in Hp as (count & Hc & Hp). injection Hp as _ <-. split; cbn; [by eapply compression_level_range|].
  destruct (is_empty _); [injection Hc as <-; lia|]. apply created_bind_inv in Hc as (n & _ & Hc). injection Hc as <-.
  destruct (Z.ltb_spec n 1); lia.
Qed.

(** A configured lumberjack segment is in range: compression levels from 0
    to 9, at least one goroutine per server, a batch size that is not negative, a
    batch timeout from 50 milliseconds to a minute and a queue of at least 64. *)
Theorem lumberjack_New_valid (c : config) (t s : Lumberjack) :
  New Parse c t = Created s ->
  map_Forall (fun _ => good_options) (Servers s) /\ 0 <= BatchSize s /\ 64 <= Capacity s /\
  minimalBatchTimeout <= BatchTimeout s <= time.Minute /\
  (cfg c "batchdebug" = ""%string -> BatchDebugPrintf s = BatchDebugPrintf t).
Proof.
  assert (minimalBatchTimeout <= defaultTimeout <= time.Minute) as Hd by by vm_compute.
  unfold New. intros Hn. split_created Hn. injection Hn as <-. cbn [Servers BatchSize Capacity BatchTimeout BatchDebugPrintf].
  split_and!.
  - eapply parse_servers_good; [|apply map_Forall_empty|done]. eapply compression_level_range; [done|lia].
  - destruct (Z.ltb_spec x1 0); [done|lia].
  - apply created_bind_inv in Hx6 as (n & _ & [= <-]). by destruct (Z.ltb_spec n 64); [|lia].
  - destruct (Z.ltb_spec x2 minimalBatchTimeout), (Z.ltb_spec time.Minute x2), (Z.ltb_spec time.Minute defaultTimeout); lia.
  - destruct (Z.ltb_spec x2 minimalBatchTimeout), (Z.ltb_spec time.Minute x2), (Z.ltb_spec time.Minute defaultTimeout); lia.
  - intros E. apply optional_inv in Hx3 as [_ Hx3]; [by apply Hx3|done].
Qed.
End New_theorems.

Lemma Done_times_spec n : forall c, 0 <= c -> Done_times n c = if Z.of_nat n <=? c then Ok (c - Z.of_nat n) else Panic.
Proof.
  induction n as [|n IH]; intros c Hc; cbn [Done_times].
  - destruct (Z.leb_spec (Z.of_nat 0) c); [|lia]. f_equal. lia.
  - unfold Done. destruct (Z.leb_spec c 0); cbn [mbind result_bind].
    + by rewrite (proj2 (Z.leb_gt _ _)) by lia.
    + rewrite IH by lia. replace (c - 1 - Z.of_nat n) with (c - Z.of_nat (S n)) by lia.
      destruct (Z.leb_spec (Z.of_nat n) (c - 1)), (Z.leb_spec (Z.of_nat (S n)) c); try done; lia.
Qed.

Lemma goroutines_many (l : list (string * ServerOptions)) : Forall (fun p => 1 <= Parallelism p.2) l ->
  let n := foldr Nat.add O ((fun p => Z.to_nat (Parallelism p.2)) <$> l) in
  (length l <= n)%nat /\ (n = length l <-> Forall (fun p => Parallelism p.2 = 1) l).
Proof.
  induction 1 as [|[h o] l Ho _ [IH1 IH2]]; [by repeat split|]. cbn in Ho, IH1, IH2 |- *. split; [lia|].
  rewrite Forall_cons. cbn. split.
  - intros E. assert (Z.to_nat (Parallelism o) = 1)%nat by lia. split; [lia|]. apply IH2. lia.
  - intros [-> Hl]. apply IH2 in Hl. lia.
Qed.

(** The parameter count of a server URL breaks the shutdown: when the
    goroutines return, the wait group goes below zero and panics if and only if
    some server has more than one of them. *)
Theorem parallel_writers_panic (s : Lumberjack) : map_Forall (fun _ => good_options) (Servers s) ->
  writers_return s = Panic <-> exists host options, Servers s !! host = Some options /\ 1 < Parallelism options.
Proof.
  intros Hs. unfold writers_return. rewrite Done_times_spec by lia.
  assert (Forall (fun p => 1 <= Parallelism p.2) (map_to_list (Servers s))) as Hl.
  { apply Forall_forall. intros [h o] Hp%elem_of_map_to_list. by destruct (Hs _ _ Hp). }
  destruct (goroutines_many _ Hl) as [Hle Heq]. fold (goroutines s) in Hle, Heq. cbn in Hle, Heq.
  rewrite length_map_to_list in Hle, Heq. split.
  - destruct (Z.leb_spec (Z.of_nat (goroutines s)) (Z.of_nat (size (Servers s)))) as [|Hgt]; [done|]. intros _.
    destruct (decide (Forall (fun p => Parallelism p.2 = 1) (map_to_list (Servers s)))) as [Hall|Hn].
    { apply Heq in Hall. lia. }
    apply not_Forall_Exists in Hn; [|apply _]. apply Exists_exists in Hn as ([h o] & Hp & Ho).
    rewrite Forall_forall in Hl. pose proof (Hl _ Hp) as Hge. cbn in Ho, Hge. exists h, o.
    split; [by apply elem_of_map_to_list|lia].
  - intros (h & o & Ho & Hgt). rewrite (proj2 (Z.leb_gt _ _)); [done|].
    enough (goroutines s <> size (Servers s)) by lia. intros Hall%Heq. rewrite Forall_forall in Hall.
    apply elem_of_map_to_list, Hall in Ho. cbn in Ho. lia.
Qed.

(** [Send] returns only when the server has got all events, at the first
    transmission without an error, and otherwise goes on for ever; the events the
    server has got before an error are all sent again, so that it may get them
    twice. *)
Theorem client_at_least_once {A : Type} (events : list A) (connected : bool) (pre : list client.answer) (n : nat) :
  existsb client.accepted pre = false -> client.proper connected (pre ++ [client.Transmitted n None]) ->
  (client.Send events connected pre).2 = false /\
  exists calls, client.Send events connected (pre ++ [client.Transmitted n None]) =
    (calls, concat ((fun k => take k events) <$> client.partials pre) ++ events, true).
Proof.
  revert connected. induction pre as [|a pre IH]; intros connected Hn Hp.
  - cbn in *. subst. split; [done|]. by eexists.
  - apply orb_false_iff in Hn as [Ha Hn]. destruct a as [ok|k [err|]]; [| |done].
    + destruct Hp as [-> Hp]. destruct (IH ok Hn Hp) as [E1 [cs E2]]. cbn [app client.Send].
      destruct ok; cbn [client.round]; rewrite E2; (split; [|by eexists]); by destruct (client.Send events _ pre) as [[? ?] ?].
    + destruct Hp as [-> Hp]. destruct (IH _ Hn Hp) as [E1 [cs E2]]. cbn [app client.Send].
      destruct err; cbn [client.round]; rewrite E2; cbn; rewrite <- ?app_assoc; (split; [|by eexists]);
        by destruct (client.Send events _ pre) as [[? ?] ?].
Qed.

Lemma round_got {A} (events : list A) k answer calls got k' : client.round events k answer = Some (calls, got, k') ->
  match k' with None => got = events | Some _ => (forall d, d ∈ got -> d ∈ events) /\ (k = false -> got = []) end.
Proof.
  assert (forall n d, d ∈ take n events -> d ∈ events) as Ht
    by (intros n d Hd; rewrite <- (take_drop n events); apply elem_of_app; by left).
  destruct k, answer as [[|]|n [[| |]|]]; intros [= <- <- <-]; try done; first [split; [by eauto|done] | split; [by intros d []%elem_of_nil|done]].
Qed.

(** ** Conservation *)
Section conservation.
Context (segment : Lumberjack).

(** The documents in a writer's batch and in the batch it sends. *)
Definition pending (a : activity) : list ElasticCommonSchema :=
  match a with
  | Waiting w => batch w
  | Sending b _ next => b ++ match next with Ok w => batch w | _ => [] end
  end.
Definition steady (a : activity) : Prop :=
  match a with
  | Waiting w => idle segment w
  | Sending b _ next => proper_batch segment b /\ match next with Ok w => idle segment w | _ => BatchDebugPrintf segment = None end
  end.
(** What makes the process panic. *)
Definition cause (st : state) : Prop :=
  BatchDebugPrintf segment = None \/ BatchSize segment <= 0 \/
  exists now flow, in_hand st = [flow] /\ forall d, ECSFromEnrichedFlow now flow <> Ok d.

(** [taken]: the flows the writers have taken from the queue and made documents
    of, and when; [ds]: these documents. *)
Definition accounted (ms : list EnrichedFlow) (st : state) : Prop :=
  out st ++ match forwarding st with Some m => [m] | None => [] end ++ input st = ms /\
  (exists taken ds, (snd <$> taken) ++ in_hand st ++ queue st ++ input st = ms /\ documents taken ds /\
    ds ≡ₚ concat (confirmed st) ++ concat (pending <$> writers st) /\ Forall (fun d => d ∈ ds) (repeated st)) /\
  (failures st = O -> repeated st = []) /\
  Forall steady (writers st) /\ Forall (proper_batch segment) (confirmed st) /\
  if crashed st then cause st else in_hand st = [].

Lemma writers_update ws i x x' b ds (cs : list (list ElasticCommonSchema)) : ws !! i = Some x -> concat b ++ pending x' = pending x ++ ds ->
  concat (cs ++ b) ++ concat (pending <$> <[i := x']> ws) ≡ₚ (concat cs ++ concat (pending <$> ws)) ++ ds.
Proof.
  intros Hi E. pose proof (concat_update pending ws i x x' (concat b) ds Hi) as Hc. rewrite concat_app.
  transitivity (concat cs ++ (concat (pending <$> <[i := x']> ws) ++ concat b)); [solve_perm|].
  rewrite Hc; [solve_perm|]. rewrite <- E. solve_perm.
Qed.

(** A turn of a writer, up to its call of [Send]. *)
Lemma begin_accounted e w a c : steady (Waiting w) -> (forall sent, e <> QueueClosed sent) ->
  begin w (writer_step segment e w) = (a, c) ->
  steady a /\
  ((c = false /\ exists ds, documents (received [e]) ds /\ pending a = batch w ++ ds) \/
   (c = true /\ a = Waiting w /\ (BatchDebugPrintf segment = None \/ BatchSize segment <= 0 \/
      exists now flow, e = Received now flow /\ forall d, ECSFromEnrichedFlow now flow <> Ok d))).
Proof.
  intros Hw He. destruct (writer_step segment e w) as [bs r] eqn:Es.
  destruct (writer_turn segment e w bs r Hw He Es) as (Hb & Hl & Hr).
  destruct bs as [|b [|]]; [| |cbn in Hl; lia].
  - destruct r as [w'|x|]; intros [= <- <-].
    + destruct Hr as (Hi & _ & ds & Hd & E). split; [done|]. left. split; [done|]. by exists ds.
    + destruct Hr as [(? & _)|[_ Hr]]; [done|]. split; [done|]. right. done.
    + destruct Hr as [(? & _)|[_ Hr]]; [done|]. split; [done|]. right. done.
  - apply Forall_cons in Hb as [Hb _]. intros [= <- <-]. destruct r as [w'|x|].
    + destruct Hr as (Hi & _ & ds & Hd & E). split; [by split|]. left. split; [done|]. exists ds. cbn in E. by rewrite app_nil_r in E.
    + destruct Hr as [(_ & Hn & ds & Hd & E)|[? _]]; [|done]. split; [by split|]. left. split; [done|]. by exists ds.
    + destruct Hr as [(_ & Hn & ds & Hd & E)|[? _]]; [|done]. split; [by split|]. left. split; [done|]. by exists ds.
Qed.

Lemma receive_accounted ms ms' f m q o ws cs rs n i w now a c : ws !! i = Some (Waiting w) ->
  begin w (writer_step segment (Received now m) w) = (a, c) ->
  accounted ms (mkstate ms' f (m :: q) o ws cs rs n [] false) ->
  accounted ms (mkstate ms' f q o (<[i := a]> ws) cs rs n (if c then [m] else []) c).
Proof.
  intros Hi Hb (Ho & (taken & ds & Ht & Hd & Hp & Hrep) & Hf & Hw & Hc & _).
  cbn [out forwarding input queue in_hand writers confirmed repeated failures crashed] in *.
  pose proof (Forall_lookup_1 _ _ _ _ Hw Hi) as Hsw.
  destruct (begin_accounted (Received now m) w a c Hsw ltac:(done) Hb) as [Ha [(-> & ds' & Hd' & E)|(-> & -> & Hcause)]].
  - split_and!; cbn [out forwarding input queue in_hand writers confirmed repeated failures crashed];
      [done| |done|by apply Forall_insert|done|done].
    exists (taken ++ [(now, m)]), (ds ++ ds'). split_and!; [by rewrite fmap_app, <- app_assoc|by apply Forall2_app| |].
    + pose proof (writers_update ws i (Waiting w) a [] ds' cs Hi E) as Hu. rewrite app_nil_r in Hu. by rewrite Hu, Hp.
    + eapply Forall_impl; [exact Hrep|]. intros d Hin. apply elem_of_app. by left.
  - rewrite list_insert_id by done. split_and!; cbn [out forwarding input queue in_hand writers confirmed repeated failures crashed]; try done.
    + by exists taken, ds.
    + destruct Hcause as [?|[?|(? & ? & [= <- <-] & ?)]]; [by left|right; by left|right; right; eauto].
Qed.
Lemma step_accounted ms st st' : step segment st st' -> accounted ms st -> accounted ms st'.
Proof.
  destruct 1 as [m ms' q o ws cs rs n Hq|ms' m q o ws cs rs n|ms' f m q o ws cs rs n i w now a c Hi Hb|ms' f q o ws cs rs n i w a c Hi Hb
    |ms' f q o ws cs rs n i b k next answer calls got k' Hi Hr|ms' f q o ws cs rs n i b k next answer calls got a c Hi Hr Hb];
    [| |exact (receive_accounted ms ms' f m q o ws cs rs n i w now a c Hi Hb)| | |];
    intros (Ho & (taken & ds & Ht & Hd & Hp & Hrep) & Hf & Hw & Hc & _);
    cbn [out forwarding input queue in_hand writers confirmed repeated failures crashed] in *.
  - split_and!; try done. exists taken, ds. split_and!; try done. cbn. by rewrite <- app_assoc.
  - split_and!; try done; [by cbn; rewrite <- app_assoc|]. by exists taken, ds.
  - pose proof (Forall_lookup_1 _ _ _ _ Hw Hi) as Hsw.
    destruct (begin_accounted Expired w a c Hsw ltac:(done) Hb) as [Ha [(-> & ds' & Hd' & E)|(-> & -> & Hcause)]].
    + inversion Hd'; subst. split_and!; try done; [|by apply Forall_insert]. exists taken, ds. split_and!; try done. cbn.
      pose proof (writers_update ws i (Waiting w) a [] [] cs Hi E) as Hu. rewrite !app_nil_r in Hu. by rewrite Hu.
    + rewrite list_insert_id by done. split_and!; try done; [by exists taken, ds|].
      destruct Hcause as [?|[?|(? & ? & ? & ?)]]; [by left|right; by left|done].
  - pose proof (Forall_lookup_1 _ _ _ _ Hw Hi) as [Hsb Hsn]. destruct (round_got _ _ _ _ _ _ Hr) as [Hin Hk].
    assert (forall d, d ∈ b -> d ∈ ds) as Hbd.
    { intros d Hdb. rewrite Hp. apply elem_of_app. right. apply list_elem_of_In, in_concat. exists (pending (Sending b k next)).
      split; [apply list_elem_of_In, list_elem_of_fmap_2; by eapply list_elem_of_lookup_2|apply list_elem_of_In, elem_of_app; by left]. }
    split_and!; try done; [|cbn|apply Forall_insert; [done|by split]].
    + exists taken, ds. split_and!; try done; cbn; [|apply Forall_app; split; [done|]; apply Forall_forall; eauto].
      pose proof (writers_update ws i (Sending b k next) (Sending b k' next) [] [] cs Hi) as Hu. rewrite !app_nil_r in Hu. by rewrite Hu.
    + destruct k; [done|]. intros E. by rewrite (Hf E), (Hk eq_refl).
  - pose proof (Forall_lookup_1 _ _ _ _ Hw Hi) as [Hsb Hsn]. apply round_got in Hr as ->.
    assert (steady a /\ pending a = match next with Ok w => batch w | _ => [] end /\
      (c = true -> BatchDebugPrintf segment = None)) as (Ha & E & Hcr)
      by (destruct next; injection Hb as <- <-; split_and!; try done; by left).
    split_and!; try done; [|by apply Forall_insert|apply Forall_app; split; [done|by apply Forall_singleton]|cbn; destruct c; [left; auto|done]].
    exists taken, ds. split_and!; try done. cbn.
    pose proof (writers_update ws i (Sending b k next) a [b] [] cs Hi) as Hu. rewrite !app_nil_r in Hu. rewrite Hu; [done|].
    cbn. by rewrite E, app_nil_r.
Qed.

(** C37. Until its input ends, or the process panics, the segment accounts for every
    flow, whatever the number of writers, the schedule and the errors of the network:
    the flows leave in order on Out, and the documents of the flows the writers have
    taken from the queue are, each exactly once, in a batch that a server has
    acknowledged, in the batch that a writer is sending, again and again until it is
    acknowledged, or in the batch it is filling.  So an acknowledged document has been
    delivered at least once; the events delivered beyond that, which is only after a
    transmission failed, are documents of the same flows.  No batch sent is empty or
    exceeds the batch size.  The process panics only if batchdebug is unset, the
    batch size is 0, or the flow in hand has no document, and then that flow alone
    is neither queued nor converted. *)
Theorem lumberjack_conserves (ms : list EnrichedFlow) (st : state) :
  rtc (step segment) (start segment ms) st -> accounted ms st.
Proof.
  intros Hs. assert (accounted ms (start segment ms)) as Ha.
  { unfold accounted, start. cbn. split_and!; try done.
    - exists [], []. split_and!; [done|constructor| |constructor]. induction (goroutines segment); [done|]. cbn. done.
    - apply Forall_forall. intros w [-> _]%elem_of_replicate. by left. }
  by apply (rtc_keeps (fun st1 st2 Ha Hst => step_accounted ms st1 st2 Hst Ha) _ _ Hs).
Qed.
End conservation.

(** ** The theorems at work *)
Module witness.
#[export] Instance platform : f64.Platform := f64.amd64.
(** The URLs of the configuration below. *)
Definition parse (s : string) : option URL :=
  if seqb s "tcp://a:1" then Some (mkURL "tcp" "a:1" (fun _ => ""%string))
  else if seqb s "tls://b:2?count=3" then Some (mkURL "tls" "b:2" (fun k => if seqb k "count" then "3" else "")%string)
  else None.
Definition conf : config := {[ "servers"%string := "tcp://a:1, tls://b:2?count=3"%string; "batchsize"%string := "2"%string ]}.
Definition template : Lumberjack := mkLumberjack ∅ 0 0 None 0 0 0.
Definition segment : Lumberjack := match New parse conf template with Created s => s | _ => template end.
Definition debugging : Lumberjack :=
  match New parse (<["batchdebug"%string := "true"%string]> conf) template with Created s => s | _ => template end.
Definition flow (n : Z) : EnrichedFlow := set_Bytes n (set_Proto 6 emptyFlow).
Definition document (n : Z) : ElasticCommonSchema :=
  match ECSFromEnrichedFlow 5 (flow n) with Ok d => d | _ => mkECS 0 None (mkEvent "" [] [] "" 0 0 0 0 "" "") None None None None None end.
Lemma segment_created : New parse conf template = Created segment.
Proof. reflexivity. Qed.
Lemma segment_good : map_Forall (fun _ => good_options) (Servers segment).
Proof. by destruct (lumberjack_New_valid parse conf template segment segment_created). Qed.
End witness.

Lemma ECS_document_witness :
  ECSFromEnrichedFlow 5 (witness.flow 7) = Panic <-> 6 = 256.
Proof. apply (ECS_document 5 (witness.flow 7)). unfold in_u. cbn. lia. Defined.

Lemma lumberjack_New_valid_witness : minimalBatchTimeout <= BatchTimeout witness.segment <= time.Minute.
Proof.
  destruct (@lumberjack_New_valid witness.platform witness.parse witness.conf witness.template witness.segment eq_refl) as (_ & _ & _ & Ht & _).
  exact Ht.
Defined.

Lemma parallel_writers_panic_witness : writers_return witness.segment = Panic.
Proof.
  apply (parallel_writers_panic witness.segment witness.segment_good).
  exists "b:2"%string, (mkServerOptions true true 0 3). split; [reflexivity|cbn; lia].
Defined.

Lemma writer_batches_witness :
  exists sent w, writer_run witness.debugging [Received 5 (witness.flow 1); Received 5 (witness.flow 2); Expired; Received 5 (witness.flow 3)] new_writer
    = (sent, Ok w) /\ sent = [[witness.document 1; witness.document 2]] /\
    documents [(5, witness.flow 1); (5, witness.flow 2); (5, witness.flow 3)] (concat sent ++ batch w).
Proof.
  exists [[witness.document 1; witness.document 2]], (mkwriter [witness.document 3] true true).
  split; [reflexivity|]. split; [reflexivity|].
  apply (writer_batches witness.debugging [Received 5 (witness.flow 1); Received 5 (witness.flow 2); Expired; Received 5 (witness.flow 3)]
    [[witness.document 1; witness.document 2]] (mkwriter [witness.document 3] true true)); [reflexivity| |reflexivity].
  repeat constructor; discriminate.
Defined.

Lemma writer_first_batch_waits_witness :
  writer_run witness.debugging [Received 5 (witness.flow 1); Expired; Expired; QueueClosed true] new_writer
  = ([], Err "method of a nil client").
Proof.
  apply (writer_first_batch_waits witness.debugging [(5, witness.flow 1)] [witness.document 1] 2 true); [|reflexivity].
  constructor; [reflexivity|constructor].
Defined.

Lemma writer_full_batch_panics_witness :
  writer_run witness.segment [Received 5 (witness.flow 1); Received 5 (witness.flow 2)] new_writer
  = ([[witness.document 1; witness.document 2]], Panic).
Proof.
  apply (writer_full_batch_panics witness.segment [(5, witness.flow 1); (5, witness.flow 2)]
    [witness.document 1; witness.document 2] []); [reflexivity..| |reflexivity].
  constructor; [reflexivity|constructor; [reflexivity|constructor]].
Defined.

(** Two flows fill a batch, of which the server gets the first event twice. *)
Lemma lumberjack_conserves_witness :
  accounted witness.debugging [witness.flow 1; witness.flow 2] (mkstate [] (Some (witness.flow 2)) [] [witness.flow 1]
    (<[1%nat := Waiting (mkwriter [] true true)]> (replicate (goroutines witness.debugging) (Waiting new_writer)))
    [[witness.document 1; witness.document 2]] [witness.document 1] 1 [] false).
Proof.
  set (b := [witness.document 1; witness.document 2]). set (next := Ok (mkwriter [] true true)).
  apply (lumberjack_conserves witness.debugging [witness.flow 1; witness.flow 2]).
  eapply rtc_l; [apply step_feed; reflexivity|]. eapply rtc_l; [apply step_forward|].
  eapply rtc_l; [apply (step_receive _ _ _ _ _ _ _ _ _ _ 1%nat new_writer 5 (Waiting (mkwriter [witness.document 1] false false)) false); reflexivity|].
  eapply rtc_l; [apply step_feed; reflexivity|].
  eapply rtc_l; [apply (step_receive _ _ _ _ _ _ _ _ _ _ 1%nat (mkwriter [witness.document 1] false false) 5 (Sending b false next) false); reflexivity|].
  eapply rtc_l; [apply (step_send _ _ _ _ _ _ _ _ _ 1%nat b false next (client.Dialled true) [client.Dial] [] true); reflexivity|].
  eapply rtc_l; [apply (step_send _ _ _ _ _ _ _ _ _ 1%nat b true next (client.Transmitted 1 (Some client.Timeout)) [client.Transmit] [witness.document 1] true); reflexivity|].
  eapply rtc_l; [apply (step_sent _ _ _ _ _ _ _ _ _ 1%nat b true next (client.Transmitted 2 None) [client.Transmit] b (Waiting (mkwriter [] true true)) false); reflexivity|].
  apply rtc_refl.
Defined.

Lemma client_at_least_once_witness :
  exists calls, client.Send [1; 2; 3] false
    [client.Dialled false; client.Dialled true; client.Transmitted 2 (Some client.Timeout); client.Transmitted 3 None] =
    (calls, [1; 2; 1; 2; 3], true).
Proof.
  exact (proj2 (client_at_least_once [1; 2; 3] false
    [client.Dialled false; client.Dialled true; client.Transmitted 2 (Some client.Timeout)] 3 eq_refl
    (conj eq_refl (conj eq_refl (conj eq_refl eq_refl))))).
Defined.
