(* ===== verification/Output.v ===== *)
(** * Text outputs ([segments/output/csv/csv.go], [segments/output/sqlite/sqlite.go],
      [segments/output/json/json.go])

    How the fields of a flow become text: [Sprint] is [fmt.Sprint] on a field's
    value, [csv.record] and [sqlite.value_args] are the loops over the configured
    fields, which are looked up by reflection (Reflect.v); json writes through
    bufio's writer (GoIO.v), whose writes may fail.  Files, the CSV quoting, the
    database and the JSON encoding are parameters. *)

From stdpp Require Import prelude strings list gmap.
From Stdlib Require Import ZArith Lia Ascii.
From S2P Require Import Prelude GoStd GoIO EnrichedFlow Segment Reflect.

(** ** fmt.Sprint *)

(** [String] of an enum: its name, or its number. *)
Definition enum_names (ty : string) : list (Z * string) :=
  if seqb ty "pb.EnrichedFlow_FlowType" then EnrichedFlow_FlowType_name
  else if seqb ty "pb.EnrichedFlow_AnonymizedType" then EnrichedFlow_AnonymizedType_name
  else if seqb ty "pb.EnrichedFlow_ValidationStatusType" then EnrichedFlow_ValidationStatusType_name
  else if seqb ty "pb.EnrichedFlow_NormalizedType" then EnrichedFlow_NormalizedType_name
  else if seqb ty "pb.EnrichedFlow_RemoteAddrType" then EnrichedFlow_RemoteAddrType_name
  else if seqb ty "[]pb.EnrichedFlow_LayerStack" then EnrichedFlow_LayerStack_name else [].
Definition enum_string (ty : string) (n : Z) : string :=
  default (strconv.FormatInt n) (assoc n (enum_names ty)).

(** Slices are printed with their elements. *)
Definition Sprint (k : kind) (v : fval) : string :=
  match v with
  | VUint32 n | VUint64 n => strconv.FormatUint n
  | VEnum n => enum_string (type_string k) n
  | VString s => s
  | VBool b => if b then "true" else "false"
  | VBytes b => fmt.brackets (strconv.FormatUint <$> contents b)
  | VUint32s l => fmt.brackets (strconv.FormatUint <$> l)
  | VEnums l => fmt.brackets (enum_string (type_string k) <$> l)
  | VBytess l => fmt.brackets ((fun b => fmt.brackets (strconv.FormatUint <$> b)) <$> l)
  end.

(** The addresses: nil is printed as the empty string. *)
Definition ip_text (b : slice Z) : string :=
  let ipstring := net.String b in if seqb ipstring "<nil>" then ""%string else ipstring.
Definition column_text (d : field) (msg : EnrichedFlow) : string :=
  match fd_get d msg with
  | VBytes b => ip_text b
  | v => Sprint (fd_kind d) v
  end.

(** ** Field selection

    [parse] is what is applied to each name of the parameter. *)
Definition exported : list field := fields.
Fixpoint select (parse : string -> string) (names : list string) : option (list field) :=
  match names with
  | [] => Some []
  | name :: names =>
      match FieldByName (parse name) with
      | Exported d => ds ← select parse names; Some (d :: ds)
      | _ => None
      end
  end.
Definition configured (parse : string -> string) (c : config) : option (list field) :=
  if is_empty (cfg c "fields") then Some exported else select parse (gostrings.Split (cfg c "fields") ",").

Lemma select_spec parse names ds : select parse names = Some ds ->
  (fd_name <$> ds) = parse <$> names /\ Forall (fun d => d ∈ fields) ds.
Proof.
  revert ds. induction names as [|n names IH]; intros ds; cbn [select]; [by intros [= <-]|].
  unfold FieldByName. destruct (find_field (parse n)) as [d|] eqn:E; [|by destruct (bool_decide _)].
  apply find_field_Some in E as [Hd En]. destruct (select parse names) as [ds'|]; [|done].
  intros [= <-]. destruct (IH ds' eq_refl) as [H1 H2]. split; [cbn; congruence|by constructor].
Qed.

(** ** Fields as labels *)
(** A name passes the test if it is a field, also an unexported one. *)
Definition known (name : string) : bool := match FieldByName name with NoField => false | _ => true end.
(** A map from field names to texts; [Interface] of an unexported field or of the
    invalid value panics. *)
Fixpoint labelset (names : list string) (msg : EnrichedFlow) (set : gmap string string) : result (gmap string string) :=
  match names with
  | [] => Ok set
  | name :: names =>
      match FieldByName name with
      | Exported d => labelset names msg (<[name := column_text d msg]> set)
      | _ => Panic
      end
  end.
Lemma labelset_Ok names msg : Forall (fun n => exists d, FieldByName n = Exported d) names -> forall set,
  exists set', labelset names msg set = Ok set' /\
    forall k, set' !! k = if bool_decide (k ∈ names)
                          then match FieldByName k with Exported d => Some (column_text d msg) | _ => None end else set !! k.
Proof.
  induction 1 as [|n names [d Hd] _ IH]; intros set; cbn [labelset]; [by exists set|]. rewrite Hd.
  destruct (IH (<[n := column_text d msg]> set)) as (set' & E & Hs). exists set'. split; [done|]. intros k. rewrite Hs.
  destruct (decide (k ∈ names)) as [Hk|Hk].
  - rewrite !bool_decide_true by set_solver. done.
  - rewrite (bool_decide_false (k ∈ names)) by done. destruct (decide (k = n)) as [->|Hn].
    + rewrite lookup_insert_eq, bool_decide_true by set_solver. by rewrite Hd.
    + rewrite lookup_insert_ne by done. by rewrite bool_decide_false by set_solver.
Qed.
Lemma labelset_Panic names msg : Exists (fun n => ~ exists d, FieldByName n = Exported d) names -> forall set,
  labelset names msg set = Panic.
Proof.
  induction 1 as [n names Hn|n names _ IH]; intros set; cbn [labelset]; destruct (FieldByName n) as [d| |] eqn:E; try done.
  contradict Hn. by exists d.
Qed.

Definition exported_name (name : string) : Prop := exists d, FieldByName name = Exported d.
Lemma known_cases name : known name = true -> exported_name name \/ FieldByName name = Unexported.
Proof. unfold known, exported_name. destruct (FieldByName name) as [d| |]; [left; by exists d|by right|done]. Qed.

(** The loop of a segment that writes: [W] is what was written. *)
Fixpoint output_loop {W} (body : W -> EnrichedFlow -> W * list emit) (w : W) (ms : list EnrichedFlow) : W * list emit :=
  match ms with
  | [] => (w, [])
  | m :: ms => let '(w, es) := body w m in let '(w, es') := output_loop body w ms in (w, es ++ es')
  end.

(** The loop of a segment that inserts in batches, and the insert after it, when
    the database takes every row: the rows of each transaction. *)
Section batches.
Context {R : Type} (size : Z) (row : EnrichedFlow -> R).
Definition insert_batch (unsavedFlows : list EnrichedFlow) : list (list R) :=
  match unsavedFlows with [] => [] | _ => [row <$> unsavedFlows] end.
Fixpoint batch_loop (unsaved : list EnrichedFlow) (ms : list EnrichedFlow) : list (list R) * list emit :=
  match ms with
  | [] => (insert_batch unsaved, [])
  | msg :: ms =>
      let unsaved := unsaved ++ [msg] in
      let '(txs, unsaved) := if size <=? zlen unsaved then (insert_batch unsaved, []) else ([], unsaved) in
      let '(txs', es) := batch_loop unsaved ms in
      (txs ++ txs', EOut msg :: es)
  end.

Lemma batch_loop_inserts ms : forall unsaved, 1 <= size -> zlen unsaved < size ->
  exists txs, batch_loop unsaved ms = (txs, EOut <$> ms) /\ concat txs = row <$> unsaved ++ ms /\
    Forall (fun tx => 1 <= zlen tx <= size) txs /\
    forall i tx, txs !! i = Some tx -> (S i < length txs)%nat -> zlen tx = size.
Proof.
  induction ms as [|m ms IH]; intros unsaved Hb Hu; cbn [batch_loop].
  - exists (insert_batch unsaved). rewrite app_nil_r. split; [done|]. pose proof (zlen_nonneg unsaved) as Hz.
    destruct unsaved as [|u us]; cbn [insert_batch]; [by repeat split|].
    assert (zlen (row <$> u :: us) = zlen (u :: us)) as El by (unfold zlen; by rewrite length_fmap).
    split_and!; [by rewrite concat_cons, app_nil_r|apply Forall_singleton; unfold zlen in *; cbn in *; lia|].
    intros [|i] tx Hi Hlt; cbn in Hlt; lia.
  - assert (zlen (unsaved ++ [m]) = zlen unsaved + 1) as El by by rewrite zlen_app.
    destruct (Z.leb_spec size (zlen (unsaved ++ [m]))) as [Hle|Hgt].
    + destruct (IH []) as (txs & Hl & Hc & Hf & Hi); [done|unfold zlen; cbn; lia|]. rewrite Hl.
      exists ((row <$> unsaved ++ [m]) :: txs).
      assert (insert_batch (unsaved ++ [m]) = [row <$> unsaved ++ [m]]) as -> by by destruct unsaved.
      assert (zlen (row <$> unsaved ++ [m]) = zlen unsaved + 1) as Ez by (rewrite <- El; unfold zlen; by rewrite length_fmap).
      split_and!; [done|cbn; rewrite Hc; change (m :: ms) with ([m] ++ ms); by rewrite !fmap_app, <- app_assoc| |].
      * constructor; [pose proof (zlen_nonneg unsaved); lia|done].
      * intros [|i] tx Hj Hlt; [injection Hj as <-; lia|]. cbn in Hj, Hlt. apply (Hi i); [done|lia].
    + destruct (IH (unsaved ++ [m]) Hb Hgt) as (txs & Hl & Hc & Hf & Hi). rewrite Hl. exists txs.
      split_and!; [done|by rewrite Hc, <- app_assoc|done|done].
Qed.
End batches.

(** A batch size that does not parse is replaced by the default, one that is not
    positive is an error. *)
Definition parsedBatchSize (c : config) : option Z :=
  if is_empty (cfg c "batchsize") then Some 1000
  else match strconv.ParseInt 32 (cfg c "batchsize") with
       | Some n => if n <=? 0 then None else Some n
       | None => Some 1000
       end.
Lemma parsedBatchSize_positive c n : parsedBatchSize c = Some n -> 1 <= n.
Proof.
  unfold parsedBatchSize. destruct (is_empty _); [intros [= <-]; lia|].
  destruct (strconv.ParseInt _ _) as [k|]; [|intros [= <-]; lia]. destruct (Z.leb_spec k 0); [done|]. intros [= <-]. lia.
Qed.

(** ** csv.go *)
Module csv.
Record Csv := mkCsv { fieldNames : list field; File : string }.

Section New.
(** [os.Create] and the first write succeed. *)
Context (Create : string -> bool) (Write_heading : list string -> bool).
Definition GetOutput (c : config) : option string :=
  if is_empty (cfg c "filename") then Some "stdout"%string
  else if Create (cfg c "filename") then Some (cfg c "filename") else None.
Definition New (c : config) : created Csv :=
  match GetOutput c with
  | None => NilSegment
  | Some file =>
      match configured gostrings.TrimSpace c with
      | None => NilSegment
      | Some ds => if Write_heading (fd_name <$> ds) then Created {| fieldNames := ds; File := file |} else NilSegment
      end
  end.
End New.

Definition record (s : Csv) (msg : EnrichedFlow) : list string := (fun d => column_text d msg) <$> fieldNames s.
(** The state of the loop is what was written. *)
Definition body (s : Csv) (rows : list (list string)) (msg : EnrichedFlow) : list (list string) * list emit :=
  (rows ++ [record s msg], [EOut msg]).
End csv.

(** ** sqlite.go *)
Module sqlite.
Record Sqlite := mkSqlite {
  FileName : string; fieldNames : list field; BatchSize : Z; createStatement : string; insertStatement : string }.

Definition column_decl (d : field) : string :=
  fd_name d ++ match fd_kind d with KUint32 | KUint64 => " INTEGER" | _ => " TEXT" end.
Definition Join (l : list string) : string := String.concat "," l.
Definition create_statement (ds : list field) : string :=
  "CREATE TABLE IF NOT EXISTS flows (" ++ Join (column_decl <$> ds) ++ ");".
Definition insert_statement (ds : list field) : string :=
  "INSERT INTO flows (" ++ Join (fd_name <$> ds) ++ ") VALUES (" ++ Join ((fun _ => "?") <$> ds) ++ ")".

(** [sql.Open] succeeds. *)
Definition New (Open : string -> bool) (c : config) : created Sqlite :=
  if is_empty (cfg c "filename") then NilSegment
  else if negb (Open (cfg c "filename")) then NilSegment
  else
    match parsedBatchSize c with
    | None => NilSegment
    | Some batch =>
        match configured (fun s => s) c with
        | None => NilSegment
        | Some ds => Created {| FileName := cfg c "filename"; fieldNames := ds; BatchSize := batch;
                                createStatement := create_statement ds; insertStatement := insert_statement ds |}
        end
    end.

Definition value_args (s : Sqlite) (msg : EnrichedFlow) : list string := (fun d => column_text d msg) <$> fieldNames s.
Definition bulkInsert (s : Sqlite) : list EnrichedFlow -> list (list (list string)) := insert_batch (value_args s).
Definition loop (s : Sqlite) : list EnrichedFlow -> list EnrichedFlow -> list (list (list string)) * list emit :=
  batch_loop (BatchSize s) (value_args s).
End sqlite.

(** ** json.go *)
Module json.
(** The file or its zstd encoder (with the configured level). *)
Record Json := mkJson { File : string; zstd : option (option Z); Pretty : bool }.
Section json.
(** [room]: the bytes that the file, or the encoder in front of it, takes before a
    write fails, if it does. *)
Context (Create : string -> bool) (Marshal : bool -> EnrichedFlow -> option string) (room : option nat).
Definition New (c : config) : created Json :=
  match csv.GetOutput Create c with
  | None => NilSegment
  | Some file =>
      Created {| File := file;
                 zstd := if is_empty (cfg c "zstd") then None else Some (strconv.Atoi (cfg c "zstd"));
                 Pretty := if is_empty (cfg c "pretty") then false else default false (strconv.ParseBool (cfg c "pretty")) |}
  end.
(** A flow that cannot be encoded, or whose line cannot be written, is not
    forwarded; the error of a flush is ignored. *)
Definition body (s : Json) (writer : bufio.Writer) (msg : EnrichedFlow) : bufio.Writer * list emit :=
  match Marshal (Pretty s) msg with
  | None => (writer, [])
  | Some data =>
      let writer := bufio.Fprintln room bufio.defaultBufSize data writer in
      if bufio.err writer then (writer, []) else (bufio.Flush room writer, [EOut msg])
  end.
(** The whole of [Run] with the flush at its end: what the file, or the encoder, has
    got, and what was sent. *)
Definition Run (s : Json) (ms : list EnrichedFlow) : string * list emit :=
  let '(writer, es) := output_loop (body s) bufio.NewWriter ms in (bufio.written (bufio.Flush room writer), es).
End json.
End json.

(** ** Theorems *)
Lemma configured_spec parse c ds : configured parse c = Some ds ->
  Forall (fun d => d ∈ fields) ds /\
  (fd_name <$> ds) = if is_empty (cfg c "fields") then fd_name <$> fields else parse <$> gostrings.Split (cfg c "fields") ",".
Proof.
  unfold configured. destruct (is_empty _).
  - intros [= <-]. split; [by apply Forall_forall|done].
  - intros [H1 H2]%select_spec. done.
Qed.

(** Every record of the csv segment has one entry per column of the heading,
    each the text of the field of that name; the heading is the configured list
    (blanks trimmed) or all fields, and every flow is forwarded in order. *)
Theorem csv_records (Create : string -> bool) (Write_heading : list string -> bool) (c : config) (s : csv.Csv)
    (ms : list EnrichedFlow) :
  csv.New Create Write_heading c = Created s ->
  let heading := if is_empty (cfg c "fields") then fd_name <$> fields
                 else gostrings.TrimSpace <$> gostrings.Split (cfg c "fields") "," in
  exists rows, output_loop (csv.body s) [] ms = (rows, EOut <$> ms) /\ length rows = length ms /\
    forall i row msg, rows !! i = Some row -> ms !! i = Some msg ->
      length row = length heading /\
      forall j name, heading !! j = Some name ->
        exists d, find_field name = Some d /\ row !! j = Some (column_text d msg).
Proof.
  intros Hs heading. unfold csv.New in Hs. destruct (csv.GetOutput Create c) as [file|]; [|done].
  destruct (configured gostrings.TrimSpace c) as [ds|] eqn:Ec; [|done].
  destruct (Write_heading _); [|done]. injection Hs as <-. apply configured_spec in Ec as [Hds Hn]. fold heading in Hn.
  assert (forall rows, output_loop (csv.body (csv.mkCsv ds file)) rows ms = (rows ++ (csv.record (csv.mkCsv ds file) <$> ms), EOut <$> ms)) as Hl.
  { induction ms as [|m ms IH]; intros rows; cbn; [by rewrite app_nil_r|]. rewrite IH. by rewrite <- app_assoc. }
  exists (csv.record (csv.mkCsv ds file) <$> ms). rewrite (Hl []). split_and!; [done|by rewrite length_fmap|].
  intros i row msg Hr Hm. rewrite list_lookup_fmap, Hm in Hr. injection Hr as <-. unfold csv.record. cbn [csv.fieldNames].
  split; [by rewrite <- Hn, !length_fmap|]. intros j name Hj. rewrite <- Hn, list_lookup_fmap in Hj.
  destruct (ds !! j) as [d|] eqn:Ed; [|done]. injection Hj as <-. exists d. split.
  - apply find_field_elem. by apply (Forall_lookup_1 _ _ _ _ Hds Ed).
  - by rewrite list_lookup_fmap, Ed.
Qed.

(** The sqlite segment inserts every flow exactly once and in order, in
    transactions of at most the batch size (all but the last are of exactly that
    size), and forwards every flow. *)
Theorem sqlite_inserts (Open : string -> bool) (c : config) (s : sqlite.Sqlite) (ms : list EnrichedFlow) :
  sqlite.New Open c = Created s ->
  exists txs, sqlite.loop s [] ms = (txs, EOut <$> ms) /\ concat txs = sqlite.value_args s <$> ms /\
    Forall (fun tx => 1 <= zlen tx <= sqlite.BatchSize s) txs /\
    forall i tx, txs !! i = Some tx -> (S i < length txs)%nat -> zlen tx = sqlite.BatchSize s.
Proof.
  intros Hn. unfold sqlite.New in Hn. destruct (is_empty _); [done|]. destruct (negb _); [done|].
  destruct (parsedBatchSize c) as [b|] eqn:Eb; [|done]. destruct (configured _ c); [|done].
  apply parsedBatchSize_positive in Eb. injection Hn as <-.
  apply (batch_loop_inserts _ _ ms []); [done|unfold zlen; cbn; lia].
Qed.

(** *** json

    The loop on a writer without an error: it goes on to the end, or up to the flow
    whose line does not fit, which is forwarded if the line was in the buffer. *)
Lemma json_loop_err Marshal room (s : json.Json) ms w : bufio.err w = true -> output_loop (json.body Marshal room s) w ms = (w, []).
Proof.
  intros Hw. induction ms as [|m ms IH]; [done|]. cbn [output_loop]. unfold json.body at 1.
  destruct (Marshal (json.Pretty s) m); [rewrite bufio.Fprintln_err, Hw by done|]; by rewrite IH.
Qed.
Lemma json_loop Marshal room (s : json.Json) ms ls : Forall2 (fun m l => Marshal (json.Pretty s) m = Some l) ms ls -> forall text,
  bufio.fits room text = true ->
  exists n k rest, output_loop (json.body Marshal room s) (bufio.mkWriter text EmptyString false) ms =
      (bufio.mkWriter (text ++ (bufio.lines (take n ls) ++ rest)) EmptyString (negb (bufio.fits room (text ++ bufio.lines ls))), EOut <$> take k ms) /\
    if bufio.fits room (text ++ bufio.lines ls) then n = length ms /\ k = length ms /\ rest = EmptyString
    else (k = n \/ k = S n) /\ exists l more, ls !! n = Some l /\ (l ++ String bufio.newline EmptyString)%string = (rest ++ more)%string /\ more <> EmptyString.
Proof.
  induction 1 as [|m l ms ls Hm Hls IH]; intros text Hf.
  { exists 0%nat, 0%nat, EmptyString. cbn [output_loop bufio.lines foldr take fmap list_fmap].
    rewrite !gostrings.string_app_nil_r, Hf. done. }
  cbn [output_loop]. unfold json.body at 1. rewrite Hm. set (w := bufio.Fprintln room bufio.defaultBufSize l _).
  destruct (bufio.Fprintln_Flush room bufio.defaultBufSize text l) as [E1 E2]. fold w in E1, E2.
  pose proof (bufio.pass_spec room text (l ++ String bufio.newline EmptyString) Hf) as Hp.
  assert (bufio.lines (l :: ls) = ((l ++ String bufio.newline EmptyString) ++ bufio.lines ls)%string) as El.
  { change (l :: ls) with ([l] ++ ls). by rewrite bufio.lines_app. }
  rewrite El, bufio.append_assoc.
  destruct (bufio.fits room (text ++ (l ++ String bufio.newline EmptyString))) eqn:Ef.
  - destruct (bufio.err w) eqn:Ew; [by rewrite E2, Hp in Ew|]. rewrite E1, Hp. destruct (IH _ Ef) as (n & k & rest & -> & Hn).
    exists (S n), (S k), rest. split.
    + f_equal. f_equal. cbn [take]. change (bufio.lines (l :: take n ls)) with (bufio.lines ([l] ++ take n ls)).
      rewrite bufio.lines_app. change (bufio.lines [l]) with (l ++ String bufio.newline EmptyString)%string. by rewrite !bufio.append_assoc.
    + destruct (bufio.fits room ((text ++ (l ++ String bufio.newline EmptyString)) ++ bufio.lines ls)); [cbn [length]; destruct Hn as (-> & -> & ->); done|]. destruct Hn as [Hk Hx]. split; [lia|exact Hx].
  - assert (bufio.fits room ((text ++ (l ++ String bufio.newline EmptyString)) ++ bufio.lines ls) = false) as ->.
    { revert Ef. unfold bufio.fits. destruct room as [r|]; [|done]. rewrite !Nat.leb_gt, (bufio.length_append (text ++ _)%string). lia. }
    destruct Hp as (p1 & p2 & El1 & Hne & Ep). cbn [negb].
    destruct (bufio.err w) eqn:Ew.
    + rewrite (E2 eq_refl), Ep, json_loop_err by done. exists 0%nat, 0%nat, p1. split; [done|]. split; [by left|]. exists l, p2. done.
    + rewrite E1, Ep, json_loop_err by done. exists 0%nat, 1%nat, p1. split; [by destruct ms|]. split; [by right|]. exists l, p2. done.
Qed.

Lemma json_Run_unlimited (Marshal : bool -> EnrichedFlow -> option string) (s : json.Json) (ms : list EnrichedFlow) :
  json.Run Marshal None s ms =
  (bufio.lines (omap (Marshal (json.Pretty s)) ms),
   EOut <$> List.filter (fun m => match Marshal (json.Pretty s) m with Some _ => true | None => false end) ms).
Proof.
  unfold json.Run. enough (forall text, output_loop (json.body Marshal None s) (bufio.mkWriter text EmptyString false) ms =
    (bufio.mkWriter (text ++ bufio.lines (omap (Marshal (json.Pretty s)) ms)) EmptyString false,
     EOut <$> List.filter (fun m => match Marshal (json.Pretty s) m with Some _ => true | None => false end) ms)) as H
    by (unfold bufio.NewWriter; by rewrite H).
  induction ms as [|m ms IH]; intros text; cbn [output_loop]; [by rewrite gostrings.string_app_nil_r|]. unfold json.body at 1.
  cbn [omap list_omap List.filter]. destruct (Marshal (json.Pretty s) m) as [l|]; [|by rewrite IH].
  destruct (bufio.Fprintln_Flush None bufio.defaultBufSize text l) as [-> E2].
  destruct (bufio.err (bufio.Fprintln None bufio.defaultBufSize l (bufio.mkWriter text EmptyString false))) eqn:Ew;
    [by rewrite (E2 eq_refl) in Ew|]. unfold bufio.pass. rewrite IH. f_equal. f_equal.
  change (l :: omap (Marshal (json.Pretty s)) ms) with ([l] ++ omap (Marshal (json.Pretty s)) ms).
  rewrite bufio.lines_app. change (bufio.lines [l]) with (l ++ String bufio.newline EmptyString)%string.
  by rewrite !bufio.append_assoc.
Qed.

(** A flow that protojson cannot encode disappears from the pipeline at a json
    segment: as long as all writes succeed, what is written, one line each, and what
    is forwarded are the flows that can be encoded. *)
Theorem json_forwards_encodable (Marshal : bool -> EnrichedFlow -> option string) (s : json.Json) (ms : list EnrichedFlow) :
  json.Run Marshal None s ms =
  (bufio.lines (omap (Marshal (json.Pretty s)) ms),
   EOut <$> List.filter (fun m => match Marshal (json.Pretty s) m with Some _ => true | None => false end) ms).
Proof. apply json_Run_unlimited. Qed.

(** ** The theorems at work *)
Module witness.
Definition conf : config :=
  {[ "filename"%string := "f"%string; "fields"%string := "Bytes,SrcAddr"%string; "batchsize"%string := "2"%string ]}.
Definition flow (n : Z) : EnrichedFlow := set_Bytes n (set_SrcAddr (Some [10; 0; 0; n]) emptyFlow).
Definition csv_segment : csv.Csv :=
  match csv.New (fun _ => true) (fun _ => true) conf with Created s => s | _ => csv.mkCsv [] "" end.
Definition sqlite_segment : sqlite.Sqlite :=
  match sqlite.New (fun _ => true) conf with Created s => s | _ => sqlite.mkSqlite "" [] 0 "" "" end.
Example statements : sqlite.createStatement sqlite_segment = "CREATE TABLE IF NOT EXISTS flows (Bytes INTEGER,SrcAddr TEXT);"%string
  /\ sqlite.insertStatement sqlite_segment = "INSERT INTO flows (Bytes,SrcAddr) VALUES (?,?)"%string.
Proof. by_compute. Qed.
End witness.

Lemma csv_records_witness :
  exists rows, output_loop (csv.body witness.csv_segment) [] [witness.flow 5] = (rows, [EOut (witness.flow 5)]) /\
    rows = [["5"; "10.0.0.5"]%string].
Proof.
  destruct (csv_records (fun _ => true) (fun _ => true) witness.conf witness.csv_segment [witness.flow 5] eq_refl)
    as (rows & E & _). exists rows. split; [exact E|]. vm_compute in E. injection E as <-. reflexivity.
Defined.

Lemma sqlite_inserts_witness :
  exists txs, sqlite.loop witness.sqlite_segment [] (witness.flow <$> [1; 2; 3]) = (txs, EOut <$> (witness.flow <$> [1; 2; 3])) /\
    concat txs = [["1"; "10.0.0.1"]; ["2"; "10.0.0.2"]; ["3"; "10.0.0.3"]]%string.
Proof.
  destruct (sqlite_inserts (fun _ => true) witness.conf witness.sqlite_segment (witness.flow <$> [1; 2; 3]) eq_refl)
    as (txs & E & Hc & _). exists txs. split; [exact E|]. rewrite Hc. reflexivity.
Defined.
