(* ===== verification/Mongo.v ===== *)
(** * mongodb ([segments/output/mongodb/mongo.go])

    The parameters with the parsing of sizes, the documents, and the goroutines:
    [Run] hands its flows to a preparer, which fills one slice over and over and
    sends it through a channel to the inserter.  All batches share that slice, so
    the model keeps it in the state and lets the inserter read it element by
    element.  The database is a parameter. *)

From stdpp Require Import prelude strings list gmap relations.
From Stdlib Require Import ZArith Lia Ascii.
From S2P Require Import Prelude GoStd EnrichedFlow Segment Reflect Output.

(** ** Parameters *)
Record Mongodb := mkMongodb {
  mongodbUri : string; ringbufferSize : Z; databaseName : string; collectionName : string;
  fieldNames : list field; BatchSize : Z }.

(** The int64 products wrap around. *)
Definition unit_factors : list (string * Z) :=
  [("B", 1); ("KB", 2 ^ 10); ("MB", 2 ^ 20); ("GB", 2 ^ 30); ("TB", 2 ^ 40)]%string.
Definition sizeInBytes (sizeStr : string) : option Z :=
  match gostrings.Fields sizeStr with
  | [size] => strconv.ParseInt 64 size
  | [size; unit] =>
      size ← strconv.ParseInt 64 size;
      factor ← assoc (gostrings.ToUpper unit) unit_factors;
      Some (i64 (size * factor))
  | _ => None
  end.

(** The defaults of two parameters are written to the configuration, which the
    function shares with its caller. *)
Definition set_default (key value : string) (c : config) : config :=
  if is_empty (cfg c key) then <[key := value]> c else c.
Definition fillSegmentWithConfig (c : option config) : option Mongodb * option config :=
  match c with
  | None => (None, None)
  | Some c =>
      if is_empty (cfg c "mongodb_uri") then (None, Some c)
      else
        let c := set_default "collection" "ringbuffer" (set_default "database" "flowdata" c) in
        let size := if is_empty (cfg c "max_disk_usage") then 10737418240
                    else default 10737418240 (sizeInBytes (cfg c "max_disk_usage")) in
        (batch ← parsedBatchSize c;
         ds ← configured (fun s => s) c;
         Some {| mongodbUri := cfg c "mongodb_uri"; ringbufferSize := size; databaseName := cfg c "database";
                 collectionName := cfg c "collection"; fieldNames := ds; BatchSize := batch |}, Some c)
  end.

(** The command that makes the collection capped, from its statistics. *)
Record collInfo := mkcollInfo { Capped : bool; MaxSize : Z; Count : Z }.
Inductive command : Type :=
  | CreateCapped (name : string) (size : Z) | ConvertToCapped (name : string) (size : Z) | CollMod (name : string) (size : Z).
Definition convertToCappedCollection (collStats : option collInfo) (segment : Mongodb) : option command :=
  info ← collStats;
  if Count info =? 0 then Some (CreateCapped (collectionName segment) (ringbufferSize segment))
  else if negb (Capped info) then Some (ConvertToCapped (collectionName segment) (ringbufferSize segment))
  else if negb (MaxSize info =? ringbufferSize segment) then Some (CollMod (collectionName segment) (ringbufferSize segment))
  else None.

(** [Ping] tells whether a connection can be made, [collStats] what the database
    answers for a collection. *)
Definition New (Ping : string -> bool) (collStats : string -> string -> option collInfo) (c : option config)
    : created (Mongodb * option command) :=
  match (fillSegmentWithConfig c).1 with
  | None => NilSegment
  | Some s =>
      if Ping (mongodbUri s)
      then Created (s, convertToCappedCollection (collStats (databaseName s) (collectionName s)) s)
      else NilSegment
  end.

(** ** Documents *)
Definition document : Type := gmap string string.
Definition formatFlowToMongoDbJson (msg : EnrichedFlow) (segment : Mongodb) : document :=
  foldl (fun singleFlowData d => <[fd_name d := column_text d msg]> singleFlowData) ∅ (fieldNames segment).

(** ** The goroutines *)
Section run.
Context (segment : Mongodb).
Definition size : nat := Z.to_nat (BatchSize segment).
Definition format (msg : EnrichedFlow) : document := formatFlowToMongoDbJson msg segment.

(** [Run]: in its range loop, sending to the preparer, sending on Out. *)
Inductive runner : Type := Ranging | Saving (m : EnrichedFlow) | Forwarding (m : EnrichedFlow) | Returned.
(** The preparer: receiving, or sending the slice. *)
Inductive preparer : Type := Collecting | Handing.
(** The inserter: receiving, or inside InsertMany with the elements read. *)
Inductive inserter : Type := Idle | Inserting (read : list (option document)).

(** [buffer] is the slice, whose elements are nil at first; [stored] are the
    batches the database was given. *)
Record state := mkstate {
  input : list EnrichedFlow; runs : runner; out : list EnrichedFlow;
  buffer : list (option document); nrOfFlows : nat; prepares : preparer; inserts : inserter;
  stored : list (list (option document)) }.

Definition start (ms : list EnrichedFlow) : state :=
  mkstate ms Ranging [] (replicate size None) 0 Collecting Idle [].

(** The channels are unbuffered: a send is a step of both sides. *)
Inductive step : state -> state -> Prop :=
  | step_range m ms o b n p i k : step (mkstate (m :: ms) Ranging o b n p i k) (mkstate ms (Saving m) o b n p i k)
  | step_save ms m o b n i k :
      step (mkstate ms (Saving m) o b n Collecting i k)
           (mkstate ms (Forwarding m) o (<[n := Some (format m)]> b) (S n)
                    (if BatchSize segment <=? Z.of_nat (S n) then Handing else Collecting) i k)
  | step_forward ms m o b n p i k : step (mkstate ms (Forwarding m) o b n p i k) (mkstate ms Ranging (o ++ [m]) b n p i k)
  | step_return o b n p i k : step (mkstate [] Ranging o b n p i k) (mkstate [] Returned o b n p i k)
  | step_hand ms r o b n k : step (mkstate ms r o b n Handing Idle k) (mkstate ms r o b 0 Collecting (Inserting []) k)
  | step_read ms r o b n p l d k : b !! length l = Some d ->
      step (mkstate ms r o b n p (Inserting l) k) (mkstate ms r o b n p (Inserting (l ++ [d])) k)
  | step_insert ms r o b n p l k : length l = length b ->
      step (mkstate ms r o b n p (Inserting l) k) (mkstate ms r o b n p Idle (k ++ [l])).
End run.

(** ** Theorems *)

(** *** Sizes *)
(** A size with a unit is the product in 64-bit arithmetic: exact when it fits,
    and silently negative or too small when it does not. *)
Theorem sizeInBytes_value (n : Z) (unit : string) (factor : Z) :
  0 <= n < 2 ^ 63 -> assoc (gostrings.ToUpper unit) unit_factors = Some factor -> gostrings.word unit = true ->
  sizeInBytes (strconv.FormatUint n ++ " " ++ unit) = Some (i64 (n * factor)) /\
  (n * factor < 2 ^ 63 -> i64 (n * factor) = n * factor).
Proof.
  intros Hn Hf Hu. split.
  - unfold sizeInBytes. change (strconv.FormatUint n ++ " " ++ unit)%string with (String.concat " " [strconv.FormatUint n; unit]).
    rewrite gostrings.Fields_concat; [|constructor; [apply gostrings.FormatUint_word|by constructor]].
    rewrite strconv.ParseInt_FormatUint by done. cbn [mbind option_bind]. by rewrite Hf.
  - intros Hlt. assert (0 < factor) as Hp.
    { apply assoc_Some_in in Hf. unfold unit_factors in Hf.
      repeat (apply elem_of_cons in Hf as [E|Hf]; [injection E as _ ->; lia|]). by apply elem_of_nil in Hf. }
    apply swrap_small; [lia|]. change (64 - 1) with 63. nia.
Qed.

(** *** Batches *)
Section batches.
Context (segment : Mongodb) (Hsize : 1 <= BatchSize segment).
Abbreviation size := (size segment).
Abbreviation doc m := (Some (format segment m)).

Lemma size_positive : (0 < size)%nat /\ Z.of_nat size = BatchSize segment.
Proof using All. unfold Mongo.size. lia. Qed.

Definition runner_flow (r : runner) : list EnrichedFlow := match r with Saving m | Forwarding m => [m] | _ => [] end.
(** The flows the preparer has received, the batches handed to the inserter. *)
Definition received (st : state) : list EnrichedFlow :=
  out st ++ match runs st with Forwarding m => [m] | _ => [] end.
Definition handed (st : state) : nat :=
  (length (stored st) + match inserts st with Inserting _ => 1 | Idle => 0 end)%nat.

(** What element [i] of batch [b] can be: the document of the flow it is meant
    for, or of the flow one batch later. *)
Definition belongs (ms : list EnrichedFlow) (b i : nat) (d : option document) : Prop :=
  exists m, (ms !! (b * size + i)%nat = Some m \/ ms !! (S b * size + i)%nat = Some m) /\ d = doc m.

(** The slice: the front holds the batch being collected, the rest the one before. *)
Definition content (rs : list EnrichedFlow) (h n i : nat) : option document :=
  if (i <? n)%nat then format segment <$> rs !! (h * size + i)%nat
  else match h with 0%nat => None | S h => format segment <$> rs !! (h * size + i)%nat end.

Record good (ms : list EnrichedFlow) (st : state) : Prop := {
  good_flows : out st ++ runner_flow (runs st) ++ input st = ms /\ (runs st = Returned -> input st = []);
  good_buffer : length (buffer st) = size /\
    forall i, (i < size)%nat -> buffer st !! i = Some (content (received st) (handed st) (nrOfFlows st) i);
  good_count : length (received st) = (handed st * size + nrOfFlows st)%nat /\
    match prepares st with Collecting => (nrOfFlows st < size)%nat | Handing => nrOfFlows st = size end;
  good_reading : match inserts st with
    | Inserting l => (length l <= size)%nat /\ forall i d, l !! i = Some d -> belongs ms (length (stored st)) i d
    | Idle => True end;
  good_stored : forall b l, stored st !! b = Some l ->
    length l = size /\ forall i d, l !! i = Some d -> belongs ms b i d }.

Lemma good_start ms : good ms (start segment ms).
Proof using All.
  pose proof size_positive as [Hp _]. split; cbn; [done| |split; [done|exact Hp]|done|done].
  split; [apply length_replicate|]. intros i Hi. by rewrite lookup_replicate_2.
Qed.

Lemma received_prefix ms st : good ms st -> exists rest, ms = received st ++ rest.
Proof.
  intros [[Hf _] _ _ _ _]. unfold received. exists (match runs st with Saving m => [m] | _ => [] end ++ input st).
  rewrite <- Hf, <- app_assoc. by destruct (runs st).
Qed.

Lemma content_belongs ms st i d : good ms st -> (i < size)%nat -> handed st = S (length (stored st)) ->
  buffer st !! i = Some d -> belongs ms (length (stored st)) i d.
Proof using All.
  intros Hg Hi Hh Hd. destruct (received_prefix ms st Hg) as [rest Hr]. destruct Hg as [_ [_ Hb] [Hc _] _ _].
  rewrite (Hb i Hi) in Hd. injection Hd as <-. unfold content. rewrite Hh in *.
  assert (forall j, (j < length (received st))%nat -> exists m, ms !! j = Some m /\ format segment <$> received st !! j = doc m) as Hl.
  { intros j Hj. apply lookup_lt_is_Some_2 in Hj as [m Hm]. exists m. rewrite Hm. split; [|done].
    rewrite Hr. by apply lookup_app_l_Some. }
  destruct (Nat.ltb_spec i (nrOfFlows st)) as [Hn|Hn].
  - destruct (Hl (S (length (stored st)) * size + i)%nat) as (m & Hm & ->); [lia|]. exists m. split; [by right|done].
  - destruct (Hl (length (stored st) * size + i)%nat) as (m & Hm & ->); [lia|]. exists m. split; [by left|done].
Qed.
Lemma content_receive rs m h n i : (i < size)%nat -> length rs = (h * size + n)%nat ->
  content (rs ++ [m]) h (S n) i = if decide (i = n) then doc m else content rs h n i.
Proof.
  intros Hi Hl. unfold content. case_decide as E.
  - subst. rewrite (proj2 (Nat.ltb_lt n (S n))) by lia. by rewrite <- Hl, list_lookup_middle.
  - assert ((i <? S n)%nat = (i <? n)%nat) as -> by (apply eq_bool_prop_intro; rewrite !Is_true_true, !Nat.ltb_lt; lia).
    destruct (Nat.ltb_spec i n); [by rewrite lookup_app_l by lia|].
    destruct h as [|h]; [done|]. by rewrite lookup_app_l by lia.
Qed.

Lemma mongo_step_good ms st st' : step segment st st' -> good ms st -> good ms st'.
Proof using All.
  intros Hs Hg. pose proof size_positive as [Hp Hz].
  destruct Hs as [m ms' o b n p i k|ms' m o b n i k|ms' m o b n p i k|o b n p i k|ms' r o b n k|ms' r o b n p l d k Hd|ms' r o b n p l k Hl].
  - destruct Hg as [Hf Hb Hc Hr Hk]. split; [by split; [apply Hf|]|exact Hb|exact Hc|exact Hr|exact Hk].
  - destruct Hg as [Hf [Hl Hb] [Hc Hn] Hr Hk]. unfold received, handed in *. cbn in *. rewrite app_nil_r in *.
    split; [by split; [apply Hf|]| | |exact Hr|exact Hk]; cbn.
    + split; [by rewrite length_insert|]. intros j Hj. rewrite content_receive by done.
      case_decide as E; [subst; rewrite list_lookup_insert_eq by lia; done|].
      rewrite list_lookup_insert_ne by done. by apply Hb.
    + split; [rewrite length_app; cbn; lia|]. destruct (Z.leb_spec (BatchSize segment) (Z.of_nat (S n))); lia.
  - destruct Hg as [Hf Hb Hc Hr Hk]. unfold received in *. cbn in *.
    split; cbn; [by rewrite <- app_assoc; split; [apply Hf|]| | |exact Hr|exact Hk]; unfold received; cbn; by rewrite app_nil_r.
  - destruct Hg as [Hf Hb Hc Hr Hk]. split; [by split; [apply Hf|]|exact Hb|exact Hc|exact Hr|exact Hk].
  - destruct Hg as [Hf [Hl Hb] [Hc Hn] Hr Hk]. unfold handed in *. cbn in *. subst n.
    split; cbn; [exact Hf| | | |exact Hk]; unfold handed; cbn.
    + split; [exact Hl|]. intros j Hj. rewrite (Hb j Hj). f_equal. unfold content, received. cbn [out runs].
      rewrite (proj2 (Nat.ltb_lt j size)) by done. by rewrite Nat.add_0_r, Nat.add_1_r.
    + split; [|done]. unfold received in *. cbn in *. lia.
    + split; [lia|]. intros j d Hd. done.
  - pose proof Hg as [Hf [Hl Hb] Hc [Hr1 Hr2] Hk]. cbn in *.
    assert (length l < size)%nat as Hlt by (apply lookup_lt_Some in Hd; lia).
    split; cbn; [exact Hf|by split|exact Hc| |exact Hk]. rewrite length_app. cbn. split; [lia|].
    intros j x [[_ Hj]|[-> <-]]%lookup_snoc_Some; [by apply Hr2|].
    by apply (content_belongs ms _ (length l) d Hg Hlt); [unfold handed; cbn; lia|].
  - destruct Hg as [Hf [Hb1 Hb] Hc [Hr1 Hr2] Hk]. unfold handed, received in *. cbn in *.
    assert (length k + 1 = length (k ++ [l]) + 0)%nat as Eh by (rewrite length_app; cbn; lia).
    split; cbn; [exact Hf| | |done|]; unfold handed, received; cbn; rewrite <- ?Eh; [by split|exact Hc|].
    intros j x [[_ Hj]|[-> <-]]%lookup_snoc_Some; [by apply Hk|]. by split; [congruence|].
Qed.

Lemma fill l : forall n o b rest i k, length b = size -> (n + length l = size)%nat -> l <> [] ->
  rtc (step segment) (mkstate (l ++ rest) Ranging o b n Collecting i k)
      (mkstate rest Ranging (o ++ l) (take n b ++ ((fun m => doc m) <$> l)) size Handing i k).
Proof using All.
  pose proof size_positive as [_ Hz]. induction l as [|m l IH]; intros n o b rest i k Hb Hn Hl; [done|]. cbn in Hn.
  eapply rtc_l; [apply step_range|]. eapply rtc_l; [apply step_save|]. eapply rtc_l; [apply step_forward|].
  assert (take (S n) (<[n:=doc m]> b) = take n b ++ [doc m]) as Ht.
  { rewrite insert_take_drop by lia. rewrite firstn_app, length_take, firstn_firstn, !Nat.min_r, Nat.min_l by lia.
    by replace (S n - n)%nat with 1%nat by lia. }
  destruct l as [|m' l].
  - cbn in Hn. rewrite (proj2 (Z.leb_le _ _)) by lia. replace (S n) with size by lia.
    cbn [fmap list_fmap]. rewrite <- Ht.
    rewrite take_ge; [apply rtc_refl|]. rewrite length_insert. lia.
  - cbn in Hn. destruct (Z.leb_spec (BatchSize segment) (Z.of_nat (S n))); [lia|].
    specialize (IH (S n) (o ++ [m]) (<[n:=doc m]> b) rest i k). rewrite length_insert, Ht, <- !app_assoc in IH.
    apply IH; [done|cbn; lia|done].
Qed.

Lemma insert_all ms r o b n p k : 
  rtc (step segment) (mkstate ms r o b n p (Inserting []) k) (mkstate ms r o b n p Idle (k ++ [b])).
Proof.
  enough (forall l l', l ++ l' = b -> rtc (step segment) (mkstate ms r o b n p (Inserting l) k) (mkstate ms r o b n p Idle (k ++ [b]))) as H
    by by apply (H [] b).
  intros l l'. revert l. induction l' as [|d l' IH]; intros l E.
  - rewrite app_nil_r in E. subst. eapply rtc_l; [by apply step_insert|apply rtc_refl].
  - eapply rtc_l; [apply (step_read _ _ _ _ _ _ _ l d); by rewrite <- E, list_lookup_middle|].
    apply IH. by rewrite <- app_assoc.
Qed.
End batches.

(** Whatever the schedule: flows are forwarded in order and all of them before
    Run returns; the database is given batches of exactly the batch size and at
    most as many as the flows fill, so that an incomplete last batch never
    arrives; and each entry of a batch is the document of the flow at that
    position or, since all batches share one slice, of the flow one batch
    later. *)
Theorem mongo_batches (segment : Mongodb) (ms : list EnrichedFlow) (st : state) :
  1 <= BatchSize segment -> rtc (step segment) (start segment ms) st ->
  (exists rest, ms = out st ++ rest /\ (runs st = Returned -> rest = [])) /\
  Z.of_nat (length (stored st)) * BatchSize segment <= zlen ms /\
  forall b l, stored st !! b = Some l ->
    zlen l = BatchSize segment /\ forall i d, l !! i = Some d -> belongs segment ms b i d.
Proof.
  intros Hb Hs. assert (good segment ms st) as Hg.
  { apply (rtc_keeps (fun st1 st2 Hg Hs => mongo_step_good segment Hb ms st1 st2 Hs Hg) _ _ Hs). by apply good_start. }
  pose proof (received_prefix segment ms st Hg) as [rest Hr]. pose proof (size_positive segment Hb) as [Hp Hz].
  destruct Hg as [[Hf Hi] _ [Hc _] _ Hk]. split_and!.
  - exists (runner_flow (runs st) ++ input st). split; [done|]. intros E. by rewrite E, Hi.
  - assert (length (received st) <= length ms)%nat by (rewrite Hr, length_app; lia). unfold zlen, handed in *. nia.
  - intros b l Hl. destruct (Hk b l Hl) as [Hlen Hd]. split; [unfold zlen; lia|exact Hd].
Qed.

(** The shared slice loses flows: for any two batches of flows there is a run in
    which all flows are forwarded and the first batch never reaches the
    database, the second one twice. *)
Theorem mongo_overwrites (segment : Mongodb) (first second : list EnrichedFlow) :
  1 <= BatchSize segment -> zlen first = BatchSize segment -> zlen second = BatchSize segment ->
  let batch := (fun m => Some (format segment m)) <$> second in
  exists st, rtc (step segment) (start segment (first ++ second)) st /\ runs st = Returned /\
    out st = first ++ second /\ stored st = [batch; batch].
Proof.
  intros Hb H1 H2 batch. pose proof (size_positive segment Hb) as [Hp Hz]. unfold zlen in *.
  assert (first <> []) as Hn1 by (intros ->; cbn in *; lia). assert (second <> []) as Hn2 by (intros ->; cbn in *; lia).
  eexists. split.
  - etrans; [apply (fill segment Hb first 0 [] (replicate (size segment) None) second Idle []);
      [apply length_replicate|lia|done]|].
    eapply rtc_l; [apply step_hand|]. rewrite <- (app_nil_r second) at 1.
    etrans; [apply (fill segment Hb second 0 _ _ [] (Inserting []) []); [rewrite length_app, length_fmap, take_0; cbn; lia|lia|done]|].
    etrans; [apply insert_all|]. eapply rtc_l; [apply step_hand|]. etrans; [apply insert_all|].
    eapply rtc_l; [apply step_return|]. apply rtc_refl.
  - by cbn.
Qed.

(** ** The theorems at work *)
Module witness.
Definition conf : config :=
  {[ "mongodb_uri"%string := "mongodb://localhost"%string; "fields"%string := "Bytes"%string; "batchsize"%string := "1"%string;
     "max_disk_usage"%string := "2 gb"%string ]}.
Definition segment : Mongodb :=
  match New (fun _ => true) (fun _ _ => None) (Some conf) with Created (s, _) => s | _ => mkMongodb "" 0 "" "" [] 0 end.
Definition flow (n : Z) : EnrichedFlow := set_Bytes n emptyFlow.
Definition document (n : string) : option document := Some {[ "Bytes"%string := n ]}.
Example parameters : ringbufferSize segment = 2 ^ 31 /\ databaseName segment = "flowdata"%string.
Proof. by_compute. Qed.
(** 2^23 TB wrap around to a negative size. *)
Example overflow : sizeInBytes "8388608 TB" = Some (- 2 ^ 63).
Proof. reflexivity. Qed.
End witness.

Lemma sizeInBytes_value_witness : sizeInBytes "16777216 tb" = Some 0.
Proof.
  refine (proj1 (sizeInBytes_value 16777216 "tb" (2 ^ 40) _ eq_refl eq_refl)). lia.
Defined.

Lemma mongo_overwrites_witness :
  exists st, rtc (step witness.segment) (start witness.segment [witness.flow 1; witness.flow 2]) st /\
    runs st = Returned /\ stored st = [[witness.document "2"]; [witness.document "2"]].
Proof.
  destruct (mongo_overwrites witness.segment [witness.flow 1] [witness.flow 2]) as (st & Hs & Hr & _ & Hk);
    [vm_compute; discriminate|reflexivity|reflexivity|].
  exists st. split; [exact Hs|]. split; [exact Hr|]. rewrite Hk. vm_compute. reflexivity.
Defined.

Lemma mongo_batches_witness :
  belongs witness.segment [witness.flow 1] 0 0 (witness.document "1").
Proof.
  refine (proj2 (proj2 (proj2 (mongo_batches witness.segment [witness.flow 1]
    (mkstate [] (Forwarding (witness.flow 1)) [] [witness.document "1"] 0 Collecting Idle [[witness.document "1"]]) _ _)) 0%nat _ eq_refl) 0%nat _ eq_refl);
    [vm_compute; discriminate|].
  eapply rtc_l; [apply step_range|]. eapply rtc_l; [apply step_save|]. eapply rtc_l; [apply step_hand|].
  apply (insert_all witness.segment [] (Forwarding (witness.flow 1)) [] [witness.document "1"] 0 Collecting []).
Defined.
