(* ===== verification/Prometheus.v ===== *)
(** * prometheus ([segments/output/prometheus/prometheus.go],
      [segments/output/prometheus/exporter.go])

    The labels of a flow and the AS path metrics.  The counters are the
    library's: the model records the calls on them, in order. *)

From stdpp Require Import prelude strings list gmap.
From Stdlib Require Import ZArith Lia Ascii.
From S2P Require Import Prelude GoStd GoParse EnrichedFlow Segment Reflect Output.

(** ** New *)
Record Prometheus := mkPrometheus {
  Endpoint : string; MetricsPath : string; FlowdataPath : string; Labels : list string;
  VacuumInterval : option Z; ExportASPathPairs : bool; ExportASPaths : bool }.

Definition or_default (c : config) (key dflt : string) : string := if is_empty (cfg c key) then dflt else cfg c key.
Definition is_true (s : string) : bool := seqb (gostrings.ToLower s) "true".
Definition configured_labels (c : config) : list string :=
  gostrings.TrimSpace <$> gostrings.Split (or_default c "labels" "Etype,Proto") ","%char.

Section New.
Context `{f64.Platform}.
Definition New (c : config) : created Prometheus :=
  if forallb known (configured_labels c) then
    Created {| Endpoint := or_default c "endpoint" ":8080"; MetricsPath := or_default c "metricspath" "/metrics";
               FlowdataPath := or_default c "flowdatapath" "/flowdata"; Labels := configured_labels c;
               VacuumInterval := if is_empty (cfg c "vacuum_interval") then None else time.ParseDuration (cfg c "vacuum_interval");
               ExportASPathPairs := is_true (cfg c "export_as_pairs"); ExportASPaths := is_true (cfg c "export_as_paths") |}
  else NilSegment.
End New.

(** ** The exporter *)

(** The calls on the counters: with their labels and the amount added. *)
Inductive call : Type :=
  | kafkaMessageCount
  | flowBits (labels : gmap string string) (amount : f64.float64)
  | flowAsPairsBytes (from to path_direction : string) (amount : f64.float64)
  | flowAsPathBytes (as_path : string) (amount : f64.float64).

Definition Increment (bytes : Z) (labelset : gmap string string) : list call :=
  [kafkaMessageCount; flowBits labelset (f64.mul (f64.of_Z bytes) (f64.of_Z 8))].

(** The loop appends an element that differs from the last one. *)
Fixpoint dedup_loop (deduped : list Z) (asPath : list Z) : list Z :=
  match asPath with
  | [] => deduped
  | asn :: asPath =>
      dedup_loop (if bool_decide (last deduped = Some asn) then deduped else deduped ++ [asn]) asPath
  end.
Definition DedupConsecutiveASNs (asPath : list Z) : list Z :=
  match asPath with [] => [] | asn :: asPath => dedup_loop [asn] asPath end.

(** [asPath[i]]; every index of the loops is in range. *)
Definition at_ (asPath : list Z) (i : nat) : string := strconv.FormatUint (default 0 (asPath !! i)).
Definition pair_calls (asPath : list Z) (direction : string) (bytes : Z) : list call :=
  (fun i => flowAsPairsBytes (at_ asPath i) (at_ asPath (S i)) direction (f64.of_Z bytes)) <$> seq 0 (length asPath - 1).
Definition ExportASPathPairsWithDirection (asPath : list Z) (direction : string) (flow : EnrichedFlow) : list call :=
  let asPath := DedupConsecutiveASNs asPath in
  if (length asPath <? 2)%nat then []
  else
    (if seqb direction "Source"
     then flowAsPairsBytes (at_ asPath 0) (at_ asPath 0) direction (f64.of_Z (Bytes flow)) :: pair_calls asPath direction (Bytes flow)
     else []) ++
    (if seqb direction "Destination"
     then pair_calls asPath direction (Bytes flow) ++
          [flowAsPairsBytes (at_ asPath (length asPath - 1)) (at_ asPath (length asPath - 1)) direction (f64.of_Z (Bytes flow))]
     else []).
Definition ExportASPaths_ (flow : EnrichedFlow) : list call :=
  let asPath := DedupConsecutiveASNs (AsPath flow) in
  if (length asPath <? 2)%nat then []
  else [flowAsPathBytes (fmt.brackets (strconv.FormatUint <$> asPath)) (f64.of_Z (Bytes flow))].

(** ** Run *)

Definition body (segment : Prometheus) (msg : EnrichedFlow) : result (list call * list emit) :=
  labels ← labelset (Labels segment) msg ∅;
  Ok (Increment (Bytes msg) labels ++
      (if ExportASPathPairs segment
       then ExportASPathPairsWithDirection (SrcAsPath msg) "Source" msg ++ ExportASPathPairsWithDirection (DstAsPath msg) "Destination" msg
       else []) ++
      (if ExportASPaths segment then ExportASPaths_ msg else []),
      [EOut msg]).

(** ** Theorems *)

(** *** Runs of equal numbers *)
Lemma dedup_loop_app asPath : forall pre x, dedup_loop (pre ++ [x]) asPath = pre ++ dedup_loop [x] asPath.
Proof.
  induction asPath as [|a asPath IH]; intros pre x; [done|]. cbn [dedup_loop]. rewrite last_snoc. cbn [last].
  destruct (decide (x = a)) as [->|Hn].
  - rewrite !bool_decide_true by done. apply IH.
  - rewrite !bool_decide_false by congruence. rewrite (IH (pre ++ [x])). by rewrite (IH [x]), <- app_assoc.
Qed.
Lemma dedup_cons x y l : DedupConsecutiveASNs (x :: y :: l) =
  if decide (x = y) then DedupConsecutiveASNs (y :: l) else x :: DedupConsecutiveASNs (y :: l).
Proof.
  cbn [DedupConsecutiveASNs dedup_loop last]. case_decide as E.
  - subst. by rewrite bool_decide_true.
  - rewrite bool_decide_false by congruence. apply (dedup_loop_app l [x] y).
Qed.

Definition repeated (p : Z * nat) : list Z := replicate (S p.2) p.1.
(** The deduplicated path is the list of the runs of the path: no two neighbours
    are equal, and repeating each element the right number of times gives the path
    back. *)
Theorem dedup_runs (asPath : list Z) :
  exists runs : list (Z * nat), DedupConsecutiveASNs asPath = fst <$> runs /\ concat (repeated <$> runs) = asPath /\
    forall i x y, DedupConsecutiveASNs asPath !! i = Some x -> DedupConsecutiveASNs asPath !! S i = Some y -> x <> y.
Proof.
  induction asPath as [|x [|y l] IH]; [by exists []| |].
  { exists [(x, O)]. split_and!; [done..|]. by intros [|i] a b. }
  destruct IH as (runs & Hd & Hc & Hn). rewrite dedup_cons. destruct runs as [|[z n] runs].
  { exfalso. cbn in Hc. done. }
  assert (z = y) as -> by (cbn in Hc; by injection Hc). case_decide as E.
  - subst. exists ((y, S n) :: runs). split_and!; [done|cbn; cbn in Hc; injection Hc as Hc; by rewrite Hc|done].
  - exists ((x, O) :: (y, n) :: runs). split_and!; [by rewrite Hd|cbn in *; by rewrite Hc|].
    rewrite Hd in Hn |- *. intros [|i] a b Ha Hb; [|by apply (Hn i)]. cbn in Ha, Hb. congruence.
Qed.

Lemma pair_calls_zip asPath direction bytes :
  pair_calls asPath direction bytes =
  zip_with (fun from to => flowAsPairsBytes (strconv.FormatUint from) (strconv.FormatUint to) direction (f64.of_Z bytes)) asPath (tail asPath).
Proof.
  unfold pair_calls. apply list_eq. intros i. rewrite list_lookup_fmap, lookup_zip_with, lookup_tail.
  destruct (decide (i < length asPath - 1)%nat) as [Hi|Hi].
  - rewrite lookup_seq_lt by done. cbn. unfold at_.
    destruct (lookup_lt_is_Some_2 asPath i ltac:(lia)) as [a ->]. destruct (lookup_lt_is_Some_2 asPath (S i) ltac:(lia)) as [b ->]. done.
  - rewrite lookup_seq_ge by lia. rewrite (lookup_ge_None_2 asPath (S i)) by lia. by destruct (asPath !! i).
Qed.

(** The counted hops: each flow adds its bytes once for every step of its
    deduplicated source path and once for the path's own end, and the same for
    the destination path; paths of one AS do not count. *)
Theorem pairs_exported (path : list Z) (flow : EnrichedFlow) :
  let d := DedupConsecutiveASNs path in
  let hop direction from to := flowAsPairsBytes (strconv.FormatUint from) (strconv.FormatUint to) direction (f64.of_Z (Bytes flow)) in
  (ExportASPathPairsWithDirection path "Source" flow = match d with
     | x :: _ :: _ => zip_with (hop "Source"%string) (x :: d) d
     | _ => [] end) /\
  (ExportASPathPairsWithDirection path "Destination" flow = match d with
     | _ :: _ :: _ => zip_with (hop "Destination"%string) d (tail d ++ option_list (last d))
     | _ => [] end).
Proof.
  intros d hop. unfold ExportASPathPairsWithDirection. fold d. clearbody d.
  destruct d as [|x [|y l]]; [done..|]. cbn [length Nat.ltb Nat.leb]. change (seqb "Source" "Source") with true.
  change (seqb "Source" "Destination") with false. change (seqb "Destination" "Source") with false. change (seqb "Destination" "Destination") with true.
  cbn iota. rewrite !pair_calls_zip. split; [by rewrite app_nil_r|]. cbn [tail app].
  set (l' := y :: l). assert (forall x, zip_with (hop "Destination"%string) (x :: l') (l' ++ option_list (last (x :: l'))) =
    zip_with (hop "Destination"%string) (x :: l') l' ++ option_list ((fun e => hop "Destination"%string e e) <$> last (x :: l'))) as Hz.
  { clear. subst l'. revert y. induction l as [|z l IH]; intros y x; [done|]. cbn [app zip_with]. f_equal. apply (IH z y). }
  rewrite Hz. f_equal. pose proof (last_lookup (x :: l')) as Hl.
  replace (pred (length (x :: l'))) with (S (S (length l)) - 1)%nat in Hl by (cbn; lia).
  unfold at_. fold l'. rewrite <- Hl. destruct (last (x :: l')) eqn:El; [done|]. by apply last_None in El.
Qed.

(** *** Labels *)
(** A created prometheus segment counts every flow under exactly its configured
    labels, each with the text of the flow's field, adds its bits, and forwards
    it; but with an unexported field among the labels, which the constructor
    accepts, the first flow panics. *)
Theorem prometheus_labels `{f64.Platform} (c : config) (s : Prometheus) (msg : EnrichedFlow) :
  New c = Created s ->
  (Exists (fun n => FieldByName n = Unexported) (Labels s) -> body s msg = Panic) /\
  (~ Exists (fun n => FieldByName n = Unexported) (Labels s) ->
   exists labels rest, body s msg = Ok (kafkaMessageCount :: flowBits labels (f64.mul (f64.of_Z (Bytes msg)) (f64.of_Z 8)) :: rest, [EOut msg]) /\
     forall k, labels !! k = if bool_decide (k ∈ Labels s)
                             then match FieldByName k with Exported d => Some (column_text d msg) | _ => None end else None).
Proof.
  unfold New. destruct (forallb known (configured_labels c)) eqn:Ek; [|done]. intros [= <-]. unfold body. cbn [Labels]. split.
  - intros He. rewrite labelset_Panic; [done|]. apply (Exists_impl _ _ _ He). intros n Hn [d Hd]. congruence.
  - intros He. destruct (labelset_Ok (configured_labels c) msg) with (set := ∅ : gmap string string) as (labels & -> & Hl).
    { apply Forall_forall. intros n Hn. apply forallb_forall with (x := n) in Ek; [|by apply list_elem_of_In].
      apply known_cases in Ek as [Ek|Ek]; [done|]. contradict He. apply Exists_exists. by exists n. }
    eexists labels, _. split; [done|]. intros k. rewrite Hl. by rewrite lookup_empty.
Qed.

(** ** The theorems at work *)
Module witness.
#[export] Instance platform : f64.Platform := f64.amd64.
Definition conf : config := {[ "labels"%string := "Proto, SrcAddr"%string; "export_as_pairs"%string := "True"%string ]}.
Definition segment : Prometheus := match New conf with Created s => s | _ => mkPrometheus "" "" "" [] None false false end.
Definition flow : EnrichedFlow := set_Proto 6 (set_SrcAddr (Some [10; 0; 0; 1]) (set_Bytes 100 (set_SrcAsPath [1; 1; 2] emptyFlow))).
Example hidden : exists s, New {[ "labels"%string := "state"%string ]} = Created s /\ body s flow = Panic.
Proof. by eexists. Qed.
Example pairs : ExportASPathPairsWithDirection (SrcAsPath flow) "Source" flow =
  [flowAsPairsBytes "1" "1" "Source" (f64.of_Z 100); flowAsPairsBytes "1" "2" "Source" (f64.of_Z 100)].
Proof. reflexivity. Qed.
End witness.

Lemma prometheus_labels_witness :
  exists labels rest, body witness.segment witness.flow = Ok (kafkaMessageCount :: flowBits labels (f64.of_Z 800) :: rest, [EOut witness.flow]) /\
    labels !! "SrcAddr"%string = Some "10.0.0.1"%string /\ labels !! "DstAddr"%string = None.
Proof.
  destruct (proj2 (@prometheus_labels witness.platform witness.conf witness.segment witness.flow eq_refl)) as (labels & rest & E & Hl).
  - replace (Labels witness.segment) with ["Proto"; "SrcAddr"]%string by (vm_compute; reflexivity).
    rewrite !Exists_cons, Exists_nil. intros [H|[H|[]]]; revert H; vm_compute; discriminate.
  - exists labels, rest. split; [exact E|]. split; rewrite Hl; vm_compute; reflexivity.
Defined.
