(* ===== verification/Metrics.v ===== *)
(** * Exported metrics ([segments/output/prometheus/exporter.go],
      [segments/analysis/toptalkers_metrics/toptalker_prometheus.go],
      [segments/meta/monitoring/delay_monitoring.go])

    What the program uses of the Prometheus client library is an interface:
    vectors of counters, which panic on a label value that is not valid UTF-8 and
    on a negative amount and otherwise add up what they are given in their own way,
    and registries that refuse a metric they already have or one with a repeated
    label name.  Over it the exporters are modelled, with the vacuum job that resets
    some of the counters. *)

From stdpp Require Import prelude strings list gmap fin_sets.
From Stdlib Require Import ZArith Lia Ascii SpecFloat.
From S2P Require Import Prelude GoStd GoParse EnrichedFlow Segment Reflect Output Prometheus.

(** ** The client library *)
Record Desc := mkDesc { fqName : string; variableLabels : list string }.
#[export] Instance Desc_eq_dec : EqDecision Desc.
Proof. solve_decision. Defined.

(** An amount that [Add] of a counter refuses. *)
Definition negative (a : f64.float64) : bool := f64.ltb a (f64.of_Z 0).

(** Labels that a vector takes: a value for each of its label names, all of them
    valid UTF-8. *)
Definition valid_values (l : gmap string string) : Prop := map_Forall (fun _ s => utf8.ValidString s = true) l.
Definition takes (ns : list string) (l : gmap string string) : Prop :=
  dom l = list_to_set (C := gset string) ns /\ valid_values l.
#[export] Instance takes_dec ns l : Decision (takes ns l).
Proof. unfold takes, valid_values. apply _. Defined.

(** A CounterVec: its label names, [With(labels).Add(a)], [Reset], and the counter
    it has for some labels, a new one if there is none.  How a counter adds up its
    amounts is the library's: it keeps the integral ones in a uint64 and the others
    in a float64. *)
Class CounterVec (V : Type) : Type := {
  Counter : Type;
  NewCounter : Counter;
  Add : f64.float64 -> Counter -> Counter;
  NewCounterVec : list string -> V;
  vec_add : gmap string string -> f64.float64 -> V -> result V;
  vec_reset : V -> V;
  vec_labels : V -> list string;
  vec_counter : V -> gmap string string -> Counter;
}.
Class CounterLaws (V : Type) `{CounterVec V} : Prop := {
  new_labels ns : vec_labels (NewCounterVec ns) = ns;
  new_counter ns l : vec_counter (NewCounterVec ns) l = NewCounter;
  reset_labels v : vec_labels (vec_reset v) = vec_labels v;
  reset_counter v l : vec_counter (vec_reset v) l = NewCounter;
  add_works l a v : takes (vec_labels v) l -> negative a = false ->
    exists v', vec_add l a v = Ok v' /\ vec_labels v' = vec_labels v /\
      forall k, vec_counter v' k = if decide (k = l) then Add a (vec_counter v l) else vec_counter v k;
  add_panics l a v : ~ takes (vec_labels v) l -> vec_add l a v = Panic;
}.
(** A counter that has got these amounts, in this order. *)
Definition counted `{CounterVec V} (amounts : list f64.float64) : Counter := fold_left (fun c a => Add a c) amounts NewCounter.

(** A registry holds collectors, each with the metrics it describes. *)
Class Registry (R : Type) : Type := {
  NewRegistry : R;
  MustRegister : list Desc -> R -> result R;
  Unregister : list Desc -> R -> R;
  registered : R -> gset string;
}.
Definition acceptable (ds : list Desc) (names : gset string) : Prop :=
  NoDup (fqName <$> ds) /\ Forall (fun d => NoDup (variableLabels d) /\ fqName d ∉ names) ds.
#[export] Instance acceptable_dec ds names : Decision (acceptable ds names).
Proof. unfold acceptable. apply _. Defined.
Class RegistryLaws (R : Type) `{Registry R} : Prop := {
  registered_new : registered (NewRegistry : R) = ∅;
  register_works ds (r : R) : acceptable ds (registered r) ->
    exists r', MustRegister ds r = Ok r' /\ registered r' = registered r ∪ list_to_set (fqName <$> ds);
  register_panics ds (r : R) : ~ acceptable ds (registered r) -> MustRegister ds r = Panic;
  registered_unregister ds (r : R) : registered (Unregister ds r) = registered r ∖ list_to_set (fqName <$> ds);
}.
(** [MustRegister] with several collectors. *)
Fixpoint MustRegisterAll {R} `{Registry R} (cs : list (list Desc)) (r : R) : result R :=
  match cs with [] => Ok r | ds :: cs => r ← MustRegister ds r; MustRegisterAll cs r end.

(** ** exporter.go *)
Definition messages_desc : Desc := mkDesc "kafka_messages_total" [].
Definition offset_desc : Desc := mkDesc "kafka_offset_current" ["topic"; "partition"]%string.
Definition bits_desc (labels : list string) : Desc := mkDesc "flow_bits" labels.
Definition pairs_desc : Desc := mkDesc "flow_as_hop_pair_bytes" ["from"; "to"; "path_direction"]%string.
Definition path_desc : Desc := mkDesc "flow_as_path_bytes" ["as_path"]%string.

Section exporter.
Context {V R : Type} `{CounterVec V} `{Registry R}.

(** A Counter is a vector without labels. *)
Record Exporter := mkExporter {
  MetaReg : R; FlowReg : R;
  messages : V; kafkaOffsets : V; bits : V; pairs : V; paths : V; labels : list string }.

Definition Initialize (labels : list string) : result Exporter :=
  meta ← MustRegisterAll [[messages_desc]; [offset_desc]] NewRegistry;
  flow ← MustRegisterAll [[bits_desc labels]; [pairs_desc]; [path_desc]] NewRegistry;
  Ok {| MetaReg := meta; FlowReg := flow; messages := NewCounterVec []; kafkaOffsets := NewCounterVec (variableLabels offset_desc);
        bits := NewCounterVec labels; pairs := NewCounterVec (variableLabels pairs_desc);
        paths := NewCounterVec (variableLabels path_desc); labels := labels |}.

(** The AS metrics are not reset. *)
Definition ResetCounter (e : Exporter) : result Exporter :=
  meta ← MustRegister [messages_desc] (Unregister [messages_desc] (MetaReg e));
  Ok {| MetaReg := meta; FlowReg := FlowReg e; messages := NewCounterVec []; kafkaOffsets := vec_reset (kafkaOffsets e);
        bits := vec_reset (bits e); pairs := pairs e; paths := paths e; labels := labels e |}.

(** The labels of a hop, of a path, and of an offset. *)
Definition hop (from to path_direction : string) : gmap string string :=
  <["from":=from]> (<["to":=to]> {["path_direction":=path_direction]}).
Definition path (as_path : string) : gmap string string := {["as_path":=as_path]}.

(** The calls of [Increment], [ExportASPathPairsWithDirection] and [ExportASPaths]
    ([Prometheus.v]) take effect. *)
Definition apply (c : call) (e : Exporter) : result Exporter :=
  match c with
  | kafkaMessageCount =>
      v ← vec_add ∅ (f64.of_Z 1) (messages e);
      Ok (mkExporter (MetaReg e) (FlowReg e) v (kafkaOffsets e) (bits e) (pairs e) (paths e) (labels e))
  | flowBits l a =>
      v ← vec_add l a (bits e);
      Ok (mkExporter (MetaReg e) (FlowReg e) (messages e) (kafkaOffsets e) v (pairs e) (paths e) (labels e))
  | flowAsPairsBytes from to direction a =>
      v ← vec_add (hop from to direction) a (pairs e);
      Ok (mkExporter (MetaReg e) (FlowReg e) (messages e) (kafkaOffsets e) (bits e) v (paths e) (labels e))
  | flowAsPathBytes as_path a =>
      v ← vec_add (path as_path) a (paths e);
      Ok (mkExporter (MetaReg e) (FlowReg e) (messages e) (kafkaOffsets e) (bits e) (pairs e) v (labels e))
  end.
Definition IncrementCtrl (topic : string) (partition offset : Z) (e : Exporter) : result Exporter :=
  v ← vec_add (<["topic":=topic]> {["partition":=strconv.FormatInt partition]}) (f64.of_Z offset) (kafkaOffsets e);
  Ok (mkExporter (MetaReg e) (FlowReg e) (messages e) v (bits e) (pairs e) (paths e) (labels e)).

(** What happens to an exporter: calls, and rounds of the vacuum job. *)
Inductive event : Type := Counted (c : call) | Vacuum.
Fixpoint run (es : list event) (e : Exporter) : result Exporter :=
  match es with
  | [] => Ok e
  | Counted c :: es => e ← apply c e; run es e
  | Vacuum :: es => e ← ResetCounter e; run es e
  end.
End exporter.
Arguments Exporter : clear implicits.

(** ** Theorems *)

(** *** Amounts are not negative *)
Lemma round_nonneg m e l : negative (binary_round_aux 53 1024 false m e l) = false.
Proof.
  unfold negative, binary_round_aux. destruct (shr_fexp 53 1024 m e l) as [r e1].
  destruct (shr_fexp _ _ _ _ _) as [r2 e2]. destruct (shr_m r2); [reflexivity| |reflexivity].
  by destruct (e2 <=? 1024 - 53).
Qed.
Lemma of_Z_nonneg n : 0 <= n -> negative (f64.of_Z n) = false.
Proof.
  intros Hn. unfold f64.of_Z, binary_normalize. destruct n as [|p|p]; [reflexivity| |lia].
  unfold binary_round. destruct (shl_align _ _ _). apply round_nonneg.
Qed.
Lemma of_Z_sign n : 0 <= n -> match f64.of_Z n with S754_zero s | S754_infinity s | S754_finite s _ _ => s = false | S754_nan => True end.
Proof.
  intros Hn. unfold f64.of_Z, binary_normalize. destruct n as [|p|p]; [done| |lia].
  unfold binary_round, binary_round_aux. destruct (shl_align _ _ _), (shr_fexp _ _ _ _ _), (shr_fexp _ _ _ _ _) as [r2 e2].
  destruct (shr_m r2); [done| |done]. by destruct (e2 <=? 1024 - 53).
Qed.
Lemma mul_nonneg n m : 0 <= n -> 0 <= m -> negative (f64.mul (f64.of_Z n) (f64.of_Z m)) = false.
Proof.
  intros Hn Hm. pose proof (of_Z_sign n Hn) as Sn. pose proof (of_Z_sign m Hm) as Sm. unfold f64.mul.
  destruct (f64.of_Z n), (f64.of_Z m); cbn [SFmul]; subst; try reflexivity. apply round_nonneg.
Qed.

(** *** The labels of the AS counters *)
Lemma hop_takes from to d : Forall (fun s => gostrings.all_chars utf8.ascii_char s = true) [from; to; d] ->
  takes (variableLabels pairs_desc) (hop from to d).
Proof.
  rewrite !Forall_cons. intros (Hf & Ht & Hd & _). unfold hop. split.
  - rewrite !dom_insert_L, dom_singleton_L. cbn. set_solver.
  - apply map_Forall_insert_2; [by apply utf8.ascii_valid|]. apply map_Forall_insert_2; [by apply utf8.ascii_valid|].
    apply map_Forall_singleton. by apply utf8.ascii_valid.
Qed.
Lemma path_takes p : gostrings.all_chars utf8.ascii_char p = true -> takes (variableLabels path_desc) (path p).
Proof.
  intros Hp. unfold path. split; [rewrite dom_singleton_L; cbn; set_solver|]. apply map_Forall_singleton. by apply utf8.ascii_valid.
Qed.

(** *** What the counters show *)
Definition on_messages (c : call) : option (gmap string string * f64.float64) :=
  match c with kafkaMessageCount => Some (∅, f64.of_Z 1) | _ => None end.
Definition on_bits (c : call) : option (gmap string string * f64.float64) :=
  match c with flowBits l a => Some (l, a) | _ => None end.
Definition on_pairs (c : call) : option (gmap string string * f64.float64) :=
  match c with flowAsPairsBytes from to d a => Some (hop from to d, a) | _ => None end.
Definition on_paths (c : call) : option (gmap string string * f64.float64) :=
  match c with flowAsPathBytes p a => Some (path p, a) | _ => None end.

(** The amounts under the labels [l], in the order of the calls. *)
Definition under (l : gmap string string) (added : list (gmap string string * f64.float64)) : list f64.float64 :=
  omap (fun x => if decide (l = x.1) then Some x.2 else None) added.
Definition amounts (on : call -> option (gmap string string * f64.float64)) (cs : list call) (l : gmap string string) : list f64.float64 :=
  under l (omap on cs).
Definition calls (es : list event) : list call := omap (fun e => match e with Counted c => Some c | Vacuum => None end) es.
(** The calls since the last round of the vacuum job. *)
Definition since (cs : list call) (es : list event) : list call :=
  fold_left (fun cs e => match e with Counted c => cs ++ [c] | Vacuum => [] end) es cs.

(** A call with labels that its vector has. *)
Definition fits (ns : list string) (c : call) : Prop :=
  match c with
  | kafkaMessageCount => True
  | flowBits l a => takes ns l /\ negative a = false
  | flowAsPairsBytes from to d a => takes (variableLabels pairs_desc) (hop from to d) /\ negative a = false
  | flowAsPathBytes p a => takes (variableLabels path_desc) (path p) /\ negative a = false
  end.

Lemma counted_snoc `{CounterVec V} on cs c l : counted (amounts on (cs ++ [c]) l) =
  match on c with
  | Some x => if decide (l = x.1) then Add x.2 (counted (amounts on cs l)) else counted (amounts on cs l)
  | None => counted (amounts on cs l)
  end.
Proof.
  unfold amounts, under, counted. rewrite omap_app. cbn. destruct (on c) as [x|]; cbn; [|by rewrite app_nil_r].
  rewrite omap_app. cbn. case_decide; cbn; [by rewrite fold_left_app|by rewrite app_nil_r].
Qed.

Section registries.
Context {R : Type} `{RegistryLaws R}.
Lemma register_all_works (cs : list (list Desc)) : forall r : R, acceptable (concat cs) (registered r) ->
  exists r', MustRegisterAll cs r = Ok r' /\ registered r' = registered r ∪ list_to_set (fqName <$> concat cs).
Proof using All.
  induction cs as [|ds cs IH]; intros r Ha; cbn [MustRegisterAll concat fmap].
  - exists r. split; [done|]. cbn. by rewrite union_empty_r_L.
  - destruct Ha as [Hnd Hf]. cbn [concat] in *. rewrite fmap_app in Hnd. apply NoDup_app in Hnd as (N1 & Hx & N2).
    apply Forall_app in Hf as [F1 F2]. destruct (register_works ds r) as (r1 & -> & E1); [done|]. cbn [mbind result_bind].
    destruct (IH r1) as (r2 & -> & E2).
    + split; [done|]. apply Forall_forall. intros d Hd. rewrite Forall_forall in F2. destruct (F2 d Hd) as [Hl Hn].
      split; [done|]. rewrite E1. apply not_elem_of_union. split; [done|]. rewrite elem_of_list_to_set. intros Hin.
      apply (Hx _ Hin). by apply list_elem_of_fmap_2.
    + exists r2. split; [done|]. rewrite E2, E1, fmap_app, list_to_set_app_L. by rewrite assoc_L by apply _.
Qed.
End registries.

Section shows.
Context {V R : Type} `{CounterLaws V} `{RegistryLaws R}.

Record shows (ns : list string) (e : Exporter V R) (recent all : list call) : Prop := {
  sh_meta : registered (MetaReg e) = {["kafka_messages_total"; "kafka_offset_current"]};
  sh_labels_messages : vec_labels (messages e) = [];
  sh_labels_bits : vec_labels (bits e) = ns;
  sh_labels_pairs : vec_labels (pairs e) = variableLabels pairs_desc;
  sh_labels_paths : vec_labels (paths e) = variableLabels path_desc;
  sh_messages : forall l, vec_counter (messages e) l = counted (amounts on_messages recent l);
  sh_bits : forall l, vec_counter (bits e) l = counted (amounts on_bits recent l);
  sh_pairs : forall l, vec_counter (pairs e) l = counted (amounts on_pairs all l);
  sh_paths : forall l, vec_counter (paths e) l = counted (amounts on_paths all l) }.

Lemma apply_shows ns c e recent all : shows ns e recent all -> fits ns c ->
  exists e', apply c e = Ok e' /\ shows ns e' (recent ++ [c]) (all ++ [c]).
Proof using All.
  intros [S1 S2 S3 S4 S5 S6 S7 S8 S9] Hf. destruct c as [|l a|from to d a|p a]; cbn [fits] in Hf.
  - destruct (add_works ∅ (f64.of_Z 1) (messages e)) as (v & E & L & U);
      [rewrite S2; split; [by rewrite dom_empty_L|done]|by apply of_Z_nonneg|].
    eexists. cbn [apply]. rewrite E. split; [done|]. split; cbn; intros; rewrite ?counted_snoc; cbn; try congruence; eauto.
    rewrite U, !S6. by case_decide; subst.
  - destruct Hf as [Hd Hn]. destruct (add_works l a (bits e)) as (v & E & L & U); [by rewrite S3|done|].
    eexists. cbn [apply]. rewrite E. split; [done|]. split; cbn; intros; rewrite ?counted_snoc; cbn; try congruence; eauto.
    rewrite U, !S7. by case_decide; subst.
  - destruct Hf as [Hd Hn]. destruct (add_works (hop from to d) a (pairs e)) as (v & E & L & U); [by rewrite S4|done|].
    cbn in S4, S5. eexists. cbn [apply]. rewrite E. split; [done|]. split; cbn; intros; rewrite ?counted_snoc; cbn; try congruence; eauto.
    rewrite U, !S8. by case_decide; subst.
  - destruct Hf as [Hd Hn]. destruct (add_works (path p) a (paths e)) as (v & E & L & U); [by rewrite S5|done|].
    cbn in S4, S5. eexists. cbn [apply]. rewrite E. split; [done|]. split; cbn; intros; rewrite ?counted_snoc; cbn; try congruence; eauto.
    rewrite U, !S9. by case_decide; subst.
Qed.
Lemma reset_shows ns e recent all : shows ns e recent all -> exists e', ResetCounter e = Ok e' /\ shows ns e' [] all.
Proof using All.
  intros [S1 S2 S3 S4 S5 S6 S7 S8 S9]. unfold ResetCounter.
  destruct (register_works [messages_desc] (Unregister [messages_desc] (MetaReg e))) as (r & E & Hr).
  { rewrite registered_unregister, S1. apply (bool_decide_unpack _). vm_compute. exact I. }
  rewrite E. eexists. split; [done|].
  split; cbn; intros; rewrite ?new_labels, ?new_counter, ?reset_labels, ?reset_counter; try done.
  rewrite Hr, registered_unregister, S1. apply (bool_decide_unpack _). vm_compute. exact I.
Qed.
Lemma run_shows ns es : forall e recent all, shows ns e recent all -> Forall (fits ns) (calls es) ->
  exists e', run es e = Ok e' /\ shows ns e' (since recent es) (all ++ calls es).
Proof using All.
  induction es as [|[c|] es IH]; intros e recent all Hs Hf; cbn [run].
  - exists e. cbn. by rewrite app_nil_r.
  - apply Forall_cons in Hf as [Hc Hf]. destruct (apply_shows ns c e recent all Hs Hc) as (e1 & -> & Hs1).
    destruct (IH e1 _ _ Hs1 Hf) as (e2 & E & Hs2). exists e2. split; [exact E|]. cbn. by rewrite <- app_assoc in Hs2.
  - destruct (reset_shows ns e recent all Hs) as (e1 & -> & Hs1). by apply (IH e1).
Qed.
Lemma initialize_shows ns : NoDup ns -> exists e : Exporter V R, Initialize ns = Ok e /\ shows ns e [] [].
Proof using All.
  intros Hn. unfold Initialize.
  destruct (register_all_works [[messages_desc]; [offset_desc]] NewRegistry) as (m & -> & Em).
  { rewrite registered_new. apply (bool_decide_unpack _). vm_compute. exact I. }
  destruct (register_all_works [[bits_desc ns]; [pairs_desc]; [path_desc]] NewRegistry) as (f & -> & Ef).
  { rewrite registered_new. split; [apply (bool_decide_unpack _); vm_compute; exact I|].
    repeat constructor; cbn; try apply not_elem_of_empty; try done; apply (bool_decide_unpack _); vm_compute; exact I. }
  eexists. split; [done|]. split; cbn; intros; rewrite ?new_labels, ?new_counter; try done.
  rewrite Em, registered_new. apply (bool_decide_unpack _). vm_compute. exact I.
Qed.

End shows.

(** *** The flows behind the counters *)

(** The labels that a flow is counted under. *)
Definition counted_labels (s : Prometheus) (msg : EnrichedFlow) : gmap string string :=
  match labelset (Labels s) msg ∅ with Ok l => l | _ => ∅ end.
(** The bits of the flows with the labels [l], in the order of the flows. *)
Definition bits_of (s : Prometheus) (ms : list EnrichedFlow) (l : gmap string string) : list f64.float64 :=
  under l ((fun m => (counted_labels s m, f64.mul (f64.of_Z (Bytes m)) (f64.of_Z 8))) <$> ms).

Lemma pair_calls_ascii asPath direction bytes : 0 <= bytes -> gostrings.all_chars utf8.ascii_char direction = true ->
  Forall (fun c => forall ns, fits ns c /\ on_bits c = None) (pair_calls asPath direction bytes).
Proof.
  intros Hb Hd. apply Forall_fmap, Forall_true. intros i ns. split; [|done]. split; [|by apply of_Z_nonneg].
  apply hop_takes. repeat constructor; [apply utf8.FormatUint_ascii..|done].
Qed.
Lemma pair_fits asPath i direction bytes ns : 0 <= bytes -> gostrings.all_chars utf8.ascii_char direction = true ->
  let c := flowAsPairsBytes (at_ asPath i) (at_ asPath i) direction (f64.of_Z bytes) in fits ns c /\ on_bits c = None.
Proof.
  intros Hb Hd. split; [|done]. split; [|by apply of_Z_nonneg].
  apply hop_takes. repeat constructor; [apply utf8.FormatUint_ascii..|done].
Qed.

Lemma body_calls s msg : Forall exported_name (Labels s) -> 0 <= Bytes msg -> valid_values (counted_labels s msg) ->
  exists cs, body s msg = Ok (cs, [EOut msg]) /\ Forall (fits (Labels s)) cs /\
    omap on_bits cs = [(counted_labels s msg, f64.mul (f64.of_Z (Bytes msg)) (f64.of_Z 8))].
Proof.
  intros He Hb Hv. destruct (labelset_Ok (Labels s) msg He ∅) as (l & E & Hl). revert Hv. unfold body, counted_labels. rewrite E. intros Hv.
  assert (dom l = list_to_set (C := gset string) (Labels s)) as Hd.
  { apply set_eq. intros k. rewrite elem_of_dom, elem_of_list_to_set, Hl. split.
    - case_bool_decide; [done|]. rewrite lookup_empty. by intros [].
    - intros Hk. rewrite bool_decide_true by done. rewrite Forall_forall in He. destruct (He k Hk) as [d ->]. by eexists. }
  assert (forall path d, d ∈ ["Source"; "Destination"]%string ->
    Forall (fun c => fits (Labels s) c /\ on_bits c = None) (ExportASPathPairsWithDirection path d msg)) as Hp.
  { intros path d Hdir. assert (gostrings.all_chars utf8.ascii_char d = true) as Hdc by (apply list_elem_of_In in Hdir; by destruct Hdir as [<-|[<-|[]]]).
    assert (Forall (fun c => fits (Labels s) c /\ on_bits c = None) (pair_calls (DedupConsecutiveASNs path) d (Bytes msg))) as Hpc
      by (eapply Forall_impl; [apply pair_calls_ascii; done|]; intros c Hc; exact (Hc (Labels s))).
    unfold ExportASPathPairsWithDirection. destruct (_ <? 2)%nat; [done|].
    apply Forall_app_2; [destruct (seqb d "Source"); [constructor; [by apply pair_fits|done]|done]|].
    destruct (seqb d "Destination"); [apply Forall_app_2; [done|apply Forall_singleton; by apply pair_fits]|done]. }
  assert (Forall (fun c => fits (Labels s) c /\ on_bits c = None) (ExportASPaths_ msg)) as Ha.
  { unfold ExportASPaths_. destruct (_ <? 2)%nat; [done|]. repeat constructor; [|by apply of_Z_nonneg].
    apply path_takes, utf8.brackets_ascii, Forall_fmap, Forall_true. intros asn. apply utf8.FormatUint_ascii. }
  assert (Forall (fun c => fits (Labels s) c /\ on_bits c = None)
    ((if ExportASPathPairs s then ExportASPathPairsWithDirection (SrcAsPath msg) "Source" msg ++
        ExportASPathPairsWithDirection (DstAsPath msg) "Destination" msg else []) ++ (if ExportASPaths s then ExportASPaths_ msg else []))) as Hx.
  { apply Forall_app_2; [destruct (ExportASPathPairs s); [apply Forall_app_2; apply Hp; rewrite !elem_of_cons; auto|done]|by destruct (ExportASPaths s)]. }
  eexists. split; [reflexivity|]. split.
  - unfold Increment. constructor; [done|]. constructor; [by split; [|apply mul_nonneg]|]. eapply Forall_impl; [exact Hx|]. by intros c [].
  - unfold Increment. cbn [app omap list_omap on_bits]. f_equal. revert Hx. generalize ((if ExportASPathPairs s then
      ExportASPathPairsWithDirection (SrcAsPath msg) "Source" msg ++ ExportASPathPairsWithDirection (DstAsPath msg) "Destination" msg else []) ++
      (if ExportASPaths s then ExportASPaths_ msg else [])). intros cs Hcs. induction Hcs as [|c cs [_ Hc] _ IH]; [done|]. cbn. by rewrite Hc.
Qed.
Lemma bodies_calls s ms : Forall exported_name (Labels s) -> Forall (fun m => 0 <= Bytes m /\ valid_values (counted_labels s m)) ms ->
  exists bodies, mapM (body s) ms = Ok bodies /\ concat (snd <$> bodies) = EOut <$> ms /\
    Forall (fits (Labels s)) (concat (fst <$> bodies)) /\
    omap on_bits (concat (fst <$> bodies)) =
      (fun m => (counted_labels s m, f64.mul (f64.of_Z (Bytes m)) (f64.of_Z 8))) <$> ms.
Proof.
  intros He Hms. induction Hms as [|m ms [Hm Hv] _ (bodies & E & Eo & Hf & Eb)]; [by exists []|].
  destruct (body_calls s m He Hm Hv) as (cs & Ec & Hc & Hb). exists ((cs, [EOut m]) :: bodies). cbn [mapM fmap list_fmap concat fst snd].
  simpl. rewrite Ec. simpl. rewrite E. split_and!; [done|cbn; by rewrite Eo|by apply Forall_app_2|]. by rewrite omap_app, Hb, Eb.
Qed.
Lemma since_calls cs es : Vacuum ∉ es -> since cs es = cs ++ calls es.
Proof.
  revert cs. induction es as [|[c|] es IH]; intros cs Hv.
  - cbn. by rewrite app_nil_r.
  - apply not_elem_of_cons in Hv as [_ Hv]. change (since (cs ++ [c]) es = cs ++ c :: calls es).
    by rewrite (IH _ Hv), <- app_assoc.
  - destruct Hv. apply list_elem_of_here.
Qed.

(** *** The exporter of the prometheus segment *)
Section prometheus.
Context {V R : Type} `{CounterLaws V} `{RegistryLaws R}.


(** A flow with a label that is not valid UTF-8, such as the name of an interface
    that a router reports, makes the segment panic, whatever has been counted. *)
Theorem invalid_label_panics (s : Prometheus) (m : EnrichedFlow) (e : Exporter V R) :
  Forall exported_name (Labels s) -> vec_labels (messages e) = [] -> vec_labels (bits e) = Labels s ->
  ~ valid_values (counted_labels s m) ->
  exists cs, body s m = Ok (cs, [EOut m]) /\ run (Counted <$> cs) e = Panic.
Proof using All.
  intros He Hm Hb Hv. destruct (labelset_Ok (Labels s) m He ∅) as (l & E & _). revert Hv. unfold body, counted_labels. rewrite E.
  intros Hv. eexists. split; [reflexivity|]. unfold Increment. cbn [app fmap list_fmap run apply].
  destruct (add_works ∅ (f64.of_Z 1) (messages e)) as (v & -> & _); [rewrite Hm; by split; [rewrite dom_empty_L|]|by apply of_Z_nonneg|].
  cbn [mbind result_bind bits]. rewrite add_panics; [done|]. by intros [_ ?].
Qed.

(** A repeated label, which the constructor accepts, ends in a panic of Run. *)
Theorem repeated_label_panics (ns : list string) : ~ NoDup ns -> (Initialize ns : result (Exporter V R)) = Panic.
Proof using All.
  intros Hn. unfold Initialize. destruct (register_all_works [[messages_desc]; [offset_desc]] NewRegistry) as (m & -> & _).
  { rewrite registered_new. apply (bool_decide_unpack _). vm_compute. exact I. }
  cbn [mbind result_bind MustRegisterAll]. rewrite register_panics; [done|]. intros [_ Hf]. apply Forall_cons in Hf as [[Hd _] _]. done.
Qed.
End prometheus.

(** ** The theorems at work *)
Module witness.
(** Vectors as maps, registries as sets; a counter adds integral amounts in a uint64
    and others in a float64. *)
Definition counter : Type := Z * f64.float64.
Definition add_amount (a : f64.float64) (c : counter) : counter :=
  match f64.trunc a with
  | Some n => if SFeqb (f64.of_Z n) a && in_ub 64 n then (wrap 64 (c.1 + n), c.2) else (c.1, f64.add c.2 a)
  | None => (c.1, f64.add c.2 a)
  end.
Definition vec : Type := list string * gmap (gmap string string) counter.
#[export] Instance vec_counters : CounterVec vec := {|
  Counter := counter;
  NewCounter := (0, f64.of_Z 0);
  Add := add_amount;
  NewCounterVec := fun ns => (ns, ∅);
  vec_add := fun l a v =>
    if bool_decide (takes v.1 l) && negb (negative a)
    then Ok (v.1, <[l := add_amount a (default (0, f64.of_Z 0) (v.2 !! l))]> v.2) else Panic;
  vec_reset := fun v => (v.1, ∅);
  vec_labels := fst;
  vec_counter := fun v l => default (0, f64.of_Z 0) (v.2 !! l);
|}.
#[export] Instance vec_laws : CounterLaws vec.
Proof.
  split; try done; intros; cbn; try by rewrite lookup_empty.
  - unfold vec_add, vec_labels in *. cbn in *. rewrite bool_decide_true, H0 by done. eexists. split; [done|]. split; [done|].
    intros k. cbn. case_decide; [subst; by rewrite lookup_insert_eq|by rewrite lookup_insert_ne].
  - unfold vec_add, vec_labels in *. cbn in *. by rewrite bool_decide_false.
Qed.
#[export] Instance set_registry : Registry (gset string) := {|
  NewRegistry := ∅;
  MustRegister := fun ds r => if decide (acceptable ds r) then Ok (r ∪ list_to_set (fqName <$> ds)) else Panic;
  Unregister := fun ds r => r ∖ list_to_set (fqName <$> ds);
  registered := fun r => r;
|}.
#[export] Instance set_laws : RegistryLaws (gset string).
Proof.
  split; try done; unfold MustRegister, registered; cbn; intros ds r Hr.
  - rewrite decide_True by done. by eexists.
  - by rewrite decide_False.
Qed.
Definition two : list EnrichedFlow := [Prometheus.witness.flow; set_Bytes 50 Prometheus.witness.flow].
Definition segment : Prometheus := mkPrometheus "" "" "" ["Proto"; "SrcAddr"]%string None true false.
Definition tcp : gmap string string := <["Proto":="6"]> {["SrcAddr":="10.0.0.1"]}.
Lemma exported : Forall exported_name (Labels segment).
Proof. repeat constructor; eexists; reflexivity. Qed.
(** Counters by the name of the interface, which ends in the first half of a character. *)
Definition by_interface : Prometheus := mkPrometheus "" "" "" ["SrcIfName"]%string None false false.
Definition garbled : EnrichedFlow := set_SrcIfName (String "B"%char (String "195"%char "")) emptyFlow.
Definition fresh : Exporter vec (gset string) :=
  match Initialize (Labels by_interface) with Ok e => e | _ => mkExporter ∅ ∅ ([], ∅) ([], ∅) ([], ∅) ([], ∅) ([], ∅) [] end.
End witness.
Import witness.


Lemma invalid_label_panics_witness :
  exists cs, body witness.by_interface witness.garbled = Ok (cs, [EOut witness.garbled]) /\ run (Counted <$> cs) witness.fresh = Panic.
Proof.
  apply (invalid_label_panics witness.by_interface witness.garbled witness.fresh); [|reflexivity|reflexivity|].
  - repeat constructor; eexists; reflexivity.
  - intros H. specialize (H "SrcIfName"%string (String "B"%char (String "195"%char "")) eq_refl). discriminate H.
Defined.
