(* ===== verification/Clickhouse.v ===== *)
(** * clickhouse ([segments/output/clickhouse/clickhouse.go])

    The parameters, the row of a flow in the schema flowhouse, and the batches.
    The database is a parameter, the clock readings are arguments. *)

From stdpp Require Import prelude strings list gmap.
From Stdlib Require Import ZArith Lia.
From S2P Require Import Prelude GoStd EnrichedFlow FlowMethods Segment Output.

Record Clickhouse := mkClickhouse { DSN : string; Preset : string; BatchSize : Z }.

Definition New (c : config) : created Clickhouse :=
  if is_empty (cfg c "dsn") then NilSegment
  else
    batch ← (if is_empty (cfg c "batchsize") then Created 1000
             else match strconv.ParseUint 32 (cfg c "batchsize") with
                  | Some n => if n =? 0 then NilSegment else Created n
                  | None => Created 1000
                  end);
    if seqb (gostrings.ToLower (cfg c "preset")) "flowhouse"
    then Created {| DSN := cfg c "dsn"; Preset := gostrings.ToLower (cfg c "preset"); BatchSize := batch |}
    else NilSegment.

(** [net.IPNet] *)
Record IPNet := mkIPNet { IP : net.IP; Mask : net.IPMask }.

(** The columns of the table. *)
Record flow_row := mkrow {
  agent : net.IP; int_in : string; int_out : string; src_ip_addr : net.IP; dst_ip_addr : net.IP;
  src_ip_pfx_addr : net.IP; src_ip_pfx_len : Z; dst_ip_pfx_addr : net.IP; dst_ip_pfx_len : Z;
  nexthop : net.IP; next_asn : Z; src_asn : Z; dst_asn : Z; ip_protocol : Z; src_port : Z; dst_port : Z;
  timestamp : Z; size : Z; packets : Z; samplerate : Z }.

(** Both masks are computed for the other address family and neither is applied:
    the address of the IPNet is the one put in. *)
Definition prefix (msg : EnrichedFlow) (addr : net.IP) (netlen : Z) : net.IP :=
  IP (if pb.IsIPv6 msg then mkIPNet addr (net.CIDRMask netlen (u32 (32 - netlen)))
      else mkIPNet addr (net.CIDRMask netlen (u32 (128 - netlen)))).
Definition valueArgs (msg : EnrichedFlow) (now : Z) : flow_row :=
  {| agent := SamplerAddress msg; int_in := SrcIfDesc msg; int_out := DstIfDesc msg;
     src_ip_addr := SrcAddr msg; dst_ip_addr := DstAddr msg;
     src_ip_pfx_addr := prefix msg (SrcAddr msg) (SrcNet msg); src_ip_pfx_len := u8 (SrcNet msg);
     dst_ip_pfx_addr := prefix msg (DstAddr msg) (DstNet msg); dst_ip_pfx_len := u8 (DstNet msg);
     nexthop := NextHop msg; next_asn := NextHopAs msg; src_asn := SrcAs msg; dst_asn := DstAs msg;
     ip_protocol := u8 (Proto msg); src_port := u16 (SrcPort msg); dst_port := u16 (DstPort msg);
     timestamp := now; size := Bytes msg; packets := Packets msg; samplerate := SamplingRate msg |}.

(** [bulkInsertFlowhouse] when the database takes every row: a row has the time of
    its insertion as timestamp. *)
Definition bulkInsertFlowhouse : list EnrichedFlow -> list (list (Z -> flow_row)) := insert_batch valueArgs.
Definition loop (s : Clickhouse) : list EnrichedFlow -> list EnrichedFlow -> list (list (Z -> flow_row)) * list emit :=
  batch_loop (BatchSize s) valueArgs.

(** ** Theorems *)

(** The clickhouse segment inserts every flow exactly once and in order, in
    batches of exactly the batch size but for the last, and forwards every flow.
    The prefix columns hold the whole addresses: no mask is applied. *)
Theorem clickhouse_inserts (c : config) (s : Clickhouse) (ms : list EnrichedFlow) :
  New c = Created s ->
  exists txs, loop s [] ms = (txs, EOut <$> ms) /\
    concat txs = valueArgs <$> ms /\
    Forall (fun tx => 1 <= zlen tx <= BatchSize s) txs /\
    (forall i tx, txs !! i = Some tx -> (S i < length txs)%nat -> zlen tx = BatchSize s) /\
    Forall (fun r => forall now, src_ip_pfx_addr (r now) = src_ip_addr (r now) /\ dst_ip_pfx_addr (r now) = dst_ip_addr (r now)) (concat txs).
Proof.
  unfold New. destruct (is_empty _); [done|]. intros (batch & Hb & H)%created_bind_inv.
  destruct (seqb _ _); [|done]. injection H as <-.
  assert (1 <= batch) as Hp.
  { destruct (is_empty _); [injection Hb as <-; lia|].
    destruct (strconv.ParseUint 32 _) as [n|] eqn:En; [|injection Hb as <-; lia].
    apply strconv.ParseUint_range in En. unfold in_u in En. destruct (Z.eqb_spec n 0); [done|]. injection Hb as <-. lia. }
  destruct (batch_loop_inserts batch valueArgs ms []) as (txs & E & Hc & Hf & Hi); [done|unfold zlen; cbn; lia|].
  exists txs. split_and!; [exact E|exact Hc|exact Hf|exact Hi|]. rewrite Hc. apply Forall_fmap, Forall_forall. intros m _ now.
  cbn. unfold prefix. by destruct (pb.IsIPv6 m).
Qed.

(** Without a preset the segment is not created, although the documentation gives
    flowhouse as the default. *)
Theorem clickhouse_no_default_preset (c : config) : cfg c "preset" = ""%string -> New c = NilSegment.
Proof.
  intros Hp. unfold New. rewrite Hp. destruct (is_empty _); [done|]. change (seqb (gostrings.ToLower "") "flowhouse") with false.
  destruct (is_empty _); [done|]. destruct (strconv.ParseUint _ _) as [n|]; [|done]. by destruct (n =? 0).
Qed.

(** ** The theorems at work *)
Module witness.
Definition conf : config := {[ "dsn"%string := "clickhouse://h"%string; "preset"%string := "flowhouse"%string; "batchsize"%string := "2"%string ]}.
Definition segment : Clickhouse := match New conf with Created s => s | _ => mkClickhouse "" "" 0 end.
Definition flow : EnrichedFlow := set_SrcAddr (Some [10; 0; 0; 1]) (set_SrcNet 24 emptyFlow).
End witness.

Lemma clickhouse_inserts_witness :
  exists txs, loop witness.segment [] [witness.flow] = (txs, [EOut witness.flow]) /\
    (fun r => src_ip_pfx_addr (r 0)) <$> concat txs = [Some [10; 0; 0; 1]].
Proof.
  destruct (clickhouse_inserts witness.conf witness.segment [witness.flow] eq_refl) as (txs & E & Hc & _).
  exists txs. split; [exact E|]. rewrite Hc. reflexivity.
Defined.

Lemma clickhouse_no_default_preset_witness : New {[ "dsn"%string := "clickhouse://h"%string ]} = NilSegment.
Proof. apply clickhouse_no_default_preset. reflexivity. Defined.
