(* ===== verification/Kafka.v ===== *)
(** * Kafka ([segments/output/kafkaproducer/kafkaproducer.go],
      [segments/input/kafkaconsumer/kafkaconsumer.go],
      [segments/input/kafkaconsumer/handler.go])

    The parameters of both segments, the messages the producer makes, and one
    session of the consumer as a transition system: the goroutine of every claimed
    partition, the segment's loop and its shutdown.  [Group.v] has the whole lifetime,
    with any number of sessions and with the commits of the offsets.  Sarama, TLS and
    the protobuf encodings are parameters. *)

From stdpp Require Import prelude strings list gmap relations.
From Stdlib Require Import ZArith Lia Ascii.
From S2P Require Import Prelude GoStd GoParse EnrichedFlow Legacy Segment Reflect Output.

(** ** Parameters of both *)
Definition bool_parameter (c : config) (key : string) (dflt : bool) : bool :=
  if is_empty (cfg c key) then dflt else default dflt (strconv.ParseBool (cfg c key)).

(** What is set in Sarama's configuration. *)
Record authentication := mkauth { Tls : bool; Auth : bool; User : string; Pass : string }.
(** [CertPool] succeeds, or [log.Panic]; credentials are required with auth. *)
Definition New_auth (CertPool : bool) (c : config) : created authentication :=
  let useTls := bool_parameter c "tls" true in
  let useAuth := bool_parameter c "auth" true in
  if useTls && negb CertPool then Panicked
  else if useAuth && (is_empty (cfg c "user") || is_empty (cfg c "pass")) then NilSegment
  else Created {| Tls := useTls; Auth := useAuth; User := cfg c "user"; Pass := cfg c "pass" |}.

Section kafka.
Context {P : f64.Platform}.
(** [sarama.ParseKafkaVersion] accepts the text. *)
Context (KafkaVersion_ok : string -> bool) (CertPool : bool).
Definition kafka_version (c : config) : string :=
  if is_empty (cfg c "kafka-version") then "" else if KafkaVersion_ok (cfg c "kafka-version") then cfg c "kafka-version" else "".

(** ** kafkaproducer *)
Record KafkaProducer := mkKafkaProducer {
  p_Server : string; p_Topic : string; TopicSuffix : string; p_auth : authentication; p_Legacy : bool; p_KafkaVersion : string }.

Definition suffix_kind (k : kind) : bool := match k with KString | KUint32 | KUint64 => true | _ => false end.
(** The unexported fields have none of the accepted types. *)
Definition New_suffix (c : config) : created string :=
  if is_empty (cfg c "topicsuffix") then Created ""%string
  else match FieldByName (cfg c "topicsuffix") with
       | Exported d => if suffix_kind (fd_kind d) then Created (cfg c "topicsuffix") else NilSegment
       | _ => NilSegment
       end.
Definition New_producer (c : config) : created KafkaProducer :=
  if is_empty (cfg c "server") || is_empty (cfg c "topic") then NilSegment
  else
    auth ← New_auth CertPool c;
    suffix ← New_suffix c;
    Created {| p_Server := cfg c "server"; p_Topic := cfg c "topic"; TopicSuffix := suffix; p_auth := auth;
               p_Legacy := bool_parameter c "legacy" false; p_KafkaVersion := kafka_version c |}.

(** The encodings: of a legacy message, and the length-delimited one of a
    ProtoProducerMessage. *)
Class Encoding : Type := {
  Marshal : LegacyEnrichedFlow.t -> option (list Z);
  Unmarshal : list Z -> option LegacyEnrichedFlow.t;
  (** [protodelim.MarshalTo(buf, m)]: what it appends to the buffer, and whether it succeeds. *)
  MarshalTo : EnrichedFlow -> list Z * bool;
  UnmarshalFrom : list Z -> option EnrichedFlow;
}.
Context `{Encoding}.

(** [ProtoProducerMessage.MarshalBinary]; its callers ignore the bytes of an error. *)
Definition MarshalBinary (m : EnrichedFlow) : option (list Z) :=
  let '(written, ok) := MarshalTo m in
  let buf := [] ++ written in
  if ok then Some buf else None.

Record ProducerMessage := mkProducerMessage { Topic : string; Value : list Z }.

(** [None]: a field of another type, which shuts the pipeline down. *)
Definition topic_of (segment : KafkaProducer) (msg : EnrichedFlow) : option string :=
  if is_empty (TopicSuffix segment) then Some (p_Topic segment)
  else
    d ← find_field (TopicSuffix segment);
    suffix ← match fd_get d msg with
             | VUint32 n | VUint64 n => Some (strconv.FormatUint n)
             | VString s => Some s
             | _ => None
             end;
    Some (p_Topic segment ++ "-" ++ suffix)%string.

(** The body of the loop on a flow that was just sent on Out: the flow as the
    segment leaves it (the next segment holds the same pointer), the messages
    produced, and whether the loop goes on. *)
Definition produce (segment : KafkaProducer) (msg : EnrichedFlow) : EnrichedFlow * list ProducerMessage * bool :=
  let '(msg, binary) := if p_Legacy segment
                        then let '(msg, legacyFlow) := ConvertToLegacyEnrichedFlow msg in (msg, Marshal legacyFlow)
                        else let msg := SyncMissingTimeStamps msg in (msg, MarshalBinary msg) in
  match binary with
  | None => (msg, [], true)
  | Some binary =>
      match topic_of segment msg with
      | Some t => (msg, [mkProducerMessage t binary], true)
      | None => (msg, [], false)
      end
  end.
Fixpoint Run_producer (segment : KafkaProducer) (ms : list EnrichedFlow) : list emit * list ProducerMessage :=
  match ms with
  | [] => ([], [])
  | msg :: ms =>
      let '(_, produced, continue) := produce segment msg in
      if (continue : bool)
      then let '(es, ps) := Run_producer segment ms in (EOut msg :: es, produced ++ ps)
      else ([EOut msg], produced)
  end.

(** ** kafkaconsumer *)
Inductive offset : Type := OffsetNewest | OffsetOldest.
Record KafkaConsumer := mkKafkaConsumer {
  c_Server : string; c_Topic : string; Group : string; c_auth : authentication; Legacy : bool;
  c_KafkaVersion : string; StartAt : offset; Timeout : Z; GroupStrategies : list string }.

Definition strategies : list string := ["sticky"; "roundrobin"; "range"]%string.
Definition New_strategies (c : config) : list string :=
  if is_empty (cfg c "strategy") then ["sticky"%string]
  else List.filter (fun s => bool_decide (s ∈ strategies)) (gostrings.Split (cfg c "strategy") ",").
Definition New_consumer (c : config) : created KafkaConsumer :=
  if is_empty (cfg c "server") || is_empty (cfg c "topic") || is_empty (cfg c "group") then NilSegment
  else
    auth ← New_auth CertPool c;
    Created {| c_Server := cfg c "server"; c_Topic := cfg c "topic"; Group := cfg c "group"; c_auth := auth;
               Legacy := bool_parameter c "legacy" false; c_KafkaVersion := kafka_version c;
               StartAt := if seqb (gostrings.ToLower (cfg c "startat")) "oldest" then OffsetOldest else OffsetNewest;
               Timeout := default (15 * time.Second) (time.ParseDuration (cfg c "timeout"));
               GroupStrategies := New_strategies c |}.

(** A message that does not decode is skipped. *)
Definition decode (legacy : bool) (value : list Z) : option EnrichedFlow :=
  if legacy then ConvertToEnrichedFlow <$> Unmarshal value else UnmarshalFrom value.

(** *** A session

    The goroutine of a claim: in its select, sending a flow to the segment, or
    returned. *)
Inductive phase : Type := Selecting | Handing (m : EnrichedFlow) | ClaimDone.
Record claim := mkclaim { messages : list (list Z); claims : phase }.
(** The segment: in its select, sending on Out, waiting for the handler after
    handlerCancel, returned. *)
Inductive runner : Type := Looping | Forwarding (m : EnrichedFlow) | Stopping | Returned.
Record state := mkstate {
  input : list EnrichedFlow; sessions : list claim; runs : runner;
  marked : list (list Z); out : list EnrichedFlow; panicked : bool }.
Definition start (ms : list EnrichedFlow) (partitions : list (list (list Z))) : state :=
  mkstate ms ((fun l => mkclaim l Selecting) <$> partitions) Looping [] [] false.

Definition cancelled (r : runner) : bool := match r with Stopping | Returned => true | _ => false end.

(** After the context is done Sarama closes the channel of messages, whose zero
    value, a nil message, the select may take as well: its Value is read. *)
Inductive step (segment : KafkaConsumer) : state -> state -> Prop :=
  | step_message ms cs i l v r k o :
      cs !! i = Some (mkclaim (v :: l) Selecting) ->
      step segment (mkstate ms cs r k o false)
        (mkstate ms (<[i := mkclaim l (match decode (Legacy segment) v with Some m => Handing m | None => Selecting end)]> cs) r
           (if Legacy segment then k ++ [v] else k) o false)
  | step_flow ms cs i l m k o :
      cs !! i = Some (mkclaim l (Handing m)) ->
      step segment (mkstate ms cs Looping k o false) (mkstate ms (<[i := mkclaim l Selecting]> cs) (Forwarding m) k o false)
  | step_done ms cs i l r k o :
      cs !! i = Some (mkclaim l Selecting) -> cancelled r = true ->
      step segment (mkstate ms cs r k o false) (mkstate ms (<[i := mkclaim l ClaimDone]> cs) r k o false)
  | step_nil ms cs i r k o :
      cs !! i = Some (mkclaim [] Selecting) -> cancelled r = true ->
      step segment (mkstate ms cs r k o false) (mkstate ms cs r k o true)
  | step_in m ms cs k o : step segment (mkstate (m :: ms) cs Looping k o false) (mkstate ms cs (Forwarding m) k o false)
  | step_forward ms cs m k o : step segment (mkstate ms cs (Forwarding m) k o false) (mkstate ms cs Looping k (o ++ [m]) false)
  | step_close cs k o : step segment (mkstate [] cs Looping k o false) (mkstate [] cs Stopping k o false)
  | step_shutdown ms cs k o : step segment (mkstate ms cs Looping k o false) (mkstate ms cs Stopping k o false)
  | step_return ms cs k o :
      Forall (fun c => claims c = ClaimDone) cs ->
      step segment (mkstate ms cs Stopping k o false) (mkstate ms cs Returned k o false).

(** *** The connection loop

    The rounds of connectionRetryLoop: the context was cancelled before, the
    session ended without an error (a rebalance), or it failed, after which the
    retry interval elapses, Close aborts, or the context is cancelled. *)
Inductive waiting : Type := Elapsed | ShutdownTaken | ContextDone.
Inductive round : Type := CancelledBefore | Rebalanced | Failed (w : waiting).
Inductive connection : Type := Connecting (retries : Z) | LoopReturned | Aborted | Fatal.
Definition maxRetries : Z := 12.
Fixpoint connectionRetryLoop (retries : Z) (rounds : list round) : connection :=
  match rounds with
  | [] => Connecting retries
  | CancelledBefore :: _ => LoopReturned
  | Rebalanced :: rounds => connectionRetryLoop retries rounds
  | Failed w :: rounds =>
      if retries <? maxRetries
      then match w with
           | Elapsed => connectionRetryLoop (retries + 1) rounds
           | ShutdownTaken => Aborted
           | ContextDone => LoopReturned
           end
      else Fatal
  end.
Definition is_failed (r : round) : bool := match r with Failed _ => true | _ => false end.
Definition uninterrupted (rounds : list round) : Prop := Forall (fun r => r = Rebalanced \/ r = Failed Elapsed) rounds.
Lemma retry_spec retries rounds : uninterrupted rounds -> 0 <= retries <= maxRetries ->
  connectionRetryLoop retries rounds =
  if retries + zlen (List.filter is_failed rounds) <=? maxRetries
  then Connecting (retries + zlen (List.filter is_failed rounds)) else Fatal.
Proof.
  intros Hu. revert retries. induction Hu as [|r rounds Hr Hu IH]; intros retries Hn.
  - cbn [List.filter]. unfold zlen. cbn. rewrite Z.add_0_r. by destruct (Z.leb_spec retries maxRetries); [|lia].
  - destruct Hr as [-> | ->]; cbn [connectionRetryLoop List.filter is_failed]; [by apply IH|].
    assert (zlen (Failed Elapsed :: List.filter is_failed rounds) = 1 + zlen (List.filter is_failed rounds)) as -> by (unfold zlen; cbn [length]; lia).
    pose proof (zlen_nonneg (List.filter is_failed rounds)). rewrite Z.add_assoc.
    destruct (Z.ltb_spec retries maxRetries); [apply IH; lia|]. by destruct (Z.leb_spec (retries + 1 + zlen (List.filter is_failed rounds)) maxRetries); [lia|].
Qed.
End kafka.

(** ** Theorems *)

(** *** The producer *)
Section producer.
Context {P : f64.Platform} `{Encoding}.

(** The flow after the segment has filled in its timestamps, and its encoding. *)
Definition encoded (s : KafkaProducer) (msg : EnrichedFlow) : option (list Z) :=
  if p_Legacy s then Marshal (ConvertToLegacyEnrichedFlow msg).2 else MarshalBinary (SyncMissingTimeStamps msg).
Definition message_of (s : KafkaProducer) (msg : EnrichedFlow) : option ProducerMessage :=
  binary ← encoded s msg;
  Some (mkProducerMessage (p_Topic s ++ match find_field (TopicSuffix s) with
                                       | Some d => "-" ++ column_text d (SyncMissingTimeStamps msg)
                                       | None => "" end) binary).

Definition good_suffix (suffix : string) : Prop :=
  suffix = ""%string \/ exists d, find_field suffix = Some d /\ d ∈ fields /\ suffix_kind (fd_kind d) = true.
Lemma New_suffix_good c suffix : New_suffix c = Created suffix -> good_suffix suffix.
Proof.
  unfold New_suffix. destruct (is_empty _); [by intros [= <-]; left|]. unfold FieldByName.
  destruct (find_field _) as [d|] eqn:E; [|by destruct (bool_decide _)]. destruct (suffix_kind _) eqn:Ek; [|done].
  intros [= <-]. right. exists d. split_and!; [done| |done]. by apply find_field_Some in E as [? _].
Qed.

Lemma is_empty_eq x : is_empty x = true -> x = ""%string.
Proof. by destruct x. Qed.
Lemma produce_message s msg : good_suffix (TopicSuffix s) ->
  produce s msg = (SyncMissingTimeStamps msg, option_list (message_of s msg), true).
Proof.
  intros Hg. unfold produce, message_of, encoded.
  assert (forall m, topic_of s m = Some (p_Topic s ++ match find_field (TopicSuffix s) with
    | Some d => "-" ++ column_text d m | None => "" end)%string) as Ht.
  { intros m. unfold topic_of. destruct Hg as [->|(d & E & Hd & Hk)]; [cbn; by rewrite gostrings.string_app_nil_r|].
    rewrite E. cbn [mbind option_bind].
    destruct (is_empty (TopicSuffix s)) eqn:Ee; [by rewrite (is_empty_eq _ Ee) in E|].
    pose proof (get_kind d m Hd) as Hv. unfold column_text. by destruct (fd_kind d), (fd_get d m). }
  destruct (p_Legacy s); cbn; [destruct (Marshal _)|destruct (MarshalBinary _)]; cbn; by rewrite ?Ht.
Qed.

Lemma Run_producer_messages s ms : good_suffix (TopicSuffix s) -> Run_producer s ms = (EOut <$> ms, omap (message_of s) ms).
Proof.
  intros Hg. induction ms as [|m ms IH]; [done|]. cbn [Run_producer]. rewrite (produce_message s m Hg), IH. cbn.
  by destruct (message_of s m).
Qed.

(** Every flow is forwarded, and every flow that can be encoded is produced
    exactly once and in order, to the topic or, with a suffix field, to the topic
    with a dash and the text of that field; the pipeline is never shut down. *)
Theorem producer_messages (KafkaVersion_ok : string -> bool) (CertPool : bool) (c : config) (s : KafkaProducer) (ms : list EnrichedFlow) :
  New_producer KafkaVersion_ok CertPool c = Created s -> Run_producer s ms = (EOut <$> ms, omap (message_of s) ms).
Proof.
  unfold New_producer. destruct (_ || _); [done|]. intros (auth & _ & (suffix & Hs & E)%created_bind_inv)%created_bind_inv.
  apply Run_producer_messages. injection E as <-. by apply (New_suffix_good c).
Qed.

(** The encoding the protobuf library gives the legacy message of a value, which
    need not be the encoding it was read from. *)
Definition reencoded (value : list Z) : option (list Z) := l ← Unmarshal value; Marshal l.

Lemma message_of_decoded s value m : p_Legacy s = true -> TopicSuffix s = ""%string ->
  decode true value = Some m -> message_of s m = mkProducerMessage (p_Topic s) <$> reencoded value.
Proof.
  intros Hl Hs. unfold decode, reencoded, message_of, encoded. rewrite Hl, Hs.
  destruct (Unmarshal value) as [l|]; [|done]. intros [= <-]. rewrite legacy_back. cbn.
  by rewrite gostrings.string_app_nil_r.
Qed.

(** C36. Relaying a legacy topic: the messages a legacy consumer takes from a
    partition, in whatever valid encoding, are decoded, and a legacy producer
    without a suffix field produces for each that decodes, in order, one message
    to its topic, whose value is the producer's own encoding of the same legacy
    message.  So whoever reads the second topic gets the same flows in the same
    order, if the protobuf library can encode and decode again what it decoded. *)
Theorem kafka_relay (s : KafkaProducer) (values : list (list Z)) :
  p_Legacy s = true -> TopicSuffix s = ""%string ->
  (forall value l, value ∈ values -> Unmarshal value = Some l ->
    exists value', Marshal l = Some value' /\ Unmarshal value' = Some l) ->
  exists produced, Run_producer s (omap (decode true) values) = (EOut <$> omap (decode true) values, produced) /\
    produced = mkProducerMessage (p_Topic s) <$> omap reencoded values /\
    omap (decode true) (Value <$> produced) = omap (decode true) values.
Proof.
  intros Hl Hs Hlaw. eexists. split_and!; [by apply Run_producer_messages; left|..].
  - induction values as [|v vs IH]; [done|].
    specialize (IH ltac:(intros v0 l Hv; apply Hlaw; by right)).
    cbn [omap list_omap]. destruct (decode true v) as [m|] eqn:E; cbn [omap list_omap].
    + rewrite (message_of_decoded s v m Hl Hs E), IH. by destruct (reencoded v).
    + rewrite IH. unfold decode in E. unfold reencoded. by destruct (Unmarshal v).
  - induction values as [|v vs IH]; [done|].
    specialize (IH ltac:(intros v0 l Hv; apply Hlaw; by right)).
    destruct (Unmarshal v) as [l|] eqn:E; [|].
    + destruct (Hlaw v l ltac:(by left) E) as (v' & Em & Eu).
      assert (decode true v = Some (ConvertToEnrichedFlow l)) as Ed by (unfold decode; by rewrite E).
      cbn [omap list_omap]. rewrite Ed. cbn [omap list_omap]. rewrite (message_of_decoded s v _ Hl Hs Ed).
      unfold reencoded. rewrite E. cbn. rewrite Em. cbn. unfold decode at 1. rewrite Eu. cbn. f_equal. exact IH.
    + assert (decode true v = None) as Ed by (unfold decode; by rewrite E). cbn [omap list_omap]. rewrite Ed. exact IH.
Qed.
End producer.

(** *** The consumer *)
Section consumer.
Context {P : f64.Platform} `{Encoding} (segment : KafkaConsumer).

(** Where the flows are: received and being handed over, or to be decoded. *)
Definition decoded (values : list (list Z)) : list EnrichedFlow := omap (decode (Legacy segment)) values.
Definition part (c : claim) : list EnrichedFlow :=
  match claims c with Handing m => [m] | _ => [] end ++ decoded (messages c).
Definition everything (st : state) : list EnrichedFlow :=
  out st ++ match runs st with Forwarding m => [m] | _ => [] end ++ concat (part <$> sessions st) ++ input st.
Definition unread (st : state) : list (list Z) := concat (messages <$> sessions st).

Lemma consumer_step_everything st st' : step segment st st' -> everything st' ≡ₚ everything st.
Proof.
  unfold everything. destruct 1 as [ms cs i l v r k o Hi|ms cs i l m k o Hi|ms cs i l r k o Hi Hr|ms cs i r k o Hi Hr|m ms cs k o|ms cs m k o|cs k o|ms cs k o|ms cs k o Hd];
    cbn [out runs sessions input]; rewrite <- ?app_assoc; try solve_perm.
  - pose proof (concat_update part cs i _ (mkclaim l (match decode (Legacy segment) v with Some m => Handing m | None => Selecting end)) [] [] Hi) as Hc.
    rewrite !app_nil_r in Hc. rewrite Hc; [done|]. unfold part, decoded. cbn. by destruct (decode _ v).
  - pose proof (concat_update part cs i _ (mkclaim l Selecting) [m] [] Hi) as Hc. rewrite !app_nil_r in Hc.
    rewrite <- Hc; [solve_perm|]. unfold part. cbn. solve_perm.
  - pose proof (concat_update part cs i _ (mkclaim l ClaimDone) [] [] Hi) as Hc. rewrite !app_nil_r in Hc. by rewrite Hc.
Qed.

Lemma step_marked st st' : step segment st st' ->
  if Legacy segment then marked st' ++ unread st' ≡ₚ marked st ++ unread st else marked st' = marked st.
Proof.
  unfold unread. destruct 1 as [ms cs i l v r k o Hi|ms cs i l m k o Hi|ms cs i l r k o Hi Hr|ms cs i r k o Hi Hr|m ms cs k o|ms cs m k o|cs k o|ms cs k o|ms cs k o Hd];
    cbn [marked sessions]; destruct (Legacy segment) eqn:El; try done.
  - pose proof (concat_update messages cs i _ (mkclaim l (match decode true v with Some m => Handing m | None => Selecting end)) [v] [] Hi) as Hc.
    rewrite !app_nil_r in Hc. rewrite <- Hc; [solve_perm|]. cbn. solve_perm.
  - pose proof (concat_update messages cs i _ (mkclaim l Selecting) [] [] Hi) as Hc. rewrite !app_nil_r in Hc. by rewrite Hc.
  - pose proof (concat_update messages cs i _ (mkclaim l ClaimDone) [] [] Hi) as Hc. rewrite !app_nil_r in Hc. by rewrite Hc.
Qed.

Lemma start_parts ms partitions :
  everything (start ms partitions) = decoded (concat partitions) ++ ms /\ unread (start ms partitions) = concat partitions.
Proof.
  unfold everything, unread, start, decoded. cbn. split; [f_equal|]; induction partitions as [|p ps IH]; try done; cbn.
  - by rewrite IH, omap_app.
  - by rewrite IH.
Qed.
End consumer.

(** Whatever the interleaving of the partitions and of the input: at any moment
    the flows sent on Out, under way and still to come are, as a multiset, those of
    the input and those the messages decode to.  Legacy messages are marked when
    they are taken; otherwise no message is ever marked as consumed. *)
Theorem consumer_conserves {P : f64.Platform} `{Encoding} (segment : KafkaConsumer) (ms : list EnrichedFlow) (partitions : list (list (list Z))) (st : state) :
  rtc (step segment) (start ms partitions) st ->
  everything segment st ≡ₚ decoded segment (concat partitions) ++ ms /\
  (if Legacy segment then marked st ++ unread st ≡ₚ concat partitions else marked st = []).
Proof.
  intros Hs. destruct (start_parts segment ms partitions) as [Ee Eu]. rewrite <- Ee, <- Eu. clear Ee Eu.
  change ([] : list (list Z)) with (marked (start ms partitions)).
  change (unread (start ms partitions)) with (marked (start ms partitions) ++ unread (start ms partitions)).
  induction Hs as [st|st1 st2 st3 Hs _ [IH1 IH2]]; [by destruct (Legacy segment)|].
  pose proof (consumer_step_everything segment st1 st2 Hs) as E1. pose proof (step_marked segment st1 st2 Hs) as E2.
  split; [by rewrite IH1|]. destruct (Legacy segment); [by rewrite IH2|congruence].
Qed.

(** The shutdown can hang: when the input ends while a partition's goroutine hands
    over a flow, nobody receives it any more, the goroutine does not see the
    cancelled context, and the segment waits for it forever. *)
Theorem consumer_shutdown_hangs {P : f64.Platform} `{Encoding} (segment : KafkaConsumer) (value : list Z) (m : EnrichedFlow) :
  decode (Legacy segment) value = Some m ->
  exists st, rtc (step segment) (start [] [[value]]) st /\ runs st = Stopping /\ out st = [] /\ panicked st = false /\
    ~ exists st', step segment st st'.
Proof.
  intros Hd. eexists. split.
  - eapply rtc_l; [by apply (step_message segment _ _ 0%nat [] value)|]. eapply rtc_l; [apply step_close|]. apply rtc_refl.
  - rewrite Hd. cbn. split_and!; [done..|]. intros [st' Hst].
    inversion Hst as [? ? i ? ? ? ? ? Hi| |? ? i ? ? ? ? Hi|? ? i ? ? ? Hi| | | | |? ? ? ? Hall]; subst;
      try (destruct i as [|[|]]; cbn in Hi; congruence). apply Forall_cons in Hall as [Hc _]. done.
Qed.

(** It can panic too: once the context is cancelled the nil message of the closed
    channel may be taken. *)
Theorem consumer_nil_panics {P : f64.Platform} `{Encoding} (segment : KafkaConsumer) (ms : list EnrichedFlow) :
  exists st, rtc (step segment) (start ms [[]]) st /\ panicked st = true /\ out st = ms.
Proof.
  assert (forall o, rtc (step segment) (mkstate ms [mkclaim [] Selecting] Looping [] o false)
    (mkstate [] [mkclaim [] Selecting] Looping [] (o ++ ms) false)) as Hp.
  { induction ms as [|m ms IH]; intros o; [rewrite app_nil_r; apply rtc_refl|].
    eapply rtc_l; [apply step_in|]. eapply rtc_l; [apply step_forward|].
    replace (o ++ m :: ms) with ((o ++ [m]) ++ ms) by by rewrite <- app_assoc. apply IH. }
  eexists. split.
  - etrans; [apply (Hp [])|]. eapply rtc_l; [apply step_close|].
    eapply rtc_l; [by apply (step_nil segment _ _ 0%nat)|]. apply rtc_refl.
  - done.
Qed.

(** The thirteenth failure of the process's lifetime ends it, however many sessions
    were established and lasted in between: a success does not reset the count. *)
Theorem consumer_retries (rounds : list round) :
  uninterrupted rounds -> connectionRetryLoop 0 rounds = Fatal <-> 13 <= zlen (List.filter is_failed rounds).
Proof.
  intros Hu. rewrite retry_spec by (done || (unfold maxRetries; lia)). rewrite Z.add_0_l. unfold maxRetries.
  destruct (Z.leb_spec (zlen (List.filter is_failed rounds)) 12); split; (done || (intros; lia)).
Qed.

(** ** The theorems at work *)
Module witness.
#[export] Instance platform : f64.Platform := f64.amd64.
(** An encoding of the byte counter alone. *)
Definition flow (n : Z) : EnrichedFlow := set_Bytes n emptyFlow.
Definition legacy (n : Z) : LegacyEnrichedFlow.t := enriched_fields (flow n).
#[export] Instance encoding : Encoding := {|
  Marshal := fun l => Some [LegacyEnrichedFlow.Bytes l];
  Unmarshal := fun v => match v with [n] => Some (legacy n) | [_; n] => Some (legacy n) | _ => None end;
  MarshalTo := fun m => if Bytes m =? 0 then ([], false) else ([Bytes m], true);
  UnmarshalFrom := fun v => match v with [n] => Some (flow n) | _ => None end;
|}.
Definition conf : config :=
  {[ "server"%string := "kafka:9092"%string; "topic"%string := "customer-"%string; "topicsuffix"%string := "Bytes"%string; "auth"%string := "false"%string ]}.
Definition producer : KafkaProducer :=
  match New_producer (fun _ => true) true conf with Created s => s | _ => mkKafkaProducer "" "" "" (mkauth true true "" "") false "" end.
Definition relay : KafkaProducer := mkKafkaProducer "kafka:9092" "flows" "" (mkauth true false "" "") true "".
Definition consumer : KafkaConsumer := mkKafkaConsumer "kafka:9092" "flows" "g" (mkauth true false "" "") true "" OffsetNewest 0 [].
End witness.

(** The topic has two dashes; a flow that cannot be encoded is not produced. *)
Lemma producer_messages_witness :
  @Run_producer witness.platform witness.encoding witness.producer [witness.flow 5; witness.flow 0] =
  ([EOut (witness.flow 5); EOut (witness.flow 0)], [mkProducerMessage "customer--5" [5]]).
Proof.
  rewrite (@producer_messages witness.platform witness.encoding (fun _ => true) true witness.conf witness.producer
    [witness.flow 5; witness.flow 0] eq_refl). vm_compute. reflexivity.
Defined.

(** The second message repeats the field, of which the last one counts, and is
    shorter on the second topic; the third is not a message. *)
Lemma kafka_relay_witness :
  exists produced, (@Run_producer witness.platform witness.encoding witness.relay
      (omap (@decode witness.platform witness.encoding true) [[5]; [7; 9]; []])).2 = produced /\
    produced = [mkProducerMessage "flows" [5]; mkProducerMessage "flows" [9]].
Proof.
  destruct (@kafka_relay witness.platform witness.encoding witness.relay [[5]; [7; 9]; []] eq_refl eq_refl) as (produced & E & Hp & _).
  - intros value l _ E. cbn in E. destruct value as [|a [|b [|]]]; try done; injection E as <-; eexists; split; reflexivity.
  - exists produced. rewrite E. split; [reflexivity|]. rewrite Hp. vm_compute. reflexivity.
Defined.

Lemma consumer_conserves_witness :
  @everything witness.platform witness.encoding witness.consumer
    (mkstate [] [mkclaim [] (Handing (@ConvertToEnrichedFlow witness.platform (witness.legacy 5)))] (Forwarding (witness.flow 7)) [[5]] [] false)
  ≡ₚ [@ConvertToEnrichedFlow witness.platform (witness.legacy 5)] ++ [witness.flow 7].
Proof.
  apply (@consumer_conserves witness.platform witness.encoding witness.consumer [witness.flow 7] [[[5]]]).
  eapply rtc_l; [apply step_in|].
  eapply rtc_l; [apply (@step_message witness.platform witness.encoding witness.consumer _ _ 0%nat [] [5]); reflexivity|]. apply rtc_refl.
Defined.

Lemma consumer_shutdown_hangs_witness :
  exists st, rtc (@step witness.platform witness.encoding witness.consumer) (start [] [[[5]]]) st /\ runs st = Stopping /\
    ~ exists st', @step witness.platform witness.encoding witness.consumer st st'.
Proof.
  destruct (@consumer_shutdown_hangs witness.platform witness.encoding witness.consumer [5] (@ConvertToEnrichedFlow witness.platform (witness.legacy 5)) eq_refl)
    as (st & Hs & Hr & _ & _ & Hn).
  exists st. exact (conj Hs (conj Hr Hn)).
Defined.

Lemma consumer_retries_witness :
  connectionRetryLoop 0 (concat (replicate 13 [Failed Elapsed; Rebalanced])) = Fatal.
Proof.
  refine (proj2 (consumer_retries (concat (replicate 13 [Failed Elapsed; Rebalanced])) _) _); [|vm_compute; discriminate].
  apply Forall_concat, Forall_replicate. repeat apply List.Forall_cons; try apply List.Forall_nil; auto.
Defined.
