(* ===== verification/Group.v ===== *)
(** * The Kafka consumer over its lifetime
      ([segments/input/kafkaconsumer/kafkaconsumer.go],
      [segments/input/kafkaconsumer/handler.go])

    [Kafka.v] has one session.  Here the connection loop runs one after the
    other, with Setup, the goroutines of the claims and Cleanup of each, its
    retries in between, beside [Run] with its first wait and beside [Close].

    Sarama and the brokers are the environment: a session claims some of the
    partitions, from the offsets committed, and the offsets of the marked messages
    are committed now and then and at the end of a session.  With [faults] these
    commits may fail, and the other members of the group take messages: at any
    time, for a consumer that is considered dead goes on with its claims.  Without
    [faults] the consumer is the only member and the commits at the end of the
    sessions succeed. *)

From stdpp Require Import prelude strings list gmap relations.
From Stdlib Require Import ZArith Lia.
From S2P Require Import Prelude GoStd GoParse EnrichedFlow Legacy Segment Kafka.

(** The connection loop: before or in Consume, in Setup at its send on ready,
    in a session ([ending] when the group has ended it), between two attempts,
    sending false on ready, returned. *)
Inductive conn : Type :=
  | Connecting | SettingUp | InSession (ending : bool) (cs : list claim) | Retrying | Aborting | LoopReturned.
(** Run: before the first value of ready, then as in [Kafka.v]. *)
Inductive runner : Type := Await | Looping | Forwarding (m : EnrichedFlow) | Stopping | Returned.
(** Close: not called, at its send on shutdown, and returned, with shutdown closed. *)
Inductive closer : Type := NotCalled | Sending | Closed.

(** [uncommitted] is what follows the committed offset of each partition,
    [elsewhere] what other members have taken. *)
Record state := mkstate {
  input : list EnrichedFlow; close : closer; uncommitted : list (list (list Z));
  connection : conn; retries : Z; runs : runner; out : list EnrichedFlow; elsewhere : list (list Z);
  panicked : bool; exited : bool }.
Definition start (ms : list EnrichedFlow) (logs : list (list (list Z))) : state :=
  mkstate ms NotCalled logs Connecting 0 Await [] [] false false.
(** handlerCancel was called. *)
Definition cancelled (r : runner) : bool := match r with Stopping | Returned => true | _ => false end.

Section group.
Context {P : f64.Platform} `{Encoding} (segment : KafkaConsumer) (faults : bool).

(** A partition at the beginning of a session: it is claimed from the committed
    offset, or not, and then it is as if its claim had returned. *)
Definition assigned (l : list (list Z)) (c : claim) : Prop :=
  messages c = l /\ (claims c = Selecting \/ faults = true /\ claims c = ClaimDone).
(** A commit of marked messages, if any are marked, from what follows the committed
    offset before to what follows it after; and the last one of a session, which is
    successful or not. *)
Definition advances (c : claim) (l l' : list (list Z)) : Prop :=
  l' = l \/ Legacy segment = true /\ messages c `suffix_of` l' /\ l' `suffix_of` l.
Definition commits (c : claim) (l l' : list (list Z)) : Prop :=
  if Legacy segment && negb faults then l' = messages c else advances c l l'.

(** The goroutine of connectionRetryLoop, [Setup] and [Cleanup]; a session ends
    when all its claims have returned, and a failed attempt beyond the last
    ends the process. *)
Inductive connect : state -> state -> Prop :=
  | connect_consume ms x us n r o e : cancelled r = false ->
      connect (mkstate ms x us Connecting n r o e false false) (mkstate ms x us SettingUp n r o e false false)
  | connect_cancelled ms x us n r o e : cancelled r = true ->
      connect (mkstate ms x us Connecting n r o e false false) (mkstate ms x us LoopReturned n r o e false false)
  | connect_fail ms x us n r o e : n < maxRetries ->
      connect (mkstate ms x us Connecting n r o e false false) (mkstate ms x us Retrying (n + 1) r o e false false)
  | connect_fatal ms x us n r o e : maxRetries <= n ->
      connect (mkstate ms x us Connecting n r o e false false) (mkstate ms x us Connecting n r o e false true)
  | connect_retry ms x us n r o e :
      connect (mkstate ms x us Retrying n r o e false false) (mkstate ms x us Connecting n r o e false false)
  | connect_shutdown ms x us n r o e : x <> NotCalled ->
      connect (mkstate ms x us Retrying n r o e false false) (mkstate ms Closed us Aborting n r o e false false)
  | connect_done ms x us n r o e : cancelled r = true ->
      connect (mkstate ms x us Retrying n r o e false false) (mkstate ms x us LoopReturned n r o e false false)
  | connect_rebalance ms x us cs n r o e :
      connect (mkstate ms x us (InSession false cs) n r o e false false)
        (mkstate ms x us (InSession true cs) n r o e false false)
  | connect_commit ms x us us' b cs n r o e : Forall2 (fun p => advances p.1 p.2) (zip cs us) us' ->
      connect (mkstate ms x us (InSession b cs) n r o e false false) (mkstate ms x us' (InSession b cs) n r o e false false)
  | connect_cleanup ms x us us' b cs n r o e : Forall (fun c => claims c = ClaimDone) cs ->
      Forall2 (fun p => commits p.1 p.2) (zip cs us) us' ->
      connect (mkstate ms x us (InSession b cs) n r o e false false) (mkstate ms x us' Connecting n r o e false false).

(** [ConsumeClaim] of the claim of partition [i].  When its session has ended
    the channel of its messages is closed and gives nil. *)
Inductive consume : state -> state -> Prop :=
  | consume_message ms x us b cs i v l n r o e : cs !! i = Some (mkclaim (v :: l) Selecting) ->
      consume (mkstate ms x us (InSession b cs) n r o e false false)
        (mkstate ms x us (InSession b
           (<[i := mkclaim l (match decode (Legacy segment) v with Some m => Handing m | None => Selecting end)]> cs))
           n r o e false false)
  | consume_done ms x us b cs i l n r o e : cs !! i = Some (mkclaim l Selecting) -> b || cancelled r = true ->
      consume (mkstate ms x us (InSession b cs) n r o e false false)
        (mkstate ms x us (InSession b (<[i := mkclaim l ClaimDone]> cs)) n r o e false false)
  | consume_nil ms x us b cs i l n r o e : cs !! i = Some (mkclaim l Selecting) -> b || cancelled r = true ->
      consume (mkstate ms x us (InSession b cs) n r o e false false)
        (mkstate ms x us (InSession b cs) n r o e true false).

(** [Run] and [Close]. *)
Inductive run : state -> state -> Prop :=
  | run_ready ms x us cs n r o e : r = Await \/ r = Looping -> Forall2 assigned us cs ->
      run (mkstate ms x us SettingUp n r o e false false) (mkstate ms x us (InSession false cs) n Looping o e false false)
  | run_not_ready ms x us n r o e : r = Await \/ r = Looping ->
      run (mkstate ms x us Aborting n r o e false false) (mkstate ms x us LoopReturned n Stopping o e false false)
  | run_flow ms x us b cs i l m n o e : cs !! i = Some (mkclaim l (Handing m)) ->
      run (mkstate ms x us (InSession b cs) n Looping o e false false)
        (mkstate ms x us (InSession b (<[i := mkclaim l Selecting]> cs)) n (Forwarding m) o e false false)
  | run_in m ms x us c n o e :
      run (mkstate (m :: ms) x us c n Looping o e false false) (mkstate ms x us c n (Forwarding m) o e false false)
  | run_forward m ms x us c n o e :
      run (mkstate ms x us c n (Forwarding m) o e false false) (mkstate ms x us c n Looping (o ++ [m]) e false false)
  | run_in_closed x us c n o e :
      run (mkstate [] x us c n Looping o e false false) (mkstate [] x us c n Stopping o e false false)
  | run_shutdown ms x us c n o e : x <> NotCalled ->
      run (mkstate ms x us c n Looping o e false false) (mkstate ms Closed us c n Stopping o e false false)
  | run_return ms x us n o e :
      run (mkstate ms x us LoopReturned n Stopping o e false false) (mkstate ms x us LoopReturned n Returned o e false false)
  | run_close ms us c n r o e :
      run (mkstate ms NotCalled us c n r o e false false) (mkstate ms Sending us c n r o e false false).

(** Another member of the group takes messages of a partition, and commits them. *)
Inductive others : state -> state -> Prop :=
  | others_take ms x us c n r o e i k l : us !! i = Some (k ++ l) ->
      others (mkstate ms x us c n r o e false false) (mkstate ms x (<[i := l]> us) c n r o (e ++ k) false false).

Inductive step (st st' : state) : Prop :=
  | step_connect : connect st st' -> step st st'
  | step_consume : consume st st' -> step st st'
  | step_run : run st st' -> step st st'
  | step_others : faults = true -> others st st' -> step st st'.

(** ** Theorems *)

(** *** What the consumer has, and has yet to deliver *)
Definition forwarding (r : runner) : list EnrichedFlow := match r with Forwarding m => [m] | _ => [] end.
Definition under_way (st : state) : list EnrichedFlow :=
  match connection st with
  | InSession _ cs => concat (part segment <$> cs)
  | _ => decoded segment (concat (uncommitted st))
  end.
(** Delivered, under way and still to come, as the sessions go. *)
Definition everything (st : state) : list EnrichedFlow := out st ++ forwarding (runs st) ++ under_way st ++ input st.
(** Delivered, in hand, taken by others, and what follows the committed offsets. *)
Definition handed (c : claim) : list EnrichedFlow := match claims c with Handing m => [m] | _ => [] end.
Definition in_hand (st : state) : list EnrichedFlow :=
  forwarding (runs st) ++ match connection st with InSession _ cs => concat (handed <$> cs) | _ => [] end.
Definition accounted (st : state) : list EnrichedFlow :=
  out st ++ in_hand st ++ decoded segment (elsewhere st) ++ decoded segment (concat (uncommitted st)) ++ input st.

Lemma decoded_app l k : decoded segment (l ++ k) = decoded segment l ++ decoded segment k.
Proof. apply omap_app. Qed.
(** The flows of claims that have returned, and of those of a new session. *)
Lemma done_parts cs : Forall (fun c => claims c = ClaimDone) cs ->
  concat (part segment <$> cs) = decoded segment (concat (messages <$> cs)) /\ concat (handed <$> cs) = [].
Proof.
  intros Hc. induction Hc as [|c cs Hc _ [IH1 IH2]]; [done|]. unfold decoded in *. cbn. rewrite IH1, IH2, omap_app. unfold part, handed. by rewrite Hc.
Qed.
Lemma assigned_parts us cs : Forall2 assigned us cs ->
  concat (part segment <$> cs) = decoded segment (concat us) /\ concat (handed <$> cs) = [] /\ messages <$> cs = us.
Proof.
  intros Hf. induction Hf as [|l c us cs [<- Hc] _ (IH1 & IH2 & IH3)]; [done|]. unfold decoded in *. cbn. rewrite IH1, IH2, IH3, omap_app.
  unfold part, handed. by destruct Hc as [-> | [_ ->]].
Qed.

(** A session has a claim for each partition. *)
Definition aligned (st : state) : Prop :=
  length (uncommitted st) = match connection st with InSession _ cs => length cs | _ => length (uncommitted st) end.
Lemma step_aligned st st' : aligned st -> step st st' -> aligned st'.
Proof.
  unfold aligned. intros Ha Hs. destruct Hs as [Hs|Hs|Hs|_ Hs]; destruct Hs; cbn [connection uncommitted] in *; rewrite ?length_insert; try done.
  - apply Forall2_length in H0. rewrite length_zip in H0. lia.
  - by apply Forall2_length in H1.
Qed.

(** The only member, with the legacy format and commits that succeed. *)
Lemma group_step_everything st st' : Legacy segment = true -> faults = false -> aligned st ->
  step st st' -> everything st' ≡ₚ everything st.
Proof.
  intros Hl Hfa Hlen Hs. unfold aligned, everything, under_way.
  destruct Hs as [Hs|Hs|Hs|]; [| | |congruence]; destruct Hs; cbn [connection uncommitted out runs input forwarding] in *; try done;
    try (rewrite <- ?app_assoc; solve_perm).
  - rewrite (proj1 (done_parts _ H0)). replace us' with (messages <$> cs); [done|].
    unfold commits in H1. rewrite Hl, Hfa in H1. cbn in H1. clear -H1 Hlen. revert us us' Hlen H1.
    induction cs as [|c cs IH]; intros [|u us] us' Hlen Hf; try done; [by inversion Hf|].
    inversion Hf as [|? ? ? ? E Hf']; subst. cbn in *. f_equal. apply (IH us); [by injection Hlen|done].
  - pose proof (concat_update (part segment) cs i _ (mkclaim l (match decode (Legacy segment) v with Some m => Handing m | None => Selecting end)) [] [] H0) as Hc.
    rewrite !app_nil_r in Hc. rewrite Hc; [done|]. unfold part, decoded. cbn. by destruct (decode _ v).
  - pose proof (concat_update (part segment) cs i _ (mkclaim l ClaimDone) [] [] H0) as Hc. rewrite !app_nil_r in Hc. by rewrite Hc.
  - destruct (assigned_parts _ _ H1) as (-> & _ & _). by destruct H0 as [-> | ->].
  - by destruct H0 as [-> | ->].
  - pose proof (concat_update (part segment) cs i _ (mkclaim l Selecting) [m] [] H0) as Hc. rewrite !app_nil_r in Hc.
    rewrite <- Hc; [solve_perm|]. unfold part. cbn. solve_perm.
Qed.

(** Without marked messages and other members the offsets stay. *)
Lemma step_uncommitted st st' : Legacy segment = false -> faults = false -> aligned st -> step st st' -> uncommitted st' = uncommitted st.
Proof.
  intros Hl Hf Ha Hs. assert (forall (cs : list claim) us us', length us = length cs ->
    Forall2 (fun p => advances p.1 p.2) (zip cs us) us' -> us' = us) as Hadv.
  { clear -Hl. intros cs. induction cs as [|c cs IH]; intros [|u us] us' Hlen Hf; try done; [by inversion Hf|].
    inversion Hf as [|? ? ? ? Hu Hf']; subst. cbn in Hlen. f_equal; [by destruct Hu as [|[? _]]; [|congruence]|].
    apply (IH us); [by injection Hlen|done]. }
  unfold aligned in Ha. destruct Hs as [Hs|Hs|Hs|]; [| | |congruence]; destruct Hs; cbn [connection uncommitted] in *; try done.
  - by eapply Hadv.
  - eapply Hadv; [exact Ha|]. unfold commits in H1. by rewrite Hl in H1.
Qed.

(** *** What is accounted for

    In a session [ks] are the messages of each partition that its claim has taken,
    as far as they are not committed. *)
Definition tracked (k : list (list Z)) (c : claim) (l : list (list Z)) : Prop :=
  l `suffix_of` (k ++ messages c) /\ (faults = false -> messages c `suffix_of` l).
Definition covered (all : list EnrichedFlow) (st : state) : Prop :=
  match connection st with
  | InSession _ cs => exists ks, length ks = length cs /\
      Forall2 (fun p l => tracked p.1 p.2 l) (zip ks cs) (uncommitted st) /\
      all ++ decoded segment (concat ks) ⊆+ accounted st
  | _ => all ⊆+ accounted st
  end.

Lemma advance_one k c l l' : tracked k c l -> advances c l l' ->
  exists k', tracked k' c l' /\ decoded segment k' ++ decoded segment l ⊆+ decoded segment k ++ decoded segment l'.
Proof.
  intros [[q Hq] Hf] [->|(_ & [r ->] & [k1 Hk])]; [exists k; split; [split; [by exists q|done]|done]|]. exists r. split; [split; [done|intros _; by eexists]|].
  subst l. rewrite !app_assoc in Hq. apply app_inv_tail in Hq as ->. rewrite !decoded_app.
  transitivity ((decoded segment k1 ++ decoded segment r) ++ decoded segment r ++ decoded segment (messages c)); [apply Permutation_submseteq; solve_perm|].
  rewrite <- !app_assoc. by apply submseteq_inserts_l.
Qed.
Lemma advance_all ks cs : forall us us', length ks = length cs ->
  Forall2 (fun p l => tracked p.1 p.2 l) (zip ks cs) us -> Forall2 (fun p => advances p.1 p.2) (zip cs us) us' ->
  exists ks', length ks' = length cs /\ Forall2 (fun p l => tracked p.1 p.2 l) (zip ks' cs) us' /\
    decoded segment (concat ks') ++ decoded segment (concat us) ⊆+ decoded segment (concat ks) ++ decoded segment (concat us').
Proof.
  revert cs. induction ks as [|k ks IH]; intros [|c cs] us us' Hl Ht Ha; try done.
  - inversion Ht; subst. inversion Ha; subst. by exists [].
  - inversion Ht as [|? u ? us1 Hk Ht']; subst. inversion Ha as [|? u' ? us1' Hu Ha']; subst. cbn [fst snd] in *.
    destruct (advance_one k c u u' Hk Hu) as (k' & Hk' & E1).
    destruct (IH cs us1 us1' ltac:(by injection Hl) Ht' Ha') as (ks' & Hl' & Hks' & E2).
    exists (k' :: ks'). split_and!; [cbn; congruence|by constructor|]. cbn [concat]. rewrite !decoded_app.
    transitivity ((decoded segment k' ++ decoded segment u) ++ (decoded segment (concat ks') ++ decoded segment (concat us1)));
      [apply Permutation_submseteq; solve_perm|].
    etrans; [by apply submseteq_app|]. apply Permutation_submseteq. solve_perm.
Qed.
Lemma commits_advances ks cs us us' : length ks = length cs -> Forall2 (fun p l => tracked p.1 p.2 l) (zip ks cs) us ->
  Forall2 (fun p => commits p.1 p.2) (zip cs us) us' -> Forall2 (fun p => advances p.1 p.2) (zip cs us) us'.
Proof.
  revert cs us us'. induction ks as [|k ks IH]; intros [|c cs] us us' Hl Ht Ha; try done; [by inversion Ha; constructor|].
  inversion Ht as [|? u ? us1 [_ Hf] Ht']; subst. inversion Ha as [|? u' ? us1' Hu Ha']; subst. cbn [fst snd] in *.
  constructor; [|by apply IH; [injection Hl|..]]. unfold commits in Hu. cbn [fst snd].
  destruct (Legacy segment) eqn:El, faults eqn:Ef; cbn in Hu; try exact Hu. subst u'. right. by split_and!; [|done|apply Hf].
Qed.
Lemma assigned_tracked us cs : Forall2 assigned us cs ->
  Forall2 (fun p l => tracked p.1 p.2 l) (zip (replicate (length cs) []) cs) us /\ concat (replicate (length cs) ([] : list (list Z))) = [].
Proof.
  intros Hf. induction Hf as [|l c us cs [<- Hc] _ [IH1 IH2]]; [done|]. cbn. split; [|done]. constructor; [|done]. by split.
Qed.
Lemma tracked_update ks cs us i c c' k' : length ks = length cs -> Forall2 (fun p l => tracked p.1 p.2 l) (zip ks cs) us ->
  cs !! i = Some c -> (exists k, ks !! i = Some k /\ k' ++ messages c' = k ++ messages c) -> messages c' `suffix_of` messages c ->
  Forall2 (fun p l => tracked p.1 p.2 l) (zip (<[i := k']> ks) (<[i := c']> cs)) us.
Proof.
  intros Hl Ht Hc (k & Hk & E) Hs. rewrite <- insert_zip_with.
  assert (zip ks cs !! i = Some (k, c)) as Hz by (rewrite lookup_zip_with, Hk, Hc; done).
  destruct (Forall2_lookup_l _ _ _ _ _ Ht Hz) as (u & Hu & [Hu1 Hu2]). rewrite <- (list_insert_id us i u Hu).
  apply Forall2_insert; [done|]. cbn [fst snd] in *. split; cbn [fst snd]; [by rewrite E|]. intros Hf. etrans; [exact Hs|by apply Hu2].
Qed.

Lemma cancel {A} (a k r u k' u' : list A) : a ++ k ⊆+ r ++ u -> k' ++ u ⊆+ k ++ u' -> a ++ k' ⊆+ r ++ u'.
Proof.
  intros H1 H2. apply (submseteq_app_inv_r _ _ (k ++ u)).
  transitivity ((a ++ k) ++ (k' ++ u)); [apply Permutation_submseteq; solve_perm|].
  etrans; [apply submseteq_app; [exact H1|exact H2]|]. apply Permutation_submseteq. solve_perm.
Qed.
Lemma decoded_concat ks : decoded segment (concat ks) = concat (decoded segment <$> ks).
Proof. induction ks as [|k ks IH]; [done|]. cbn [concat fmap list_fmap]. by rewrite decoded_app, IH. Qed.
Lemma decoded_update ks i k k' d : ks !! i = Some k -> decoded segment k' ≡ₚ decoded segment k ++ d ->
  decoded segment (concat (<[i := k']> ks)) ≡ₚ decoded segment (concat ks) ++ d.
Proof.
  intros Hi E. rewrite !decoded_concat. pose proof (concat_update (decoded segment) ks i k k' [] d Hi) as Hc.
  rewrite !app_nil_r in Hc. by apply Hc.
Qed.
Lemma handed_update cs i c c' d d' : cs !! i = Some c -> handed c' ++ d ≡ₚ handed c ++ d' ->
  concat (handed <$> <[i := c']> cs) ++ d ≡ₚ concat (handed <$> cs) ++ d'.
Proof. apply concat_update. Qed.

(** The commits of a session. *)
Lemma commit_covered all ms x us us' b cs n r o e : Forall2 (fun p => advances p.1 p.2) (zip cs us) us' ->
  covered all (mkstate ms x us (InSession b cs) n r o e false false) ->
  covered all (mkstate ms x us' (InSession b cs) n r o e false false).
Proof.
  intros Ha (ks & Hl & Ht & E). destruct (advance_all ks cs us us' Hl Ht Ha) as (ks' & Hl' & Ht' & E').
  exists ks'. split_and!; [done|done|]. unfold accounted, in_hand in *. cbn [out runs connection elsewhere uncommitted input] in *.
  set (h := forwarding r ++ concat (handed <$> cs)) in *.
  transitivity ((o ++ h ++ decoded segment e ++ ms) ++ decoded segment (concat us')); [|apply Permutation_submseteq; solve_perm].
  apply (cancel _ (decoded segment (concat ks)) _ (decoded segment (concat us))); [|exact E'].
  etrans; [exact E|]. apply Permutation_submseteq. solve_perm.
Qed.
Lemma message_covered all ms x us b cs i v l n r o e : cs !! i = Some (mkclaim (v :: l) Selecting) ->
  covered all (mkstate ms x us (InSession b cs) n r o e false false) ->
  covered all (mkstate ms x us (InSession b
    (<[i := mkclaim l (match decode (Legacy segment) v with Some m => Handing m | None => Selecting end)]> cs)) n r o e false false).
Proof.
  intros Hi (ks & Hl & Ht & E). set (c' := mkclaim l _).
  destruct (lookup_lt_is_Some_2 ks i) as [k Hk]; [rewrite Hl; by eapply lookup_lt_Some|].
  exists (<[i := k ++ [v]]> ks). split_and!; [by rewrite !length_insert| |].
  - apply (tracked_update ks cs us i (mkclaim (v :: l) Selecting)); [done..| |by exists [v]].
    exists k. split; [done|]. cbn. by rewrite <- app_assoc.
  - unfold accounted, in_hand in *. cbn [out runs connection elsewhere uncommitted input] in *.
    rewrite (decoded_update ks i k (k ++ [v]) (decoded segment [v]) Hk) by by rewrite decoded_app.
    pose proof (handed_update cs i _ c' [] (decoded segment [v]) Hi) as Hh. rewrite !app_nil_r in Hh.
    rewrite Hh by (unfold c', handed, decoded; cbn; by destruct (decode _ v)).
    rewrite app_assoc. etrans; [apply submseteq_skips_r, E|]. apply Permutation_submseteq. solve_perm.
Qed.
Lemma claim_covered all ms x us b cs i l q q' n r r' o e : cs !! i = Some (mkclaim l q) ->
  forwarding r' ++ handed (mkclaim l q') ≡ₚ forwarding r ++ handed (mkclaim l q) ->
  covered all (mkstate ms x us (InSession b cs) n r o e false false) ->
  covered all (mkstate ms x us (InSession b (<[i := mkclaim l q']> cs)) n r' o e false false).
Proof.
  intros Hi Hq (ks & Hl & Ht & E). destruct (lookup_lt_is_Some_2 ks i) as [k Hk]; [rewrite Hl; by eapply lookup_lt_Some|].
  exists ks. split_and!; [by rewrite length_insert| |].
  - rewrite <- (list_insert_id ks i k Hk). apply (tracked_update ks cs us i (mkclaim l q)); [done..|by exists k|done].
  - unfold accounted, in_hand in *. cbn [out runs connection elsewhere uncommitted input] in *. etrans; [exact E|].
    apply Permutation_submseteq, Permutation_app_head. rewrite <- !app_assoc, !(app_assoc (forwarding _)). apply Permutation_app_tail.
    assert (handed (mkclaim l q') ++ forwarding r' ≡ₚ handed (mkclaim l q) ++ forwarding r) as Hq'
      by (rewrite (Permutation_app_comm _ (forwarding r')), Hq; apply Permutation_app_comm).
    rewrite (Permutation_app_comm (forwarding r)), (Permutation_app_comm (forwarding r')). symmetry.
    by apply (handed_update cs i (mkclaim l q)).
Qed.
Lemma take_covered all ms x us c n r o e i k l : us !! i = Some (k ++ l) -> faults = true ->
  covered all (mkstate ms x us c n r o e false false) ->
  covered all (mkstate ms x (<[i := l]> us) c n r o (e ++ k) false false).
Proof.
  intros Hi Hf. unfold covered, accounted, in_hand. cbn [out runs connection elsewhere uncommitted input].
  pose proof (decoded_update (<[i := l]> us) i l (k ++ l) (decoded segment k)) as Hu.
  rewrite list_insert_insert_eq, (list_insert_id us i _ Hi) in Hu.
  assert (decoded segment (concat us) ≡ₚ decoded segment (concat (<[i := l]> us)) ++ decoded segment k) as Hu'
    by (apply Hu; [apply list_lookup_insert_eq; by eapply lookup_lt_Some|rewrite decoded_app; solve_perm]). clear Hu.
  assert (forall h, o ++ h ++ decoded segment e ++ decoded segment (concat us) ++ ms ≡ₚ
    o ++ h ++ decoded segment (e ++ k) ++ decoded segment (concat (<[i := l]> us)) ++ ms) as Ep
    by (intros h; rewrite Hu', decoded_app; solve_perm).
  destruct c as [| |b cs| | |]; try (intros E; etrans; [exact E|]; apply Permutation_submseteq, Ep).
  intros (ks & Hl & Ht & E). exists ks. split_and!; [done| |etrans; [exact E|]; apply Permutation_submseteq, Ep].
  destruct (Forall2_lookup_r _ _ _ _ _ Ht Hi) as ([k0 c0] & Hz & [[q Hq] _]).
  rewrite <- (list_insert_id _ i _ Hz). apply Forall2_insert; [done|]. cbn [fst snd] in *.
  split; [exists (q ++ k); cbn [fst snd]; by rewrite Hq, app_assoc|congruence].
Qed.
Lemma step_covered all st st' : covered all st -> step st st' -> covered all st'.
Proof.
  intros Hc Hs. destruct Hs as [Hs|Hs|Hs|Hf Hs]; destruct Hs; try exact Hc.
  - by eapply commit_covered.
  - assert (Hc' := Hc). destruct Hc' as (ks & Hl & Ht & _).
    pose proof (commit_covered all _ _ _ us' _ _ _ _ _ _ (commits_advances ks cs us us' Hl Ht H1) Hc) as (ks' & _ & _ & E).
    unfold covered, accounted, in_hand in *. cbn [out runs connection elsewhere uncommitted input] in *.
    rewrite (proj2 (done_parts cs H0)) in E. etrans; [|exact E]. by apply submseteq_inserts_r.
  - by apply message_covered.
  - by apply (claim_covered all _ _ _ _ _ _ _ Selecting ClaimDone n r).
  - destruct (assigned_tracked _ _ H1) as [Ht El]. exists (replicate (length cs) []). split_and!; [by rewrite length_replicate|done|].
    rewrite El. unfold covered, accounted, in_hand in *. cbn [out runs connection elsewhere uncommitted input] in *.
    rewrite (proj1 (proj2 (assigned_parts _ _ H1))). cbn [decoded omap list_omap]. rewrite app_nil_r.
    by destruct H0 as [-> | ->].
  - by destruct H0 as [-> | ->].
  - apply (claim_covered all _ _ _ _ _ _ _ (Handing m) _ _ Looping); [done|cbn; done|done].
  - unfold covered, accounted, in_hand in *. cbn [out runs connection elsewhere uncommitted input forwarding] in *.
    destruct c as [| |b cs| | |]; try (etrans; [exact Hc|]; apply Permutation_submseteq; solve_perm).
    destruct Hc as (ks & Hl & Ht & E). exists ks. split_and!; [done|done|]. etrans; [exact E|]. apply Permutation_submseteq. solve_perm.
  - unfold covered, accounted, in_hand in *. cbn [out runs connection elsewhere uncommitted input forwarding] in *.
    destruct c as [| |b cs| | |]; try (etrans; [exact Hc|]; apply Permutation_submseteq; solve_perm).
    destruct Hc as (ks & Hl & Ht & E). exists ks. split_and!; [done|done|]. etrans; [exact E|]. apply Permutation_submseteq. solve_perm.
  - by apply take_covered.
Qed.

(** Nothing else is delivered. *)
Definition known (st : state) : list EnrichedFlow := everything st ++ decoded segment (concat (uncommitted st)).
Lemma decoded_in ks d : d ∈ decoded segment (concat ks) <-> exists k, k ∈ ks /\ d ∈ decoded segment k.
Proof.
  induction ks as [|k ks IH]; cbn [concat].
  - split; [intros []%elem_of_nil|intros (? & []%elem_of_nil & _)].
  - rewrite decoded_app, elem_of_app, IH. split.
    + intros [Hd|(k' & Hk & Hd)]; [exists k; split; [left|done]|exists k'; split; [by right|done]].
    + intros (k' & [->|Hk]%elem_of_cons & Hd); [by left|right; by exists k'].
Qed.
Lemma suffix_decoded l k d : l `suffix_of` k -> d ∈ decoded segment l -> d ∈ decoded segment k.
Proof. intros [q ->] Hd. rewrite decoded_app, elem_of_app. by right. Qed.
Lemma part_in cs d : d ∈ decoded segment (concat (messages <$> cs)) -> d ∈ concat (part segment <$> cs).
Proof.
  intros (k & (c & -> & Hc)%list_elem_of_fmap & Hd)%decoded_in. apply list_elem_of_In, in_concat. exists (part segment c).
  split; apply list_elem_of_In; [by apply list_elem_of_fmap_2|]. unfold part. apply elem_of_app. by right.
Qed.
Lemma advances_in cs us us' d : Forall2 (fun p => advances p.1 p.2) (zip cs us) us' ->
  d ∈ decoded segment (concat us') -> d ∈ decoded segment (concat us).
Proof.
  intros Hf (l' & (i & Hi)%list_elem_of_lookup & Hd)%decoded_in. apply decoded_in.
  destruct (Forall2_lookup_r _ _ _ _ _ Hf Hi) as ([c l] & (? & ? & E & _ & Hl)%lookup_zip_with_Some & Ha). injection E as <- <-.
  exists l. split; [by eapply list_elem_of_lookup_2|]. cbn [fst snd] in Ha. destruct Ha as [->|(_ & _ & Hs)]; [done|].
  by eapply suffix_decoded.
Qed.
Lemma commits_in cs us us' d : Forall2 (fun p => commits p.1 p.2) (zip cs us) us' ->
  d ∈ decoded segment (concat us') -> d ∈ concat (part segment <$> cs) \/ d ∈ decoded segment (concat us).
Proof.
  unfold commits. intros Hf Hd. destruct (Legacy segment && negb faults); [left|right; by eapply advances_in].
  apply part_in, decoded_in. apply decoded_in in Hd as (l' & (i & Hi)%list_elem_of_lookup & Hd). exists l'. split; [|done].
  destruct (Forall2_lookup_r _ _ _ _ _ Hf Hi) as ([c l] & (? & ? & E & Hc & _)%lookup_zip_with_Some & ->). injection E as <- <-.
  apply list_elem_of_fmap_2. by eapply list_elem_of_lookup_2.
Qed.
Lemma part_update cs i c c' : cs !! i = Some c -> (forall d, d ∈ part segment c' -> d ∈ part segment c) -> forall d,
  d ∈ concat (part segment <$> <[i := c']> cs) -> d ∈ concat (part segment <$> cs).
Proof.
  intros Hi Hp d Hd. apply list_elem_of_In, in_concat in Hd as (l & Hl & Hd). apply list_elem_of_In, in_concat.
  apply list_elem_of_In in Hd. apply list_elem_of_In, list_elem_of_fmap in Hl as (c0 & -> & Hc0).
  apply list_elem_of_lookup in Hc0 as [j Hj]. destruct (decide (i = j)) as [<-|Hn].
  - rewrite list_lookup_insert_eq in Hj by by eapply lookup_lt_Some. injection Hj as <-.
    exists (part segment c). split; apply list_elem_of_In; [apply list_elem_of_fmap_2; by eapply list_elem_of_lookup_2|by apply Hp].
  - rewrite list_lookup_insert_ne in Hj by done. exists (part segment c0).
    split; apply list_elem_of_In; [apply list_elem_of_fmap_2; by eapply list_elem_of_lookup_2|done].
Qed.
Lemma step_known st st' d : step st st' -> d ∈ known st' -> d ∈ known st.
Proof.
  intros Hs. unfold known, everything, under_way.
  destruct Hs as [Hs|Hs|Hs|Hf Hs]; destruct Hs; cbn [connection uncommitted out runs input forwarding]; try done;
    rewrite ?elem_of_app, ?elem_of_cons, ?elem_of_nil.
  - pose proof (advances_in cs us us' d H0). tauto.
  - pose proof (commits_in cs us us' d H1). tauto.
  - assert (d ∈ concat (part segment <$> <[i := mkclaim l (match decode (Legacy segment) v with Some m => Handing m | None => Selecting end)]> cs) ->
      d ∈ concat (part segment <$> cs)); [|tauto].
    apply (part_update cs i _ _ H0). intros d'. unfold part, decoded. cbn. by destruct (decode _ v).
  - assert (d ∈ concat (part segment <$> <[i := mkclaim l ClaimDone]> cs) -> d ∈ concat (part segment <$> cs)); [|tauto].
    by apply (part_update cs i _ _ H0).
  - rewrite (proj1 (assigned_parts _ _ H1)). destruct H0 as [-> | ->]; cbn [forwarding]; tauto.
  - destruct H0 as [-> | ->]; cbn [forwarding]; tauto.
  - assert (d ∈ concat (part segment <$> <[i := mkclaim l Selecting]> cs) -> d ∈ concat (part segment <$> cs)).
    { apply (part_update cs i _ _ H0). intros d'. unfold part. cbn. rewrite elem_of_cons. tauto. }
    assert (d = m -> d ∈ concat (part segment <$> cs)); [|tauto].
    intros ->. apply list_elem_of_In, in_concat. exists (part segment (mkclaim l (Handing m))).
    split; apply list_elem_of_In; [apply list_elem_of_fmap_2; by eapply list_elem_of_lookup_2|left].
  - tauto.
  - tauto.
  - assert (d ∈ decoded segment (concat (<[i := l]> us)) -> d ∈ decoded segment (concat us)) as Hd.
    { intros Hd. apply decoded_in in Hd as (l' & [j Hj]%list_elem_of_lookup & Hd). apply decoded_in.
      destruct (decide (i = j)) as [<-|Hn].
      - rewrite list_lookup_insert_eq in Hj by by eapply lookup_lt_Some. injection Hj as <-.
        exists (k ++ l). split; [by eapply list_elem_of_lookup_2|]. eapply suffix_decoded; [by exists k|done].
      - rewrite list_lookup_insert_ne in Hj by done. exists l'. split; [by eapply list_elem_of_lookup_2|done]. }
    destruct c; cbn; tauto.
Qed.

(** *** The shutdown *)

(** Setup and the retry loop wait for Run to receive from ready, and a claim for it
    to receive its flow. *)
Definition stuck (st : state) : Prop :=
  match connection st with
  | SettingUp | Aborting => True
  | InSession _ cs => exists i l m, cs !! i = Some (mkclaim l (Handing m))
  | _ => False
  end.

Lemma other_claim (cs : list claim) i j l m l2 q : cs !! i = Some (mkclaim l (Handing m)) -> cs !! j = Some (mkclaim l2 Selecting) ->
  <[j := q]> cs !! i = Some (mkclaim l (Handing m)).
Proof. intros Hi Hj. rewrite list_lookup_insert_ne; [done|congruence]. Qed.
Lemma stuck_step st st' : runs st = Stopping /\ stuck st -> step st st' -> runs st' = Stopping /\ stuck st'.
Proof.
  unfold stuck. intros [Hr Hst] Hs. destruct Hs as [Hs|Hs|Hs|_ Hs]; destruct Hs; cbn [connection runs] in *; try done;
    try (split; [done|]; destruct Hst as (j & l' & m & Hj)).
  - by pose proof (proj1 (Forall_lookup _ _) H0 j _ Hj).
  - exists j, l', m. by eapply other_claim.
  - exists j, l', m. by eapply other_claim.
  - by destruct H0 as [-> | ->].
  - by destruct H0 as [-> | ->].
Qed.

(** Outside of these the claims return one after the other. *)
Lemma claims_return ms x us b n o e cs : Forall (fun c => forall m, claims c <> Handing m) cs ->
  exists cs', rtc step (mkstate ms x us (InSession b cs) n Stopping o e false false)
                  (mkstate ms x us (InSession b cs') n Stopping o e false false) /\
    Forall (fun c => claims c = ClaimDone) cs'.
Proof.
  intros Hc. enough (forall pre, Forall (fun c => claims c = ClaimDone) pre ->
    exists cs', rtc step (mkstate ms x us (InSession b (pre ++ cs)) n Stopping o e false false)
                    (mkstate ms x us (InSession b cs') n Stopping o e false false) /\
      Forall (fun c => claims c = ClaimDone) cs') as Hx by (by apply (Hx [])).
  induction Hc as [|[l q] cs Hq _ IH]; intros pre Hpre; [exists pre; rewrite app_nil_r; by split; [apply rtc_refl|]|].
  destruct (IH (pre ++ [mkclaim l ClaimDone])) as (cs' & Hrun & Hdone).
  { apply Forall_app. split; [done|]. by repeat constructor. }
  rewrite <- app_assoc in Hrun. exists cs'. split; [|done]. destruct q as [|m|]; [|by edestruct Hq|done].
  eapply rtc_l; [|exact Hrun]. apply step_consume.
  replace (pre ++ [mkclaim l ClaimDone] ++ cs) with (<[length pre := mkclaim l ClaimDone]> (pre ++ mkclaim l Selecting :: cs)).
  - apply (consume_done _ _ _ _ _ _ l); [by apply list_lookup_middle|by destruct b].
  - rewrite <- (Nat.add_0_r (length pre)), insert_app_r. done.
Qed.
Lemma not_stuck_claims cs : ~ (exists i l m, cs !! i = Some (mkclaim l (Handing m))) ->
  Forall (fun c => forall m, claims c <> Handing m) cs.
Proof.
  intros Hn. apply Forall_lookup. intros i [l q] Hi m E. simpl in E. subst q. apply Hn. by exists i, l, m.
Qed.
Lemma connecting_returns ms x us n o e : exists st,
  rtc step (mkstate ms x us Connecting n Stopping o e false false) st /\ runs st = Returned.
Proof.
  eexists. split.
  - eapply rtc_l; [by apply step_connect, connect_cancelled|]. eapply rtc_l; [apply step_run, run_return|]. apply rtc_refl.
  - done.
Qed.
Lemma some_commit cs us : exists us', Forall2 (fun p => commits p.1 p.2) (zip cs us) us'.
Proof.
  exists ((fun p => if Legacy segment && negb faults then messages p.1 else p.2) <$> zip cs us).
  apply Forall2_fmap_r. induction (zip cs us) as [|[c l] k IH]; constructor; [|done]. unfold commits.
  destruct (Legacy segment && negb faults); [done|by left].
Qed.
(** C39. The segment, once it is told to stop, can return exactly when neither Setup
    nor the retry loop waits for it to receive from ready and no partition waits
    for it to receive a flow; in these cases it never returns. *)
Theorem group_returns (st : state) : runs st = Stopping -> panicked st = false -> exited st = false ->
  (exists st', rtc step st st' /\ runs st' = Returned) <-> ~ stuck st.
Proof.
  destruct st as [ms x us c n r o e p w]. simpl. intros -> -> ->. split.
  - intros (st' & Hs & Hr) Hst.
    destruct (rtc_keeps stuck_step _ _ Hs (conj eq_refl Hst)) as [Hr' _]. congruence.
  - intros Hst. unfold stuck in Hst. simpl in Hst. destruct c as [| |b cs| | |]; try done.
    + apply connecting_returns.
    + apply not_stuck_claims in Hst. destruct (claims_return ms x us b n o e cs Hst) as (cs' & Hs & Hdone).
      destruct (some_commit cs' us) as [us' Hc]. destruct (connecting_returns ms x us' n o e) as (st & Hst' & Hr).
      exists st. split; [|done]. etrans; [exact Hs|].
      eapply rtc_l; [apply step_connect; by apply (connect_cleanup ms x us us')|exact Hst'].
    + eexists. split; [eapply rtc_l; [by apply step_connect, connect_done|]|].
      * eapply rtc_l; [apply step_run, run_return|]. apply rtc_refl.
      * done.
    + eexists. split; [eapply rtc_l; [apply step_run, run_return|]; apply rtc_refl|done].
Qed.


(** *** Sessions that end *)

(** A session delivers all messages of its only partition, and the next one begins. *)
Lemma session_delivers ms x us b n e l : forall o,
  rtc step (mkstate ms x us (InSession b [mkclaim l Selecting]) n Looping o e false false)
    (mkstate ms x us (InSession b [mkclaim [] Selecting]) n Looping (o ++ decoded segment l) e false false).
Proof.
  induction l as [|v l IH]; intros o; [rewrite app_nil_r; apply rtc_refl|].
  eapply rtc_l; [by apply step_consume, (consume_message _ _ _ _ _ 0%nat v l)|]. unfold decoded. simpl.
  destruct (decode (Legacy segment) v) as [m|]; [|apply IH].
  eapply rtc_l; [by apply step_run, (run_flow _ _ _ _ _ 0%nat l m)|]. eapply rtc_l; [apply step_run, run_forward|].
  pose proof (IH (o ++ [m])) as E. rewrite <- app_assoc in E. exact E.
Qed.
Lemma claims_all l : Forall2 assigned [l] [mkclaim l Selecting].
Proof. repeat constructor. Qed.
Lemma session_ends ms x us us' n r o e l : r = Looping -> Forall2 (fun p => commits p.1 p.2) (zip [mkclaim l ClaimDone] us) us' ->
  rtc step (mkstate ms x us (InSession false [mkclaim l Selecting]) n r o e false false)
    (mkstate ms x us' SettingUp n r o e false false).
Proof.
  intros -> Hc. eapply rtc_l; [apply step_connect, connect_rebalance|].
  eapply rtc_l; [by apply step_consume, (consume_done _ _ _ _ _ 0%nat l)|].
  eapply rtc_l; [apply step_connect; apply (connect_cleanup _ _ us us'); [by repeat constructor|exact Hc]|].
  eapply rtc_l; [by apply step_connect, connect_consume|]. apply rtc_refl.
Qed.

(** With the current format every rebalance delivers the whole partition again. *)
Theorem rebalance_repeats (l : list (list Z)) (k : nat) : Legacy segment = false ->
  exists st, rtc step (start [] [l]) st /\ panicked st = false /\ out st = concat (replicate k (decoded segment l)).
Proof.
  intros Hl.
  enough (exists r, (r = Await \/ r = Looping) /\
    rtc step (start [] [l]) (mkstate [] NotCalled [l] SettingUp 0 r (concat (replicate k (decoded segment l))) [] false false)) as (r & _ & Hs).
  { eexists. split; [exact Hs|done]. }
  induction k as [|k (r & Hr & Hs)].
  - exists Await. split; [by left|]. eapply rtc_l; [by apply step_connect, connect_consume|]. apply rtc_refl.
  - exists Looping. split; [by right|]. rewrite replicate_S_end, concat_app. simpl. rewrite app_nil_r.
    etrans; [exact Hs|]. eapply rtc_l; [apply step_run, (run_ready _ _ _ [mkclaim l Selecting]); [done|apply claims_all]|].
    etrans; [apply session_delivers|]. apply session_ends; [done|]. repeat constructor. unfold commits. rewrite Hl. by left.
Qed.

(** The shutdown can come when it is stuck: while a rebalance sets up the next
    session. *)
Theorem rebalance_shutdown_hangs (l : list (list Z)) :
  exists st, rtc step (start [] [l]) st /\ runs st = Stopping /\ panicked st = false /\ exited st = false /\
    forall st', rtc step st st' -> runs st' = Stopping.
Proof.
  exists (mkstate [] NotCalled [l] SettingUp 0 Stopping [] [] false false).
  split; [|split_and!; [done..|]; intros st' Hs; by apply (rtc_keeps stuck_step _ _ Hs)].
  eapply rtc_l; [by apply step_connect, connect_consume|].
  eapply rtc_l; [apply step_run, (run_ready _ _ _ [mkclaim l Selecting]); [by left|apply claims_all]|].
  etrans; [apply (session_ends _ _ _ [l]); [done|]|].
  - repeat constructor. unfold commits. destruct (Legacy segment && negb faults); [done|by left].
  - eapply rtc_l; [apply step_run, run_in_closed|]. apply rtc_refl.
Qed.
End group.

(** ** The theorems at work *)
Import Kafka.witness.
Module witness.
(** The current format, and one message of it. *)
Definition current : KafkaConsumer := mkKafkaConsumer "kafka:9092" "flows" "g" (mkauth true false "" "") false "" OffsetNewest 0 [].
Definition log : list (list Z) := [[5]; [6]].
Definition running (segment : KafkaConsumer) : state :=
  mkstate [] NotCalled [log] SettingUp 0 Looping [flow 5; flow 6] [] false false.
End witness.


Lemma group_returns_witness : exists st,
  rtc (step consumer false) (mkstate [] Closed [witness.log] Retrying 3 Stopping [] [] false false) st /\
  runs st = Returned.
Proof.
  refine (proj2 (group_returns consumer false
    (mkstate [] Closed [witness.log] Retrying 3 Stopping [] [] false false) eq_refl eq_refl eq_refl) _).
  intros [].
Defined.

Lemma rebalance_repeats_witness : exists st,
  rtc (step witness.current false) (start [] [witness.log]) st /\
  out st = [flow 5; flow 6; flow 5; flow 6].
Proof.
  destruct (rebalance_repeats witness.current false witness.log 2 eq_refl) as (st & Hs & _ & Ho).
  exists st. split; [exact Hs|]. rewrite Ho. vm_compute. reflexivity.
Defined.
