(* ===== verification/Influx.v ===== *)
(** * influx ([segments/output/influx/influx.go], [segments/output/influx/connector.go])

    The parameters and the points; the client is a parameter: what is written is
    recorded. *)

From stdpp Require Import prelude strings list gmap.
From Stdlib Require Import ZArith Lia Ascii.
From S2P Require Import Prelude GoStd EnrichedFlow Segment Reflect Output.

Record Influx := mkInflux {
  Address : string; Org : string; Bucket : string; Token : string; Tags : list string; Fields : list string }.

(** Of the tags the trimmed names are checked, but the names as they are are kept. *)
Definition New_tags (c : config) : created (list string) :=
  if is_empty (cfg c "tags") then Created ["ProtoName"%string]
  else let tags := gostrings.Split (cfg c "tags") "," in
       if forallb (fun tagname => known (gostrings.TrimSpace tagname)) tags then Created tags else NilSegment.
Definition New_fields (c : config) : created (list string) :=
  if is_empty (cfg c "fields") then Created ["Bytes"; "Packets"]%string
  else let fields := gostrings.Split (cfg c "fields") "," in
       if forallb known fields then Created fields else NilSegment.
(** An address that does not parse is only logged. *)
Definition New (c : config) : created Influx :=
  if is_empty (cfg c "org") then NilSegment
  else if is_empty (cfg c "bucket") then NilSegment
  else if is_empty (cfg c "token") then NilSegment
  else
    tags ← New_tags c;
    fields ← New_fields c;
    Created {| Address := if is_empty (cfg c "address") then "http://127.0.0.1:8086"%string else cfg c "address";
               Org := cfg c "org"; Bucket := cfg c "bucket"; Token := cfg c "token"; Tags := tags; Fields := fields |}.

(** A point: its tags as text, its fields as values. *)
Record point := mkpoint { measurement : string; tags : gmap string string; values : gmap string fval }.
Fixpoint point_fields (names : list string) (msg : EnrichedFlow) (set : gmap string fval) : result (gmap string fval) :=
  match names with
  | [] => Ok set
  | name :: names =>
      match FieldByName name with
      | Exported d => point_fields names msg (<[name := fd_get d msg]> set)
      | _ => Panic
      end
  end.
Definition CreatePoint (s : Influx) (msg : EnrichedFlow) : result point :=
  tags ← labelset (Tags s) msg ∅;
  fields ← point_fields (Fields s) msg ∅;
  Ok (mkpoint "flowdata" tags fields).

(** The loop: the sends, the points written, and whether it panicked. *)
Fixpoint Run (s : Influx) (ms : list EnrichedFlow) : list emit * list point * bool :=
  match ms with
  | [] => ([], [], false)
  | msg :: ms =>
      match CreatePoint s msg with
      | Ok p => let '(es, ps, panic) := Run s ms in (EOut msg :: es, p :: ps, panic)
      | _ => ([EOut msg], [], true)
      end
  end.

(** ** Theorems *)
Lemma point_fields_Ok names msg : Forall exported_name names -> forall set,
  exists set', point_fields names msg set = Ok set' /\
    forall k, set' !! k = if bool_decide (k ∈ names)
                          then match FieldByName k with Exported d => Some (fd_get d msg) | _ => None end else set !! k.
Proof.
  induction 1 as [|n names [d Hd] _ IH]; intros set; cbn [point_fields]; [by exists set|]. rewrite Hd.
  destruct (IH (<[n := fd_get d msg]> set)) as (set' & E & Hs). exists set'. split; [done|]. intros k. rewrite Hs.
  destruct (decide (k ∈ names)) as [Hk|Hk].
  - rewrite !bool_decide_true by set_solver. done.
  - rewrite (bool_decide_false (k ∈ names)) by done. destruct (decide (k = n)) as [->|Hn].
    + rewrite lookup_insert_eq, bool_decide_true by set_solver. by rewrite Hd.
    + rewrite lookup_insert_ne by done. by rewrite bool_decide_false by set_solver.
Qed.

(** With tags and fields that name exported fields exactly, every flow is forwarded
    and written as a point with the text of each tag and the value of each
    field. *)
Theorem influx_points (s : Influx) (ms : list EnrichedFlow) :
  Forall exported_name (Tags s) -> Forall exported_name (Fields s) ->
  exists ps, Run s ms = (EOut <$> ms, ps, false) /\
    Forall2 (fun msg p =>
      (forall k d, k ∈ Tags s -> FieldByName k = Exported d -> tags p !! k = Some (column_text d msg)) /\
      (forall k d, k ∈ Fields s -> FieldByName k = Exported d -> values p !! k = Some (fd_get d msg)) /\
      (forall k, is_Some (tags p !! k) <-> k ∈ Tags s) /\ (forall k, is_Some (values p !! k) <-> k ∈ Fields s)) ms ps.
Proof.
  intros Ht Hf. induction ms as [|m ms (ps & E & H)]; [by exists []|]. cbn [Run]. unfold CreatePoint.
  destruct (labelset_Ok (Tags s) m Ht ∅) as (t & -> & Hts). destruct (point_fields_Ok (Fields s) m Hf ∅) as (f & -> & Hfs).
  cbn. rewrite E. eexists. split; [done|]. constructor; [|exact H]. cbn.
  assert (forall k l (Hl : Forall exported_name l), k ∈ l -> exists d, FieldByName k = Exported d) as He
    by (intros k l Hl Hk; by apply (proj1 (Forall_forall _ _) Hl)).
  split_and!.
  - intros k d Hk Hd. by rewrite Hts, bool_decide_true, Hd.
  - intros k d Hk Hd. by rewrite Hfs, bool_decide_true, Hd.
  - intros k. rewrite Hts, lookup_empty. case_bool_decide as Hk; [|by split; [intros [? ?]|]].
    destruct (He k _ Ht Hk) as [d ->]. by split; [|eexists].
  - intros k. rewrite Hfs, lookup_empty. case_bool_decide as Hk; [|by split; [intros [? ?]|]].
    destruct (He k _ Hf Hk) as [d ->]. by split; [|eexists].
Qed.

(** The constructor accepts tags with blanks around them, which are trimmed only
    for its test: the first flow then panics after it was forwarded. *)
Theorem influx_blank_panics (s : Influx) (tag : string) (m : EnrichedFlow) (ms : list EnrichedFlow) :
  tag ∈ Tags s -> ~ exported_name tag -> Run s (m :: ms) = ([EOut m], [], true).
Proof.
  intros Hin Ht. cbn [Run]. unfold CreatePoint. rewrite labelset_Panic; [done|]. apply Exists_exists. by exists tag.
Qed.

(** ** The theorems at work *)
Module witness.
Definition base : config := {[ "org"%string := "o"%string; "bucket"%string := "b"%string; "token"%string := "t"%string ]}.
Definition segment (tags : string) : Influx :=
  match New (<["tags"%string := tags]> base) with Created s => s | _ => mkInflux "" "" "" "" [] [] end.
Definition flow : EnrichedFlow := set_Proto 6 (set_Bytes 5 emptyFlow).
End witness.

Lemma influx_points_witness :
  exists ps, Run (witness.segment "Proto,ProtoName") [witness.flow] = ([EOut witness.flow], ps, false) /\
    (fun p => (tags p !! "Proto"%string, values p !! "Bytes"%string)) <$> ps = [(Some "6"%string, Some (VUint64 5))].
Proof.
  destruct (influx_points (witness.segment "Proto,ProtoName") [witness.flow]) as (ps & E & H).
  - apply Forall_forall. intros n Hn. apply (proj1 (Forall_forall _ ["Proto"; "ProtoName"]%string));
      [repeat constructor; eexists; vm_compute; reflexivity|]. revert Hn. by vm_compute.
  - apply Forall_forall. intros n Hn. apply (proj1 (Forall_forall _ ["Bytes"; "Packets"]%string));
      [repeat constructor; eexists; vm_compute; reflexivity|]. revert Hn. by vm_compute.
  - exists ps. split; [exact E|]. vm_compute in E. injection E as <-. vm_compute. reflexivity.
Defined.

Lemma influx_blank_panics_witness :
  Run (witness.segment "ProtoName, Proto") [witness.flow] = ([EOut witness.flow], [], true).
Proof.
  apply (influx_blank_panics (witness.segment "ProtoName, Proto") " Proto" witness.flow []).
  - apply (bool_decide_unpack _). vm_compute. exact I.
  - intros [d Hd]. revert Hd. vm_compute. discriminate.
Defined.
