(* ===== verification/Replay.v ===== *)
(** * replay ([segments/input/replay/replay.go])

    Reads back what the sqlite segment (Output.v) wrote: [parse_row] scans a row
    into a flow, [readFromDB] sorts the flows, [replay] sends them with their
    timing.  The values SQLite keeps for the inserted texts are a parameter
    ([Sqlite3]) with the documented behaviour of its two column types; the
    conversions of [Rows.Scan] are those of the Go package database/sql. *)

From stdpp Require Import prelude strings list gmap sorting relations.
From Stdlib Require Import ZArith Lia Ascii.
From S2P Require Import Prelude GoStd EnrichedFlow Segment Reflect Output.

(** ** New *)
Record Replay := mkReplay { FileName : string; RespectTiming : bool }.

(** The value of ignoretiming is taken for respectTiming. *)
Definition New (fileExists Open : string -> bool) (c : config) : created Replay :=
  if is_empty (cfg c "filename") then NilSegment
  else
    let respectTiming := if is_empty (cfg c "ignoretiming") then true
                         else default true (strconv.ParseBool (cfg c "ignoretiming")) in
    if negb (fileExists (cfg c "filename")) then NilSegment
    else if negb (Open (cfg c "filename")) then NilSegment
    else Created {| FileName := cfg c "filename"; RespectTiming := respectTiming |}.

(** ** Parsing *)

(** [s[1 : len(s)-1]] *)
Definition inner (s : string) : string := String.substring 1 (String.length s - 2) s.
Definition parseSlice {A} (s : string) (elementHandler : string -> option A) : option (list A) :=
  if negb (gostrings.HasPrefix s "[") || negb (gostrings.HasSuffix s "]") then None
  else mapM elementHandler (gostrings.Fields (inner s)).
Definition parseUint32Slice (s : string) : option (list Z) := parseSlice s (strconv.ParseUint 32).
Definition parseByteSlices (s : string) : option (list (list Z)) :=
  parseSlice s (fun elemOuter => parseSlice elemOuter (strconv.ParseUint 8)).
Definition enum_value (values : list (string * Z)) (s : string) : Z := default 0 (assoc s values).
Definition parseLayerStackSlice (s : string) : option (list Z) :=
  parseSlice s (fun elem => Some (enum_value EnrichedFlow_LayerStack_value elem)).

(** ** Rows *)

(** What a column holds: an integer, a text, or a floating point number. *)
Inductive dbval : Type := DbInt (n : Z) | DbText (s : string) | DbReal (s : string).

(** database/sql: a value as a string, and as the type of a field. *)
Definition asString (v : dbval) : string :=
  match v with DbInt n => strconv.FormatInt n | DbText s | DbReal s => s end.
Definition Scan (k : kind) (v : dbval) : option fval :=
  match k with
  | KUint32 => VUint32 <$> strconv.ParseUint 32 (asString v)
  | KUint64 => VUint64 <$> strconv.ParseUint 64 (asString v)
  | KString => Some (VString (asString v))
  | KBool => match v with
             | DbText s => VBool <$> strconv.ParseBool s
             | DbInt n => if n =? 0 then Some (VBool false) else if n =? 1 then Some (VBool true) else None
             | DbReal _ => None
             end
  | KBytes => Some (VBytes (Some (bytes_of_string (asString v))))
  | _ => None
  end.

(** The fields that are scanned into a string variable first. *)
Definition scanned_as_text : list string :=
  ["Type"; "BgpCommunities"; "AsPath"; "MplsTtl"; "MplsLabel"; "MplsIp"; "LayerStack"; "LayerSize";
   "Ipv6RoutingHeaderAddresses"; "SrcAddrAnon"; "DstAddrAnon"; "SamplerAddrAnon"; "NextHopAnon";
   "ValidationStatus"; "Normalized"; "RemoteAddr"; "SrcAsPath"; "DstAsPath"]%string.

Record scanned := mkscanned { sc_flow : EnrichedFlow; sc_vars : list (string * string) }.
(** [rows.Scan]: the columns by position; a different number of columns is an
    error. *)
Fixpoint scan (ds : list field) (row : list dbval) (s : scanned) : option scanned :=
  match ds, row with
  | [], [] => Some s
  | d :: ds, v :: row =>
      if bool_decide (fd_name d ∈ scanned_as_text)
      then scan ds row (mkscanned (sc_flow s) ((fd_name d, asString v) :: sc_vars s))
      else x ← Scan (fd_kind d) v; scan ds row (mkscanned (fd_set d x (sc_flow s)) (sc_vars s))
  | _, _ => None
  end.

(** The assignments after the scan, in their order; [None] is an error, which
    leaves nil in the field. *)
Inductive assignment : Type :=
  | AEnum (values : list (string * Z)) | AUint32s | ABytess | ALayers.
Definition assignments : list (string * assignment) :=
  [("Type", AEnum EnrichedFlow_FlowType_value); ("BgpCommunities", AUint32s); ("AsPath", AUint32s);
   ("MplsTtl", AUint32s); ("MplsLabel", AUint32s); ("MplsIp", ABytess); ("LayerStack", ALayers);
   ("LayerSize", AUint32s); ("Ipv6RoutingHeaderAddresses", ABytess);
   ("SrcAddrAnon", AEnum EnrichedFlow_AnonymizedType_value); ("DstAddrAnon", AEnum EnrichedFlow_AnonymizedType_value);
   ("SamplerAddrAnon", AEnum EnrichedFlow_AnonymizedType_value); ("NextHopAnon", AEnum EnrichedFlow_AnonymizedType_value);
   ("ValidationStatus", AEnum EnrichedFlow_ValidationStatusType_value);
   ("Normalized", AEnum EnrichedFlow_NormalizedType_value); ("RemoteAddr", AEnum EnrichedFlow_RemoteAddrType_value);
   ("SrcAsPath", AUint32s); ("DstAsPath", AUint32s)]%string.

(** The value of an assignment, and the new value of [err] if it sets it. *)
Definition assigned_value (a : assignment) (s : string) : fval * option bool :=
  match a with
  | AEnum values => (VEnum (enum_value values s), None)
  | AUint32s => let r := parseUint32Slice s in (VUint32s (default [] r), Some (bool_decide (r = None)))
  | ABytess => let r := parseByteSlices s in (VBytess (default [] r), Some (bool_decide (r = None)))
  | ALayers => let r := parseLayerStackSlice s in (VEnums (default [] r), Some (bool_decide (r = None)))
  end.
Definition set_field (name : string) (v : fval) (r : EnrichedFlow) : EnrichedFlow :=
  match find_field name with Some d => fd_set d v r | None => r end.
Fixpoint assign_all (l : list (string * assignment)) (vars : list (string * string)) (r : EnrichedFlow) (err : bool) : EnrichedFlow * bool :=
  match l with
  | [] => (r, err)
  | (name, a) :: l =>
      let '(v, e) := assigned_value a (default ""%string (assoc name vars)) in
      assign_all l vars (set_field name v r) (default err e)
  end.

(** A row that cannot be scanned, or whose last assignment fails, is skipped. *)
Definition parse_row (row : list dbval) : option EnrichedFlow :=
  s ← scan exported row (mkscanned emptyFlow []);
  let '(flow, err) := assign_all assignments (sc_vars s) (sc_flow s) false in
  if (err : bool) then None else Some flow.

(** [sort.Slice] gives some order in which the ends do not decrease. *)
Definition earlier (a b : EnrichedFlow) : Prop := TimeFlowEnd a <= TimeFlowEnd b.
Definition readFromDB (rows : list (list dbval)) (flows : list EnrichedFlow) : Prop :=
  flows ≡ₚ omap parse_row rows /\ Sorted earlier flows.

(** ** Replaying *)

(** [time.Unix(ns/1e9, ns%1e9)] as nanoseconds since the epoch (Go's division
    truncates), and [Sub], which saturates. *)
Definition Unix (ns : Z) : Z := Z.quot ns (10 ^ 9) * 10 ^ 9 + Z.rem ns (10 ^ 9).
Definition Sub (t u : Z) : Z := Z.max (- 2 ^ 63) (Z.min (2 ^ 63 - 1) (t - u)).

(** What [replay] does: sleeps and sends. *)
Inductive action : Type := Sleep (d : Z) | Send (m : EnrichedFlow).
Fixpoint replay_from (respectTiming : bool) (previous : option EnrichedFlow) (flows : list EnrichedFlow) : list action :=
  match flows with
  | [] => []
  | flow :: flows =>
      match previous with
      | Some previousFlow =>
          if respectTiming then [Sleep (Sub (Unix (i64 (TimeFlowEnd flow))) (Unix (i64 (TimeFlowEnd previousFlow))))] else []
      | None => []
      end ++ Send flow :: replay_from respectTiming (Some flow) flows
  end.
Definition replay (flows : list EnrichedFlow) (respectTiming : bool) : list action := replay_from respectTiming None flows.

Definition sends (l : list action) : list EnrichedFlow := omap (fun a => match a with Send m => Some m | _ => None end) l.
Definition sleeps (l : list action) : list Z := omap (fun a => match a with Sleep d => Some d | _ => None end) l.

(** The loop of [Run]: it forwards from In and from the stream, and returns when
    In is closed. *)
Record state := mkstate { input : list EnrichedFlow; stream : list action; out : list EnrichedFlow; returned : bool }.
Inductive step : state -> state -> Prop :=
  | step_pass m ms l o : step (mkstate (m :: ms) l o false) (mkstate ms l (o ++ [m]) false)
  | step_sleep ms d l o b : step (mkstate ms (Sleep d :: l) o b) (mkstate ms l o b)
  | step_row ms m l o : step (mkstate ms (Send m :: l) o false) (mkstate ms l (o ++ [m]) false)
  | step_closed l o : step (mkstate [] l o false) (mkstate [] l o true).
Definition start (segment : Replay) (flows ms : list EnrichedFlow) : state :=
  mkstate ms (replay flows (RespectTiming segment)) [] false.

(** ** Text round trips *)

Lemma string_length_app (s t : string) : String.length (s ++ t) = (String.length s + String.length t)%nat.
Proof. induction s as [|a s IH]; [done|]. rewrite gostrings.append_cons. cbn [String.length]. rewrite IH. lia. Qed.
Lemma string_app_assoc (s t u : string) : (s ++ (t ++ u))%string = ((s ++ t) ++ u)%string.
Proof. induction s as [|a s IH]; [done|]. by rewrite !gostrings.append_cons, IH. Qed.
Lemma list_ascii_app s t :
  String.list_ascii_of_string (s ++ t) = String.list_ascii_of_string s ++ String.list_ascii_of_string t.
Proof. induction s as [|a s IH]; [done|]. rewrite gostrings.append_cons. simpl. by rewrite IH. Qed.

Lemma HasPrefix_char a s : gostrings.HasPrefix (String a s) (String a "") = true.
Proof. cbn [gostrings.HasPrefix]. destruct (ascii_dec a a); [by destruct s|done]. Qed.
Lemma HasSuffix_snoc s : gostrings.HasSuffix (s ++ "]") "]" = true.
Proof.
  unfold gostrings.HasSuffix, gostrings.reverse. rewrite list_ascii_app, rev_app_distr. simpl.
  by destruct (String.string_of_list_ascii _).
Qed.
Lemma HasSuffix_last s : gostrings.HasSuffix s "]" = true -> exists t, s = (t ++ "]")%string.
Proof.
  unfold gostrings.HasSuffix, gostrings.reverse. intros H.
  assert (exists l, String.list_ascii_of_string s = l ++ ["]"%char]) as [l Hl].
  { destruct (rev (String.list_ascii_of_string s)) as [|a r] eqn:E; [done|].
    exists (rev r). rewrite <- (rev_involutive (String.list_ascii_of_string s)), E. cbn [rev]. f_equal.
    change (String.string_of_list_ascii (a :: r)) with (String a (String.string_of_list_ascii r)) in H.
    change (String.string_of_list_ascii (rev (String.list_ascii_of_string "]"))) with "]"%string in H.
    cbn [gostrings.HasPrefix] in H. by destruct (ascii_dec "]" a) as [<-|]. }
  exists (String.string_of_list_ascii l). rewrite <- (String.string_of_list_ascii_of_string s), Hl. clear.
  induction l as [|a l IH]; [done|]. simpl. rewrite gostrings.append_cons. by f_equal.
Qed.

Lemma substring_app (s t : string) : String.substring 0 (String.length s) (s ++ t) = s.
Proof.
  induction s as [|a s IH]; [by destruct t|]. rewrite gostrings.append_cons. cbn [String.length String.substring]. by rewrite IH.
Qed.
Lemma inner_brackets (s : string) : inner (("[" ++ s) ++ "]")%string = s.
Proof.
  unfold inner. rewrite !gostrings.append_cons. change ("" ++ s)%string with s. cbn [String.length String.substring].
  rewrite string_length_app. cbn [String.length].
  replace (S (String.length s + 1) - 2)%nat with (String.length s) by lia. apply substring_app.
Qed.

Lemma parseSlice_brackets {A} (words : list string) (h : string -> option A) :
  parseSlice (fmt.brackets words) h = mapM h (gostrings.Fields (String.concat " " words)).
Proof.
  unfold parseSlice, fmt.brackets. rewrite string_app_assoc.
  rewrite HasSuffix_snoc, inner_brackets, !gostrings.append_cons. by rewrite HasPrefix_char.
Qed.

(** Digits are words, and end no slice. *)
Lemma digit_not_bracket a : strconv.is_digit a = true -> negb (bool_decide (a = "]"%char)) = true.
Proof. intros Ha. case_bool_decide as E; [by subst|done]. Qed.

Lemma Fields_FormatUint l : gostrings.Fields (String.concat " " (strconv.FormatUint <$> l)) = strconv.FormatUint <$> l.
Proof. apply gostrings.Fields_concat, Forall_fmap, Forall_forall. intros n _. apply gostrings.FormatUint_word. Qed.

Lemma parse_uints bits l : Forall (in_u bits) l ->
  mapM (strconv.ParseUint bits) (strconv.FormatUint <$> l) = Some l.
Proof.
  intros Hl. apply mapM_Some. induction Hl as [|n l Hn _ IH]; constructor; [by apply strconv.ParseUint_FormatUint|done].
Qed.

Lemma parseUint32Slice_brackets l : Forall (in_u 32) l -> parseUint32Slice (fmt.brackets (strconv.FormatUint <$> l)) = Some l.
Proof. intros Hl. unfold parseUint32Slice. rewrite parseSlice_brackets, Fields_FormatUint. by apply parse_uints. Qed.

(** *** Slices of byte slices *)
Definition bytes_text (b : list Z) : string := fmt.brackets (strconv.FormatUint <$> b).

(** The words of a slice in brackets. *)
Fixpoint close (w : string) (ws : list string) : list string :=
  match ws with [] => [(w ++ "]")%string] | w' :: ws => w :: close w' ws end.
Definition pieces (ws : list string) : list string :=
  match ws with [] => ["[]"%string] | w :: ws => close ("[" ++ w) ws end.

Lemma concat_cons2 w w' ws : String.concat " " (w :: w' :: ws) = (w ++ " " ++ String.concat " " (w' :: ws))%string.
Proof. reflexivity. Qed.
Lemma concat_close w ws : String.concat " " (close w ws) = (String.concat " " (w :: ws) ++ "]")%string.
Proof.
  revert w. induction ws as [|w' ws IH]; intros w; [done|]. cbn [close].
  assert (exists x xs, close w' ws = x :: xs) as (x & xs & E) by (destruct ws; do 2 eexists; reflexivity).
  rewrite E, concat_cons2, <- E, IH, concat_cons2. by rewrite <- !string_app_assoc.
Qed.
Lemma concat_open w ws : String.concat " " (("[" ++ w)%string :: ws) = ("[" ++ String.concat " " (w :: ws))%string.
Proof. by destruct ws. Qed.
Lemma brackets_pieces ws : fmt.brackets ws = String.concat " " (pieces ws).
Proof.
  destruct ws as [|w ws]; [done|]. cbn [pieces]. rewrite concat_close, concat_open. unfold fmt.brackets.
  by rewrite <- string_app_assoc.
Qed.
Lemma concat_app2 l k : l <> [] -> k <> [] ->
  String.concat " " (l ++ k) = (String.concat " " l ++ " " ++ String.concat " " k)%string.
Proof.
  intros Hl Hk. induction l as [|w l IH]; [done|]. destruct l as [|w' l].
  - destruct k as [|x k]; [done|]. reflexivity.
  - change ((w :: w' :: l) ++ k) with (w :: (w' :: l) ++ k). change ((w' :: l) ++ k) with (w' :: (l ++ k)) in *.
    rewrite !concat_cons2, IH by done. by rewrite <- !string_app_assoc.
Qed.
Lemma pieces_nonempty ws : pieces ws <> [].
Proof. destruct ws as [|w [|]]; done. Qed.
Lemma concat_brackets ls : String.concat " " (fmt.brackets <$> ls) = String.concat " " (concat (pieces <$> ls)).
Proof.
  induction ls as [|l ls IH]; [done|]. destruct ls as [|l' ls].
  - cbn. rewrite app_nil_r. apply brackets_pieces.
  - cbn [fmap list_fmap] in *. rewrite concat_cons2, IH, brackets_pieces. cbn [concat].
    rewrite <- concat_app2; [done|apply pieces_nonempty|]. pose proof (pieces_nonempty l'). by destruct (pieces l').
Qed.

Lemma word_app a b : gostrings.word a = true -> gostrings.all_chars (fun c => negb (gostrings.is_space c)) b = true ->
  gostrings.word (a ++ b) = true.
Proof.
  unfold gostrings.word. intros [Hn Ha]%andb_prop Hb. rewrite gostrings.all_chars_app, Ha, Hb. by destruct a.
Qed.
Lemma close_words ws : forall w, gostrings.word w = true -> Forall (fun w => gostrings.word w = true) ws ->
  Forall (fun w => gostrings.word w = true) (close w ws).
Proof.
  induction ws as [|w' ws IH]; intros w Hw Hws; cbn [close]; [constructor; [by apply word_app|constructor]|].
  apply Forall_cons in Hws as [Hw' Hws]. constructor; [done|by apply IH].
Qed.
Lemma pieces_words ws : Forall (fun w => gostrings.word w = true) ws -> Forall (fun w => gostrings.word w = true) (pieces ws).
Proof.
  intros Hws. destruct ws as [|w ws]; [by repeat constructor|]. apply Forall_cons in Hws as [Hw Hws].
  apply close_words; [|done]. apply word_app; [done|]. by apply andb_prop in Hw as [_ Hw].
Qed.

(** A byte slice of two or more bytes is cut at its first blank. *)
Lemma open_piece_fails {A} n (h : string -> option A) : parseSlice ("[" ++ strconv.FormatUint n) h = None.
Proof.
  unfold parseSlice. destruct (gostrings.HasSuffix _ "]") eqn:E; [|by rewrite orb_true_r].
  apply HasSuffix_last in E as [t Et]. exfalso.
  assert (gostrings.all_chars (fun a => negb (bool_decide (a = "]"%char))) ("[" ++ strconv.FormatUint n) = true) as Hc.
  { rewrite gostrings.all_chars_app. destruct (strconv.FormatUint_digits n) as [Hd _].
    by rewrite (gostrings.digits_chars _ _ digit_not_bracket Hd). }
  rewrite Et, gostrings.all_chars_app in Hc. apply andb_prop in Hc as [_ Hc]. discriminate Hc.
Qed.

Definition short (b : list Z) : bool := (length b <=? 1)%nat.
Lemma parseByteSlices_brackets l : Forall (Forall (in_u 8)) l ->
  parseByteSlices (fmt.brackets (bytes_text <$> l)) = if forallb short l then Some l else None.
Proof.
  intros Hl. unfold parseByteSlices. rewrite parseSlice_brackets.
  assert (bytes_text <$> l = fmt.brackets <$> ((fun b => strconv.FormatUint <$> b) <$> l)) as ->
    by by rewrite <- list_fmap_compose.
  rewrite concat_brackets, gostrings.Fields_concat.
  2: { apply Forall_concat, Forall_fmap, Forall_fmap, Forall_forall. intros b _. cbn. apply pieces_words, Forall_fmap, Forall_forall.
       intros n _. apply gostrings.FormatUint_word. }
  rewrite <- list_fmap_compose. destruct (forallb short l) eqn:Es.
  - apply mapM_Some. induction Hl as [|b l Hb _ IH]; [constructor|]. cbn [fmap list_fmap concat].
    cbn [forallb] in Es. apply andb_prop in Es as [Hs Es].
    change (b :: l) with ([b] ++ l). apply Forall2_app; [|by apply IH]. cbn. clear IH Es.
    assert (pieces (strconv.FormatUint <$> b) = [bytes_text b]) as ->.
    { destruct b as [|n [|]]; [done| |done]. cbn. unfold bytes_text, fmt.brackets. cbn. by rewrite <- string_app_assoc. }
    constructor; [|constructor]. unfold bytes_text. rewrite parseSlice_brackets, Fields_FormatUint. by apply parse_uints.
  - apply mapM_None, Exists_exists. clear Hl. induction l as [|b l IH]; [done|]. cbn [forallb] in Es.
    cbn [fmap list_fmap concat]. apply andb_false_iff in Es as [Hs|Es].
    + destruct b as [|n [|n' b]]; [done|done|]. exists ("[" ++ strconv.FormatUint n)%string. split; [|apply open_piece_fails].
      apply elem_of_app. left. cbn. left.
    + destruct (IH Es) as (w & Hw & Hn). exists w. split; [|done]. apply elem_of_app. by right.
Qed.

Lemma enum_string_name ty n s : assoc n (enum_names ty) = Some s -> enum_string ty n = s.
Proof. unfold enum_string. by intros ->. Qed.

Lemma parseLayerStack_brackets l : Forall (fun n => is_Some (assoc n EnrichedFlow_LayerStack_name)) l ->
  parseLayerStackSlice (fmt.brackets (enum_string "[]pb.EnrichedFlow_LayerStack" <$> l)) = Some l.
Proof.
  intros Hl. unfold parseLayerStackSlice. rewrite parseSlice_brackets, gostrings.Fields_concat.
  - apply mapM_Some. induction Hl as [|n l [s Hs] _ IH]; constructor; [|done]. f_equal.
    rewrite (enum_string_name "[]pb.EnrichedFlow_LayerStack" n s Hs).
    apply assoc_Some_in in Hs.
    assert (Forall (fun p => enum_value EnrichedFlow_LayerStack_value p.2 = p.1) EnrichedFlow_LayerStack_name) as Hall
      by (repeat constructor).
    exact (proj1 (Forall_forall _ _) Hall (n, s) Hs).
  - apply Forall_fmap. apply (Forall_impl _ _ _ Hl). intros n [s Hs].
    change (gostrings.word (enum_string "[]pb.EnrichedFlow_LayerStack" n) = true).
    rewrite (enum_string_name "[]pb.EnrichedFlow_LayerStack" n s Hs).
    apply assoc_Some_in in Hs.
    assert (Forall (fun p => gostrings.word p.2 = true) EnrichedFlow_LayerStack_name) as Hall by (repeat constructor).
    exact (proj1 (Forall_forall _ _) Hall (n, s) Hs).
Qed.

(** ** The round trip through the database *)

(** What SQLite keeps of a text inserted into a column of a declared type. *)
Class Sqlite3 : Type := column : string -> string -> dbval.
Class Sqlite3Laws `{Sqlite3} : Prop := {
  column_integer : forall n, 0 <= n < 2 ^ 63 -> column "INTEGER" (strconv.FormatUint n) = DbInt n;
  column_text_kept : forall s, column "TEXT" s = DbText s;
}.

Section roundtrip.
Context `{Sqlite3Laws}.

(** The columns of a table with all fields, and a flow's row. *)
Definition decl (d : field) : string := match fd_kind d with KUint32 | KUint64 => "INTEGER" | _ => "TEXT" end.
Definition row_of (msg : EnrichedFlow) : list dbval := (fun d => column (decl d) (column_text d msg)) <$> exported.

(** Values in the range of their type, and enums with a name. *)
Definition storable (k : kind) (v : fval) : Prop :=
  match k, v with
  | KUint32, VUint32 n => in_u 32 n
  | KUint64, VUint64 n => 0 <= n < 2 ^ 63
  | KEnum ty, VEnum n => is_Some (assoc n (enum_names ty))
  | KEnums ty, VEnums l => Forall (fun n => is_Some (assoc n (enum_names ty))) l
  | KUint32s, VUint32s l => Forall (in_u 32) l
  | KBytess, VBytess l => Forall (Forall (in_u 8)) l
  | _, _ => True
  end.
(** What becomes of a value: an address is replaced by the characters of its
    text, a list of byte slices survives if each has at most one byte. *)
Definition replayed (v : fval) : fval :=
  match v with
  | VBytes b => VBytes (Some (bytes_of_string (ip_text b)))
  | VBytess l => VBytess (if forallb short l then l else [])
  | v => v
  end.

Definition scannable (k : kind) : bool := match k with KUint32 | KUint64 | KString | KBool | KBytes => true | _ => false end.
Lemma special_fields : Forall (fun d => bool_decide (fd_name d ∈ scanned_as_text) = negb (scannable (fd_kind d))) fields.
Proof. each_field; reflexivity. Qed.

Lemma asString_integer n : 0 <= n < 2 ^ 63 -> asString (column "INTEGER" (strconv.FormatUint n)) = strconv.FormatUint n.
Proof using All.
  intros Hn. rewrite column_integer by done. cbn. unfold strconv.FormatInt. destruct (Z.ltb_spec n 0); [lia|done].
Qed.

(** A column of a scannable kind gives the replayed value. *)
Lemma Scan_column d msg : d ∈ fields -> scannable (fd_kind d) = true -> storable (fd_kind d) (fd_get d msg) ->
  Scan (fd_kind d) (column (decl d) (column_text d msg)) = Some (replayed (fd_get d msg)).
Proof using All.
  intros Hd Hk Hs. pose proof (get_kind d msg Hd) as Hv. unfold decl, column_text. revert Hk Hs Hv.
  destruct (fd_kind d), (fd_get d msg); try done; intros _ Hs _; cbn [storable Scan Sprint replayed] in *.
  - rewrite asString_integer by (unfold in_u in Hs; lia). by rewrite strconv.ParseUint_FormatUint.
  - rewrite asString_integer by done. rewrite strconv.ParseUint_FormatUint; [done|]. unfold in_u. lia.
  - by rewrite column_text_kept.
  - rewrite column_text_kept. by destruct b.
  - by rewrite column_text_kept.
Qed.

(** The assignment for each of the other fields fits its kind. *)
Definition fits (k : kind) (a : assignment) : bool :=
  match k, a with
  | KEnum ty, AEnum values => forallb (fun p => enum_value values p.2 =? p.1) (enum_names ty)
  | KUint32s, AUint32s | KBytess, ABytess => true
  | KEnums ty, ALayers => seqb ty "[]pb.EnrichedFlow_LayerStack"
  | _, _ => false
  end.
Lemma assignments_fit : Forall (fun p => match find_field p.1 with Some d => fits (fd_kind d) p.2 = true | None => False end) assignments.
Proof. repeat (constructor; [reflexivity|]). constructor. Qed.

Lemma assigned_value_column d a msg : d ∈ fields -> fits (fd_kind d) a = true -> storable (fd_kind d) (fd_get d msg) ->
  exists e, assigned_value a (asString (column (decl d) (column_text d msg))) = (replayed (fd_get d msg), e) /\
    (e = Some true -> a = ABytess).
Proof using All.
  intros Hd Hf Hs. pose proof (get_kind d msg Hd) as Hv. unfold decl, column_text. revert Hf Hs Hv.
  destruct (fd_kind d) as [| |ty| | | | |ty|], a as [values| | |]; try done; destruct (fd_get d msg) as [| |n| | | |l|l|l]; try done;
    intros Hf Hs _; cbn [fits storable assigned_value replayed Sprint type_string] in *; rewrite column_text_kept; cbn [asString].
  - destruct Hs as [s Hs]. exists None. split; [|done]. rewrite (enum_string_name ty n s Hs). apply assoc_Some_in in Hs.
    rewrite forallb_forall in Hf. apply list_elem_of_In in Hs. apply Hf in Hs. cbn in Hs. f_equal. f_equal. lia.
  - rewrite parseUint32Slice_brackets by done. by eexists.
  - apply seqb_eq in Hf as ->. rewrite parseLayerStack_brackets by exact Hs. by eexists.
  - pose proof (parseByteSlices_brackets l Hs) as E. unfold bytes_text in E. rewrite E. destruct (forallb short l); by eexists.
Qed.
(** The scan: fields of the list get their value or their text, others stay. *)
Lemma scan_fields msg ds : forall s, NoDup (fd_name <$> ds) -> Forall (fun d => d ∈ fields) ds ->
  Forall (fun d => storable (fd_kind d) (fd_get d msg)) ds ->
  exists s', scan ds ((fun d => column (decl d) (column_text d msg)) <$> ds) s = Some s' /\
    forall d, d ∈ fields ->
      (scannable (fd_kind d) = true -> d ∈ ds -> fd_get d (sc_flow s') = replayed (fd_get d msg)) /\
      (~ (d ∈ ds) -> fd_get d (sc_flow s') = fd_get d (sc_flow s)) /\
      (scannable (fd_kind d) = false -> d ∈ ds ->
       assoc (fd_name d) (sc_vars s') = Some (asString (column (decl d) (column_text d msg)))) /\
      (~ (d ∈ ds) -> assoc (fd_name d) (sc_vars s') = assoc (fd_name d) (sc_vars s)).
Proof using All.
  induction ds as [|d0 ds IH]; intros s Hn Hd Hs.
  { exists s. split; [done|]. intros d _. split_and!; try done; intros _ Hin; by apply not_elem_of_nil in Hin. }
  apply Forall_cons in Hd as [Hd0 Hd], Hs as [Hs0 Hs]. cbn [fmap list_fmap] in Hn. apply NoDup_cons in Hn as [Hn0 Hn].
  assert (forall d, d ∈ ds -> fd_name d0 <> fd_name d) as Hne.
  { intros d Hin E. apply Hn0. rewrite E. by apply list_elem_of_fmap_2. }
  cbn [fmap list_fmap scan]. rewrite (proj1 (Forall_forall _ _) special_fields d0 Hd0).
  assert (forall d, d ∈ fields -> d <> d0 -> fd_name d <> fd_name d0) as Hinj.
  { intros d Hin Hneq E. apply Hneq. pose proof (find_field_elem d Hin) as E1. rewrite E, (find_field_elem d0 Hd0) in E1. congruence. }
  destruct (scannable (fd_kind d0)) eqn:Ek; cbn [negb].
  - rewrite (Scan_column d0 msg Hd0 Ek Hs0). cbn [mbind option_bind].
    set (s1 := mkscanned _ _). destruct (IH s1 Hn Hd Hs) as (s' & E & H'). exists s'. split; [exact E|].
    intros d Hin. destruct (H' d Hin) as (H1 & H2 & H3 & H4). split_and!.
    + intros Hk [->|Hd']%elem_of_cons; [|by apply H1]. rewrite H2 by (intros Hd'; by apply (Hne d0 Hd')).
      cbn [s1 sc_flow]. apply get_set_same; [done|]. rewrite <- (get_kind d0 msg Hd0).
      generalize (get_kind d0 msg Hd0). by destruct (fd_kind d0), (fd_get d0 msg).
    + intros [Hneq Hd']%not_elem_of_cons. rewrite H2 by done. cbn [s1 sc_flow]. apply get_set_other; [done|done|by apply Hinj|].
      generalize (get_kind d0 msg Hd0). by destruct (fd_kind d0), (fd_get d0 msg).
    + intros Hk [->|Hd']%elem_of_cons; [congruence|by apply H3].
    + intros [_ Hd']%not_elem_of_cons. by rewrite H4.
  - set (s1 := mkscanned _ _). destruct (IH s1 Hn Hd Hs) as (s' & E & H'). exists s'. split; [exact E|].
    intros d Hin. destruct (H' d Hin) as (H1 & H2 & H3 & H4). split_and!.
    + intros Hk [->|Hd']%elem_of_cons; [congruence|by apply H1].
    + intros [_ Hd']%not_elem_of_cons. by rewrite H2.
    + intros Hk [->|Hd']%elem_of_cons; [|by apply H3]. rewrite H4 by (intros Hd'; by apply (Hne d0 Hd')).
      cbn [s1 sc_vars assoc]. by rewrite decide_True.
    + intros [Hneq Hd']%not_elem_of_cons. rewrite H4 by done. cbn [s1 sc_vars assoc].
      rewrite decide_False; [done|]. intros E'. by apply (Hinj d Hin Hneq).
Qed.
Lemma assign_fields msg vars l : forall r err, NoDup l.*1 ->
  Forall (fun p => match find_field p.1 with Some d => fits (fd_kind d) p.2 = true | None => False end) l ->
  Forall (fun d => storable (fd_kind d) (fd_get d msg)) fields ->
  (forall d, d ∈ fields -> fd_name d ∈ l.*1 -> assoc (fd_name d) vars = Some (asString (column (decl d) (column_text d msg)))) ->
  exists r' err', assign_all l vars r err = (r', err') /\
    (forall name, last l = Some (name, AUint32s) -> err' = false) /\
    forall d, d ∈ fields -> fd_get d r' = if bool_decide (fd_name d ∈ l.*1) then replayed (fd_get d msg) else fd_get d r.
Proof using All.
  induction l as [|[name a] l IH]; intros r err Hn Hf Hs Hv.
  { exists r, err. split_and!; [done|done|]. intros d _. by rewrite bool_decide_false by apply not_elem_of_nil. }
  apply Forall_cons in Hf as [Hf0 Hf]. cbn [fst snd] in Hf0. cbn in Hn. apply NoDup_cons in Hn as [Hn0 Hn].
  destruct (find_field name) as [d0|] eqn:E0; [|done]. apply find_field_Some in E0 as E0'. destruct E0' as [Hd0 <-].
  pose proof (proj1 (Forall_forall _ _) Hs d0 Hd0) as Hs0.
  destruct (assigned_value_column d0 a msg Hd0 Hf0 Hs0) as (e & Ea & He).
  cbn [assign_all]. rewrite (Hv d0 Hd0) by (cbn; left). cbn [default from_option id]. rewrite Ea. unfold set_field. rewrite E0.
  destruct (IH (fd_set d0 (replayed (fd_get d0 msg)) r) (default err e) Hn Hf Hs) as (r' & err' & E & Herr & H').
  { intros d Hd Hin. apply Hv; [done|]. by right. }
  exists r', err'. split_and!; [exact E| |].
  - intros name Hl. destruct l as [|p l]; [|by apply (Herr name)]. cbn in Hl. injection Hl as _ ->.
    cbn in E. injection E as _ <-. cbn in Ea. injection Ea as _ <-. cbn. destruct (bool_decide _) eqn:Eb; [|done].
    by specialize (He eq_refl).
  - intros d Hd. rewrite (H' d Hd). cbn [fmap list_fmap fst].
    assert (has_kind (fd_kind d0) (replayed (fd_get d0 msg)) = true) as Hk
      by (generalize (get_kind d0 msg Hd0); by destruct (fd_kind d0), (fd_get d0 msg)).
    destruct (decide (fd_name d = fd_name d0)) as [Ed|Ed].
    + assert (d = d0) as -> by (pose proof (find_field_elem d Hd) as E1; rewrite Ed, E0 in E1; congruence).
      rewrite (bool_decide_false (fd_name d0 ∈ l.*1)) by done. rewrite bool_decide_true by (left).
      by apply get_set_same.
    + rewrite (get_set_other d d0) by done.
      destruct (decide (fd_name d ∈ l.*1)); [rewrite !bool_decide_true; [done|by right|done]|].
      rewrite !bool_decide_false; [done| |done]. by intros [?|?]%elem_of_cons.
Qed.

Lemma parse_row_of msg : Forall (fun d => storable (fd_kind d) (fd_get d msg)) fields ->
  exists r, parse_row (row_of msg) = Some r /\ forall d, d ∈ fields -> fd_get d r = replayed (fd_get d msg).
Proof using All.
  intros Hs. unfold parse_row, row_of.
  destruct (scan_fields msg exported (mkscanned emptyFlow []) fields_names_NoDup) as (s & E & H'); [by apply Forall_forall|done|].
  rewrite E. cbn [mbind option_bind].
  assert (forall d, d ∈ fields -> scannable (fd_kind d) = bool_decide (fd_name d ∉ assignments.*1)) as Hsc.
  { intros d Hd. pose proof (proj1 (Forall_forall _ _) special_fields d Hd) as Hsp. cbn beta in Hsp.
    change (assignments.*1) with scanned_as_text. rewrite bool_decide_not, Hsp. by rewrite negb_involutive. }
  destruct (assign_fields msg (sc_vars s) assignments (sc_flow s) false) as (r & err & Er & Herr & Hr).
  - apply (bool_decide_unpack _). vm_compute. exact I.
  - apply assignments_fit.
  - done.
  - intros d Hd Hin. destruct (H' d Hd) as (_ & _ & H3 & _). apply H3; [|done]. rewrite (Hsc d Hd), bool_decide_false; [done|]. intros Hc. by apply Hc.
  - rewrite Er, (Herr _ eq_refl). exists r. split; [done|]. intros d Hd. rewrite (Hr d Hd).
    case_bool_decide as Hin; [done|]. destruct (H' d Hd) as (H1 & _). apply H1; [|done]. rewrite (Hsc d Hd). by rewrite bool_decide_true.
Qed.

(** A value without an address and without a byte slice of two bytes; a value
    with a nil address made an empty one. *)
Definition addressless (v : fval) : Prop :=
  match v with VBytes b => contents b = [] | VBytess l => forallb short l = true | _ => True end.
Definition empty_for_nil (v : fval) : fval := match v with VBytes b => VBytes (Some (contents b)) | v => v end.
Lemma replayed_addressless v : addressless v -> replayed v = empty_for_nil v.
Proof using.
  destruct v as [| | | | |b| | |l]; try done; cbn [addressless replayed empty_for_nil].
  - intros Hb. unfold ip_text, net.String. by rewrite Hb.
  - by intros ->.
Qed.


Lemma dotted_length a b c e : (7 <= length (bytes_of_string (net.dotted [a; b; c; e])))%nat.
Proof using.
  assert (forall s, length (String.list_ascii_of_string s) = String.length s) as Hl by (induction s; simpl; congruence).
  assert (forall n, (1 <= String.length (strconv.FormatUint n))%nat) as Hn.
  { intros n. destruct (strconv.FormatUint_digits n) as [_ Hne]. destruct (strconv.FormatUint n); [done|]. cbn. lia. }
  unfold bytes_of_string. rewrite length_fmap, Hl. unfold net.dotted. rewrite !string_length_app. cbn [String.length].
  pose proof (Hn a). pose proof (Hn b). pose proof (Hn c). pose proof (Hn e). lia.
Qed.

(** A replayed IPv4 address is never the original one: the field holds the
    characters of the dotted text, at least seven, so it is not an IPv4 address. *)
Theorem replay_garbles_addresses (msg : EnrichedFlow) (a b c e : Z) :
  Forall (fun d => storable (fd_kind d) (fd_get d msg)) fields -> SrcAddr msg = Some [a; b; c; e] ->
  exists r s, parse_row (row_of msg) = Some r /\ SrcAddr r = Some s /\ s = bytes_of_string (net.dotted [a; b; c; e]) /\
    (7 <= length s)%nat /\ SrcAddr r <> SrcAddr msg.
Proof using All.
  intros Hs Ha. destruct (parse_row_of msg Hs) as (r & E & Hr). exists r, (bytes_of_string (net.dotted [a; b; c; e])).
  assert (SrcAddr r = Some (bytes_of_string (net.dotted [a; b; c; e]))) as Hsrc.
  { assert (find_field "SrcAddr" = Some (fBytes "SrcAddr" SrcAddr set_SrcAddr)) as [Hd _]%find_field_Some by reflexivity.
    pose proof (Hr _ Hd) as Hg. cbn [fd_get fBytes] in Hg. rewrite Ha in Hg.
    injection Hg as ->. unfold ip_text, net.String. cbn [net.To4 length contents]. f_equal. f_equal.
    assert (seqb (net.dotted [a; b; c; e]) "<nil>" = false) as Hn; [|by cbn -[net.dotted seqb]; rewrite Hn].
    destruct (seqb _ _) eqn:Es; [|done]. apply seqb_eq in Es. pose proof (dotted_length a b c e) as Hl. rewrite Es in Hl. cbn in Hl. lia. }
  pose proof (dotted_length a b c e) as Hl.
  split_and!; [done|done|done|done|]. rewrite Hsrc, Ha. intros Heq. apply (f_equal (fun o => length (contents o))) in Heq.
  change (length (bytes_of_string (net.dotted [a; b; c; e])) = 4%nat) in Heq. lia.
Qed.
End roundtrip.

(** ** Timing *)
Lemma Unix_id n : Unix n = n.
Proof. unfold Unix. pose proof (Z.quot_rem' n (10 ^ 9)). lia. Qed.

Definition in_time (m : EnrichedFlow) : Prop := 0 <= TimeFlowEnd m < 2 ^ 63.
Lemma last_cons {A} (l : list A) : forall x d, List.last (x :: l) d = List.last l x.
Proof.
  induction l as [|y l IH]; intros x d; [done|]. change (List.last (x :: y :: l) d) with (List.last (y :: l) d).
  by rewrite !IH.
Qed.
Lemma replay_from_timing flows : forall p, in_time p -> Forall in_time flows -> Sorted earlier (p :: flows) ->
  sends (replay_from true (Some p) flows) = flows /\
  Forall (fun d => 0 <= d) (sleeps (replay_from true (Some p) flows)) /\
  foldr Z.add 0 (sleeps (replay_from true (Some p) flows)) = TimeFlowEnd (List.last flows p) - TimeFlowEnd p.
Proof.
  unfold in_time. induction flows as [|m flows IH]; intros p Hp Hf Hs; [split_and!; [done|constructor|cbn; lia]|].
  apply Forall_cons in Hf as [Hm Hf]. apply Sorted_inv in Hs as [Hs Hr]. inversion Hr as [|? ? Hpm]; subst. unfold earlier in Hpm.
  destruct (IH m Hm Hf Hs) as (H1 & H2 & H3). cbn [replay_from app sends sleeps omap list_omap].
  rewrite !swrap_small, !Unix_id by lia. unfold Sub. rewrite Z.min_r, Z.max_r by lia. split_and!.
  - f_equal. exact H1.
  - constructor; [lia|exact H2].
  - cbn [foldr]. unfold sleeps in H3. rewrite H3. rewrite last_cons. lia.
Qed.

(** The replayed timing is too fast by a factor of 10^9: the times of a
    flow's end are seconds, but the pauses are their differences in nanoseconds,
    so replaying n seconds of traffic takes n nanoseconds of sleep. *)
Theorem replay_timing (rows : list (list dbval)) (first : EnrichedFlow) (flows : list EnrichedFlow) :
  readFromDB rows (first :: flows) -> Forall in_time (first :: flows) ->
  sends (replay (first :: flows) true) = first :: flows /\
  Forall (fun d => 0 <= d) (sleeps (replay (first :: flows) true)) /\
  foldr Z.add 0 (sleeps (replay (first :: flows) true)) = TimeFlowEnd (List.last flows first) - TimeFlowEnd first.
Proof.
  intros [_ Hs] Hf. apply Forall_cons in Hf as [Hp Hf].
  destruct (replay_from_timing flows first Hp Hf Hs) as (H1 & H2 & H3). unfold replay. cbn [replay_from app sends sleeps omap list_omap].
  split_and!; [by f_equal|done|done].
Qed.

(** The switch works the wrong way round: setting ignoretiming to true makes
    the segment respect the timing, setting it to false makes it ignore it. *)
Theorem ignoretiming_inverted (fileExists Open : string -> bool) (c : config) (s : Replay) (b : bool) :
  New fileExists Open c = Created s -> cfg c "ignoretiming" <> ""%string ->
  strconv.ParseBool (cfg c "ignoretiming") = Some b -> RespectTiming s = b.
Proof.
  unfold New. destruct (is_empty (cfg c "filename")); [done|]. destruct (negb _); [done|]. destruct (negb _); [done|].
  intros [= <-] Hne Hb. cbn. rewrite Hb. by destruct (cfg c "ignoretiming").
Qed.

(** ** The loop *)
Definition remaining (st : state) : list EnrichedFlow := out st ++ input st ++ sends (stream st).
Lemma step_remaining st st' : step st st' -> remaining st' ≡ₚ remaining st.
Proof. destruct 1; unfold remaining; cbn; unfold sends; cbn; solve_perm. Qed.

(** What leaves the segment are flows of its input and of the database, each
    at most once; the loop is done with the database when the stream is empty, but
    it may return before, as soon as In is closed. *)
Theorem replay_delivers (segment : Replay) (flows ms : list EnrichedFlow) :
  (forall st, rtc step (start segment flows ms) st -> remaining st ≡ₚ ms ++ flows) /\
  (exists st, rtc step (start segment flows ms) st /\ returned st = true /\ out st ≡ₚ ms ++ flows) /\
  (exists st, rtc step (start segment flows ms) st /\ returned st = true /\ out st = ms).
Proof.
  assert (forall flows b p, sends (replay_from b p flows) = flows) as Hsends.
  { clear. induction flows as [|m flows IH]; intros b p; [done|]. cbn [replay_from]. unfold sends in *.
    destruct p as [p|]; [destruct b|]; cbn [app omap list_omap]; by rewrite IH. }
  assert (forall ms l o, rtc step (mkstate ms l o false) (mkstate [] l (o ++ ms) false)) as Hpass.
  { clear. induction ms as [|m ms IH]; intros l o; [rewrite app_nil_r; apply rtc_refl|].
    eapply rtc_l; [apply step_pass|]. specialize (IH l (o ++ [m])). by rewrite <- app_assoc in IH. }
  split_and!.
  - intros st Hs. transitivity (remaining (start segment flows ms)).
    + induction Hs as [|st1 st2 st3 Hs _ IH]; [done|]. rewrite IH. by apply step_remaining.
    + unfold remaining, start, replay. cbn [out input stream]. by rewrite Hsends.
  - exists (mkstate [] [] (ms ++ flows) true). split_and!; [|done|done].
    etrans; [apply (Hpass ms _ [])|]. etrans; [|apply rtc_once, step_closed].
    rewrite <- (Hsends flows (RespectTiming segment) None) at 2. unfold replay, start. cbn [app].
    generalize (replay_from (RespectTiming segment) None flows). intros l. generalize ms as o.
    induction l as [|[d|m] l IH]; intros o; [rewrite app_nil_r; apply rtc_refl| |].
    + eapply rtc_l; [apply step_sleep|]. apply IH.
    + eapply rtc_l; [apply step_row|]. specialize (IH (o ++ [m])). by rewrite <- app_assoc in IH.
  - exists (mkstate [] (replay flows (RespectTiming segment)) ms true). split_and!; [|done|done].
    etrans; [apply (Hpass ms _ [])|]. apply rtc_once, step_closed.
Qed.

(** ** The theorems at work *)
Module witness.
#[export] Instance sqlite3 : Sqlite3 := fun ty s =>
  if seqb ty "INTEGER" then match strconv.ParseUint 63 s with Some n => DbInt n | None => DbReal s end else DbText s.
#[export] Instance sqlite3_laws : Sqlite3Laws.
Proof.
  split; [|done]. intros n Hn. unfold column, sqlite3. cbn [seqb]. rewrite strconv.ParseUint_FormatUint; [done|].
  unfold in_u. lia.
Qed.
Definition flow : EnrichedFlow := set_AsPath [64512; 553] (set_SrcAddr (Some [10; 0; 0; 1]) (set_Bytes 1500 emptyFlow)).
(** A flow without addresses: SrcAddr is nil, DstAddr empty. *)
Definition layer2_flow : EnrichedFlow := set_DstAddr (Some []) (set_SrcMac 11 (set_Bytes 1500 emptyFlow)).
Ltac all_fields := apply Forall_forall; intros d Hd; apply list_elem_of_In in Hd; revert d Hd; apply List.Forall_forall;
  unfold fields;
  repeat (apply List.Forall_cons; [cbn; first [exact I | reflexivity | unfold in_u; lia | by eexists | by repeat constructor]|]);
  apply List.Forall_nil.
Lemma flow_storable : Forall (fun d => storable (fd_kind d) (fd_get d flow)) fields.
Proof. all_fields. Qed.
Lemma layer2_storable : Forall (fun d => storable (fd_kind d) (fd_get d layer2_flow)) fields.
Proof. all_fields. Qed.
Lemma layer2_addressless : Forall (fun d => addressless (fd_get d layer2_flow)) fields.
Proof. all_fields. Qed.
Lemma fields_of_replay : fBytes "SrcAddr" SrcAddr set_SrcAddr ∈ fields /\ fBytes "DstAddr" DstAddr set_DstAddr ∈ fields.
Proof. split; apply list_elem_of_In; unfold fields; repeat (first [left; reflexivity | right]). Qed.
Definition at_second (n : Z) : list dbval := row_of (set_TimeFlowEnd n emptyFlow).
Definition second (n : Z) : EnrichedFlow := default emptyFlow (parse_row (at_second n)).
End witness.
Import witness.


Lemma replay_garbles_addresses_witness :
  exists r s, parse_row (row_of witness.flow) = Some r /\ SrcAddr r = Some s /\ s = [49; 48; 46; 48; 46; 48; 46; 49].
Proof.
  destruct (replay_garbles_addresses witness.flow 10 0 0 1 witness.flow_storable eq_refl) as (r & s & E & Hs & Ht & _).
  exists r, s. split; [exact E|]. split; [exact Hs|]. rewrite Ht. reflexivity.
Defined.

Lemma replay_timing_witness :
  foldr Z.add 0 (sleeps (replay [witness.second 100; witness.second 160] true)) = 60.
Proof.
  destruct (replay_timing [witness.at_second 160; witness.at_second 100] (witness.second 100) [witness.second 160])
    as (_ & _ & H).
  - split.
    + replace (omap parse_row [witness.at_second 160; witness.at_second 100]) with [witness.second 160; witness.second 100]
        by (vm_compute; reflexivity). apply Permutation_swap.
    + constructor; [repeat constructor|]. constructor. vm_compute. discriminate.
  - constructor; [|constructor; [|constructor]]; vm_compute; split; done.
  - rewrite H. vm_compute. reflexivity.
Defined.

Lemma ignoretiming_inverted_witness :
  exists s, New (fun _ => true) (fun _ => true) {[ "filename"%string := "f"%string; "ignoretiming"%string := "true"%string ]} = Created s
    /\ RespectTiming s = true.
Proof.
  exists (mkReplay "f" true). split; [reflexivity|].
  apply (ignoretiming_inverted (fun _ => true) (fun _ => true) {[ "filename"%string := "f"%string; "ignoretiming"%string := "true"%string ]}
    (mkReplay "f" true) true); [reflexivity|discriminate|reflexivity].
Defined.
