(* ===== verification/Inputs.v ===== *)
(** * Small inputs ([segments/input/stdin/stdin.go], [segments/input/goflow/goflow.go],
      [segments/testing/generator/generator.go])

    The parameters and the loops, as transition systems where goroutines meet.
    The scanner, JSON, URLs and goflow2 are parameters. *)

From stdpp Require Import prelude strings list gmap relations.
From Stdlib Require Import ZArith Lia Ascii.
From S2P Require Import Prelude GoStd EnrichedFlow Segment Output.

(** ** stdin.go *)
Module stdin.
Record StdIn := mkStdIn { FileName : string; EofCloses : bool }.
(** eofcloses is only read with a file name. *)
Definition New (Open : string -> bool) (c : config) : created StdIn :=
  if is_empty (cfg c "filename") then Created {| FileName := "stdout"; EofCloses := false |}
  else if Open (cfg c "filename")
    then Created {| FileName := cfg c "filename";
                    EofCloses := if is_empty (cfg c "eofcloses") then false else default false (strconv.ParseBool (cfg c "eofcloses")) |}
    else NilSegment.

Section run.
Context (Unmarshal : string -> option EnrichedFlow) (segment : StdIn).

(** What the scanner yields: lines, then the end of the file or an error, which
    [Scan] and [Err] report for ever after. *)
Inductive ending : Type := Eof | Broken.
(** The reader: scanning, sending a line, or returned. *)
Inductive reader : Type := Scanning | Handing (l : string) | ReaderDone.
Inductive runner : Type := Looping | Forwarding (m : EnrichedFlow) | Returned.
Record state := mkstate {
  lines : list string; reads : reader; input : list EnrichedFlow; runs : runner; out : list EnrichedFlow; shutdown : bool }.
Definition start (ls : list string) (ms : list EnrichedFlow) : state := mkstate ls Scanning ms Looping [] false.

(** At the end of the file the reader calls ShutdownParentPipeline, if it is to; in
    every other case it keeps calling [Scan]. *)
Inductive step (e : ending) : state -> state -> Prop :=
  | step_scan l ls ms r o b : step e (mkstate (l :: ls) Scanning ms r o b)
      (mkstate ls (if is_empty l then Scanning else Handing l) ms r o b)
  | step_eof ms r o b : e = Eof -> EofCloses segment = true ->
      step e (mkstate [] Scanning ms r o b) (mkstate [] ReaderDone ms r o true)
  | step_spin ms r o b : e = Broken \/ EofCloses segment = false ->
      step e (mkstate [] Scanning ms r o b) (mkstate [] Scanning ms r o b)
  | step_line ls l ms o b : step e (mkstate ls (Handing l) ms Looping o b)
      (mkstate ls Scanning ms (match Unmarshal l with Some m => Forwarding m | None => Looping end) o b)
  | step_in ls r m ms o b : step e (mkstate ls r (m :: ms) Looping o b) (mkstate ls r ms (Forwarding m) o b)
  | step_forward ls r ms m o b : step e (mkstate ls r ms (Forwarding m) o b) (mkstate ls r ms Looping (o ++ [m]) b)
  | step_close ls r o b : step e (mkstate ls r [] Looping o b) (mkstate ls r [] Returned o b).

Definition decoded (ls : list string) : list EnrichedFlow := omap (fun l => if is_empty l then None else Unmarshal l) ls.
Definition everything (st : state) : list EnrichedFlow :=
  out st ++ match runs st with Forwarding m => [m] | _ => [] end ++
  match reads st with Handing l => option_list (Unmarshal l) | _ => [] end ++ decoded (lines st) ++ input st.

Lemma stdin_step_everything e st st' : step e st st' -> everything st' ≡ₚ everything st.
Proof.
  unfold everything. destruct 1 as [l ls ms r o b|ms r o b He Hc|ms r o b Hs|ls l ms o b|ls r m ms o b|ls r ms m o b|ls r o b];
    cbn [out runs reads lines input]; rewrite <- ?app_assoc; try solve_perm.
  - unfold decoded. cbn. destruct l; cbn; [done|]. by destruct (Unmarshal _).
  - by destruct (Unmarshal l).
Qed.

(** Without a segment before it the order is kept. *)
Lemma stdin_step_in_order e st st' : step e st st' -> input st = [] -> everything st' = everything st /\ input st' = [].
Proof.
  unfold everything. intros Hs. destruct Hs as [l ls ms r o b|ms r o b He Hc|ms r o b He|ls l ms o b|ls r m ms o b|ls r ms m o b|ls r o b];
    cbn [out runs reads lines input]; intros Hi; subst; (split; [|done]); rewrite <- ?app_assoc; try done.
  - unfold decoded. cbn. destruct l; cbn; [done|]. by destruct (Unmarshal _).
  - by destruct (Unmarshal l).
Qed.

(** Nothing is left to be read at a shutdown. *)
Definition read_all (e : ending) (st : state) : Prop :=
  shutdown st = true -> e = Eof /\ EofCloses segment = true /\ reads st = ReaderDone /\ lines st = [].
Lemma step_read_all e st st' : step e st st' -> read_all e st -> read_all e st'.
Proof.
  unfold read_all. destruct 1; cbn; intros Hra Hb; try done; destruct (Hra Hb) as (? & ? & ? & ?); by split_and!.
Qed.
End run.
End stdin.

(** Flows read from the input file or standard input and those of the previous
    segment are neither lost nor duplicated whatever the interleaving; when the
    pipeline is shut down at the end of the file, every line has been taken; after a
    read error (a line that is too long) it never is, even with eofcloses. *)
Theorem stdin_conserves (Unmarshal : string -> option EnrichedFlow) (segment : stdin.StdIn) (e : stdin.ending)
    (ls : list string) (ms : list EnrichedFlow) (st : stdin.state) :
  rtc (stdin.step Unmarshal segment e) (stdin.start ls ms) st ->
  stdin.everything Unmarshal st ≡ₚ stdin.decoded Unmarshal ls ++ ms /\
  (stdin.shutdown st = true -> e = stdin.Eof /\ stdin.out st ++ match stdin.runs st with stdin.Forwarding m => [m] | _ => [] end ++ stdin.input st
     ≡ₚ stdin.decoded Unmarshal ls ++ ms).
Proof.
  intros Hs. assert (stdin.everything Unmarshal st ≡ₚ stdin.decoded Unmarshal ls ++ ms /\ stdin.read_all segment e st) as [He Hr].
  { change (stdin.decoded Unmarshal ls ++ ms) with (stdin.everything Unmarshal (stdin.start ls ms)).
    assert (stdin.read_all segment e (stdin.start ls ms)) as Hr by done. revert Hr.
    induction Hs as [st|st1 st2 st3 Hs _ IH]; intros Hr; [done|].
    destruct (IH (stdin.step_read_all Unmarshal segment e st1 st2 Hs Hr)) as [IHe ?]. split; [|done].
    rewrite IHe. by apply (stdin.stdin_step_everything Unmarshal segment e). }
  split; [done|]. intros Hb. destruct (Hr Hb) as (-> & _ & Hd & Hl). split; [done|]. rewrite <- He. unfold stdin.everything.
  by rewrite Hd, Hl.
Qed.

(** ** generator.go *)
Module generator.
Definition generated : EnrichedFlow := set_Note "generated test flow" (set_Bytes 42 (set_Proto 6 emptyFlow)).
(** The loop on what the select takes: a flow or the default case; [None] is the
    closed input. *)
Fixpoint Run (es : list (option (option EnrichedFlow))) : list EnrichedFlow :=
  match es with
  | [] | None :: _ => []
  | Some (Some m) :: es => m :: Run es
  | Some None :: es => generated :: Run es
  end.
End generator.

(** ** goflow.go *)
Module goflow.
(** What is used of [url.URL]. *)
Record URL := mkURL { Scheme : string; Hostname : string; Port : string }.
Record Goflow := mkGoflow { Listen : list URL; Workers : Z; Blocking : bool; QueueSize : Z; NumSockets : Z }.

Section New.
Context (Parse : string -> option URL).
Definition schemes : list string := ["netflow"; "sflow"; "nfl"]%string.
Definition listen_url (listenAddress : string) : option URL :=
  u ← Parse listenAddress;
  _ ← strconv.ParseUint 64 (Port u);
  if bool_decide (Scheme u ∈ schemes) then Some u else None.
Definition New (c : config) : created Goflow :=
  let listen := if is_empty (cfg c "listen") then "sflow://:6343,netflow://:2055"%string else cfg c "listen" in
  match mapM listen_url (gostrings.Split listen ",") with
  | None => NilSegment
  | Some us =>
      if is_empty (cfg c "workers") then Created (mkGoflow us 1 false 0 0)
      else match strconv.ParseUint 32 (cfg c "workers") with
           | Some n => if n =? 0 then NilSegment else Created (mkGoflow us n false 0 0)
           | None => Created (mkGoflow us 1 false 0 0)
           end
  end.
End New.

(** The goroutine of one listener up to its receiver: the port and the pipe;
    [portU64] is what ParseUint gives for the port. *)
Inductive pipe : Type := NetFlowPipe | SFlowPipe | FlowPipe.
Definition start_listener (u : URL) (portU64 : Z) : created (string * Z * pipe) :=
  if 2 ^ 63 - 1 <? portU64 then FatalExit
  else if seqb (Scheme u) "netflow" then Created (Hostname u, portU64, NetFlowPipe)
  else if seqb (Scheme u) "sflow" then Created (Hostname u, portU64, SFlowPipe)
  else if seqb (Scheme u) "flow" then Created (Hostname u, portU64, FlowPipe)
  else FatalExit.

(** The loop: [None] on the goflow channel is its closing, after which the nil
    message is sent on Out; the channel is never ready again. *)
Inductive event : Type := FromGoflow (m : option EnrichedFlow) | In (m : EnrichedFlow) | InClosed.
Fixpoint Run (open : bool) (es : list event) : list (option EnrichedFlow) :=
  match es with
  | [] | InClosed :: _ => []
  | In m :: es => Some m :: Run open es
  | FromGoflow m :: es => if open then m :: Run (match m with Some _ => true | None => false end) es else Run open es
  end.

(** What a listener asks of its receiver; the defaults are written back to the
    segment. *)
Record UDPReceiverConfig := mkUDPReceiverConfig { r_Sockets : Z; r_Workers : Z; r_QueueSize : Z; r_Blocking : bool }.
Definition receiver_config (s : Goflow) : Goflow * UDPReceiverConfig :=
  let s := mkGoflow (Listen s) (Workers s) (Blocking s)
             (if QueueSize s =? 0 then 1000000 else QueueSize s) (if NumSockets s =? 0 then 1 else NumSockets s) in
  (s, mkUDPReceiverConfig (NumSockets s) (i64 (Workers s)) (QueueSize s) (Blocking s)).

(** What goflow2 answers to a listener. *)
Record answers := mkanswers {
  NewUDPReceiver : UDPReceiverConfig -> bool; Compile : bool; CreateProtoProducer : bool; Start : string -> Z -> bool }.
(** The whole goroutine of one listener; every failure ends the process. *)
Definition listener (a : answers) (s : Goflow) (u : URL) : created (Goflow * (string * Z * pipe)) :=
  let portU64 := default 0 (strconv.ParseUint 64 (Port u)) in
  if 2 ^ 63 - 1 <? portU64 then FatalExit
  else
    let '(s, cfg) := receiver_config s in
    if NewUDPReceiver a cfg then
      if Compile a then
        if CreateProtoProducer a then
          l ← start_listener u portU64;
          if Start a (Hostname u) portU64 then Created (s, l) else FatalExit
        else FatalExit
      else FatalExit
    else FatalExit.
(** The listeners one after the other; they all make the same changes to the segment,
    and one that fails ends the process. *)
Fixpoint start_all (a : answers) (s : Goflow) (us : list URL) : created (Goflow * list (string * Z * pipe)) :=
  match us with
  | [] => Created (s, [])
  | u :: us =>
      r ← listener a s u;
      r' ← start_all a r.1 us;
      Created (r'.1, r.2 :: r'.2)
  end.
Definition startGoFlow (FindFormat : bool) (a : answers) (s : Goflow) : created (Goflow * list (string * Z * pipe)) :=
  if FindFormat then start_all a s (Listen s) else FatalExit.

(** The receivers' workers call [Send] of the driver, which waits until [Run]
    receives; data that does not decode is logged and dropped. *)
Section driver.
Context (UnmarshalFrom : list Z -> option EnrichedFlow).
(** A worker: the packets it has yet to see, and the flow it is sending. *)
Record worker := mkworker { packets : list (list Z); sends : option EnrichedFlow }.
Inductive runner : Type := Selecting | Forwarding (m : EnrichedFlow) | Returned.
Record state := mkstate { workers : list worker; input : list EnrichedFlow; runs : runner; out : list EnrichedFlow }.

Inductive step : state -> state -> Prop :=
  | step_Send ws i v l ms r o : ws !! i = Some (mkworker (v :: l) None) ->
      step (mkstate ws ms r o) (mkstate (<[i := mkworker l (UnmarshalFrom v)]> ws) ms r o)
  | step_receive ws i l m ms o : ws !! i = Some (mkworker l (Some m)) ->
      step (mkstate ws ms Selecting o) (mkstate (<[i := mkworker l None]> ws) ms (Forwarding m) o)
  | step_in m ws ms o : step (mkstate ws (m :: ms) Selecting o) (mkstate ws ms (Forwarding m) o)
  | step_forward m ws ms o : step (mkstate ws ms (Forwarding m) o) (mkstate ws ms Selecting (o ++ [m]))
  | step_close ws o : step (mkstate ws [] Selecting o) (mkstate ws [] Returned o).

Definition start (packets : list (list (list Z))) (ms : list EnrichedFlow) : state :=
  mkstate ((fun l => mkworker l None) <$> packets) ms Selecting [].

Definition decoded (vs : list (list Z)) : list EnrichedFlow := omap UnmarshalFrom vs.
Definition part (w : worker) : list EnrichedFlow := option_list (sends w) ++ decoded (packets w).
Definition everything (st : state) : list EnrichedFlow :=
  out st ++ match runs st with Forwarding m => [m] | _ => [] end ++ concat (part <$> workers st) ++ input st.
Lemma goflow_step_everything st st' : step st st' -> everything st' ≡ₚ everything st.
Proof.
  unfold everything. destruct 1 as [ws i v l ms r o Hi|ws i l m ms o Hi| | |]; cbn [out runs workers input]; rewrite <- ?app_assoc; try solve_perm.
  - pose proof (concat_update part ws i _ (mkworker l (UnmarshalFrom v)) [] [] Hi) as Hc. rewrite !app_nil_r in Hc.
    rewrite Hc; [done|]. unfold part, decoded. cbn. by destruct (UnmarshalFrom v).
  - pose proof (concat_update part ws i _ (mkworker l None) [m] [] Hi) as Hc. rewrite !app_nil_r in Hc.
    rewrite <- Hc; [solve_perm|]. unfold part. cbn. solve_perm.
Qed.
Lemma start_everything packets ms : everything (start packets ms) = concat (decoded <$> packets) ++ ms.
Proof. unfold everything, start. cbn. f_equal. induction packets as [|l packets IH]; [done|]. cbn. by rewrite IH. Qed.
End driver.
End goflow.

(** Whatever the interleaving of the workers of all receivers and of the input: at
    any moment the flows sent on, under way and still to come are those of the
    input and those the received packets decode to. *)
Theorem goflow_conserves (UnmarshalFrom : list Z -> option EnrichedFlow) (packets : list (list (list Z)))
    (ms : list EnrichedFlow) (st : goflow.state) :
  rtc (goflow.step UnmarshalFrom) (goflow.start packets ms) st ->
  goflow.everything UnmarshalFrom st ≡ₚ concat (goflow.decoded UnmarshalFrom <$> packets) ++ ms.
Proof.
  intros Hs. rewrite <- goflow.start_everything. induction Hs as [st|st1 st2 st3 H1 _ IH]; [done|].
  rewrite IH. by apply goflow.goflow_step_everything.
Qed.

(** Every segment the constructor makes asks for one socket, a queue of a million
    packets and as many workers as configured, without wrapping around. *)
Theorem goflow_receivers (Parse : string -> option goflow.URL) (c : config) (s : goflow.Goflow) :
  goflow.New Parse c = Created s -> 1 <= goflow.Workers s < 2 ^ 32 /\
  (goflow.receiver_config s).2 = goflow.mkUDPReceiverConfig 1 (goflow.Workers s) 1000000 false.
Proof.
  unfold goflow.New. destruct (mapM _ _); [|done]. intros H.
  assert (1 <= goflow.Workers s < 2 ^ 32 /\ goflow.QueueSize s = 0 /\ goflow.NumSockets s = 0 /\ goflow.Blocking s = false) as (Hw & Hq & Hn & Hb).
  { destruct (is_empty (cfg c "workers")); [by injection H as <-|]. destruct (strconv.ParseUint 32 _) as [n|] eqn:E; [|by injection H as <-].
    destruct (Z.eqb_spec n 0); [done|]. injection H as <-. cbn. apply strconv.ParseUint_range in E. unfold in_u in E. split_and!; try done; lia. }
  split; [done|]. unfold goflow.receiver_config. cbn. rewrite Hq, Hn, Hb. cbn. f_equal. apply swrap_small; lia.
Qed.

Lemma start_listener_range (u : goflow.URL) (p : Z) : 2 ^ 63 - 1 < p -> goflow.start_listener u p = FatalExit.
Proof. intros Hp. apply Z.ltb_lt in Hp. unfold goflow.start_listener. by rewrite Hp. Qed.
Lemma start_all_listens (a : goflow.answers) (us : list goflow.URL) : forall (s : goflow.Goflow),
  (forall cfg, goflow.NewUDPReceiver a cfg = true) -> goflow.Compile a = true -> goflow.CreateProtoProducer a = true ->
  (forall h p, goflow.Start a h p = true) ->
  let port u := default 0 (strconv.ParseUint 64 (goflow.Port u)) in
  match mapM (fun u => goflow.start_listener u (port u)) us with
  | Created ls => (fun r => r.2) <$> goflow.start_all a s us = Created ls
  | _ => goflow.start_all a s us = FatalExit
  end.
Proof.
  intros s H1 H2 H3 H4 port. revert s. induction us as [|u us IH]; intros s; [done|].
  cbn [mapM goflow.start_all]. unfold goflow.listener. fold (port u).
  destruct (Z.ltb_spec (2 ^ 63 - 1) (port u)) as [Hp|Hp].
  - by rewrite (start_listener_range u (port u) Hp).
  - destruct (goflow.receiver_config s) as [s' cfg]. rewrite H1, H2, H3.
    assert (goflow.start_listener u (port u) = FatalExit \/ exists l, goflow.start_listener u (port u) = Created l) as [->|[l ->]].
    { unfold goflow.start_listener. repeat case_match; eauto. }
    + done.
    + cbn [mbind created_bind]. rewrite H4. cbn [mbind created_bind fst]. specialize (IH s').
      destruct (mapM _ us) as [ls| | |]; [|by rewrite IH..].
      destruct (goflow.start_all a s' us) as [[s2 ls2]| | |]; try done. cbn in *. by injection IH as <-.
Qed.
(** Where goflow2 has no objections, the segment listens on all configured addresses, in
    order, if none of them is of the scheme nfl or beyond the 63-bit numbers; otherwise the
    process ends. *)
Theorem startGoFlow_listens (a : goflow.answers) (s : goflow.Goflow) :
  (forall cfg, goflow.NewUDPReceiver a cfg = true) -> goflow.Compile a = true -> goflow.CreateProtoProducer a = true ->
  (forall h p, goflow.Start a h p = true) ->
  match mapM (fun u => goflow.start_listener u (default 0 (strconv.ParseUint 64 (goflow.Port u)))) (goflow.Listen s) with
  | Created ls => (fun r => r.2) <$> goflow.startGoFlow true a s = Created ls
  | _ => goflow.startGoFlow true a s = FatalExit
  end.
Proof. apply start_all_listens. Qed.

(** The listener schemes of the constructor and of the startup differ: nfl is
    accepted and ends the process when the segment starts, while flow, which the
    startup knows, is rejected. *)
Theorem goflow_schemes (Parse : string -> option goflow.URL) (c : config) (s : goflow.Goflow) :
  goflow.New Parse c = Created s ->
  Forall (fun u => goflow.Scheme u <> "flow"%string /\
    exists p, strconv.ParseUint 64 (goflow.Port u) = Some p /\
              (goflow.start_listener u p = FatalExit <-> goflow.Scheme u = "nfl"%string \/ 2 ^ 63 <= p)) (goflow.Listen s).
Proof.
  unfold goflow.New. destruct (mapM (goflow.listen_url Parse) _) as [us|] eqn:E; [|done]. intros H.
  assert (goflow.Listen s = us) as ->.
  { destruct (is_empty (cfg c "workers")); [by injection H as <-|]. destruct (strconv.ParseUint 32 _) as [n|]; [|by injection H as <-].
    destruct (n =? 0); [done|by injection H as <-]. }
  apply mapM_Some_1 in E. eapply Forall2_Forall_r in E; [exact E|]. clear. apply Forall_forall. intros a _ u Hu. unfold goflow.listen_url in Hu.
  destruct (Parse a) as [v|]; [|done]. cbn [mbind option_bind] in Hu.
  destruct (strconv.ParseUint 64 (goflow.Port v)) as [p|] eqn:Ep; [|done]. cbn [mbind option_bind] in Hu.
  case_bool_decide as Hs; [|done]. injection Hu as <-. unfold goflow.start_listener.
  assert (goflow.Scheme v <> "flow"%string) by (intros Hf; rewrite Hf in Hs; unfold goflow.schemes in Hs; set_solver).
  split; [done|]. exists p. split; [done|].
  repeat (apply elem_of_cons in Hs as [Hs|Hs]; [rewrite Hs|]); [..|by apply elem_of_nil in Hs];
    destruct (Z.ltb_spec (2 ^ 63 - 1) p); cbn; split; try done; try (intros _; right; lia); try (intros [?|?]; [done|lia]); by left.
Qed.

(** When goflow's channel is closed the segment sends a nil message on Out. *)
Theorem goflow_close_sends_nil (pre post : list EnrichedFlow) :
  goflow.Run true ((goflow.FromGoflow ∘ Some <$> pre) ++ goflow.FromGoflow None :: (goflow.In <$> post)) = (Some <$> pre) ++ None :: (Some <$> post).
Proof.
  induction pre as [|m pre IH]; cbn; [|by f_equal]. f_equal. induction post as [|m post IH]; cbn; [done|by f_equal].
Qed.

(** ** The theorems at work *)
Module witness.
Definition decode (s : string) : option EnrichedFlow := (fun n => set_Bytes n emptyFlow) <$> strconv.ParseUint 64 s.
Definition segment : stdin.StdIn :=
  match stdin.New (fun _ => true) {[ "filename"%string := "f"%string; "eofcloses"%string := "true"%string ]} with Created s => s | _ => stdin.mkStdIn "" false end.
Definition url (s : string) : option goflow.URL :=
  if seqb s "nfl://:2056" then Some (goflow.mkURL "nfl" "" "2056") else None.
End witness.

Lemma stdin_conserves_witness :
  [set_Bytes 7 emptyFlow] ≡ₚ stdin.decoded witness.decode ["7"; ""]%string ++ [].
Proof.
  refine (proj2 (proj2 (stdin_conserves witness.decode witness.segment stdin.Eof ["7"; ""]%string []
    (stdin.mkstate [] stdin.ReaderDone [] stdin.Looping [set_Bytes 7 emptyFlow] true) _) eq_refl)).
  eapply rtc_l; [apply stdin.step_scan|]. eapply rtc_l; [apply stdin.step_line|]. eapply rtc_l; [apply stdin.step_forward|].
  eapply rtc_l; [apply stdin.step_scan|]. eapply rtc_l; [apply stdin.step_eof; reflexivity|]. apply rtc_refl.
Defined.

Lemma goflow_schemes_witness : goflow.start_listener (goflow.mkURL "nfl" "" "2056") 2056 = FatalExit.
Proof.
  pose proof (goflow_schemes witness.url {[ "listen"%string := "nfl://:2056"%string ]} (goflow.mkGoflow [goflow.mkURL "nfl" "" "2056"] 1 false 0 0) eq_refl) as H.
  apply Forall_cons in H as [(_ & p & Hp & H) _]. injection Hp as <-. apply H. left. reflexivity.
Defined.

Lemma goflow_conserves_witness :
  goflow.everything (fun v => Some (set_Bytes (zlen v) emptyFlow))
    (goflow.mkstate [goflow.mkworker [] None] [] goflow.Selecting [set_Bytes 2 emptyFlow; emptyFlow])
  ≡ₚ concat (goflow.decoded (fun v => Some (set_Bytes (zlen v) emptyFlow)) <$> [[[1; 2]]]) ++ [emptyFlow].
Proof.
  apply goflow_conserves. eapply rtc_l; [apply (goflow.step_Send _ _ 0%nat [1; 2] []); reflexivity|].
  eapply rtc_l; [apply (goflow.step_receive _ _ 0%nat [] (set_Bytes 2 emptyFlow)); reflexivity|].
  eapply rtc_l; [apply goflow.step_forward|]. eapply rtc_l; [apply goflow.step_in|].
  eapply rtc_l; [apply goflow.step_forward|]. apply rtc_refl.
Defined.
Lemma goflow_receivers_witness :
  (goflow.receiver_config (goflow.mkGoflow [goflow.mkURL "nfl" "" "2056"] 1 false 0 0)).2 = goflow.mkUDPReceiverConfig 1 1 1000000 false.
Proof.
  exact (proj2 (goflow_receivers witness.url {[ "listen"%string := "nfl://:2056"%string ]}
    (goflow.mkGoflow [goflow.mkURL "nfl" "" "2056"] 1 false 0 0) eq_refl)).
Defined.
