(* ===== verification/Alert.v ===== *)
(** * Alerts and gates ([segments/alert/http/http.go], [segments/dev/filegate/filegate.go])

    The http segment as a loop over flows and the answers of the endpoint; the
    filegate segment as a transition system in which the gate file comes and goes,
    and the one object that all filegate segments of a pipeline are. *)

From stdpp Require Import prelude strings list gmap relations.
From Stdlib Require Import ZArith Lia.
From S2P Require Import Prelude GoStd EnrichedFlow Segment Output.

(** ** http.go *)
Module http.
Record Http := mkHttp { Url : string }.
(** [scheme] is the scheme [url.Parse] finds. *)
Definition New (scheme : string -> option string) (c : config) : created Http :=
  match scheme (cfg c "url") with
  | None => NilSegment
  | Some s => if seqb s "http" || seqb s "https" then Created {| Url := cfg c "url" |} else NilSegment
  end.

(** What [http.Post] gives: an error or a response with its status code. *)
Inductive answer : Type := Failed | Status (code : Z).
(** Errors are logged each time they occur, their end once. *)
Inductive entry : Type := RequestError | EndpointError (code : Z) | Resolved.

Definition accepted (a : answer) : bool := match a with Failed => false | Status code => code - 200 <? 100 end.
(** The log entry of an answer and the new [limitLog]. *)
Definition note (limitLog : bool) (a : answer) : option entry * bool :=
  match a with
  | Failed => (Some RequestError, true)
  | Status code => if negb (code - 200 <? 100) then (Some (EndpointError code), true)
                   else if limitLog then (Some Resolved, false) else (None, false)
  end.

Section run.
Context (Marshal : EnrichedFlow -> option string).
(** The loop: bodies posted, log entries and flows forwarded; an answer is only
    taken by a flow that can be encoded, and a missing one is a request that hangs. *)
Fixpoint Run (limitLog : bool) (answers : list answer) (ms : list EnrichedFlow) : list string * list entry * list EnrichedFlow * bool :=
  match ms with
  | [] => ([], [], [], limitLog)
  | msg :: ms =>
      match Marshal msg, answers with
      | None, _ => Run limitLog answers ms
      | Some data, a :: answers =>
          let '(e, l) := note limitLog a in
          let '(ps, es, os, b) := Run l answers ms in
          (data :: ps, option_list e ++ es, msg :: os, b)
      | Some data, [] => ([data], [], [], limitLog)
      end
  end.

Definition encodable (m : EnrichedFlow) : bool := match Marshal m with Some _ => true | None => false end.
Definition encoded (ms : list EnrichedFlow) : list EnrichedFlow := List.filter encodable ms.
End run.
(** The endings that are logged: accepted answers after one that was not. *)
Fixpoint recoveries (down : bool) (answers : list answer) : nat :=
  match answers with
  | [] => 0
  | a :: l => (if accepted a then if down then 1 else 0 else 0) + recoveries (negb (accepted a)) l
  end.
Lemma note_down limitLog a : (note limitLog a).2 = negb (accepted a).
Proof. destruct a as [|code]; cbn; [done|]. destruct (code - 200 <? 100), limitLog; done. Qed.
End http.

(** As long as the endpoint answers, every flow that can be encoded is posted once,
    in order, and forwarded whatever the answer; the log tells every failure, and an
    end of failures exactly once. *)
Theorem http_posts (Marshal : EnrichedFlow -> option string) (limitLog : bool) (answers : list http.answer) (ms : list EnrichedFlow) :
  length answers = length (http.encoded Marshal ms) ->
  let '(ps, es, os, b) := http.Run Marshal limitLog answers ms in
  Some <$> ps = Marshal <$> http.encoded Marshal ms /\ os = http.encoded Marshal ms /\
  b = from_option (fun a => negb (http.accepted a)) limitLog (last answers) /\
  length (List.filter (fun e => match e with http.Resolved => false | _ => true end) es) =
    length (List.filter (fun a => negb (http.accepted a)) answers) /\
  length (List.filter (fun e => match e with http.Resolved => true | _ => false end) es) = http.recoveries limitLog answers.
Proof.
  revert limitLog answers. induction ms as [|m ms IH]; intros limitLog answers Hl.
  - destruct answers; [|done]. by cbn.
  - cbn [http.Run http.encoded List.filter]. unfold http.encoded in Hl. cbn [List.filter] in Hl. unfold http.encodable in *.
    destruct (Marshal m) as [data|] eqn:Em; [|by apply IH].
    destruct answers as [|a answers]; [done|]. injection Hl as Hl.
    pose proof (http.note_down limitLog a) as Hn. destruct (http.note limitLog a) as [e l] eqn:En. cbn [snd] in Hn. subst l.
    specialize (IH (negb (http.accepted a)) answers Hl). destruct (http.Run Marshal _ answers ms) as [[[ps es] os] b].
    destruct IH as (H1 & H2 & H3 & H4 & H5). split_and!.
    + cbn. by rewrite H1, Em.
    + by rewrite H2.
    + rewrite H3, last_cons. by destruct (last answers).
    + rewrite List.filter_app, length_app, H4. unfold http.note in En. destruct a as [|code]; cbn in *; [by injection En as <-|].
      destruct (code - 200 <? 100), limitLog; injection En as <-; done.
    + rewrite List.filter_app, length_app, H5. unfold http.note in En. destruct a as [|code]; cbn in *; [by injection En as <-|].
      destruct (code - 200 <? 100), limitLog; injection En as <-; done.
Qed.

(** ** filegate.go *)
Module filegate.
Record Filegate := mkFilegate { filename : string; In : nat; Out : nat }.
(** [New] has a pointer receiver, sets the file name of the registered object and
    returns that object. *)
Definition New (segment : Filegate) (c : config) : created Filegate :=
  if is_empty (cfg c "filename") then FatalExit
  else Created {| filename := cfg c "filename"; In := In segment; Out := Out segment |}.
Definition Rewire (i : nat) (segment : Filegate) : Filegate := {| filename := filename segment; In := i; Out := S i |}.

(** The object after SegmentsFromRepr and pipeline.New on filegate segments with
    the configurations [cs]: every element of the list is this object. *)
Definition configure (segment : Filegate) (cs : list config) : created Filegate :=
  foldl (fun s c => match s with Created s => New s c | _ => s end) (Created segment) cs.
Definition wire (n : nat) (segment : Filegate) : Filegate := foldl (fun s i => Rewire i s) segment (seq 0 n).

(** [os.Stat]; only a missing file opens the gate. *)
Inductive stat : Type := Found | NotExist | OtherError.
Definition checkFileExists (s : stat) : bool := match s with NotExist => false | _ => true end.

Inductive runner : Type := Ranging | Checking (m : EnrichedFlow) | Returned.
Record state := mkstate { input : list EnrichedFlow; gate : stat; runs : runner; out : list EnrichedFlow }.
Inductive step : state -> state -> Prop :=
  | step_gate ms g g' r o : step (mkstate ms g r o) (mkstate ms g' r o)
  | step_in m ms g o : step (mkstate (m :: ms) g Ranging o) (mkstate ms g (Checking m) o)
  | step_sleep ms g m o : checkFileExists g = true -> step (mkstate ms g (Checking m) o) (mkstate ms g (Checking m) o)
  | step_forward ms g m o : checkFileExists g = false -> step (mkstate ms g (Checking m) o) (mkstate ms g Ranging (o ++ [m]))
  | step_close g o : step (mkstate [] g Ranging o) (mkstate [] g Returned o).
Definition held (r : runner) : list EnrichedFlow := match r with Checking m => [m] | _ => [] end.
Definition flows (st : state) : list EnrichedFlow := out st ++ held (runs st) ++ input st.
Lemma gate_step_flows st st' : step st st' -> flows st' = flows st.
Proof. unfold flows. destruct 1; cbn; by rewrite <- ?app_assoc. Qed.
Lemma steps_flows st st' : rtc step st st' -> flows st' = flows st.
Proof. induction 1 as [|st1 st2 st3 Hs _ IH]; [done|]. by rewrite IH, (gate_step_flows st1). Qed.
Definition drained (st : state) : Prop := runs st = Returned -> input st = [].
Lemma steps_drained st st' : rtc step st st' -> drained st -> drained st'.
Proof.
  apply (@rtc_keeps state step drained). unfold drained. intros st1 st2 Hd Hs. destruct Hs; cbn in *; done.
Qed.
(** With the file gone everything gets through. *)
Lemma open_steps ms o : rtc step (mkstate ms NotExist Ranging o) (mkstate [] NotExist Returned (o ++ ms)).
Proof.
  revert o. induction ms as [|m ms IH]; intros o.
  - rewrite app_nil_r. eapply rtc_l; [apply step_close|]. apply rtc_refl.
  - eapply rtc_l; [apply step_in|]. eapply rtc_l; [by apply step_forward|]. rewrite (cons_middle m o ms), app_assoc. apply IH.
Qed.
End filegate.

(** Flows leave the gate in order, none lost or duplicated, whatever the file does;
    and from every reachable state the segment can still forward all of them and
    return: it suffices that the file disappears. *)
Theorem filegate_holds (ms : list EnrichedFlow) (g : filegate.stat) (st : filegate.state) :
  rtc filegate.step (filegate.mkstate ms g filegate.Ranging []) st ->
  filegate.flows st = ms /\ exists g', rtc filegate.step st (filegate.mkstate [] g' filegate.Returned ms).
Proof.
  intros Hs. pose proof (filegate.steps_flows _ _ Hs) as Hf. pose proof (filegate.steps_drained _ _ Hs) as Hd.
  unfold filegate.flows, filegate.drained in *. destruct st as [ms' g' [|m|] o]; cbn in *; (split; [done|]); rewrite <- Hf.
  - exists filegate.NotExist. eapply rtc_l; [apply (filegate.step_gate ms' g' filegate.NotExist)|]. apply filegate.open_steps.
  - exists filegate.NotExist. eapply rtc_l; [apply (filegate.step_gate ms' g' filegate.NotExist)|].
    eapply rtc_l; [by apply filegate.step_forward|]. rewrite (cons_middle m o ms'), app_assoc. apply filegate.open_steps.
  - exists g'. rewrite Hd, app_nil_r by done. apply rtc_refl.
Qed.

(** All filegate segments of a pipeline are one object: they wait for the file of
    the last one and are wired to its channels, so that with two or more nobody
    receives from the pipeline's first channel. *)
Theorem filegates_alias (segment s : filegate.Filegate) (cs : list config) (c : config) :
  filegate.configure segment (cs ++ [c]) = Created s ->
  let s := filegate.wire (length (cs ++ [c])) s in
  filegate.filename s = cfg c "filename" /\ filegate.In s = length cs /\ filegate.Out s = S (length cs).
Proof.
  unfold filegate.configure, filegate.wire. rewrite foldl_app, length_app, Nat.add_comm. cbn [length Nat.add foldl].
  destruct (foldl _ _ cs) as [s0| | |]; [|done..]. unfold filegate.New.
  destruct (is_empty _); [done|]. intros [= <-]. cbv zeta. rewrite seq_S, foldl_app. cbn. split_and!; [|done|done].
  by induction (seq 0 (length cs)) as [|i l IH] using rev_ind; [|rewrite foldl_app].
Qed.

(** ** The theorems at work *)
Lemma http_posts_witness :
  http.Run (fun m => if 0 <? Bytes m then Some "{}"%string else None) false [http.Failed; http.Status 204]
    [set_Bytes 1 emptyFlow; emptyFlow; set_Bytes 2 emptyFlow] =
  (["{}"; "{}"]%string, [http.RequestError; http.Resolved], [set_Bytes 1 emptyFlow; set_Bytes 2 emptyFlow], false) /\
  http.recoveries false [http.Failed; http.Status 204] = 1%nat.
Proof.
  split; [reflexivity|].
  exact (eq_sym (proj2 (proj2 (proj2 (proj2 (http_posts (fun m => if 0 <? Bytes m then Some "{}"%string else None) false
    [http.Failed; http.Status 204] [set_Bytes 1 emptyFlow; emptyFlow; set_Bytes 2 emptyFlow] eq_refl)))))).
Defined.

Lemma filegate_holds_witness :
  rtc filegate.step (filegate.mkstate [emptyFlow] filegate.Found filegate.Ranging []) (filegate.mkstate [] filegate.Found (filegate.Checking emptyFlow) []) /\
  (filegate.flows (filegate.mkstate [] filegate.Found (filegate.Checking emptyFlow) []) = [emptyFlow] /\
   exists g, rtc filegate.step (filegate.mkstate [] filegate.Found (filegate.Checking emptyFlow) []) (filegate.mkstate [] g filegate.Returned [emptyFlow])).
Proof.
  assert (rtc filegate.step (filegate.mkstate [emptyFlow] filegate.Found filegate.Ranging []) (filegate.mkstate [] filegate.Found (filegate.Checking emptyFlow) [])) as Hs
    by (eapply rtc_l; [apply filegate.step_in|apply rtc_refl]).
  split; [exact Hs|]. exact (filegate_holds [emptyFlow] filegate.Found _ Hs).
Defined.

Lemma filegates_alias_witness :
  filegate.In (filegate.wire 2 (filegate.mkFilegate "b" 0 0)) = 1%nat.
Proof.
  exact (proj1 (proj2 (filegates_alias (filegate.mkFilegate "" 0 0) (filegate.mkFilegate "b" 0 0)
    [{[ "filename"%string := "a"%string ]}] {[ "filename"%string := "b"%string ]} eq_refl))).
Defined.
