(* ===== verification/Docs.v ===== *)
(** * The documentation generator ([meta/doc_generator/main.go],
      [meta/doc_generator/utils.go], [meta/doc_generator/mdbuilder.go])

    The tree of segments read from the directories, the table of contents and the
    sections.  Go's parser (of the segments' sources), the title casing of
    golang.org/x/text and the files read are parameters; a directory listing is an
    [entry]. *)

From stdpp Require Import prelude strings list gmap.
From Stdlib Require Import ZArith Lia Ascii.
From S2P Require Import Prelude GoStd.

(** ** utils.go *)
Definition FlowPipelineRepo : string := "https://github.com/BelWue/flowpipeline".
Definition FlowPipelineFilesBase : string := FlowPipelineRepo ++ "/tree/master/".
Definition FlowPipelineCommitBase : string := FlowPipelineRepo ++ "/commit/".

Definition linkTo (display url : string) : string :=
  let display := if is_empty display then url else display in "[" ++ display ++ "](" ++ url ++ ")".
Definition linkFromCommit (commit : string) : string := linkTo commit (FlowPipelineCommitBase ++ commit).

(** [strings.ReplaceAll] of one character. *)
Definition replace_char (a b : ascii) : string -> string := gostrings.map_ascii (fun c => if ascii_dec c a then b else c).
Fixpoint remove_char (a : ascii) (s : string) : string :=
  match s with EmptyString => EmptyString | String c s => if ascii_dec c a then remove_char a s else String c (remove_char a s) end.
Definition linkifyText (text : string) : string := replace_char " " "-" (gostrings.ToLower (gostrings.TrimSpace text)).
Definition unfilenamify (text : string) : string := remove_char "_" (remove_char "-" (gostrings.TrimSpace text)).

Definition newline : string := String "010"%char EmptyString.
Definition multiline (lines : list string) : string := String.concat newline lines.
Definition summary (title details : string) : string :=
  multiline ["<details>"; "<summary>" ++ title ++ "</summary>"; ""; details; ""; "</details>"]%string.

Fixpoint Repeat (s : string) (n : nat) : string := match n with O => "" | S n => s ++ Repeat s n end.

(** ** mdbuilder.go *)
Record MdBuilder := mkMd { paragraphs : list string; nesting : nat }.
Definition WriteParagraph (p : string) (b : MdBuilder) : MdBuilder := mkMd (paragraphs b ++ [p]) (nesting b).
Definition heading (level : nat) (title : string) : string := Repeat "#" (level + 1) ++ " " ++ title.
Definition WriteSection (title : string) (body : MdBuilder -> created MdBuilder) (b : MdBuilder) : created MdBuilder :=
  let b := WriteParagraph (heading (nesting b) title) b in
  b ← body (mkMd (paragraphs b) (nesting b + 1));
  Created (mkMd (paragraphs b) (nesting b - 1)).
Definition md_String (b : MdBuilder) : string := String.concat (newline ++ newline) (paragraphs b).

(** ** The tree *)
Inductive entry : Type := Dir (name : string) (entries : list entry) | File (name : string).
(** [Parent] is only compared with nil. *)
Inductive SegmentTree : Type := mkTree {
  Name : string; Path : string; Depth : nat; IsSegment : bool; has_parent : bool; Children : list SegmentTree }.

(** [filepath.Ext] starts at the last dot. *)
Fixpoint before_dot (s : string) : option string :=
  match s with
  | EmptyString => None
  | String c s => match before_dot s with
                  | Some p => Some (String c p)
                  | None => if ascii_dec c "." then Some EmptyString else None
                  end
  end.
Definition entryNameNoExt (name : string) : string := default name (before_dot name).
(** [filepath.Join] of a clean path and a name. *)
Definition Join (path name : string) : string := path ++ "/" ++ name.

Definition add_child (c t : SegmentTree) : SegmentTree :=
  mkTree (Name t) (Path t) (Depth t) (IsSegment t) (has_parent t) (Children t ++ [c]).
Definition set_segment (path : string) (t : SegmentTree) : SegmentTree :=
  mkTree (Name t) path (Depth t) true (has_parent t) (Children t).
(** One iteration of the loop over the entries of [path]. *)
Fixpoint add_entry (path : string) (tree : SegmentTree) (e : entry) : SegmentTree :=
  match e with
  | Dir name entries =>
      let childTree := mkTree (entryNameNoExt name) (Join path name) (Depth tree + 1) false true [] in
      add_child (fold_left (add_entry (Join path name)) entries childTree) tree
  | File name =>
      if negb (has_parent tree) || negb (seqb (Name tree) (entryNameNoExt name)) then tree
      else set_segment (Join path name) tree
  end.
Definition buildSegmentTree (path : string) (entries : list entry) : SegmentTree :=
  fold_left (add_entry path) entries (mkTree "Root" "/" 0 false false []).

(** ** Titles and the table of contents *)
Section generator.
(** [cases.Title(language.English).String] *)
Context (Title : string -> string).
Definition formatGroupTitle (name : string) : string := Title name ++ " Group".
Definition formatSegmentName (name : string) : string := name.
Definition formatTitle (tree : SegmentTree) : string :=
  if IsSegment tree then formatSegmentName (Name tree) else formatGroupTitle (Name tree).

Definition toc_line (depth : nat) (formattedTitle : string) : string :=
  Repeat "  " (depth - 1) ++ "- " ++ linkTo formattedTitle ("#" ++ linkifyText formattedTitle) ++ newline.
Fixpoint generateToC (tree : SegmentTree) : list string :=
  (if has_parent tree then [toc_line (Depth tree) (formatTitle tree)] else []) ++
  (if IsSegment tree then [] else concat (generateToC <$> Children tree)).

(** ** The sections *)

(** A field of a configuration struct as the parser gives it: the names and the type
    of a field whose type is an identifier, the selector of one whose type is
    selected from a package, or anything else. *)
Inductive ast_field : Type := Ident (names : list string) (type : string) (doc : string) | SelectorExpr (sel : string) | OtherExpr.
(** A type declared by the package: its name and, for a struct, its fields; another
    type makes [expectType] panic. *)
Record type_decl := mkdecl { d_Name : string; d_fields : option (list ast_field) }.

Definition field_docs (f : ast_field) : list (string * string * string) :=
  match f with
  | Ident [name] type doc => [(name, type, doc)]
  | SelectorExpr sel => if seqb sel "BaseTextOutputSegment"
                        then [("File", "*os.File", "Optional output file. If not set, stdout is used.")]%string else []
  | _ => []
  end.
Definition field_text (f : string * string * string) : string :=
  "* **" ++ f.1.1 ++ "** _" ++ f.1.2 ++ "_" ++ (if is_empty f.2 then "" else ": " ++ f.2).
Definition EqualFold (s t : string) : bool := seqb (gostrings.ToLower s) (gostrings.ToLower t).
(** What [doc.NewFromFiles] finds in a file: [None] is an error of the parser
    ([log.Fatal]); exported types, sorted by name, none after an error of its own.
    Every declaration is taken to have one specification. *)
Context (Types : string -> option (list type_decl)).
Definition extractConfigStructDoc (tree : SegmentTree) : created string :=
  match Types (Path tree) with
  | None => FatalExit
  | Some decls =>
      match List.find (fun d => EqualFold (d_Name d) (unfilenamify (Name tree))) decls with
      | None => Created ""%string
      | Some d => match d_fields d with
                  | None => Panicked
                  | Some fs => Created (String.concat newline (field_text <$> concat (field_docs <$> fs)))
                  end
      end
  end.

(** The comment of a file's package clause, the content of a file, [filepath.Abs],
    and the variable PROJECT_BASE_DIR. *)
Context (PackageDoc : string -> option string) (ReadFile : string -> option string) (Abs : string -> option string)
        (PROJECT_BASE_DIR : option string).
Definition extractPackageDoc (path : string) : string :=
  match PackageDoc path with None => "_No segment documentation found._" | Some text => gostrings.TrimSpace text end.
Definition linkFromPath (path display : string) : created string :=
  match Abs (default "."%string PROJECT_BASE_DIR), Abs path with
  | Some projectBaseDir, Some targetFilePath =>
      if gostrings.HasPrefix targetFilePath projectBaseDir then Created (linkTo display (FlowPipelineFilesBase ++ path)) else FatalExit
  | _, _ => FatalExit
  end.
(** [filepath.Base]: what follows the last slash. *)
Fixpoint Base (s : string) : string :=
  match s with
  | EmptyString => EmptyString
  | String c s' => if gostrings.Contains s' "/" then Base s' else if ascii_dec c "/" then s' else s
  end.

Definition segment_body (tree : SegmentTree) (b : MdBuilder) : created MdBuilder :=
  link ← linkFromPath (Path tree) (Base (Path tree));
  let b := WriteParagraph ("_This segment is implemented in " ++ link ++ "._") b in
  let b := WriteParagraph (extractPackageDoc (Path tree)) b in
  fieldsDoc ← extractConfigStructDoc tree;
  Created (if is_empty fieldsDoc then b else WriteParagraph (summary "Configuration options" fieldsDoc) b).
Definition group_text (tree : SegmentTree) : string :=
  match ReadFile (Join (Path tree) "README.md") with
  | None => "_No group documentation found._"
  | Some data => gostrings.TrimSpace data
  end.
Fixpoint generateSegmentDoc_ (tree : SegmentTree) (b : MdBuilder) : created MdBuilder :=
  let children := fix go (ts : list SegmentTree) (b : MdBuilder) : created MdBuilder :=
    match ts with [] => Created b | t :: ts => b ← generateSegmentDoc_ t b; go ts b end in
  if negb (has_parent tree) then children (Children tree) b
  else WriteSection (formatTitle tree) (fun b =>
         if IsSegment tree then segment_body tree b
         else children (Children tree) (WriteParagraph (group_text tree) b)) b.
Definition generateSegmentDoc (tree : SegmentTree) (nestingOffset : nat) : created MdBuilder :=
  generateSegmentDoc_ tree (mkMd [] nestingOffset).
Fixpoint generate_all (ts : list SegmentTree) (b : MdBuilder) : created MdBuilder :=
  match ts with [] => Created b | t :: ts => b ← generateSegmentDoc_ t b; generate_all ts b end.

(** ** main *)

(** [envOr("GITHUB_SHA", "HEAD")] *)
Definition generatedInfoPreabmle (GITHUB_SHA : option string) (path : string) : created string :=
  let commit := default "HEAD"%string GITHUB_SHA in
  fileLink ← linkFromPath path path;
  Created ("_This document was generated from '" ++ fileLink ++ "', based on commit '" ++ linkFromCommit commit ++ "'._")%string.
Definition introduction : list string :=
  ["Any flowpipeline is configured in a single yaml file which is either located in";
   "the default `config.yml` or specified using the `-c` option when calling the";
   "binary. The config file contains a single list of so-called segments, which";
   "are processing flows in order. Flows represented by";
   "[protobuf messages](https://github.com/bwNetFlow/protobuf/blob/master/flow-messages-enriched.proto)";
   "within the pipeline.";
   "";
   "Usually, the first segment is from the _input_ group, followed by any number of";
   "different segments. Often, flowpipelines end with a segment from the _output_,";
   "_print_, or _export_ groups. All segments, regardless from which group, accept and";
   "forward their input from previous segment to their subsequent segment, i.e.";
   "even input or output segments can be chained to one another or be placed in the";
   "middle of a pipeline."]%string.
Definition guide (GITHUB_SHA : option string) (segmentRoot : string) (entries : list entry) : created MdBuilder :=
  WriteSection "flowpipeline Configuration and User Guide" (fun mdBuilder =>
    info ← generatedInfoPreabmle GITHUB_SHA "meta/doc_generator/main.go";
    let mdBuilder := WriteParagraph info mdBuilder in
    let mdBuilder := WriteParagraph (multiline introduction) mdBuilder in
    let mdBuilder := WriteParagraph "This overview is structures as follows:" mdBuilder in
    let segmentTree := buildSegmentTree segmentRoot entries in
    let toc := String.concat "" (generateToC segmentTree) in
    doc ← generateSegmentDoc segmentTree (nesting mdBuilder + 1);
    let mdBuilder := WriteParagraph (summary "Table of Contents" toc) mdBuilder in
    WriteSection "Available Segments" (fun mdBuilder => Created (WriteParagraph (md_String doc) mdBuilder)) mdBuilder)
    (mkMd [] 0).
(** [Create] opens the output, [ReadDir] lists a directory with everything below it; the
    result is what is written. *)
Definition main (Create : string -> bool) (ReadDir : string -> option (list entry)) (GITHUB_SHA : option string)
    (outputFile segmentRoot : string) : created string :=
  if Create outputFile
  then match ReadDir segmentRoot with
       | Some entries => md_String <$> guide GITHUB_SHA segmentRoot entries
       | None => FatalExit
       end
  else FatalExit.

(** ** Theorems *)

(** The sections that are announced: level and title, in order. *)
Fixpoint sections (tree : SegmentTree) : list (nat * string) :=
  (if has_parent tree then [(Depth tree, formatTitle tree)] else []) ++
  (if IsSegment tree then [] else concat (sections <$> Children tree)).
End generator.

(** Subtrees are one level deeper and have a parent. *)
Inductive wf (b : bool) (d : nat) : SegmentTree -> Prop :=
  | wf_tree n p s ts : Forall (wf true (S d)) ts -> wf b d (mkTree n p d s b ts).

Fixpoint entry_induction (P : entry -> Prop) (HD : forall n es, Forall P es -> P (Dir n es)) (HF : forall n, P (File n)) (e : entry) : P e :=
  match e with
  | Dir n es => HD n es ((fix go es : Forall P es := match es with
      | [] => Forall_nil_2 P | e :: es => Forall_cons_2 P e es (entry_induction P HD HF e) (go es) end) es)
  | File n => HF n
  end.
Fixpoint tree_induction (P : SegmentTree -> Prop) (H : forall n p d s b ts, Forall P ts -> P (mkTree n p d s b ts)) (t : SegmentTree) : P t :=
  match t with
  | mkTree n p d s b ts =>
      H n p d s b ts ((fix go ts : Forall P ts := match ts with
        | [] => Forall_nil_2 P | t :: ts => Forall_cons_2 P t ts (tree_induction P H t) (go ts) end) ts)
  end.

Lemma add_entry_wf e : forall path b d t, wf b d t -> wf b d (add_entry path t e).
Proof.
  induction e as [name es IH|name] using entry_induction; intros path b d t Ht; cbn [add_entry].
  - assert (forall c, wf true (S d) c -> wf true (S d) (fold_left (add_entry (Join path name)) es c)) as Hf.
    { clear Ht. induction IH as [|e es He _ IHes]; intros c Hc; [done|]. cbn. by apply IHes, He. }
    destruct Ht as [n p s ts Hts]. cbn. constructor. apply Forall_app. split; [done|]. constructor; [|done].
    rewrite Nat.add_1_r. by apply Hf.
  - destruct (_ || _); [done|]. destruct Ht as [n p s ts Hts]. by constructor.
Qed.
Lemma build_wf path entries : wf false 0 (buildSegmentTree path entries).
Proof.
  unfold buildSegmentTree. assert (wf false 0 (mkTree "Root" "/" 0 false false [])) as H by by constructor. revert H.
  generalize (mkTree "Root" "/" 0 false false []). induction entries as [|e es IH]; intros t Ht; [done|]. cbn. by apply IH, add_entry_wf.
Qed.

(** A directory is taken for a segment exactly when one of its files has its name,
    extensions aside; every other directory is a group, and the table of contents and
    the sections go into its subdirectories. *)
Definition implements (name : string) (e : entry) : bool :=
  match e with File f => seqb (entryNameNoExt name) (entryNameNoExt f) | Dir _ _ => false end.
Lemma add_entries_segment path es : forall t, has_parent t = true ->
  let t' := fold_left (add_entry path) es t in
  IsSegment t' = IsSegment t || existsb (fun e => match e with File f => seqb (Name t) (entryNameNoExt f) | _ => false end) es /\
  Name t' = Name t /\ has_parent t' = true /\ Depth t' = Depth t.
Proof.
  induction es as [|e es IH]; intros t Ht; cbn; [by rewrite orb_false_r|].
  destruct e as [n l|f]; cbn [add_entry].
  - by apply (IH (add_child _ t)).
  - rewrite Ht. cbn [negb orb]. destruct (seqb (Name t) (entryNameNoExt f)); cbn [negb orb].
    + destruct (IH (set_segment (Join path f) t) Ht) as (-> & ?). by rewrite !orb_true_r.
    + by apply IH.
Qed.
Theorem docs_segments (path name : string) (entries : list entry) (tree : SegmentTree) :
  exists child, add_entry path tree (Dir name entries) = add_child child tree /\
    Name child = entryNameNoExt name /\ Depth child = S (Depth tree) /\ IsSegment child = existsb (implements name) entries.
Proof.
  cbn [add_entry]. eexists. split; [done|].
  destruct (add_entries_segment (Join path name) entries (mkTree (entryNameNoExt name) (Join path name) (Depth tree + 1) false true []) eq_refl)
    as (-> & -> & _ & ->). cbn. split_and!; [done|lia|]. by induction entries as [|[n l|f] es IH]; cbn; rewrite ?IH.
Qed.

Section generated.
Context (Title : string -> string) (Types : string -> option (list type_decl)) (PackageDoc : string -> option string)
        (ReadFile : string -> option string) (Abs : string -> option string) (PROJECT_BASE_DIR : option string).
Abbreviation sections := (sections Title).
Abbreviation generate := (generateSegmentDoc_ Title Types PackageDoc ReadFile Abs PROJECT_BASE_DIR).
Abbreviation generate_all := (generate_all Title Types PackageDoc ReadFile Abs PROJECT_BASE_DIR).

Lemma generateSegmentDoc_eq tree b : generate tree b =
  if negb (has_parent tree) then generate_all (Children tree) b
  else WriteSection (formatTitle Title tree) (fun b =>
         if IsSegment tree then segment_body Types PackageDoc Abs PROJECT_BASE_DIR tree b
         else generate_all (Children tree) (WriteParagraph (group_text ReadFile tree) b)) b.
Proof.
  destruct tree as [n p d s pa ts]. cbn [generateSegmentDoc_ has_parent Children IsSegment].
  assert (forall b, (fix go (ts : list SegmentTree) (b : MdBuilder) : created MdBuilder :=
    match ts with [] => Created b | t :: ts => b ← generate t b; go ts b end) ts b = generate_all ts b) as E.
  { induction ts as [|t ts IH]; intros b0; [done|]. cbn [Docs.generate_all]. by destruct (generate t b0). }
  destruct (negb pa); [apply E|]. unfold WriteSection. cbn [mbind created_bind]. destruct s; [done|]. by rewrite E.
Qed.
Lemma segment_body_paragraphs tree b b' : segment_body Types PackageDoc Abs PROJECT_BASE_DIR tree b = Created b' ->
  exists ps, b' = mkMd (paragraphs b ++ ps) (nesting b).
Proof.
  intros (link & _ & (fs & _ & H)%created_bind_inv)%created_bind_inv. injection H as <-.
  destruct (is_empty fs); unfold WriteParagraph; cbn; rewrite <- ?app_assoc; by eexists.
Qed.

(** What a list of sections adds: one block of paragraphs each, starting with its heading. *)
Definition written (d : nat) (ss : list (nat * string)) (b b' : MdBuilder) : Prop :=
  nesting b' = nesting b /\ exists blocks, paragraphs b' = paragraphs b ++ concat blocks /\
    Forall2 (fun s block => exists level, head block = Some (heading level s.2) /\ (level + d = nesting b + s.1)%nat) ss blocks.
Lemma written_all d ts : Forall (fun t => forall d b b', wf true d t -> generate t b = Created b' -> written d (sections t) b b') ts ->
  Forall (wf true d) ts -> forall b b', generate_all ts b = Created b' -> written d (concat (sections <$> ts)) b b'.
Proof.
  intros H. induction H as [|t ts Ht _ IH]; intros Hw b b' Hg.
  - injection Hg as <-. split; [done|]. exists []. by rewrite app_nil_r.
  - apply Forall_cons in Hw as [Hw Hws]. cbn [Docs.generate_all] in Hg. apply created_bind_inv in Hg as (b1 & H1 & H2).
    destruct (Ht d b b1 Hw H1) as [N1 (bl1 & P1 & F1)]. destruct (IH Hws b1 b' H2) as [N2 (bl2 & P2 & F2)].
    split; [congruence|]. exists (bl1 ++ bl2). rewrite P2, P1, concat_app, app_assoc. split; [done|].
    cbn. apply Forall2_app; [done|]. by rewrite N1 in F2.
Qed.
Lemma generate_written t : forall d b b', wf true d t -> generate t b = Created b' -> written d (sections t) b b'.
Proof.
  induction t as [n p d0 s pa ts IH] using tree_induction. intros d b b' Hw Hg. inversion Hw as [? ? ? ? Hts]; subst.
  rewrite generateSegmentDoc_eq in Hg. cbn [has_parent negb IsSegment Children] in Hg. unfold WriteSection in Hg.
  apply created_bind_inv in Hg as (b1 & H1 & [= <-]). set (title := formatTitle Title _) in *.
  cbn [Docs.sections has_parent IsSegment Children Depth]. fold title. destruct s.
  - apply segment_body_paragraphs in H1 as [ps ->]. split; [cbn; lia|].
    exists [heading (nesting b) title :: ps]. cbn. rewrite <- app_assoc, app_nil_r. split; [done|].
    constructor; [|constructor]. exists (nesting b). split; [done|]. cbn. lia.
  - destruct (written_all _ ts IH Hts _ _ H1) as [N (bl & P & F)]. cbn in N, P. split; [cbn; lia|].
    exists ([heading (nesting b) title; group_text ReadFile (mkTree n p d0 false true ts)] :: bl). cbn. rewrite P, <- !app_assoc. split; [done|].
    constructor; [exists (nesting b); split; [done|cbn; lia]|].
    eapply Forall2_impl; [exact F|]. intros s block (l & Hl & E). exists l. split; [done|]. cbn in E. lia.
Qed.
Lemma toc_sections t : generateToC Title t = (fun s => toc_line s.1 s.2) <$> sections t.
Proof.
  induction t as [n p d s pa ts IH] using tree_induction. cbn [generateToC Docs.sections has_parent IsSegment Children Depth].
  rewrite fmap_app. f_equal; [by destruct pa|]. destruct s; [done|]. induction IH as [|t ts Ht _ IHts]; [done|].
  cbn. by rewrite fmap_app, Ht, IHts.
Qed.
End generated.

(** The table of contents and the document agree: when the document of a directory
    can be generated, it consists of one block of paragraphs per line of the table,
    in the same order, which starts with the heading that the line names, one [#]
    deeper per level; and the builder's nesting is restored. *)
Theorem docs_toc (Title : string -> string) (Types : string -> option (list type_decl)) (PackageDoc ReadFile Abs : string -> option string)
    (PROJECT_BASE_DIR : option string) (path : string) (entries : list entry) (n : nat) (b : MdBuilder) :
  let tree := buildSegmentTree path entries in
  generateSegmentDoc Title Types PackageDoc ReadFile Abs PROJECT_BASE_DIR tree (S n) = Created b ->
  generateToC Title tree = (fun s => toc_line s.1 s.2) <$> sections Title tree /\ nesting b = S n /\
  exists blocks, paragraphs b = concat blocks /\
    Forall2 (fun s block => head block = Some (heading (n + s.1) s.2)) (sections Title tree) blocks.
Proof.
  intros tree Hg. split; [apply toc_sections|]. pose proof (build_wf path entries) as Hw. fold tree in Hw.
  assert (IsSegment tree = false) as Hs.
  { unfold tree, buildSegmentTree. assert (forall t, has_parent t = false -> IsSegment t = false -> IsSegment (fold_left (add_entry path) entries t) = false) as Hf.
    { clear. induction entries as [|[m l|f] es IH]; intros t Hp Ht; cbn; [done|by apply IH|]. rewrite Hp. by apply IH. }
    by apply Hf. }
  clearbody tree. unfold generateSegmentDoc in Hg. rewrite generateSegmentDoc_eq in Hg. destruct Hw as [nm p s ts Hts].
  cbn [has_parent negb Children IsSegment] in Hg, Hs. subst s.
  destruct (written_all Title Types PackageDoc ReadFile Abs PROJECT_BASE_DIR 1 ts) with (b := mkMd [] (S n)) (b' := b) as [N (bl & P & F)];
    [apply Forall_true; intros t; apply generate_written|done|done|].
  split; [done|]. exists bl. split; [done|]. cbn [sections has_parent IsSegment Children app].
  eapply Forall2_impl; [exact F|]. intros x block (l & Hl & Hd). cbn in Hd. rewrite Hl. do 2 f_equal. lia.
Qed.

(** The document that [main] writes: seven paragraphs, the table of contents in the sixth
    but one, and in the last the sections, whose headings are two levels below
    the document's, one more for each level of directories. *)
Theorem docs_main (Title : string -> string) (Types : string -> option (list type_decl)) (PackageDoc ReadFile Abs : string -> option string)
    (PROJECT_BASE_DIR GITHUB_SHA : option string) (Create : string -> bool) (ReadDir : string -> option (list entry))
    (outputFile segmentRoot text : string) :
  main Title Types PackageDoc ReadFile Abs PROJECT_BASE_DIR Create ReadDir GITHUB_SHA outputFile segmentRoot = Created text ->
  exists entries info doc blocks,
    ReadDir segmentRoot = Some entries /\
    text = String.concat (newline ++ newline)
      [heading 0 "flowpipeline Configuration and User Guide"; info; multiline introduction;
       "This overview is structures as follows:"%string;
       summary "Table of Contents" (String.concat "" ((fun s => toc_line s.1 s.2) <$> sections Title (buildSegmentTree segmentRoot entries)));
       heading 1 "Available Segments"; doc] /\
    doc = String.concat (newline ++ newline) (concat blocks) /\
    Forall2 (fun s block => head block = Some (heading (1 + s.1) s.2)) (sections Title (buildSegmentTree segmentRoot entries)) blocks.
Proof.
  unfold main. destruct (Create outputFile); [|done]. destruct (ReadDir segmentRoot) as [entries|]; [|done].
  destruct (guide _ _ _ _ _ _ _ _ entries) as [b| | |] eqn:E; try done. intros [= <-].
  unfold guide, WriteSection in E. apply created_bind_inv in E as (b1 & E & [= <-]).
  apply created_bind_inv in E as (info & _ & (d & Hd & (b2 & [= <-] & [= <-])%created_bind_inv)%created_bind_inv).
  destruct (docs_toc _ _ _ _ _ _ _ _ _ _ Hd) as (Ht & _ & blocks & Hp & Hb).
  exists entries, info, (md_String d), blocks. split; [done|]. split; [by rewrite Ht|].
  split; [unfold md_String; by rewrite Hp|]. exact Hb.
Qed.

(** ** The theorems at work *)
Module witness.
Definition output : list entry :=
  [File "segments.go"; Dir "output" [Dir "csv" [File "csv.go"; File "csv_test.go"]; Dir "mongodb" [File "dummy.go"; File "mongo.go"]]].
Definition tree : SegmentTree := buildSegmentTree "segments" output.
(** The mongodb segment is implemented in mongo.go: it is listed as a group. *)
Example toc : generateToC (fun s => s) tree =
  ["- [output Group](#output-group)" ++ newline; "  - [csv](#csv)" ++ newline; "  - [mongodb Group](#mongodb-group)" ++ newline]%string.
Proof. vm_compute. reflexivity. Qed.
Definition csv : list type_decl :=
  [mkdecl "Csv" (Some [SelectorExpr "BaseTextOutputSegment"; Ident ["Fields"%string] "string" "a list of fields"])].
Definition built : created MdBuilder :=
  generateSegmentDoc (fun s => s) (fun _ => Some csv) (fun _ => Some "The csv segment"%string) (fun _ => None) (fun p => Some p) (Some ""%string) tree 2.
Definition document : MdBuilder := match built with Created b => b | _ => mkMd [] 0 end.
End witness.

Lemma docs_toc_witness : nesting witness.document = 2%nat /\ generateToC (fun s => s) witness.tree = (fun s => toc_line s.1 s.2) <$> sections (fun s => s) witness.tree.
Proof.
  destruct (docs_toc (fun s => s) (fun _ => Some witness.csv) (fun _ => Some "The csv segment"%string) (fun _ => None) (fun p => Some p) (Some ""%string)
    "segments" witness.output 1 witness.document) as (H1 & H2 & _); [vm_compute; reflexivity|].
  exact (conj H2 H1).
Defined.
Lemma docs_main_witness : exists entries, Some [File "segments.go"] = Some entries /\ sections (fun s => s) (buildSegmentTree "segments" entries) = [].
Proof.
  destruct (docs_main (fun s => s) (fun _ => None) (fun _ => None) (fun _ => None) (fun p => Some p) (Some ""%string) None (fun _ => true)
    (fun _ => Some [File "segments.go"]) "CONFIGURATION.md" "segments" _ eq_refl) as (entries & _ & _ & _ & H & _).
  exists entries. split; [exact H|]. injection H as <-. reflexivity.
Defined.
