(* ===== verification/Main.v ===== *)
(** * The command line ([main.go])

    [main] as a function of the flags, of the plugins, the configuration file and
    the registry. *)

From stdpp Require Import prelude strings list gmap.
From Stdlib Require Import ZArith Lia.
From S2P Require Import Prelude GoStd EnrichedFlow Segment Pipeline Config.

(** ** main.go *)
Inductive Level : Type := TraceLevel | DebugLevel | InfoLevel | WarnLevel | ErrorLevel | FatalLevel | PanicLevel.
Definition levels : list (string * Level) :=
  [("trace", TraceLevel); ("debug", DebugLevel); ("info", InfoLevel); ("warning", WarnLevel); ("error", ErrorLevel);
   ("fatal", FatalLevel); ("panic", PanicLevel)]%string.
(** [None] is the nil pointer. *)
Definition zerologLogLevel (logLevel : option string) : Level :=
  match logLevel with
  | Some l => if is_empty l then InfoLevel else default InfoLevel (assoc l levels)
  | None => InfoLevel
  end.

(** [flagArray.Set]: a flag that may be repeated. *)
Definition Set_ (i : list string) (value : string) : list string := i ++ [value].
Definition flag_String (i : list string) : string := String.concat "," i.

Record flags := mkflags { version : bool; logLevel : string; pluginPaths : list string; concurrency : Z; configFile : string }.

(** How [main] ends, or the pipelines it has started when it waits for a signal. *)
Inductive ending : Type := PrintedVersion | PluginFailed (path : string) | NoConfigFile | Exit | Crash | Waiting (pipelines : list pipeline).

Section main.
Context (Args : list string) (Getenv : string -> string) (registry : gmap string template).
(** [plugin.Open]: the registrations of the plugin's [init] functions, [None] for an
    error; a plugin opened before is not initialised again.  The content of a file; YAML; [runtime.GOMAXPROCS(0)]. *)
Context (Open : string -> option (list (string * template))) (ReadFile : string -> option string) (Unmarshal : string -> option (list SegmentRepr)) (GOMAXPROCS : Z).

(** The flag is unsigned, the counter of the loop an [int]. *)
Definition pipelineCount (concurrency : Z) : Z := if concurrency =? 0 then GOMAXPROCS else i64 concurrency.
(** The loop over the plugins: the registry it leaves, or how [main] ends.  A name
    registered before ends the process. *)
Fixpoint load_plugins (opened : list string) (paths : list string) (registry : gmap string template) : ending + gmap string template :=
  match paths with
  | [] => inr registry
  | path :: paths =>
      match Open path with
      | None => inl (PluginFailed path)
      | Some inits =>
          if decide (path ∈ opened) then load_plugins opened paths registry
          else match register_all inits registry with
               | Created registry => load_plugins (path :: opened) paths registry
               | _ => inl Exit
               end
      end
  end.
(** The loop over the pipelines; a nil pipeline ends the process. *)
Fixpoint spawn (registry : gmap string template) (n : nat) (segmentReprs : list SegmentRepr) : created (list pipeline) :=
  match n with
  | O => Created []
  | S n =>
      match NewFromReprs Args Getenv registry segmentReprs with
      | Created pipe => cons pipe <$> spawn registry n segmentReprs
      | NilSegment | FatalExit => FatalExit
      | Panicked => Panicked
      end
  end.
Definition main (f : flags) : ending :=
  if version f then PrintedVersion
  else match load_plugins [] (pluginPaths f) registry with
       | inl e => e
       | inr registry =>
           match ReadFile (configFile f) with
           | None => NoConfigFile
           | Some config =>
               match SegmentReprsFromConfig Unmarshal config with
               | NilSegment | FatalExit => Exit
               | Panicked => Crash
               | Created segmentReprs =>
                   match spawn registry (Z.to_nat (pipelineCount (concurrency f))) segmentReprs with
                   | Created ps => Waiting ps
                   | Panicked => Crash
                   | _ => Exit
                   end
               end
           end
       end.

Lemma spawn_replicate reg n reprs :
  spawn reg n reprs = match n, NewFromReprs Args Getenv reg reprs with
                      | O, _ => Created []
                      | _, Created pipe => Created (replicate n pipe)
                      | _, Panicked => Panicked
                      | _, _ => FatalExit
                      end.
Proof.
  induction n as [|n IH]; [done|]. cbn [spawn]. rewrite IH.
  destruct (NewFromReprs Args Getenv reg reprs), n; done.
Qed.

(** Plugins with names of their own extend the registry. *)
Lemma register_all_keeps {T} (l : list (string * T)) (reg reg' : gmap string T) :
  register_all l reg = Created reg' -> reg ⊆ reg'.
Proof.
  revert reg. induction l as [|[name t] l IH]; intros reg; cbn [register_all]; [by intros [= <-]|].
  unfold RegisterSegment. destruct (reg !! gostrings.ToLower name) eqn:E; [done|]. cbn [mbind created_bind].
  intros H. etrans; [by apply insert_subseteq|by apply IH].
Qed.
Lemma load_plugins_keeps opened paths reg reg' : load_plugins opened paths reg = inr reg' -> reg ⊆ reg'.
Proof.
  revert opened reg. induction paths as [|path paths IH]; intros opened reg; cbn [load_plugins]; [by intros [= <-]|].
  destruct (Open path) as [inits|]; [|done]. destruct (decide (path ∈ opened)); [apply IH|].
  destruct (register_all inits reg) as [reg1| | |] eqn:E; try done. intros H.
  etrans; [by eapply register_all_keeps|by eapply IH].
Qed.
Lemma load_plugins_ends opened paths reg e : load_plugins opened paths reg = inl e ->
  e = Exit \/ exists path, path ∈ paths /\ Open path = None /\ e = PluginFailed path.
Proof.
  revert opened reg. induction paths as [|path paths IH]; intros opened reg; cbn [load_plugins]; [done|].
  assert (forall opened reg, load_plugins opened paths reg = inl e ->
    e = Exit \/ exists path', path' ∈ path :: paths /\ Open path' = None /\ e = PluginFailed path') as IH'.
  { intros op r E. destruct (IH op r E) as [?|(p & ? & ?)]; [by left|]. right. exists p. split; [by right|done]. }
  destruct (Open path) as [inits|] eqn:Eo.
  - destruct (decide (path ∈ opened)); [apply IH'|]. destruct (register_all inits reg); [apply IH'|..]; intros [= <-]; by left.
  - intros [= <-]. right. exists path. split; [left|done].
Qed.
End main.

(** What runs after startup: as many pipelines as asked for (the processors' number
    for 0), each built from the same configuration; but a number of 2^63 or more is
    taken for a negative one, and no pipeline runs at all, whatever the
    configuration says. *)
Theorem main_pipelines (Args : list string) (Getenv : string -> string) (registry : gmap string template)
    (Open : string -> option (list (string * template))) (ReadFile : string -> option string) (Unmarshal : string -> option (list SegmentRepr)) (GOMAXPROCS : Z) (f : flags)
    (text : string) (reprs : list SegmentRepr) (loaded : gmap string template) :
  version f = false -> load_plugins Open [] (pluginPaths f) registry = inr loaded -> ReadFile (configFile f) = Some text -> Unmarshal text = Some reprs ->
  0 <= concurrency f < 2 ^ 64 -> 1 <= GOMAXPROCS ->
  let run := main Args Getenv registry Open ReadFile Unmarshal GOMAXPROCS f in
  (concurrency f < 2 ^ 63 ->
   run = match NewFromConfig Args Getenv loaded Unmarshal text with
         | Created pipe => Waiting (replicate (Z.to_nat (if concurrency f =? 0 then GOMAXPROCS else concurrency f)) pipe)
         | Panicked => Crash
         | _ => Exit
         end) /\
  (2 ^ 63 <= concurrency f -> run = Waiting []).
Proof.
  intros Hv Hp Hf Hu Hc Hg run. unfold run, main, NewFromConfig, SegmentReprsFromConfig.
  rewrite Hv, Hp, Hf, Hu, spawn_replicate. cbn [mbind created_bind]. unfold pipelineCount. split; intros Hlt.
  - destruct (Z.eqb_spec (concurrency f) 0) as [E|E].
    + destruct (Z.to_nat GOMAXPROCS) eqn:En; [lia|]. by destruct (NewFromReprs _ _ _ reprs).
    + rewrite swrap_small by (change (64 - 1) with 63; lia).
      destruct (Z.to_nat (concurrency f)) eqn:En; [lia|]. by destruct (NewFromReprs _ _ _ reprs).
  - destruct (Z.eqb_spec (concurrency f) 0) as [E|E]; [lia|].
    assert (i64 (concurrency f) <= 0) as Hn.
    { unfold swrap, wrap. rewrite Z.mod_small by lia. change (64 - 1) with 63. destruct (Z.ltb_spec (concurrency f) (2 ^ 63)); lia. }
    by replace (Z.to_nat (i64 (concurrency f))) with O by lia.
Qed.

(** A plugin can only add segments: whatever the binary registered stays what it was,
    or [main] ends before a pipeline is built. *)
Theorem plugins_extend (Open : string -> option (list (string * template))) (paths : list string) (registry : gmap string template) :
  match load_plugins Open [] paths registry with
  | inr loaded => registry ⊆ loaded
  | inl e => e = Exit \/ exists path, path ∈ paths /\ Open path = None /\ e = PluginFailed path
  end.
Proof.
  destruct (load_plugins Open [] paths registry) as [e|loaded] eqn:E; [by eapply load_plugins_ends|by eapply load_plugins_keeps].
Qed.

(** ** The theorems at work *)
Module witness.
Definition conf : list SegmentRepr := [mkRepr "pass" ∅ 1 [] [] []].
Definition registry : gmap string template := {[ "pass"%string := plain_template (fun _ => Created (new_proc Pass mkPass)) ]}.
Definition run (n : Z) : ending :=
  main [] (fun _ => ""%string) registry (fun _ => Some []) (fun _ => Some ""%string) (fun _ => Some conf) 4 (mkflags false "warning" [] n "config.yml").
End witness.

Lemma main_pipelines_witness : witness.run (2 ^ 63) = Waiting [].
Proof.
  refine (proj2 (main_pipelines [] (fun _ => ""%string) witness.registry (fun _ => Some []) (fun _ => Some ""%string) (fun _ => Some witness.conf) 4
    (mkflags false "warning" [] (2 ^ 63) "config.yml") "" witness.conf witness.registry eq_refl eq_refl eq_refl eq_refl _ _) _); [|lia|]; cbn; lia.
Defined.
