(* ===== verification/Print.v ===== *)
(** * Printing ([segments/print])

    printflowdump, count, printdots and toptalkers.  The clock's text, the
    humanized numbers and the sliding windows belong to other packages and are
    parameters. *)

From stdpp Require Import prelude strings list gmap sorting.
From Stdlib Require Import ZArith Lia Ascii SpecFloat.
From S2P Require Import Prelude GoStd EnrichedFlow FlowMethods Segment Iana Output.
From S2P Require Elephant.

Definition d_ (n : Z) : string := strconv.FormatUint n.

(** ** printflowdump.go *)
Module printflowdump.
Record PrintFlowdump := mkPrintFlowdump { UseProtoname : bool; Verbose : bool; Highlight : bool; File : string }.

Definition parse_bool (c : config) (key : string) (dflt : bool) : bool :=
  if is_empty (cfg c key) then dflt else default dflt (strconv.ParseBool (cfg c key)).
Definition New (Create : string -> bool) (c : config) : created PrintFlowdump :=
  match csv.GetOutput Create c with
  | None => NilSegment
  | Some file => Created {| UseProtoname := parse_bool c "useprotoname" true; Verbose := parse_bool c "verbose" false;
                            Highlight := parse_bool c "highlight" false; File := file |}
  end.

Section format_flow.
(** [time.Unix(s, 0).Format("15:04:05")] and [humanize.SI]. *)
Context (clock_text : Z -> string) (SI : f64.float64 -> string -> string).

(** The verbose explanations of the forwarding status. *)
Definition forward_texts : list (Z * string) := [(64, "regular"); (65, "fragmented"); (66, "not fragmented")]%string.
Definition drop_texts : list (Z * string) :=
  [(128, "unknown"); (129, "ACL deny"); (130, "ACL drop"); (131, "unroutable"); (132, "adjacency");
   (133, "fragmentation but DF set"); (134, "bad header checksum"); (135, "bad total length");
   (136, "bad header length"); (137, "bad TTL"); (138, "policer"); (139, "WRED"); (140, "RPF");
   (141, "for us"); (142, "bad output interface"); (143, "hardware")]%string.
Definition consumed_texts : list (Z * string) :=
  [(192, "unknown"); (193, "terminate punt adjacency"); (194, "terminate incomplete adjacency");
   (195, "terminate for us")]%string.
Definition explained (name : string) (status : Z) (texts : list (Z * string)) : string :=
  match assoc status texts with
  | Some t => name ++ "/" ++ d_ status ++ " (" ++ t ++ ")"
  | None => ""
  end.
Definition statusString (verbose : bool) (status : Z) : string :=
  let kind := Z.land status 0xC0 in
  if kind =? 0 then "UNKNOWN/" ++ d_ status
  else if kind =? 0x40 then
    if verbose then explained "FORWARD" status forward_texts
    else if status =? 64 then "" else "FORWARD/" ++ d_ status
  else if kind =? 0x80 then
    if verbose then explained "DROP" status drop_texts else "DROP/" ++ d_ status
  else
    if verbose then explained "CONSUMED" status consumed_texts else "CONSUMED/" ++ d_ status.

Definition proto_text (segment : PrintFlowdump) (flowmsg : EnrichedFlow) : result string :=
  if UseProtoname segment then
    proto ← (if is_empty (ProtoName flowmsg) then IanaProtocolNumberToName (Proto flowmsg) else Ok (ProtoName flowmsg));
    Ok (if seqb proto "ICMP" && negb (DstPort flowmsg =? 0)
        then ("ICMP (type " ++ d_ (DstPort flowmsg / 256) ++ ", code " ++ d_ (DstPort flowmsg mod 256) ++ ")")%string
        else proto)
  else Ok (d_ (Proto flowmsg)).

Definition host_text (segment : PrintFlowdump) (host : string) (addr : net.IP) : string :=
  (if Verbose segment then host else "") ++ net.String addr.
Definition as_text (segment : PrintFlowdump) (n : Z) : string :=
  if Verbose segment && negb (n =? 0) then "AS" ++ d_ n ++ "/" else "".
Definition iface_text (desc : string) (n : Z) : string := if is_empty desc then d_ n else desc.
Definition esc : string := String (ascii_of_nat 27) "".

Definition format_flow (segment : PrintFlowdump) (flowmsg : EnrichedFlow) : result string :=
  proto ← proto_text segment flowmsg;
  let d := u64 (TimeFlowEnd flowmsg - TimeFlowStart flowmsg) in
  let duration := if d =? 0 then d + 1 else d in
  Ok ((if Highlight segment then esc ++ "[31m" else esc ++ "[0m")
      ++ clock_text (i64 (TimeFlowEnd flowmsg)) ++ ": "
      ++ as_text segment (SrcAs flowmsg) ++ host_text segment (SrcHostName flowmsg) (SrcAddr flowmsg) ++ ":" ++ d_ (SrcPort flowmsg)
      ++ " → "
      ++ as_text segment (DstAs flowmsg) ++ host_text segment (DstHostName flowmsg) (DstAddr flowmsg) ++ ":" ++ d_ (DstPort flowmsg)
      ++ " [" ++ iface_text (SrcIfDesc flowmsg) (InIf flowmsg) ++ " → "
      ++ statusString (Verbose segment) (ForwardingStatus flowmsg) ++ "@" ++ net.String (SamplerAddress flowmsg)
      ++ " → " ++ iface_text (DstIfDesc flowmsg) (OutIf flowmsg) ++ "], "
      ++ proto ++ ", " ++ d_ duration ++ "s, "
      ++ SI (f64.of_Z (u64 (Bytes flowmsg * 8) / duration)) "bps" ++ ", "
      ++ SI (f64.of_Z (Packets flowmsg / duration)) "pps"
      ++ (if is_empty (Note flowmsg) then "" else " - " ++ Note flowmsg) ++ " " ++ String (ascii_of_nat 10) "")%string.

(** The loop: what was written, and the sends; a panic ends it. *)
Definition body (segment : PrintFlowdump) (lines : list string) (msg : EnrichedFlow) : result (list string * list emit) :=
  line ← format_flow segment msg; Ok (lines ++ [line], [EOut msg]).
End format_flow.
End printflowdump.

(** ** count.go *)
Module count.
Record Count := mkCount { Prefix : string; File : string }.
Definition New (Create : string -> bool) (c : config) : created Count :=
  match csv.GetOutput Create c with None => NilSegment | Some file => Created {| Prefix := cfg c "prefix"; File := file |} end.
Definition body (n : Z) (msg : EnrichedFlow) : Z * list emit := (u64 (n + 1), [EOut msg]).
(** What [Run] writes after the loop. *)
Definition out (s : Count) (n : Z) : string := Prefix s ++ d_ n.
End count.

(** ** printdots.go *)
Module printdots.
Record PrintDots := mkPrintDots { FlowsPerDot : Z; File : string }.
Definition New (Create : string -> bool) (c : config) : created PrintDots :=
  match csv.GetOutput Create c with
  | None => NilSegment
  | Some file => Created {| FlowsPerDot := default 5000 (strconv.ParseUint 32 (cfg c "flowsperdot")); File := file |}
  end.
(** The state: the counter and the number of dots written. *)
Definition body (s : PrintDots) (w : Z * nat) (msg : EnrichedFlow) : (Z * nat) * list emit :=
  let count := u64 (w.1 + 1) in
  (if FlowsPerDot s <=? count then (0, S w.2) else (count, w.2), [EOut msg]).
End printdots.

(** ** examples/plugin/printcustom.go *)
Module printcustom.
Record PrintCustom := mkPrintCustom {}.
Definition New (c : config) : created PrintCustom := Created mkPrintCustom.
(** The switch: its last case is the one left, for any 64-bit number. *)
Definition text (b : Z) : string :=
  let bits := (" flow with " ++ d_ b ++ " bits!" ++ String (ascii_of_nat 10) "")%string in
  if b <? 102400 then "cute little" ++ bits
  else if b <? 204800 then "nice" ++ bits
  else if b <? 409600 then "solid" ++ bits
  else if b <? 819200 then "impressive" ++ bits
  else if 819200 <=? b then "hefty" ++ bits else "".
(** The loop: what it has printed, and the sends. *)
Definition body (printed : list string) (msg : EnrichedFlow) : list string * list emit :=
  (printed ++ [text (u64 (Bytes msg * 8))], [EOut msg]).
(** [init], of a plugin built from this file. *)
Definition init {T : Type} (template : T) : string * T := ("printcustom"%string, template).

(** Every flow is forwarded with one line printed for it, and the adjectives grow
    with the size, until the number of bits overflows. *)
Lemma printcustom_size (msg : EnrichedFlow) : 0 <= Bytes msg < 2 ^ 61 ->
  text (u64 (Bytes msg * 8)) <> ""%string /\
  ((exists s, text (u64 (Bytes msg * 8)) = ("hefty" ++ s)%string) <-> 102400 <= Bytes msg).
Proof.
  intros H. unfold wrap. rewrite Z.mod_small by lia. unfold text.
  repeat case Z.ltb_spec; repeat case Z.leb_spec; intros; try lia; split; try discriminate;
    split; intros; try lia; try (by eexists); repeat match goal with H : exists _, _ |- _ => destruct H end; discriminate.
Qed.
End printcustom.

(** ** toptalkers.go *)
Module toptalkers.
Record TopTalkers := mkTopTalkers {
  Window : Z; ReportInterval : Z; LogPrefix : string; ThresholdBps : Z; ThresholdPps : Z; TopN : Z; File : string }.

(** A time policy with its sum at a time. *)
Class Rolling (W : Type) : Type := {
  NewTimePolicy : Z -> W;
  Append : Z -> f64.float64 -> W -> W;
  Sum : Z -> W -> f64.float64;
}.
#[global] Hint Mode Rolling ! : typeclass_instances.

Definition threshold (c : config) (key : string) : Z :=
  if is_empty (cfg c key) then 0 else default 0 (strconv.ParseUint 32 (cfg c key)).
Definition New_topn (c : config) : created Z :=
  if is_empty (cfg c "topn") then Created 10
  else match strconv.ParseUint 64 (cfg c "topn") with
       | Some n => if n <=? 0 then NilSegment else Created n
       | None => Created 10
       end.
Definition New (Create : string -> bool) (c : config) : created TopTalkers :=
  window ← Elephant.New_int c "window" 1 60;
  interval ← Elephant.New_int c "reportinterval" 1 10;
  match csv.GetOutput Create c with
  | None => NilSegment
  | Some file =>
      topn ← New_topn c;
      Created {| Window := window; ReportInterval := interval; LogPrefix := cfg c "logprefix";
                 ThresholdBps := threshold c "thresholdbps"; ThresholdPps := threshold c "thresholdpps";
                 TopN := topn; File := file |}
  end.

Section run.
Context {W : Type} `{Rolling W} (SI : f64.float64 -> string -> string) (s : TopTalkers).

(** A record: the windows of its bytes and of its packets. *)
Record Record_ := mkRecord { DstIp : string; rBytes : W; rPackets : W }.
Definition update (now : Z) (msg : EnrichedFlow) (database : gmap string Record_) : gmap string Record_ :=
  let key := net.String (pb.DstAddrObj msg) in
  let record := default (mkRecord key (NewTimePolicy (Window s)) (NewTimePolicy (Window s))) (database !! key) in
  <[key := mkRecord (DstIp record) (Append now (f64.of_Z (Bytes msg)) (rBytes record))
                    (Append now (f64.of_Z (Packets msg)) (rPackets record))]> database.

Definition is_zero (x : f64.float64) : bool := SFeqb x (S754_zero false).
(** The rates of a report; both sums are multiplied by 8. *)
Definition rate (now : Z) (w : W) : f64.float64 := f64.div (f64.mul (Sum now w) (f64.of_Z 8)) (f64.of_Z (Window s)).
Definition below (now : Z) (r : Record_) : bool :=
  f64.ltb (rate now (rBytes r)) (f64.of_Z (ThresholdBps s)) || f64.ltb (rate now (rPackets r)) (f64.of_Z (ThresholdPps s)).
Definition line (now : Z) (r : Record_) : string :=
  LogPrefix s ++ DstIp r ++ ": " ++ SI (rate now (rBytes r)) "bps" ++ ", " ++ SI (rate now (rPackets r)) "pps".
(** The loop over the sorted records stops at the first one below a threshold
    and after TopN lines. *)
Fixpoint printed (now printedRecords : Z) (entries : list Record_) : list Record_ :=
  match entries with
  | [] => []
  | r :: entries =>
      if below now r then []
      else r :: (if TopN s <=? printedRecords + 1 then [] else printed now (printedRecords + 1) entries)
  end.
(** Sorting compares every record if there are two, and deletes those without
    bytes from the database. *)
Definition pruned (now : Z) (database : gmap string Record_) : gmap string Record_ :=
  if (size database <=? 1)%nat then database
  else filter (fun p => is_zero (Sum now (rBytes p.2)) = false) database.
Definition more_bytes (now : Z) (a b : Record_) : Prop := f64.ltb (Sum now (rBytes a)) (Sum now (rBytes b)) = false.

Inductive event : Type := Ticker (now : Z) | Message (now : Z) (msg : EnrichedFlow).
(** The lines written are those of [report] for some sorted order. *)
Definition separator : string := "===================================================================".
Inductive step : event -> gmap string Record_ -> gmap string Record_ -> list string -> list emit -> Prop :=
  | step_report now database entries :
      entries ≡ₚ (map_to_list database).*2 -> Sorted (more_bytes now) entries ->
      step (Ticker now) database (pruned now database)
           ((LogPrefix s ++ separator)%string :: (line now <$> printed now 0 entries)) []
  | step_message now msg database : step (Message now msg) database (update now msg database) [] [EOut msg].
End run.
End toptalkers.

(** ** Theorems *)

(** printflowdump prints one line per flow and forwards the flow, unless it
    has to look up the name of protocol 256, which panics. *)
Theorem printflowdump_prints (clock_text : Z -> string) (SI : f64.float64 -> string -> string)
    (segment : printflowdump.PrintFlowdump) (lines : list string) (msg : EnrichedFlow) :
  in_u 32 (Proto msg) ->
  (printflowdump.body clock_text SI segment lines msg = Panic <->
   printflowdump.UseProtoname segment = true /\ ProtoName msg = ""%string /\ Proto msg = 256) /\
  (printflowdump.body clock_text SI segment lines msg <> Panic ->
   exists line, printflowdump.body clock_text SI segment lines msg = Ok (lines ++ [line], [EOut msg])).
Proof.
  intros Hr. unfold printflowdump.body, printflowdump.format_flow, printflowdump.proto_text.
  destruct (printflowdump.UseProtoname segment); cbn [mbind result_bind]; [|split; [split; [done|by intros (? & _)]|by eexists]].
  destruct (ProtoName msg) as [|a s] eqn:Ep; cbn [is_empty]; [|cbn; split; [split; [done|by intros (_ & ? & _)]|by eexists]].
  destruct (decide (Proto msg = 256)) as [->|Hne]; [cbn; by repeat split|].
  unfold IanaProtocolNumberToName. unfold in_u in Hr.
  destruct (index_name_ok (Names iana) (Proto msg) iana_length ltac:(lia) Hne) as [t ->]. cbn [mbind result_bind].
  split; [split; [done|by intros (_ & _ & ?)]|by eexists].
Qed.

(** The status shown by printflowdump agrees with the methods of the flow
    message on every forwarding status of one byte: the word shown is the class of
    the status, and nothing is shown for a regularly forwarded flow only. *)
Theorem statusString_agrees (flow : EnrichedFlow) :
  in_u 8 (ForwardingStatus flow) ->
  let t := printflowdump.statusString false (ForwardingStatus flow) in
  gostrings.HasPrefix t "UNKNOWN/" = pb.IsUnknownForwardingStatus flow /\
  gostrings.HasPrefix t "DROP/" = pb.IsDropped flow /\ gostrings.HasPrefix t "CONSUMED/" = pb.IsConsumed flow /\
  (gostrings.HasPrefix t "FORWARD/" || is_empty t) = pb.IsForwarded flow /\
  (is_empty t = true <-> ForwardingStatus flow = 64).
Proof.
  unfold pb.IsUnknownForwardingStatus, pb.IsDropped, pb.IsConsumed, pb.IsForwarded, in_u. generalize (ForwardingStatus flow). cbv zeta. intros n Hn.
  set (ok n := let t := printflowdump.statusString false n in
    Bool.eqb (gostrings.HasPrefix t "UNKNOWN/") (n <? 64) && Bool.eqb (gostrings.HasPrefix t "DROP/") ((128 <=? n) && (n <? 192))
    && Bool.eqb (gostrings.HasPrefix t "CONSUMED/") (192 <=? n)
    && Bool.eqb (gostrings.HasPrefix t "FORWARD/" || is_empty t) ((64 <=? n) && (n <? 128)) && Bool.eqb (is_empty t) (n =? 64)).
  assert (forallb (fun k => ok (Z.of_nat k)) (seq 0 256) = true) as Hall by (vm_compute; reflexivity).
  assert (ok n = true) as Hok.
  { rewrite forallb_forall in Hall. specialize (Hall (Z.to_nat n)). rewrite Z2Nat.id in Hall by lia.
    apply Hall, in_seq. lia. }
  unfold ok in Hok. cbv zeta in Hok. repeat (apply andb_prop in Hok as [Hok ?]).
  repeat match goal with H : Bool.eqb _ _ = true |- _ => apply eqb_prop in H end.
  split_and!; [assumption..|]. match goal with H : is_empty _ = _ |- _ => rewrite H end. clear. lia.
Qed.

(** printdots forwards every flow and prints one dot per FlowsPerDot flows
    (per flow, if that is 0). *)
Theorem printdots_dots (s : printdots.PrintDots) (ms : list EnrichedFlow) :
  0 <= printdots.FlowsPerDot s < 2 ^ 32 ->
  output_loop (printdots.body s) (0, O) ms =
  ((zlen ms mod Z.max 1 (printdots.FlowsPerDot s), Z.to_nat (zlen ms / Z.max 1 (printdots.FlowsPerDot s))), EOut <$> ms).
Proof.
  intros Hf. set (k := Z.max 1 (printdots.FlowsPerDot s)).
  enough (forall n dots, 0 <= n < k -> output_loop (printdots.body s) (n, dots) ms =
    (((n + zlen ms) mod k, (dots + Z.to_nat ((n + zlen ms) / k))%nat), EOut <$> ms)) as H by (rewrite H by lia; done).
  induction ms as [|m ms IH]; intros n dots Hn; cbn [output_loop fmap list_fmap].
  - change (zlen []) with 0. rewrite Z.add_0_r, Z.mod_small, Z.div_small by lia. by rewrite Nat.add_0_r.
  - unfold printdots.body at 1. cbn [fst snd]. rewrite (wrap_small 64) by (unfold in_u; lia). rewrite zlen_cons.
    destruct (Z.leb_spec (printdots.FlowsPerDot s) (n + 1)).
    + rewrite IH by lia. assert (n + 1 = k) by lia. pose proof (zlen_nonneg ms).
      replace (n + (1 + zlen ms)) with (zlen ms + 1 * k) by lia. rewrite Z.mod_add, Z.div_add by lia.
      rewrite Z.add_0_l. assert (0 <= zlen ms / k) by (apply Z.div_pos; lia). f_equal. f_equal. lia.
    + rewrite IH by lia. by replace (n + 1 + zlen ms) with (n + (1 + zlen ms)) by lia.
Qed.

(** The count segment prints the number of flows and forwards them. *)
Theorem count_counts (ms : list EnrichedFlow) :
  output_loop count.body 0 ms = (u64 (zlen ms), EOut <$> ms).
Proof.
  enough (forall n, output_loop count.body n ms = (match ms with [] => n | _ => u64 (n + zlen ms) end, EOut <$> ms)) as H
    by (rewrite H; by destruct ms).
  induction ms as [|m ms IH]; intros n; [done|]. cbn [output_loop]. unfold count.body at 1. rewrite IH, zlen_cons.
  cbn [fmap list_fmap app]. f_equal. destruct ms as [|m' ms]; [done|]. rewrite wrap_add_l. f_equal. lia.
Qed.

Section toptalkers_theorems.
Context {W : Type} `{toptalkers.Rolling W} (SI : f64.float64 -> string -> string) (s : toptalkers.TopTalkers).

(** A report of the toptalkers segment lists at most TopN records, the first
    ones by bytes, none of them below a threshold; it does not forward or drop
    anything, and it keeps every record that has bytes. *)
Theorem toptalkers_report (now : Z) (database database' : gmap string (@toptalkers.Record_ W)) (lines : list string) (es : list emit) :
  1 <= toptalkers.TopN s -> toptalkers.step SI s (toptalkers.Ticker now) database database' lines es ->
  es = [] /\ database' ⊆ database /\
  (forall k r, database !! k = Some r -> toptalkers.is_zero (toptalkers.Sum now (toptalkers.rBytes r)) = false ->
   database' !! k = Some r) /\
  exists entries n, Sorted (toptalkers.more_bytes now) entries /\ entries ≡ₚ (map_to_list database).*2 /\
    lines = (toptalkers.LogPrefix s ++ toptalkers.separator)%string :: (toptalkers.line SI s now <$> take n entries) /\
    Z.of_nat n <= toptalkers.TopN s /\ Forall (fun r => toptalkers.below s now r = false) (take n entries).
Proof.
  intros Hn Hs. inversion Hs as [? ? entries Hp Hsort|]; subst. split_and!; [done| | |].
  - unfold toptalkers.pruned. destruct (_ <=? _)%nat; [done|]. apply map_filter_subseteq.
  - intros k r Hk Hz. unfold toptalkers.pruned. destruct (_ <=? _)%nat; [done|]. by apply map_lookup_filter_Some.
  - assert (forall c, 0 <= c < toptalkers.TopN s -> exists n, toptalkers.printed s now c entries = take n entries /\
      c + Z.of_nat n <= toptalkers.TopN s /\ Forall (fun r => toptalkers.below s now r = false) (take n entries)) as Hpr.
    { clear Hp Hsort Hs. induction entries as [|r entries IH]; intros c Hc; [exists O; split_and!; [done|lia|constructor]|].
      cbn [toptalkers.printed]. destruct (toptalkers.below s now r) eqn:Eb; [exists O; split_and!; [done|lia|constructor]|].
      destruct (Z.leb_spec (toptalkers.TopN s) (c + 1)).
      - exists 1%nat. split_and!; [done|lia|by repeat constructor].
      - destruct (IH (c + 1)) as (n & -> & Hl & Hf); [lia|]. exists (S n). split_and!; [done|lia|by constructor]. }
    destruct (Hpr 0) as (n & -> & Hl & Hf); [lia|]. exists entries, n. split_and!; [done|done|done|lia|done].
Qed.

(** A talker with few packets hides those after it: the list is sorted by
    bytes, and the loop ends at the first record below either threshold, so a
    record above both is missing if one with more bytes has too few packets. *)
Theorem toptalkers_report_hides (now : Z) (big small : @toptalkers.Record_ W) :
  f64.ltb (toptalkers.rate s now (toptalkers.rPackets big)) (f64.of_Z (toptalkers.ThresholdPps s)) = true ->
  toptalkers.below s now small = false ->
  toptalkers.printed s now 0 [big; small] = [] /\ toptalkers.printed s now 0 [small] = [small].
Proof.
  intros Hb Hs. cbn [toptalkers.printed]. unfold toptalkers.below at 1. rewrite Hb, orb_true_r, Hs.
  split; [done|]. by destruct (_ <=? _).
Qed.
End toptalkers_theorems.

(** ** The theorems at work *)
Module witness.
Definition flow (proto : Z) : EnrichedFlow := set_Proto proto (set_ForwardingStatus 130 emptyFlow).
Definition segment : printflowdump.PrintFlowdump := printflowdump.mkPrintFlowdump true false false "stdout".
(** A window that keeps all values. *)
#[export] Instance rolling : toptalkers.Rolling (list f64.float64) := {|
  toptalkers.NewTimePolicy := fun _ => []; toptalkers.Append := fun _ x w => x :: w;
  toptalkers.Sum := fun _ w => foldr f64.add (f64.of_Z 0) w |}.
Definition top : toptalkers.TopTalkers := toptalkers.mkTopTalkers 60 10 "" 0 1 10 "stdout".
Definition talker (bytes packets : Z) : @toptalkers.Record_ (list f64.float64) := toptalkers.mkRecord "10.0.0.1" [f64.of_Z bytes] [f64.of_Z packets].
End witness.
Import witness.

Lemma printflowdump_prints_witness :
  printflowdump.body (fun _ => ""%string) (fun _ u => u) witness.segment [] (witness.flow 256) = Panic.
Proof.
  apply (printflowdump_prints (fun _ => ""%string) (fun _ u => u) witness.segment [] (witness.flow 256));
    [unfold in_u; cbn; lia|by repeat split].
Defined.

Lemma statusString_agrees_witness :
  gostrings.HasPrefix (printflowdump.statusString false 130) "DROP/" = true.
Proof.
  destruct (statusString_agrees (witness.flow 6)) as (_ & H & _); [unfold in_u; cbn; lia|]. exact H.
Defined.

Lemma printdots_dots_witness :
  output_loop (printdots.body (printdots.mkPrintDots 2 "stdout")) (0, O) [emptyFlow; emptyFlow; emptyFlow]
  = ((1, 1%nat), EOut <$> [emptyFlow; emptyFlow; emptyFlow]).
Proof.
  rewrite (printdots_dots (printdots.mkPrintDots 2 "stdout") [emptyFlow; emptyFlow; emptyFlow]); [reflexivity|cbn; lia].
Defined.

Lemma toptalkers_report_witness :
  exists database' lines, toptalkers.step (W := list f64.float64) (fun _ u => u) witness.top (toptalkers.Ticker 0) ∅ database' lines [] /\
    exists entries n, lines = toptalkers.separator :: (toptalkers.line (W := list f64.float64) (fun _ u => u) witness.top 0 <$> take n entries).
Proof.
  pose proof (toptalkers.step_report (W := list f64.float64) (fun _ u => u) witness.top 0 ∅ []) as Hs.
  specialize (Hs (Permutation_refl _) (Sorted_nil _)).
  do 2 eexists. split; [exact Hs|].
  destruct (toptalkers_report (W := list f64.float64) (fun _ u => u) witness.top 0 ∅ _ _ _ ltac:(cbn; lia) Hs)
    as (_ & _ & _ & entries & n & _ & _ & E & _). exists entries, n. exact E.
Defined.

Lemma toptalkers_report_hides_witness :
  toptalkers.printed witness.top 0 0 [witness.talker 9000 1; witness.talker 8000 60] = [].
Proof.
  refine (proj1 (toptalkers_report_hides witness.top 0 (witness.talker 9000 1) (witness.talker 8000 60) _ _)); reflexivity.
Defined.
