(* ===== verification/Monitor.v ===== *)
(** * delay_monitoring ([segments/meta/monitoring/delay_monitoring.go])

    The sampling of flows and the two exponentially weighted averages, in float64
    arithmetic; clock readings are arguments.  The metrics server is not
    modelled, only the values it collects. *)

From stdpp Require Import prelude strings list gmap.
From Stdlib Require Import ZArith Lia.
From S2P Require Import Prelude GoStd GoParse EnrichedFlow Segment.

Record DelayMonitoring := mkDelayMonitoring {
  SamplingRate : Z; Alpha : f64.float64; Endpoint : string;
  msgCounter : Z; movingAverageProcessingDelay : f64.float64; movingAverageTotalDelay : f64.float64;
  KafkaMessageCount : Z }.

(** The literal 0.2. *)
Definition point2 : f64.float64 := f64.div (f64.of_Z 2) (f64.of_Z 10).
Definition New (c : config) : created DelayMonitoring :=
  Created {|
    SamplingRate := if is_empty (cfg c "samplingRate") then 1000 else default 1000 (strconv.Atoi (cfg c "samplingRate"));
    Alpha := if is_empty (cfg c "alpha") then point2 else default point2 (ParseFloat.parse (cfg c "alpha"));
    Endpoint := if is_empty (cfg c "endpoint") then ":8080"%string else cfg c "endpoint";
    msgCounter := 0; movingAverageProcessingDelay := f64.of_Z 0; movingAverageTotalDelay := f64.of_Z 0;
    KafkaMessageCount := 0 |}.

(** Seconds since [t], 0 for a time in the future. *)
Definition timeDiff (timeNow t : Z) : Z := if timeNow <? t then 0 else timeNow - t.
(** [(alpha * x) + (1.0 - alpha) * average] *)
Definition moving_average (alpha x average : f64.float64) : f64.float64 :=
  f64.add (f64.mul alpha x) (f64.mul (f64.sub (f64.of_Z 1) alpha) average).

(** The total delay is averaged with the average of the processing delay. *)
Definition updateWindow (timeNow : Z) (msg : EnrichedFlow) (s : DelayMonitoring) : DelayMonitoring :=
  if SamplingRate s <=? msgCounter s then
    let processing := moving_average (Alpha s) (f64.of_Z (timeDiff timeNow (TimeReceived msg))) (movingAverageProcessingDelay s) in
    {| SamplingRate := SamplingRate s; Alpha := Alpha s; Endpoint := Endpoint s; msgCounter := 1;
       movingAverageProcessingDelay := processing;
       movingAverageTotalDelay := moving_average (Alpha s) (f64.of_Z (timeDiff timeNow (TimeFlowEnd msg))) processing;
       KafkaMessageCount := KafkaMessageCount s + 1 |}
  else
    {| SamplingRate := SamplingRate s; Alpha := Alpha s; Endpoint := Endpoint s; msgCounter := msgCounter s + 1;
       movingAverageProcessingDelay := movingAverageProcessingDelay s;
       movingAverageTotalDelay := movingAverageTotalDelay s; KafkaMessageCount := KafkaMessageCount s |}.

(** The loop; each flow comes with the clock reading. *)
Fixpoint Run (ms : list (Z * EnrichedFlow)) (s : DelayMonitoring) : DelayMonitoring * list emit :=
  match ms with
  | [] => (s, [])
  | (now, msg) :: ms => let '(s, es) := Run ms (updateWindow now msg s) in (s, EOut msg :: es)
  end.

(** What Prometheus collects. *)
Definition Collect (s : DelayMonitoring) : list (string * f64.float64) :=
  [("total_delay"%string, movingAverageTotalDelay s); ("processing_delay"%string, movingAverageProcessingDelay s)].

(** ** Theorems *)

(** The reference: every [n]-th flow after the first. *)
Fixpoint every (n i : Z) (ms : list (Z * EnrichedFlow)) : list (Z * EnrichedFlow) :=
  match ms with
  | [] => []
  | m :: ms => (if (0 <? i) && (i mod n =? 0) then [m] else []) ++ every n (i + 1) ms
  end.
Definition processing_delay (m : Z * EnrichedFlow) : f64.float64 := f64.of_Z (timeDiff m.1 (TimeReceived m.2)).
Definition total_delay (m : Z * EnrichedFlow) : f64.float64 := f64.of_Z (timeDiff m.1 (TimeFlowEnd m.2)).
Definition ewma (alpha : f64.float64) (average : f64.float64) (ds : list f64.float64) : f64.float64 :=
  fold_left (fun average x => moving_average alpha x average) ds average.

(** The counter after [i] flows. *)
Definition counter (n i : Z) : Z := if i =? 0 then 0 else (i - 1) mod n + 1.
Lemma counter_step n i : 1 <= n -> 0 <= i ->
  (n <=? counter n i) = ((0 <? i) && (i mod n =? 0)) /\
  counter n (i + 1) = if (0 <? i) && (i mod n =? 0) then 1 else counter n i + 1.
Proof.
  intros Hn Hi. unfold counter. rewrite (proj2 (Z.eqb_neq (i + 1) 0)) by lia. replace (i + 1 - 1) with i by lia.
  destruct (Z.eqb_spec i 0) as [->|H0].
  - cbn [Z.ltb andb]. rewrite Z.mod_0_l by lia. split; [|done]. cbn. lia.
  - rewrite (proj2 (Z.ltb_lt 0 i)) by lia. cbn [andb].
    pose proof (Z.div_mod (i - 1) n ltac:(lia)) as E. pose proof (Z.mod_pos_bound (i - 1) n ltac:(lia)) as B.
    set (q := (i - 1) / n) in *. set (r := (i - 1) mod n) in *.
    destruct (Z.leb_spec n (r + 1)) as [Hr|Hr].
    + assert (i mod n = 0) as ->; [|done]. symmetry. apply (Z.mod_unique i n (q + 1)); lia.
    + assert (i mod n = r + 1) as -> by (symmetry; apply (Z.mod_unique i n q); lia).
      destruct (Z.eqb_spec (r + 1) 0); [lia|done].
Qed.

Lemma Run_outputs ms : forall s, (Run ms s).2 = EOut <$> (snd <$> ms).
Proof. induction ms as [|[now m] ms IH]; intros s; [done|]. cbn. specialize (IH (updateWindow now m s)). destruct (Run ms _). by rewrite <- IH. Qed.

Lemma Run_averages ms : forall s i, 1 <= SamplingRate s -> 0 <= i -> msgCounter s = counter (SamplingRate s) i ->
  let sampled := every (SamplingRate s) i ms in
  let s' := (Run ms s).1 in
  movingAverageProcessingDelay s' = ewma (Alpha s) (movingAverageProcessingDelay s) (processing_delay <$> sampled) /\
  KafkaMessageCount s' = KafkaMessageCount s + zlen sampled /\
  (forall m, last sampled = Some m ->
     movingAverageTotalDelay s' = moving_average (Alpha s) (total_delay m) (movingAverageProcessingDelay s')) /\
  (sampled = [] -> movingAverageTotalDelay s' = movingAverageTotalDelay s).
Proof.
  induction ms as [|[now m] ms IH]; intros s i Hn Hi Hc; cbn zeta.
  { cbn. split_and!; [done|unfold zlen; cbn; lia|done|done]. }
  destruct (counter_step (SamplingRate s) i Hn Hi) as [Hs Hstep]. cbn [Run].
  assert (forall s1, (let '(s0, es) := Run ms s1 in (s0, EOut m :: es)).1 = (Run ms s1).1) as -> by (intros s1; by destruct (Run ms s1)).
  specialize (IH (updateWindow now m s) (i + 1)). unfold updateWindow in IH |- *. rewrite Hc, Hs in *.
  cbn [every]. destruct ((0 <? i) && (i mod SamplingRate s =? 0)) eqn:E; cbn [SamplingRate Alpha movingAverageProcessingDelay movingAverageTotalDelay KafkaMessageCount msgCounter] in IH.
  - destruct IH as (H1 & H2 & H3 & H4); [done|lia|by rewrite Hstep|]. split_and!; [exact H1|rewrite H2; cbn [app]; rewrite zlen_cons; lia| |done].
    intros m' Hm'. destruct (every (SamplingRate s) (i + 1) ms) as [|m0 sm] eqn:Ee; [|by apply H3].
    injection Hm' as <-. rewrite H4 by done. by rewrite H1.
  - destruct IH as (H1 & H2 & H3 & H4); [done|lia|by rewrite Hstep|]. by split_and!.
Qed.

(** The monitored delays: the flows sampled are every [SamplingRate]-th one after
    the first; the processing delay is the exponentially weighted average of
    theirs, while the total delay is no average of total delays: it mixes the last
    sample's total delay with the average processing delay.  All flows are
    forwarded in order. *)
Theorem delay_averages (c : config) (s : DelayMonitoring) (ms : list (Z * EnrichedFlow)) :
  New c = Created s -> 1 <= SamplingRate s ->
  let sampled := every (SamplingRate s) 0 ms in
  let s' := (Run ms s).1 in
  (Run ms s).2 = EOut <$> (snd <$> ms) /\ KafkaMessageCount s' = zlen sampled /\
  exists average, average = ewma (Alpha s) (f64.of_Z 0) (processing_delay <$> sampled) /\
    Collect s' = [("total_delay"%string, match last sampled with
                                         | Some m => moving_average (Alpha s) (total_delay m) average
                                         | None => f64.of_Z 0 end);
                  ("processing_delay"%string, average)].
Proof.
  intros Hs Hn sampled s'. split; [apply Run_outputs|]. injection Hs as Hs.
  destruct (Run_averages ms s 0 Hn) as (H1 & H2 & H3 & H4); [done|by rewrite <- Hs|]. fold sampled s' in H1, H2, H3, H4.
  assert (movingAverageProcessingDelay s = f64.of_Z 0 /\ movingAverageTotalDelay s = f64.of_Z 0 /\ KafkaMessageCount s = 0)
    as (E1 & E2 & E3) by by rewrite <- Hs.
  split; [lia|]. eexists. split; [done|]. unfold Collect. rewrite H1, E1. repeat f_equal.
  destruct (last sampled) as [m|] eqn:El; [by rewrite (H3 m), H1, E1|]. apply last_None in El. by rewrite H4.
Qed.

(** ** The theorems at work *)
Module witness.
Definition conf : config := {[ "samplingRate"%string := "2"%string; "alpha"%string := "0.5"%string ]}.
Definition segment : DelayMonitoring := match New conf with Created s => s | _ => mkDelayMonitoring 0 point2 "" 0 point2 point2 0 end.
(** Flows received ten seconds before they are seen, which ended a minute before. *)
Definition flow : EnrichedFlow := set_TimeReceived 990 (set_TimeFlowEnd 940 emptyFlow).
Definition flows : list (Z * EnrichedFlow) := replicate 3 (1000, flow).
End witness.

(** One sample: 0.5 * 10 and 0.5 * 60 + 0.5 * 5. *)
Lemma delay_averages_witness :
  exists average, average = f64.of_Z 5 /\
    Collect (Run witness.flows witness.segment).1 =
    [("total_delay"%string, f64.div (f64.of_Z 65) (f64.of_Z 2)); ("processing_delay"%string, average)].
Proof.
  destruct (delay_averages witness.conf witness.segment witness.flows eq_refl ltac:(vm_compute; discriminate)) as (_ & _ & average & Ha & Hc).
  exists average. split; [rewrite Ha; vm_compute; reflexivity|]. rewrite Hc, Ha. vm_compute. reflexivity.
Defined.
