(* ===== verification/Collector.v ===== *)
(** * Metrics collected on demand
      ([segments/analysis/toptalkers_metrics/toptalker_prometheus.go],
      [segments/meta/monitoring/delay_monitoring.go])

    The exporters of the top talkers and of the delay monitoring register a
    collector, which the library asks for samples whenever it is scraped.  It
    refuses a scrape in which two samples have the same name and label values:
    [collected_distinct] says when that cannot happen. *)

From stdpp Require Import prelude strings list gmap.
From Stdlib Require Import ZArith Lia.
From S2P Require Import Prelude GoStd GoParse EnrichedFlow Segment Metrics Monitor TopTalkers.

(** ** The exporters *)
Definition size_desc : Desc := mkDesc "toptalkers_db_size" [].
Definition traffic_labels : list string := ["traffic_type"; "address"; "forwarding_status"]%string.
Definition trafficBpsDesc : Desc := mkDesc "traffic_bps" traffic_labels.
Definition trafficPpsDesc : Desc := mkDesc "traffic_pps" traffic_labels.
(** [Describe] of the collector that [NewPrometheusCollector] makes. *)
Definition Describe : list Desc := [trafficBpsDesc; trafficPpsDesc].

Module monitoring.
Definition size_desc : Desc := mkDesc "delay_db_size" [].
Definition Describe : list Desc := [mkDesc "total_delay" []; mkDesc "processing_delay" []].
End monitoring.

Section registries.
Context {R : Type} `{Registry R}.
(** [FlowReg] is [DelayReg] of the delay monitoring. *)
Record PrometheusExporter := mkPrometheusExporter { MetaReg : R; FlowReg : R }.
Definition Initialize : result PrometheusExporter :=
  meta ← MustRegisterAll [[messages_desc]; [size_desc]] NewRegistry;
  Ok {| MetaReg := meta; FlowReg := NewRegistry |}.
(** The part of both [Run] that registers the collector. *)
Definition register (collector : list Desc) (e : PrometheusExporter) : result PrometheusExporter :=
  flow ← MustRegister collector (FlowReg e);
  Ok {| MetaReg := MetaReg e; FlowReg := flow |}.

Definition Initialize_monitoring : result PrometheusExporter :=
  meta ← MustRegisterAll [[messages_desc]; [monitoring.size_desc]] NewRegistry;
  Ok {| MetaReg := meta; FlowReg := NewRegistry |}.
(** [Run] of the delay monitoring. *)
Definition Run_monitoring (ms : list (Z * EnrichedFlow)) (s : Monitor.DelayMonitoring) :
    result (Monitor.DelayMonitoring * list emit) :=
  e ← Initialize_monitoring; _ ← register monitoring.Describe e; Ok (Monitor.Run ms s).
End registries.

(** ** The samples of a scrape *)
Record sample := mksample { s_name : Desc; s_values : list string; s_amount : f64.float64 }.
Section collect.
Context `{f64.Platform}.

(** What [Collect] sends for one record. *)
Definition samples (trafficType : string) (m : metrics * string) : list sample :=
  [mksample trafficBpsDesc [trafficType; m.2; "forwarded"%string] (sumFwdBps m.1);
   mksample trafficBpsDesc [trafficType; m.2; "dropped"%string] (sumDropBps m.1);
   mksample trafficPpsDesc [trafficType; m.2; "forwarded"%string] (sumFwdPps m.1);
   mksample trafficPpsDesc [trafficType; m.2; "dropped"%string] (sumDropPps m.1)].
(** Each database with the order in which its records are visited. *)
Fixpoint CollectAll (dbs : list (list string * Database)) : result (list sample) :=
  match dbs with
  | [] => Ok []
  | (order, db) :: dbs =>
      ms ← Collect order db;
      ss ← CollectAll dbs;
      Ok (flat_map (samples (TrafficType (db_params db))) ms ++ ss)
  end.
End collect.
Definition series (s : sample) : Desc * list string := (s_name s, s_values s).

(** ** Theorems *)

(** *** The exporters start *)
Section starts.
Context {R : Type} `{RegistryLaws R}.

Lemma start_works (d : Desc) (collector : list Desc) :
  acceptable [messages_desc; d] ∅ -> acceptable collector ∅ ->
  exists e : @PrometheusExporter R,
    (e ← (meta ← MustRegisterAll [[messages_desc]; [d]] NewRegistry; Ok {| MetaReg := meta; FlowReg := NewRegistry |});
     register collector e) = Ok e /\
    registered (FlowReg e) = list_to_set (fqName <$> collector).
Proof using All.
  intros Hd Hc. destruct (register_all_works [[messages_desc]; [d]] (NewRegistry : R)) as (m & -> & _); [by rewrite registered_new|].
  cbn [mbind result_bind]. unfold register. destruct (register_works collector (NewRegistry : R)) as (f & E & Ef); [by rewrite registered_new|].
  simpl. rewrite E. eexists. split; [done|]. simpl. by rewrite Ef, registered_new, union_empty_l_L.
Qed.

(** Both exporters start: no metric is registered twice, and Run of the delay
    monitoring comes to its loop. *)
Theorem exporters_start :
  (exists e : @PrometheusExporter R, (e ← Initialize; register Describe e) = Ok e /\
     registered (FlowReg e) = {["traffic_bps"; "traffic_pps"]}) /\
  (forall ms s, Run_monitoring (R := R) ms s = Ok (Monitor.Run ms s)).
Proof using All.
  split.
  - destruct (start_works size_desc Describe) as (e & E & Er); [apply (bool_decide_unpack _); vm_compute; exact I..|].
    exists e. split; [exact E|]. rewrite Er. apply (bool_decide_unpack _). vm_compute. exact I.
  - intros ms s. unfold Run_monitoring.
    destruct (start_works monitoring.size_desc monitoring.Describe) as (e & E & _); [apply (bool_decide_unpack _); vm_compute; exact I..|].
    unfold Initialize_monitoring. apply result_bind_inv in E as (e0 & -> & E). cbn [mbind result_bind]. by rewrite E.
Qed.
End starts.

(** *** Records are kept under their address *)
Definition keyed (typeLabel : string) (db : Database) : Prop :=
  forall key r, database db !! key = Some r -> key = record_key typeLabel (Address r).

Lemma keyed_insert t key r db : keyed t db -> key = record_key t (Address r) ->
  keyed t (with_database (<[key := r]> (database db)) db).
Proof. intros Hk Hr k x Hx. cbn in Hx. apply lookup_insert_Some in Hx as [[<- <-]|[_ Hx]]; [done|by apply Hk]. Qed.
Lemma Append_address bytes packets fwd r r' : Append bytes packets fwd r = Ok r' -> Address r' = Address r.
Proof. unfold Append. destruct fwd; intros (x & _ & (y & _ & Hr)%result_bind_inv)%result_bind_inv; by injection Hr as <-. Qed.
Lemma tick_address `{f64.Platform} nb dur bps pps r r' : tick nb dur bps pps r = Ok r' -> Address r' = Address r.
Proof.
  unfold tick, clear. intros ([sb sp] & _ & (a & _ & (b & _ & (c & _ & (d & _ & E)%result_bind_inv)%result_bind_inv)%result_bind_inv)%result_bind_inv)%result_bind_inv.
  by injection E as <-.
Qed.
Lemma GetTypedRecord_keyed t address db db' key : keyed t db -> GetTypedRecord t address db = Ok (db', key) -> keyed t db'.
Proof.
  unfold GetTypedRecord. intros Hk. destruct (database db !! _); [by intros [= <- _]|].
  unfold NewRecord. destruct (_ <? 0); [done|]. cbn [mbind result_bind]. intros [= <- _]. by apply keyed_insert.
Qed.
Lemma append_to_keyed t key bytes packets fwd db db' b : keyed t db -> append_to key bytes packets fwd db = Ok (db', b) -> keyed t db'.
Proof.
  unfold append_to. intros Hk. destruct (database db !! key) as [r|] eqn:E; [|done].
  intros (r' & Hr & [= <- _])%result_bind_inv. apply keyed_insert; [done|]. rewrite (Append_address _ _ _ _ _ Hr). by apply Hk.
Qed.
Lemma Clock_keyed `{f64.Platform} t order : forall db db', keyed t db -> Clock order db = Ok db' -> keyed t db'.
Proof.
  induction order as [|key order IH]; intros db db' Hk; cbn [Clock]; [by intros [= <-]|].
  destruct (database db !! key) as [r|] eqn:E; [|by apply IH]. intros (r' & Hr & Hc)%result_bind_inv.
  eapply IH; [|exact Hc]. apply keyed_insert; [done|]. rewrite (tick_address _ _ _ _ _ _ Hr). by apply Hk.
Qed.
Lemma delete_empty_subseteq order : forall m m', delete_empty order m = Ok m' -> m' ⊆ m.
Proof.
  induction order as [|key order IH]; intros m m'; cbn [delete_empty]; [by intros [= <-]|].
  destruct (m !! key); [|by apply IH]. intros (e & _ & E)%result_bind_inv. apply IH in E. destruct e; [|done].
  etrans; [done|]. apply delete_subseteq.
Qed.
Lemma Cleanup_keyed `{f64.Platform} t order db db' : keyed t db -> Cleanup order db = Ok db' -> keyed t db'.
Proof.
  unfold Cleanup. intros Hk. destruct (_ <=? 0); [|by intros [= <-]]. intros (m & Hm & [= <-])%result_bind_inv.
  intros key r Hr. apply Hk. by apply (lookup_weaken _ _ _ _ Hr), (delete_empty_subseteq order).
Qed.

(** *** Distinct samples *)
Section distinct.
Context `{f64.Platform}.

Lemma record_key_inj t a b : record_key t a = record_key t b -> a = b.
Proof. unfold record_key. induction t as [|c t IH]; simpl; intros E; injection E; [done|exact IH]. Qed.

(** A database with its records and their samples. *)
Lemma Collect_ok t order : forall db, good db -> keyed t db -> NoDup order ->
  exists ms, Collect order db = Ok ms /\ NoDup ms.*2 /\
    forall a, a ∈ ms.*2 <-> exists r, record_key t a ∈ order /\ database db !! record_key t a = Some r /\ aboveThreshold r = true.
Proof.
  induction order as [|key order IH]; intros db Hg Hk Hnd; cbn [Collect].
  { exists []. split_and!; [done|constructor|]. intros a. split; [by intros ?%elem_of_nil|]. by intros (r & ?%elem_of_nil & _). }
  apply NoDup_cons in Hnd as [Hni Hnd]. destruct (IH db Hg Hk Hnd) as (ms & E & Hms & Ha).
  destruct (database db !! key) as [r|] eqn:Er.
  - destruct (aboveThreshold r) eqn:Eb.
    + destruct Hg as [[Ht Hr] Hm]. destruct (Hm _ _ Er) as [[h Hs] Hc].
      rewrite (GetMetrics_averages _ _ r h Hs) by lia. cbn [mbind result_bind]. rewrite E. eexists. split; [reflexivity|].
      pose proof (Hk _ _ Er) as ->. cbn [fmap list_fmap snd]. split.
      * apply NoDup_cons. split; [|done]. rewrite Ha. by intros (r' & Hin & _).
      * intros a. rewrite elem_of_cons, Ha. split.
        -- intros [->|(r' & Hin & Hr')]; [exists r; split; [apply list_elem_of_here|done]|]. exists r'. split; [by apply list_elem_of_further|done].
        -- intros (r' & [Heq|Hin]%elem_of_cons & Hr'); [left; by apply record_key_inj in Heq|right; by exists r'].
    + exists ms. split_and!; [done..|]. intros a. rewrite Ha. split.
      * intros (r' & Hin & Hr'). exists r'. split; [by apply list_elem_of_further|done].
      * intros (r' & [<-|Hin]%elem_of_cons & Hr'); [destruct Hr'; congruence|by exists r'].
  - exists ms. split_and!; [done..|]. intros a. rewrite Ha. split.
    + intros (r' & Hin & Hr'). exists r'. split; [by apply list_elem_of_further|done].
    + intros (r' & [<-|Hin]%elem_of_cons & Hr'); [destruct Hr'; congruence|by exists r'].
Qed.

Lemma samples_series t ms x : x ∈ series <$> flat_map (samples t) ms ->
  exists a status d, x = (d, [t; a; status]) /\ a ∈ ms.*2.
Proof.
  intros (s & -> & Hs)%list_elem_of_fmap. apply list_elem_of_In, in_flat_map in Hs as (m & Hm%list_elem_of_In & Hs).
  apply (list_elem_of_fmap_2 snd) in Hm. destruct Hs as [<-|[<-|[<-|[<-|[]]]]]; do 3 eexists; (split; [reflexivity|exact Hm]).
Qed.
Lemma reported_series t ms a : a ∈ ms.*2 -> (trafficBpsDesc, [t; a; "forwarded"%string]) ∈ series <$> flat_map (samples t) ms.
Proof.
  intros (m & -> & Hm)%list_elem_of_fmap.
  apply (list_elem_of_fmap_2 series _ (mksample trafficBpsDesc [t; m.2; "forwarded"%string] (sumFwdBps m.1))).
  apply list_elem_of_In, in_flat_map. exists m. split; [by apply list_elem_of_In|by left].
Qed.
Lemma samples_distinct t ms : NoDup ms.*2 -> NoDup (series <$> flat_map (samples t) ms).
Proof.
  induction ms as [|m ms IH]; intros Hnd; [constructor|]. cbn [fmap list_fmap] in Hnd. apply NoDup_cons in Hnd as [Hni Hnd].
  cbn [flat_map]. rewrite fmap_app. apply NoDup_app. split_and!; [|intros x Hx Hin|by apply IH].
  - unfold series. cbn. repeat (apply NoDup_cons; split); try apply NoDup_nil_2; intros Hx;
      repeat (apply elem_of_cons in Hx as [Hx|Hx]; [discriminate Hx|]); by apply elem_of_nil in Hx.
  - destruct (samples_series _ _ _ Hin) as (a & status & d & -> & Ha).
    repeat (apply elem_of_cons in Hx as [[= -> -> ->]|Hx]; [done|]). by apply elem_of_nil in Hx.
Qed.

(** A record that is reported, of which database. *)
Definition reported (dbs : list (list string * Database)) (ty a : string) : Prop :=
  exists order db key r, (order, db) ∈ dbs /\ key ∈ order /\ TrafficType (db_params db) = ty /\
    database db !! key = Some r /\ Address r = a /\ aboveThreshold r = true.
Lemma reported_cons x dbs ty a : reported (x :: dbs) ty a <-> reported [x] ty a \/ reported dbs ty a.
Proof.
  unfold reported. split.
  - intros (order & db & key & r & [<-|Hin]%elem_of_cons & Hr); [left|right]; exists order, db, key, r; (split; [|done]); [apply list_elem_of_here|done].
  - intros [(order & db & key & r & <-%list_elem_of_singleton & Hr)|(order & db & key & r & Hin & Hr)]; exists order, db, key, r;
      (split; [|done]); [apply list_elem_of_here|by apply list_elem_of_further].
Qed.
Lemma reported_one order db t a : keyed t db -> reported [(order, db)] (TrafficType (db_params db)) a <->
  exists r, record_key t a ∈ order /\ database db !! record_key t a = Some r /\ aboveThreshold r = true.
Proof.
  intros Hk. split.
  - intros (? & ? & key & r & [= -> ->]%list_elem_of_singleton & Hin & _ & Hr & <- & Hb). exists r.
    by rewrite <- (Hk _ _ Hr).
  - intros (r & Hin & Hr & Hb). exists order, db, (record_key t a), r. split_and!; try done; [by apply list_elem_of_singleton|].
    symmetry. by apply (record_key_inj t), Hk.
Qed.

Lemma CollectAll_ok (dbs : list (list string * Database)) :
  Forall (fun x => NoDup x.1 /\ good x.2 /\ exists t, keyed t x.2) dbs ->
  exists ss, CollectAll dbs = Ok ss /\
    (NoDup ((fun x => TrafficType (db_params x.2)) <$> dbs) -> NoDup (series <$> ss)) /\
    (forall x, x ∈ series <$> ss -> exists d ty a status, x = (d, [ty; a; status]) /\ reported dbs ty a) /\
    (forall ty a, reported dbs ty a -> (trafficBpsDesc, [ty; a; "forwarded"%string]) ∈ series <$> ss).
Proof.
  intros Hdb. induction Hdb as [|[order db] dbs (Hnd & Hg & t & Hk) _ (ss & E & Hss & Hfrom & Hto)]; cbn [CollectAll].
  { exists []. split_and!; [done|constructor|by intros ? ?%elem_of_nil|]. by intros ? ? (? & ? & ? & ? & ?%elem_of_nil & _). }
  destruct (Collect_ok t order db Hg Hk Hnd) as (ms & -> & Hms & Ha). cbn [mbind result_bind]. rewrite E.
  eexists. split; [reflexivity|]. rewrite fmap_app. split_and!.
  - intros Hty. cbn in Hty. apply NoDup_cons in Hty as [Hni Hty]. apply NoDup_app. split_and!; [by apply samples_distinct| |by apply Hss].
    intros x Hx Hin. destruct (samples_series _ _ _ Hx) as (a & status & d & -> & _).
    destruct (Hfrom _ Hin) as (d' & ty & a' & status' & [= -> <- _ _] & order' & db' & key & r & Hin' & _ & Et & _). apply Hni. rewrite <- Et.
    by apply (list_elem_of_fmap_2 (fun x : list string * Database => TrafficType (db_params x.2)) dbs (order', db')).
  - intros x [Hx|Hx]%elem_of_app.
    + destruct (samples_series _ _ _ Hx) as (a & status & d & -> & Hin). exists d, (TrafficType (db_params db)), a, status.
      split; [done|]. apply reported_cons. left. by apply (reported_one _ _ t), Ha.
    + destruct (Hfrom _ Hx) as (d & ty & a & status & -> & Hr). exists d, ty, a, status. split; [done|]. apply reported_cons. by right.
  - intros ty a [Hr|Hr]%reported_cons; apply elem_of_app; [left|right; by apply Hto].
    assert (ty = TrafficType (db_params db)) as -> by (by destruct Hr as (? & ? & ? & ? & [= -> ->]%list_elem_of_singleton & _ & <- & _)).
    apply reported_series, Ha. by apply reported_one.
Qed.

(** A scrape of the top talkers: for databases whose records are kept under their
    addresses, as all operations of a database leave them, Collect never panics and
    reports exactly the records above the thresholds; if the databases have
    different traffic types, no two samples have the same name and label values,
    which the library would refuse. *)
Theorem collected_distinct (dbs : list (list string * Database)) :
  Forall (fun x => NoDup x.1 /\ good x.2 /\ exists t, keyed t x.2) dbs ->
  exists ss, CollectAll dbs = Ok ss /\
    (forall ty a, reported dbs ty a <-> exists d status, (d, [ty; a; status]) ∈ series <$> ss) /\
    (NoDup ((fun x => TrafficType (db_params x.2)) <$> dbs) -> NoDup (series <$> ss)).
Proof.
  intros Hdb. destruct (CollectAll_ok dbs Hdb) as (ss & E & Hnd & Hfrom & Hto). exists ss. split_and!; [done| |done].
  intros ty a. split.
  - intros Hr. do 2 eexists. by apply Hto.
  - intros (d & status & Hx). by destruct (Hfrom _ Hx) as (d' & ty' & a' & status' & [= -> -> -> ->] & Hr).
Qed.

(** With the same traffic type twice an address that is above the thresholds of both
    is reported twice, and every scrape fails while it is. *)
Theorem same_type_collides (order1 order2 : list string) (db1 db2 : Database) (a : string) :
  Forall (fun x => NoDup x.1 /\ good x.2 /\ exists t, keyed t x.2) [(order1, db1); (order2, db2)] ->
  TrafficType (db_params db2) = TrafficType (db_params db1) ->
  reported [(order1, db1)] (TrafficType (db_params db1)) a -> reported [(order2, db2)] (TrafficType (db_params db2)) a ->
  exists ss, CollectAll [(order1, db1); (order2, db2)] = Ok ss /\ ~ NoDup (series <$> ss).
Proof.
  intros Hdb Et Hr1 Hr2. apply Forall_cons in Hdb as [H1 H2]. cbn [CollectAll].
  destruct (CollectAll_ok [(order1, db1)]) as (s1 & E1 & _ & _ & T1); [by constructor|].
  destruct (CollectAll_ok [(order2, db2)] H2) as (s2 & E2 & _ & _ & T2).
  cbn [CollectAll] in E1, E2. apply result_bind_inv in E1 as (m1 & -> & E1). apply result_bind_inv in E2 as (m2 & -> & E2).
  cbn [mbind result_bind] in *. injection E1 as <-. injection E2 as <-. eexists. split; [reflexivity|].
  specialize (T1 _ _ Hr1). specialize (T2 _ _ Hr2). rewrite Et in T2 at 1. rewrite fmap_app in T1. rewrite fmap_app.
  intros (_ & Hx & _)%NoDup_app. rewrite app_nil_r in T1. exact (Hx _ T1 T2).
Qed.
End distinct.

(** ** The theorems at work *)
Lemma busy_keyed : keyed "" TopTalkers.witness.busy.
Proof.
  intros key r Hr.
  assert (map_Forall (fun k r => k = record_key "" (Address r)) (database TopTalkers.witness.busy)) as Hf
    by (apply (bool_decide_unpack _); vm_compute; exact I).
  exact (Hf key r Hr).
Qed.
Lemma busy_collectable : Forall (fun x => NoDup x.1 /\ good x.2 /\ exists t, keyed t x.2)
  [([TopTalkers.witness.key1], TopTalkers.witness.busy)].
Proof.
  constructor; [|constructor]. split_and!; [apply NoDup_singleton|exact TopTalkers.witness.busy_good|].
  exists ""%string. exact busy_keyed.
Qed.
Lemma busy_reported : reported [([TopTalkers.witness.key1], TopTalkers.witness.busy)] "" "10.0.0.1".
Proof.
  exists [TopTalkers.witness.key1], TopTalkers.witness.busy, TopTalkers.witness.key1.
  destruct (database TopTalkers.witness.busy !! TopTalkers.witness.key1) as [r|] eqn:E; [|vm_compute in E; discriminate E].
  assert (Address r = "10.0.0.1"%string /\ aboveThreshold r = true) as [Ha Hb] by (revert E; vm_compute; by intros [= <-]).
  exists r. split_and!; [apply list_elem_of_here|apply list_elem_of_here|vm_compute; reflexivity|reflexivity|exact Ha|exact Hb].
Qed.

Lemma collected_distinct_witness : exists ss,
  CollectAll [([TopTalkers.witness.key1], TopTalkers.witness.busy)] = Ok ss /\
  NoDup (series <$> ss) /\ exists d status, (d, [""%string; "10.0.0.1"%string; status]) ∈ series <$> ss.
Proof.
  destruct (collected_distinct _ busy_collectable) as (ss & E & Hr & Hn). exists ss.
  split; [exact E|]. split; [apply Hn; apply NoDup_singleton|]. exact (proj1 (Hr _ _) busy_reported).
Defined.
