(* ===== verification/Serve.v ===== *)
(** * The HTTP endpoints of the exporters and the timers of the top talkers
      ([segments/output/prometheus/exporter.go],
      [segments/analysis/toptalkers_metrics/toptalker_prometheus.go], [toptalker_database.go],
      [segments/analysis/traffic_specific_toptalkers], [segments/meta/monitoring])

    The exporters register their handlers at a [ServeMux], which panics on a pattern
    that is malformed or taken.  Run of traffic_specific_toptalkers, from its startup to
    the deferred function that stops the clocks of its databases, is a transition
    system: where the registration panics, the deferred function waits for clocks
    that were never started. *)

From stdpp Require Import prelude strings list gmap relations.
From Stdlib Require Import ZArith Lia Ascii.
From S2P Require Import Prelude GoStd GoParse EnrichedFlow Segment FlowFilter TopTalkers.
From S2P Require Traffic Prometheus.

(** ** net/http

    The patterns of a [ServeMux] without methods, wildcards and escapes ([plain]), of
    which two conflict only if they are equal. *)
Definition has_slash (pattern : string) : bool := existsb (Ascii.eqb "/") (String.list_ascii_of_string pattern).
Definition special : list ascii := [" "; "009"; "{"; "}"; "%"]%char.
Definition plain (pattern : string) : bool :=
  forallb (fun c => negb (bool_decide (c ∈ special))) (String.list_ascii_of_string pattern).

Section mux.
Context {A : Type}.
Definition ServeMux : Type := list (string * A).
Definition Handle (pattern : string) (handler : A) (mux : ServeMux) : result ServeMux :=
  if negb (has_slash pattern) then Panic
  else match assoc pattern mux with
       | Some _ => Panic
       | None => Ok (mux ++ [(pattern, handler)])
       end.
End mux.

(** ** ServeEndpoints *)
Inductive handler : Type := MetaMetrics | FlowMetrics | IndexPage (metrics flowdata : string).
(** Of the top talkers. *)
Definition ServeEndpoints (MetricsPath FlowdataPath : string) : result ServeMux :=
  mux ← Handle MetricsPath MetaMetrics [];
  mux ← Handle FlowdataPath FlowMetrics mux;
  Handle "/" (IndexPage MetricsPath FlowdataPath) mux.
(** Of prometheus, which has a copy of the code. *)
Definition exporter_ServeEndpoints (segment : Prometheus.Prometheus) : result ServeMux :=
  ServeEndpoints (Prometheus.MetricsPath segment) (Prometheus.FlowdataPath segment).
(** Of the delay monitoring. *)
Definition ServeEndpoints_monitoring : result ServeMux :=
  mux ← Handle "/metrics" MetaMetrics [];
  mux ← Handle "/delay" FlowMetrics mux;
  Handle "/" (IndexPage "/metrics" "/delay") mux.

(** ** Run of traffic_specific_toptalkers *)
Inductive timer : Type := Unborn | Starting | Waiting | Ticking | Stopped.
(** [Deferred k panicking]: Out is closed, the first [k] databases are stopped. *)
Inductive phase : Type := Looping | Deferred (k : nat) (panicking : bool) | Returned | Crashed.
Record state := mkstate { current : phase; clocks : list timer; cleanups : list timer }.

Section run.
(** The databases of the segment, whose timers these are. *)
Context (dbs : list Database).
(** [time.NewTicker] panics on a duration that is not positive. *)
Definition clock_duration (db : Database) : Z := i64 (BucketDuration (db_params db) * time.Second).
Definition cleanup_duration (db : Database) : Z :=
  i64 (i64 (BucketDuration (db_params db) * Buckets (db_params db)) * time.Second).

(** A goroutine between its ticks; [ok]: its ticker can be made. *)
Inductive timer_step : timer -> timer -> Prop :=
  | timer_started : timer_step Starting Waiting
  | timer_tick : timer_step Waiting Ticking
  | timer_done : timer_step Ticking Waiting.
Inductive step : state -> state -> Prop :=
  | step_clock i t t' p cs us db : p <> Crashed -> dbs !! i = Some db -> 0 < clock_duration db ->
      cs !! i = Some t -> timer_step t t' -> step (mkstate p cs us) (mkstate p (<[i := t']> cs) us)
  | step_cleanup i t t' p cs us db : p <> Crashed -> dbs !! i = Some db -> 0 < cleanup_duration db ->
      us !! i = Some t -> timer_step t t' -> step (mkstate p cs us) (mkstate p cs (<[i := t']> us))
  | step_bad_clock i p cs us db : p <> Crashed -> dbs !! i = Some db -> clock_duration db <= 0 ->
      cs !! i = Some Starting -> step (mkstate p cs us) (mkstate Crashed cs us)
  | step_bad_cleanup i p cs us db : p <> Crashed -> dbs !! i = Some db -> cleanup_duration db <= 0 ->
      us !! i = Some Starting -> step (mkstate p cs us) (mkstate Crashed cs us)
  (* In is closed and its flows are handled *)
  | step_end cs us : step (mkstate Looping cs us) (mkstate (Deferred 0 false) cs us)
  (* StopTimers: the message meets the select of Clock *)
  | step_stop k b cs us : cs !! k = Some Waiting ->
      step (mkstate (Deferred k b) cs us) (mkstate (Deferred (S k) b) (<[k := Stopped]> cs) us)
  | step_return b cs us :
      step (mkstate (Deferred (length cs) b) cs us) (mkstate (if b then Crashed else Returned) cs us).
End run.

(** From the call of Run to its loop; [dbs] is what [allDatabases] points to.  With a nil
    metric that pointer is nil, and the deferred function panics as well. *)
Definition startup (segment : Traffic.TrafficSpecificToptalkers) : list Database * state :=
  match Traffic.initDatabasesAndCollector segment with
  | Ok ds =>
      let dbs := concat (Traffic.databases <$> ds) in
      let all t := replicate (length dbs) t in
      match ServeEndpoints (Traffic.MetricsPath segment) (Traffic.FlowdataPath segment) with
      | Ok _ => (dbs, mkstate Looping (all Starting) (all Starting))
      | _ => (dbs, mkstate (Deferred 0 true) (all Unborn) (all Unborn))
      end
  | _ => ([], mkstate Crashed [] [])
  end.

(** ** Theorems *)

(** *** The handlers *)
Definition usable_paths (MetricsPath FlowdataPath : string) : bool :=
  has_slash MetricsPath && has_slash FlowdataPath && negb (seqb MetricsPath FlowdataPath)
  && negb (seqb MetricsPath "/") && negb (seqb FlowdataPath "/").

(** The exporters of prometheus and of the top talkers can serve exactly the paths that
    contain a slash and differ from each other and from the index page's; then each
    path is answered by its own registry.  Everything else panics. *)
Theorem endpoints_serve (MetricsPath FlowdataPath : string) :
  if usable_paths MetricsPath FlowdataPath
  then exists mux, ServeEndpoints MetricsPath FlowdataPath = Ok mux /\
    assoc MetricsPath mux = Some MetaMetrics /\ assoc FlowdataPath mux = Some FlowMetrics /\
    assoc "/"%string mux = Some (IndexPage MetricsPath FlowdataPath)
  else ServeEndpoints MetricsPath FlowdataPath = Panic.
Proof.
  unfold usable_paths, ServeEndpoints, Handle, seqb.
  destruct (has_slash MetricsPath); [|done]. destruct (has_slash FlowdataPath); [|done]. cbn.
  destruct (String.eqb_spec MetricsPath FlowdataPath) as [->|H1]; [by rewrite decide_True|].
  rewrite decide_False by done. cbn.
  destruct (String.eqb_spec MetricsPath "/") as [->|H2]; [done|]. rewrite decide_False by done.
  destruct (String.eqb_spec FlowdataPath "/") as [->|H3]; [done|]. cbn. rewrite decide_False by done.
  eexists. split; [done|]. cbn. repeat case_decide; by split_and!.
Qed.

(** With its default parameters prometheus serves. *)
Lemma prometheus_default_serves `{f64.Platform} (c : config) (s : Prometheus.Prometheus) :
  Prometheus.New c = Created s -> cfg c "metricspath" = ""%string -> cfg c "flowdatapath" = ""%string ->
  exists mux, exporter_ServeEndpoints s = Ok mux.
Proof.
  unfold Prometheus.New. destruct (forallb _ _); [|done]. intros [= <-] Hm Hf.
  unfold exporter_ServeEndpoints, Prometheus.or_default. cbn [Prometheus.MetricsPath Prometheus.FlowdataPath].
  rewrite Hm, Hf. eexists. reflexivity.
Qed.
(** The delay monitoring always serves. *)
Lemma monitoring_serves : exists mux, ServeEndpoints_monitoring = Ok mux /\
  assoc "/metrics"%string mux = Some MetaMetrics /\ assoc "/delay"%string mux = Some FlowMetrics.
Proof. eexists. by split. Qed.

(** *** The shutdown *)
Section shutdown.
Context (dbs : list Database).
Definition timers_ok : Prop := Forall (fun db => 0 < clock_duration db /\ 0 < cleanup_duration db) dbs.
Definition live (t : timer) : Prop := t = Starting \/ t = Waiting \/ t = Ticking.
Definition stopped_below (k : nat) (cs : list timer) : Prop :=
  forall i t, cs !! i = Some t -> if decide (i < k)%nat then t = Stopped else live t.
(** How many clocks are stopped. *)
Definition progress (n : nat) (p : phase) : option nat :=
  match p with Looping => Some O | Deferred k false => Some k | Returned => Some n | _ => None end.
Record orderly (st : state) : Prop := {
  o_length : length (clocks st) = length dbs;
  o_cleanups : Forall live (cleanups st) /\ length (cleanups st) = length dbs;
  o_phase : exists k, progress (length dbs) (current st) = Some k /\ (k <= length dbs)%nat /\ stopped_below k (clocks st);
}.
Hypothesis (Hok : timers_ok).

Lemma timer_step_live t t' : timer_step t t' -> live t' /\ t <> Stopped.
Proof. unfold live. destruct 1; auto. Qed.
Lemma stopped_below_move k cs i t t' : stopped_below k cs -> cs !! i = Some t -> t <> Stopped -> live t' -> stopped_below k (<[i := t']> cs).
Proof.
  intros Hs Hi Ht Hl j x Hj. apply list_lookup_insert_Some in Hj as [(<- & -> & _)|[_ Hj]]; [|by apply Hs].
  specialize (Hs _ _ Hi). case_decide; [done|done].
Qed.
Lemma stopped_below_stop k cs : stopped_below k cs -> stopped_below (S k) (<[k := Stopped]> cs).
Proof.
  intros Hs j x Hj. apply list_lookup_insert_Some in Hj as [(<- & -> & _)|[Hn Hj]]; [by rewrite decide_True by lia|].
  specialize (Hs _ _ Hj). repeat case_decide; try done; lia.
Qed.

Lemma orderly_step st st' : orderly st -> step dbs st st' -> orderly st'.
Proof using Hok.
  intros [Hl [Hu Hul] (k & Hp & Hk & Hs)] Hst. unfold timers_ok in Hok. rewrite Forall_lookup in Hok.
  destruct Hst as [i t t' p cs us db _ Hd _ Hi Ht|i t t' p cs us db _ Hd _ Hi Ht|i p cs us db _ Hd Hbad|i p cs us db _ Hd Hbad|cs us|j b cs us Hj|b cs us];
    simpl in *; try (specialize (Hok i db Hd); lia).
  - destruct (timer_step_live _ _ Ht). split; simpl; [by rewrite length_insert|done|]. exists k. split_and!; [done..|]. by eapply stopped_below_move.
  - destruct (timer_step_live _ _ Ht). split; simpl; [done|rewrite length_insert; by auto using Forall_insert|]. by exists k.
  - split; simpl; [done..|]. exists O. injection Hp as <-. done.
  - destruct b; [done|]. injection Hp as <-. split; simpl; [by rewrite length_insert|done|].
    exists (S j). split_and!; [done|apply lookup_lt_Some in Hj; lia|by apply stopped_below_stop].
  - destruct b; [done|]. injection Hp as <-. split; simpl; [done..|]. exists (length dbs). by rewrite <- Hl.
Qed.

(** A clock that runs comes to its select. *)
Lemma clock_waits p k t cs us : p <> Crashed -> length cs = length dbs -> cs !! k = Some t -> live t ->
  rtc (step dbs) (mkstate p cs us) (mkstate p (<[k := Waiting]> cs) us).
Proof using Hok.
  intros Hp Hl Hk Ht. pose proof (lookup_lt_Some _ _ _ Hk) as Hlt. rewrite Hl in Hlt.
  destruct (lookup_lt_is_Some_2 dbs k Hlt) as [db Hd]. unfold timers_ok in Hok. rewrite Forall_lookup in Hok.
  destruct (Hok k db Hd) as [Hc _]. destruct Ht as [Ht|[Ht|Ht]]; subst t.
  - apply rtc_once. eapply step_clock; [done..|constructor].
  - rewrite list_insert_id by done. apply rtc_refl.
  - apply rtc_once. eapply step_clock; [done..|constructor].
Qed.

Lemma deferred_returns n : forall k cs us, (n + k = length dbs)%nat -> orderly (mkstate (Deferred k false) cs us) ->
  exists cs', rtc (step dbs) (mkstate (Deferred k false) cs us) (mkstate Returned cs' us).
Proof using Hok.
  induction n as [|n IH]; intros k cs us Hn Ho.
  - exists cs. apply rtc_once. pose proof (o_length _ Ho) as Hl. simpl in Hl. replace k with (length cs) by lia. apply (step_return dbs false).
  - pose proof Ho as [Hl _ (k' & Hp & _ & Hs)]. injection Hp as <-. simpl in *.
    destruct (lookup_lt_is_Some_2 cs k ltac:(lia)) as [t Ht]. pose proof (Hs _ _ Ht) as Hlive. rewrite decide_False in Hlive by lia.
    pose proof (clock_waits (Deferred k false) k t cs us ltac:(done) Hl Ht Hlive) as Hw.
    assert (step dbs (mkstate (Deferred k false) (<[k:=Waiting]> cs) us) (mkstate (Deferred (S k) false) (<[k:=Stopped]> (<[k:=Waiting]> cs)) us)) as Hstop.
    { apply step_stop. apply list_lookup_insert_eq. lia. }
    destruct (IH (S k) (<[k:=Stopped]> (<[k:=Waiting]> cs)) us ltac:(lia)) as [cs' Hr].
    { eapply orderly_step; [|exact Hstop]. by apply (rtc_keeps orderly_step _ _ Hw). }
    exists cs'. etrans; [exact Hw|]. by eapply rtc_l.
Qed.
End shutdown.

(** C26. The shutdown of traffic_specific_toptalkers: if its startup succeeded and its
    parameters make valid tickers, then whatever the timers do Run does not panic,
    once it is in its deferred function it can always come to its end, and when it
    has returned the clock of every database is stopped.  The goroutines that clean the
    databases up never are. *)
Theorem traffic_shutdown (segment : Traffic.TrafficSpecificToptalkers) (dbs : list Database) (st0 st : state) :
  startup segment = (dbs, st0) -> current st0 = Looping -> timers_ok dbs -> rtc (step dbs) st0 st ->
  current st <> Crashed /\ Forall live (cleanups st) /\ length (cleanups st) = length dbs /\
  (current st = Returned -> clocks st = replicate (length dbs) Stopped) /\
  (forall k b, current st = Deferred k b -> exists st', rtc (step dbs) st st' /\ current st' = Returned).
Proof.
  intros Hst Hl Hok Hs.
  assert (orderly dbs st0) as Ho.
  { unfold startup in Hst. destruct (Traffic.initDatabasesAndCollector segment) as [ds| |]; [|by injection Hst as <- <-..].
    destruct (ServeEndpoints _ _); injection Hst as <- <-; try done. split; simpl; rewrite ?length_replicate; [done|split; [|done]|].
    - apply Forall_replicate. by left.
    - exists O. split_and!; [done|lia|]. intros i t [-> _]%lookup_replicate. rewrite decide_False by lia. by left. }
  apply (rtc_keeps (orderly_step dbs Hok) _ _ Hs) in Ho. clear Hs Hst Hl.
  pose proof Ho as [Hlen [Hu Hul] (k & Hp & _ & Hc)]. split_and!; [by intros E; rewrite E in Hp|done|done|..].
  - intros E. rewrite E in Hp. injection Hp as <-. symmetry. apply replicate_as_Forall. split; [done|].
    apply Forall_lookup. intros i t Hi. pose proof (lookup_lt_Some _ _ _ Hi). specialize (Hc i t Hi).
    by rewrite decide_True in Hc by lia.
  - intros j b E. destruct st as [p cs us]. simpl in *. subst p. destruct b; [done|]. injection Hp as ->.
    pose proof (o_phase _ _ Ho) as (k' & Hp & Hk & _). injection Hp as <-.
    destruct (deferred_returns dbs Hok (length dbs - k) k cs us ltac:(lia) Ho) as [cs' Hr]. by eexists.
Qed.

(** C27. A configuration that only sets metricspath of traffic_specific_toptalkers, to
    the path the metrics have anyway, or to one without a slash, does not work:
    the parameter is the path of the flow data, registering it panics, and the deferred
    function then waits for ever to stop a clock that was never started.  The process
    does not even end: the panic is held up by the deferred function. *)
Theorem traffic_startup_hangs (Parse : string -> option Expression) (c : config) (definitions : list Traffic.ThresholdMetricDefinition)
    (ds : list Traffic.ThresholdMetric) :
  cfg c "flowdatapath" = ""%string -> cfg c "metricspath" <> ""%string ->
  cfg c "metricspath" = "/metrics"%string \/ has_slash (cfg c "metricspath") = false ->
  let segment := Traffic.AddCustomConfig Parse definitions (Traffic.New c) in
  Traffic.initDatabasesAndCollector segment = Ok ds -> concat (Traffic.databases <$> ds) <> [] ->
  current (startup segment).2 = Deferred 0 true /\ forall st, ~ step (startup segment).1 (startup segment).2 st.
Proof.
  intros Hf Hne Hm segment Hi Hd. unfold startup. rewrite Hi.
  assert (Traffic.MetricsPath segment = "/metrics"%string) as -> by done.
  assert (Traffic.FlowdataPath segment = cfg c "metricspath") as ->.
  { unfold segment, Traffic.New, or_default. cbn [Traffic.AddCustomConfig Traffic.FlowdataPath]. rewrite Hf.
    by destruct (cfg c "metricspath"). }
  assert (ServeEndpoints "/metrics" (cfg c "metricspath") = Panic) as ->.
  { destruct Hm as [->|Hm]; [done|]. unfold ServeEndpoints, Handle. simpl. by rewrite Hm. }
  split; [done|]. intros st Hs. simpl in Hs.
  assert (forall i t, replicate (length (concat (Traffic.databases <$> ds))) Unborn !! i = Some t -> t = Unborn) as Hu
    by (by intros i t [-> _]%lookup_replicate).
  destruct (concat (Traffic.databases <$> ds)) as [|db dbs] eqn:E; [done|].
  inversion Hs; subst; try done;
    repeat match goal with Hx : _ !! _ = Some _ |- _ => first [apply Hu in Hx; subst | clear Hx] end; try done;
    match goal with Ht : timer_step Unborn _ |- _ => inversion Ht end.
Qed.

(** ** The theorems at work *)
Module witness.
Definition segment (c : config) : Traffic.TrafficSpecificToptalkers :=
  Traffic.AddCustomConfig Traffic.witness.parse Traffic.witness.definitions (Traffic.New c).
Definition db : Database := NewDatabase (InitDefaultPrometheusMetricParams Traffic.witness.high_params).
Lemma started : startup (segment ∅) = ([db], mkstate Looping [Starting] [Starting]).
Proof. vm_compute. reflexivity. Qed.
Lemma tickers : timers_ok [db].
Proof. constructor; [|constructor]. by vm_compute. Qed.
(** The clock starts, the input ends, the clock is stopped, Run returns. *)
Lemma runs : rtc (step [db]) (mkstate Looping [Starting] [Starting]) (mkstate Returned [Stopped] [Starting]).
Proof.
  eapply rtc_l; [eapply (step_clock [db] 0 Starting Waiting); [done|done|by vm_compute|done|constructor]|].
  eapply rtc_l; [apply step_end|]. eapply rtc_l; [by apply (step_stop [db] 0)|].
  apply rtc_once. exact (step_return [db] false [Stopped] [Starting]).
Qed.
Definition misled : config := {[ "metricspath"%string := "/metrics"%string ]}.
Definition forest : list Traffic.ThresholdMetric :=
  match Traffic.initDatabasesAndCollector (segment misled) with Ok ds => ds | _ => [] end.
End witness.

Lemma traffic_shutdown_witness : [Stopped] = replicate (length [witness.db]) Stopped /\ Forall live [Starting].
Proof.
  destruct (traffic_shutdown (witness.segment ∅) [witness.db] _ _ witness.started eq_refl witness.tickers witness.runs)
    as (_ & Hl & _ & Hc & _).
  split; [exact (Hc eq_refl)|exact Hl].
Defined.

Lemma traffic_startup_hangs_witness :
  current (startup (witness.segment witness.misled)).2 = Deferred 0 true /\
  ~ exists st, step (startup (witness.segment witness.misled)).1 (startup (witness.segment witness.misled)).2 st.
Proof.
  destruct (traffic_startup_hangs Traffic.witness.parse witness.misled Traffic.witness.definitions witness.forest) as [Hc Hs];
    [..|split; [exact Hc|intros [st Hst]; exact (Hs st Hst)]].
  - reflexivity.
  - discriminate.
  - left. reflexivity.
  - vm_compute. reflexivity.
  - vm_compute. discriminate.
Defined.
