(* ===== verification/Registry.v ===== *)
(** * From a configuration to the flows that come out

    The [init] functions of the packages, which register the segments, and the
    composition of the program's layers: configuration ([Config.v]), pipeline
    ([Pipeline.v]) and segments.  Segments that handle every flow on its own are
    [stage]s; [verdict] is what a list of them makes of one flow, and the
    theorem [configured_pipeline] says that a pipeline built from its
    configuration makes exactly that of every flow. *)

From stdpp Require Import prelude strings list gmap relations.
From Stdlib Require Import ZArith Lia.
From S2P Require Import Prelude GoStd EnrichedFlow FlowMethods Legacy Segment Pipeline Config Iana Modify Anonymize FlowFilter.

(** ** Registration

    Each [init] function registers one name for one zero value, the [template];
    which templates there are is left open. *)
Section inits.
Context {T : Type}.
Definition http_init (template : T) : string * T := ("http"%string, template).
Definition toptalkers_metrics_init (template : T) : string * T := ("toptalkers_metrics"%string, template).
Definition traffic_specific_toptalkers_init (template : T) : string * T := ("traffic_specific_toptalkers"%string, template).
Definition branch_init (template : T) : string * T := ("branch"%string, template).
Definition filegate_init (template : T) : string * T := ("filegate"%string, template).
Definition aggregate_init (template : T) : string * T := ("aggregate"%string, template).
Definition drop_init (template : T) : string * T := ("drop"%string, template).
Definition elephant_init (template : T) : string * T := ("elephant"%string, template).
Definition flowfilter_init (template : T) : string * T := ("flowfilter"%string, template).
Definition bpf_init (template : T) : string * T := ("bpf"%string, template).
Definition diskbuffer_init (template : T) : string * T := ("diskbuffer"%string, template).
Definition goflow_init (template : T) : string * T := ("goflow"%string, template).
Definition kafkaconsumer_init (template : T) : string * T := ("kafkaconsumer"%string, template).
Definition packet_init (template : T) : string * T := ("packet"%string, template).
Definition replay_init (template : T) : string * T := ("replay"%string, template).
Definition stdin_init (template : T) : string * T := ("stdin"%string, template).
Definition delay_monitoring_init (template : T) : string * T := ("delay_monitoring"%string, template).
Definition addcid_init (template : T) : string * T := ("addcid"%string, template).
Definition addnetid_init (template : T) : string * T := ("addnetid"%string, template).
Definition addrstrings_init (template : T) : string * T := ("addrstrings"%string, template).
Definition anonymize_init (template : T) : string * T := ("anonymize"%string, template).
Definition aslookup_init (template : T) : string * T := ("aslookup"%string, template).
Definition bgp_init (template : T) : string * T := ("bgp"%string, template).
Definition dropfields_init (template : T) : string * T := ("dropfields"%string, template).
Definition geolocation_init (template : T) : string * T := ("geolocation"%string, template).
Definition normalize_init (template : T) : string * T := ("normalize"%string, template).
Definition protomap_init (template : T) : string * T := ("protomap"%string, template).
Definition remoteaddress_init (template : T) : string * T := ("remoteaddress"%string, template).
Definition reversedns_init (template : T) : string * T := ("reversedns"%string, template).
Definition snmp_init (template : T) : string * T := ("SNMP"%string, template).
Definition sync_timestamps_init (template : T) : string * T := ("sync_timestamps"%string, template).
Definition clickhouse_init (template : T) : string * T := ("clickhouse"%string, template).
Definition csv_init (template : T) : string * T := ("csv"%string, template).
Definition influx_init (template : T) : string * T := ("influx"%string, template).
Definition json_init (template : T) : string * T := ("json"%string, template).
Definition kafkaproducer_init (template : T) : string * T := ("kafkaproducer"%string, template).
Definition lumberjack_init (template : T) : string * T := ("lumberjack"%string, template).
Definition mongodb_init (template : T) : string * T := ("mongodb"%string, template).
Definition prometheus_init (template : T) : string * T := ("prometheus"%string, template).
Definition sqlite_init (template : T) : string * T := ("sqlite"%string, template).
Definition pass_init (template : T) : string * T := ("pass"%string, template).
Definition count_init (template : T) : string * T := ("count"%string, template).
Definition printdots_init (template : T) : string * T := ("printdots"%string, template).
Definition printflowdump_init (template : T) : string * T := ("printflowdump"%string, template).
Definition toptalkers_init (template : T) : string * T := ("toptalkers"%string, template).
Definition generator_init (template : T) : string * T := ("generator"%string, template).

(** The packages that [main.go] imports, [aggregate] by way of [packet], with a
    template for every segment. *)
Definition linked (t : string -> T) : list (string * T) :=
  [http_init (t "http"%string); branch_init (t "branch"%string); drop_init (t "drop"%string); elephant_init (t "elephant"%string); 
   flowfilter_init (t "flowfilter"%string); bpf_init (t "bpf"%string); diskbuffer_init (t "diskbuffer"%string); goflow_init (t "goflow"%string); 
   kafkaconsumer_init (t "kafkaconsumer"%string); aggregate_init (t "aggregate"%string); packet_init (t "packet"%string); replay_init (t "replay"%string); 
   stdin_init (t "stdin"%string); delay_monitoring_init (t "delay_monitoring"%string); addcid_init (t "addcid"%string); addnetid_init (t "addnetid"%string); 
   addrstrings_init (t "addrstrings"%string); anonymize_init (t "anonymize"%string); aslookup_init (t "aslookup"%string); bgp_init (t "bgp"%string); 
   dropfields_init (t "dropfields"%string); geolocation_init (t "geolocation"%string); normalize_init (t "normalize"%string); protomap_init (t "protomap"%string); 
   remoteaddress_init (t "remoteaddress"%string); reversedns_init (t "reversedns"%string); snmp_init (t "snmp"%string); sync_timestamps_init (t "sync_timestamps"%string); 
   pass_init (t "pass"%string); clickhouse_init (t "clickhouse"%string); csv_init (t "csv"%string); influx_init (t "influx"%string); 
   json_init (t "json"%string); kafkaproducer_init (t "kafkaproducer"%string); lumberjack_init (t "lumberjack"%string); mongodb_init (t "mongodb"%string); 
   prometheus_init (t "prometheus"%string); sqlite_init (t "sqlite"%string); count_init (t "count"%string); printdots_init (t "printdots"%string); 
   printflowdump_init (t "printflowdump"%string); toptalkers_init (t "toptalkers"%string); toptalkers_metrics_init (t "toptalkers_metrics"%string); traffic_specific_toptalkers_init (t "traffic_specific_toptalkers"%string)].
End inits.

(** Registering distinct names succeeds, and each can then be looked up. *)
Lemma register_all_distinct {T} (l : list (string * T)) (reg : gmap string T) :
  NoDup (gostrings.ToLower <$> l.*1) -> Forall (fun x => reg !! gostrings.ToLower x.1 = None) l ->
  exists reg', register_all l reg = Created reg' /\
    (forall name t, (name, t) ∈ l -> reg' !! gostrings.ToLower name = Some t) /\
    (forall k, k ∉ gostrings.ToLower <$> l.*1 -> reg' !! k = reg !! k).
Proof.
  revert reg. induction l as [|[name t] l IH]; intros reg Hnd Hnew.
  - exists reg. split_and!; [done|by intros ? ? ?%elem_of_nil|done].
  - apply NoDup_cons in Hnd as [Hnin Hnd]. apply Forall_cons in Hnew as [Hn Hnew].
    destruct (IH (<[gostrings.ToLower name := t]> reg)) as (reg' & E & Hl & Ho); [done| |].
    { rewrite Forall_forall in Hnew |- *. intros x Hx. rewrite lookup_insert_ne; [by apply Hnew|].
      intros Eq. apply Hnin. simpl. rewrite Eq. by do 2 apply list_elem_of_fmap_2. }
    exists reg'. split_and!.
    + cbn [register_all]. unfold RegisterSegment. cbn in Hn. rewrite Hn. exact E.
    + intros name' t' [[= -> ->]|Hin]%elem_of_cons; [|by apply Hl].
      rewrite Ho by done. apply lookup_insert_eq.
    + intros k [Hk1 Hk2]%not_elem_of_cons. rewrite Ho by done. by rewrite lookup_insert_ne.
Qed.

Lemma linked_distinct {T} (t : string -> T) : NoDup (gostrings.ToLower <$> (linked t).*1).
Proof. apply (bool_decide_unpack _). vm_compute. exact I. Qed.
Lemma linked_registered {T} (t : string -> T) (l : list (string * T)) : l ≡ₚ linked t ->
  exists reg, register_all l ∅ = Created reg /\
    (forall name s, (name, s) ∈ linked t -> reg !! gostrings.ToLower name = Some s) /\
    (forall k, k ∉ gostrings.ToLower <$> (linked t).*1 -> reg !! k = None).
Proof.
  intros Hp. destruct (register_all_distinct l ∅) as (reg & E & Hl & Ho).
  - rewrite Hp. apply linked_distinct.
  - by apply Forall_forall.
  - exists reg. split_and!; [done| |].
    + intros name s Hin. apply Hl. by rewrite Hp.
    + intros k Hk. rewrite Ho; [done|]. by rewrite Hp.
Qed.

(** The program starts: in whatever order Go runs the [init] functions of the
    packages, no registration finds its name taken, and afterwards every
    segment of the binary is found under its name, in any spelling.  The
    segments filegate and generator, which are documented, are not: a
    configuration that names one of them ends the process. *)
Theorem registration_succeeds {T} (t : string -> T) (l : list (string * T)) :
  l ≡ₚ linked t ->
  exists reg, register_all l ∅ = Created reg /\
    (forall name s, (name, s) ∈ linked t -> forall spelling,
      gostrings.ToLower spelling = gostrings.ToLower name -> LookupSegment spelling reg = Created s) /\
    LookupSegment (filegate_init (t "filegate"%string)).1 reg = FatalExit /\
    LookupSegment (generator_init (t "generator"%string)).1 reg = FatalExit.
Proof.
  intros (reg & E & Hl & Ho)%linked_registered. exists reg. split; [done|]. split.
  - intros name s Hin spelling Hs. unfold LookupSegment. by rewrite Hs, (Hl name s).
  - unfold LookupSegment. rewrite !Ho; [done|..]; apply (bool_decide_unpack _); vm_compute; exact I.
Qed.

(** ** Segments that can fail, as machines

    Where the body of a [PartialSegment] panics the process ends; its machine is
    meant for flows on which the body does not, and does nothing on the others. *)
Definition pack_try (S : Type) `{PartialSegment S} (filter : bool) : machine :=
  {| mst := S; mfilter := filter;
     mstep := fun b s m => match seg_try b s m with Ok r => r | _ => (s, []) end |}.
Definition new_try (S : Type) `{PartialSegment S} (filter : bool) (s : S) : proc :=
  {| pm := pack_try S filter; pst := s; ppend := []; pdone := false; psub := false; pin := 0; pout := 0 |}.

Lemma run_pack_try (S : Type) `{PartialSegment S} filter b (s s' : S) ms es :
  run_try b s ms = (es, Ok s') -> run_m (pack_try S filter) b s ms = (s', es).
Proof.
  revert s es. induction ms as [|m ms IH]; intros s es E.
  - cbn in E. injection E as <- <-. done.
  - cbn [run_try] in E. unfold run_m in *.
    cbn [run seg_step mstep pack_try]. destruct (seg_try b s m) as [[s1 es1]| |]; try done.
    destruct (run_try b s1 ms) as [es2 r] eqn:E2. cbn in E. injection E as <- ->.
    specialize (IH s1 es2 E2). cbn [mstep pack_try] in IH. by rewrite IH.
Qed.

(** ** Stages

    What a segment that handles every flow on its own does to one, and for
    which flows this is what it does. *)
Record stage := mkstage { admits : EnrichedFlow -> Prop; acts : EnrichedFlow -> emit }.
Definition edit (f : EnrichedFlow -> EnrichedFlow) : stage := {| admits := fun _ => True; acts := fun m => EOut (f m) |}.
Definition select (m : EnrichedFlow) (b : bool) : emit := if b then EOut m else EDrop m.

(** The specification of a list of them: a flow goes from stage to stage until
    one drops it. *)
Fixpoint verdict (l : list stage) (m : EnrichedFlow) : emit :=
  match l with
  | [] => EOut m
  | s :: l => match acts s m with EOut m => verdict l m | EDrop m => EDrop m end
  end.
Fixpoint admitted (l : list stage) (m : EnrichedFlow) : Prop :=
  match l with
  | [] => True
  | s :: l => admits s m /\ match acts s m with EOut m => admitted l m | EDrop _ => True end
  end.

(** What is sent, with and without a reader of the drops. *)
Definition shown (b : bool) (e : emit) : list emit := match e with EOut m => [EOut m] | EDrop m => to_drops b m end.
Lemma shown_subscribed (f : EnrichedFlow -> emit) ms : flat_map (fun m => shown true (f m)) ms = f <$> ms.
Proof. induction ms as [|m ms IH]; [done|]. cbn [flat_map fmap list_fmap]. rewrite IH. by destruct (f m). Qed.
Lemma shown_outs b (f : EnrichedFlow -> emit) ms : outs (flat_map (fun m => shown b (f m)) ms) = outs (f <$> ms).
Proof.
  induction ms as [|m ms IH]; [done|]. cbn [flat_map fmap list_fmap]. rewrite outs_app, IH. unfold outs.
  by destruct (f m), b.
Qed.
Lemma shown_silent e : Forall is_out (shown false e).
Proof. destruct e; by repeat constructor. Qed.

(** A goroutine that does so, whether or not its drops are read. *)
Definition implements (s : stage) (p : proc) : Prop :=
  fresh p /\ silent p /\ forall ms, Forall (admits s) ms ->
    sends (SubscribeDrops p) ms = acts s <$> ms /\ outs (sends p ms) = outs (acts s <$> ms).

(** Only filters are ever subscribed; nobody else drops a flow. *)
Definition subscribable (filter : bool) (st : stage) : Prop := filter = true \/ forall m, is_out (acts st m).
Lemma shown_subscribable filter st ms : subscribable filter st ->
  flat_map (fun m => shown (false || filter) (acts st m)) ms = acts st <$> ms.
Proof.
  intros Hf. rewrite <- shown_subscribed. apply flat_map_ext. intros m.
  destruct Hf as [->|Hf]; [done|]. specialize (Hf m). by destruct (acts st m).
Qed.

(** The state may change, as long as [I] holds of it. *)
Lemma implements_segment (S : Type) `{SegmentLaws S} (I : S -> Prop) (s : S) (st : stage) :
  I s -> subscribable (seg_filter S) st ->
  (forall b s m, I s -> admits st m -> I (seg_step b s m).1 /\ (seg_step b s m).2 = shown b (acts st m)) ->
  implements st (new_proc S s).
Proof.
  intros Hi Hf Hs. split; [done|]. split; [apply silent_new, _|]. intros ms Hms.
  assert (forall b, (run b s ms).2 = flat_map (fun m => shown b (acts st m)) ms) as Hrun.
  { intros b. clear Hf. revert s Hi. induction Hms as [|m ms Hm _ IH]; intros s Hi; [done|].
    destruct (Hs b s m Hi Hm) as [Hi' E]. by rewrite run_cons, E; cbn [snd flat_map]; rewrite IH. }
  split.
  - exact (eq_trans (Hrun (false || seg_filter S)) (shown_subscribable _ _ _ Hf)).
  - transitivity (outs (run false s ms).2); [done|]. by rewrite Hrun, shown_outs.
Qed.
Lemma pack_try_quiet (S : Type) `{PartialSegment S} filter (s : S) m :
  (forall (s : S) m s' es, seg_try false s m = Ok (s', es) -> Forall is_out es) ->
  Forall is_out (mstep (pack_try S filter) false s m).2.
Proof. intros Hq. cbn. specialize (Hq s m). destruct (seg_try false s m) as [[s1 es]| |]; [by apply (Hq s1)|constructor..]. Qed.
Lemma implements_try (S : Type) `{PartialSegment S} filter (s : S) (st : stage) :
  subscribable filter st ->
  (forall (s : S) m s' es, seg_try false s m = Ok (s', es) -> Forall is_out es) ->
  (forall b ms, Forall (admits st) ms -> exists s', run_try b s ms = (flat_map (fun m => shown b (acts st m)) ms, Ok s')) ->
  implements st (new_try S filter s).
Proof.
  intros Hf Hq Hs. split; [done|]. split.
  - split_and!; [done|constructor|]. intros s0 m. by apply (pack_try_quiet S).
  - intros ms Hms. split.
    + transitivity (run_m (pack_try S filter) (false || filter) s ms).2; [done|].
      destruct (Hs (false || filter) ms Hms) as [s' E]. rewrite (run_pack_try S filter _ s s' ms _ E). by apply shown_subscribable.
    + transitivity (outs (run_m (pack_try S filter) false s ms).2); [done|].
      destruct (Hs false ms Hms) as [s' E]. rewrite (run_pack_try S filter _ s s' ms _ E). apply shown_outs.
Qed.
(** Every flow is forwarded: what [f] makes of it. *)
Lemma implements_edit (S : Type) `{SegmentLaws S} (I : S -> Prop) (s : S) (f : EnrichedFlow -> EnrichedFlow) :
  I s -> (forall b s m, I s -> I (seg_step b s m).1 /\ (seg_step b s m).2 = [EOut (f m)]) -> implements (edit f) (new_proc S s).
Proof. intros Hi Hs. apply (implements_segment S I); [done|by right|]. intros b s0 m Hi0 _. by apply Hs. Qed.

Lemma outs_fmap (f : EnrichedFlow -> emit) ms : outs (f <$> ms) = omap (fun m => out_of (f m)) ms.
Proof. induction ms as [|m ms IH]; [done|]. unfold outs in *. cbn [fmap list_fmap omap list_omap] in *. by rewrite IH. Qed.
Lemma drops_fmap (f : EnrichedFlow -> emit) ms : drops (f <$> ms) = omap (fun m => drop_of (f m)) ms.
Proof. induction ms as [|m ms IH]; [done|]. unfold drops in *. cbn [fmap list_fmap omap list_omap] in *. by rewrite IH. Qed.

Lemma verdict_cons s l ms :
  outs (verdict (s :: l) <$> ms) = outs (verdict l <$> outs (acts s <$> ms)) /\
  drops (verdict (s :: l) <$> ms) ≡ₚ drops (acts s <$> ms) ++ drops (verdict l <$> outs (acts s <$> ms)).
Proof.
  induction ms as [|m ms [IH1 IH2]]; [done|]. unfold outs, drops in *. cbn [fmap list_fmap omap list_omap verdict] in *.
  destruct (acts s m) as [m'|m'] eqn:E; cbn [out_of drop_of fmap list_fmap omap list_omap]; (split; [by rewrite IH1|]).
  - destruct (verdict l m'); cbn [drop_of]; [exact IH2|]. etransitivity; [apply Permutation_skip, IH2|]. apply Permutation_middle.
  - simpl. by rewrite IH2.
Qed.
Lemma admitted_outs s l ms : Forall (admitted (s :: l)) ms -> Forall (admits s) ms /\ Forall (admitted l) (outs (acts s <$> ms)).
Proof.
  induction 1 as [|m ms [Ha Hm] _ [IH1 IH2]]; [done|]. split; [by constructor|].
  unfold outs in *. simpl. destruct (acts s m); simpl; [by constructor|done].
Qed.

(** A chain of such goroutines does to each flow what the verdict says. *)
Lemma rest_implements stages ps ms : Forall2 implements stages ps -> Forall (admitted stages) ms ->
  (rest (SubscribeDrops <$> ps) ms).1 = outs (verdict stages <$> ms) /\
  (rest (SubscribeDrops <$> ps) ms).2 ≡ₚ drops (verdict stages <$> ms).
Proof.
  intros H. revert ms. induction H as [|s p stages ps (_ & _ & Hs) _ IH]; intros ms Hms.
  - simpl. rewrite outs_fmap, drops_fmap. clear. induction ms as [|m ms [IH1 IH2]]; [done|]. simpl in *. split; [by f_equal|done].
  - apply admitted_outs in Hms as [Ha Hms]. destruct (verdict_cons s stages ms) as [-> ->].
    cbn [fmap list_fmap rest]. rewrite (proj1 (Hs ms Ha)). destruct (IH _ Hms) as [E1 E2]. simpl in *. split; [done|]. by rewrite E2.
Qed.
Lemma rest_unsubscribed stages ps ms : Forall2 implements stages ps -> Forall (admitted stages) ms ->
  (rest ps ms).1 = outs (verdict stages <$> ms).
Proof.
  intros H. revert ms. induction H as [|s p stages ps (_ & _ & Hs) _ IH]; intros ms Hms.
  - simpl. rewrite outs_fmap. clear. induction ms as [|m ms IH]; [done|]. simpl in *. by f_equal.
  - apply admitted_outs in Hms as [Ha Hms]. destruct (verdict_cons s stages ms) as [-> _].
    cbn [rest fst]. rewrite (proj2 (Hs ms Ha)). by apply IH.
Qed.
Lemma implements_pass : implements (edit id) (new_proc Pass mkPass).
Proof. by apply (implements_edit Pass (fun _ => True)). Qed.
Lemma rest_effective stages ps ms : Forall2 implements stages ps -> Forall (admitted stages) ms ->
  (rest (SubscribeDrops <$> effective ps) ms).1 = outs (verdict stages <$> ms) /\
  (rest (SubscribeDrops <$> effective ps) ms).2 ≡ₚ drops (verdict stages <$> ms).
Proof.
  intros H Hms. destruct ps as [|p ps]; [|by apply rest_implements]. inversion H; subst.
  destruct (rest_implements [edit id] [new_proc Pass mkPass] ms) as [E1 E2].
  - by repeat constructor; apply implements_pass.
  - by apply Forall_forall.
  - unfold effective. by rewrite E1, E2.
Qed.

Lemma rest_effective_unsubscribed stages ps ms : Forall2 implements stages ps -> Forall (admitted stages) ms ->
  (rest (effective ps) ms).1 = outs (verdict stages <$> ms).
Proof.
  intros H Hms. destruct ps as [|p ps]; [|by apply rest_unsubscribed]. inversion H; subst.
  rewrite (rest_unsubscribed [edit id]); [done| |by apply Forall_forall].
  by repeat constructor; apply implements_pass.
Qed.

(** ** Pipelines of plain segments, from their configuration *)
Section construction.
Context (Args : list string) (Getenv : string -> string) (registry : gmap string template).

(** The segment that a representation is built to. *)
Definition built (r : SegmentRepr) (q : proc) : Prop :=
  exists t, LookupSegment (Name r) registry = Created t /\ segmentFromTemplate Args Getenv t r = Created q.

Lemma SegmentsFromRepr_single reprs l :
  Forall (fun r => Jobs r <= 1) reprs -> SegmentsFromRepr Args Getenv registry reprs = Created l -> Forall is_Some l ->
  exists ps, l = (fun q => Some (Single q)) <$> ps /\ Forall2 built reprs ps.
Proof.
  intros HJ. revert l. induction HJ as [|r reprs Hj _ IH]; intros l; cbn [SegmentsFromRepr].
  - intros [= <-] _. by exists [].
  - intros (s & Hs & (k & Hk & [= <-])%created_bind_inv)%created_bind_inv [Hsome Hall]%Forall_cons.
    destruct (IH k Hk Hall) as (ps & -> & H2). unfold build_entry in Hs.
    apply created_bind_inv in Hs as (t & Ht & Hs). rewrite (proj2 (Z.leb_le _ _) Hj) in Hs.
    destruct (segmentFromTemplate Args Getenv t r) as [q| | |] eqn:E; try done; injection Hs as <-; [|by destruct Hsome].
    exists (q :: ps). split; [done|]. constructor; [by exists t|done].
Qed.

Lemma NewFromReprs_single reprs p :
  Forall (fun r => Jobs r <= 1) reprs -> NewFromReprs Args Getenv registry reprs = Created p ->
  exists ps, Pipeline.New ((fun q => Some (Single q)) <$> ps) = Some p /\ Forall2 built reprs ps.
Proof.
  intros HJ (l & Hl & Hp)%created_bind_inv. destruct (Pipeline.New l) as [p'|] eqn:HN; [|done]. injection Hp as ->.
  destruct (New_Some _ _ HN) as [_ Hall]. destruct (SegmentsFromRepr_single reprs l HJ Hl Hall) as (ps & -> & H2).
  by exists ps.
Qed.
End construction.

(** A segment without a configuration of its own kind is built from its
    expanded parameters. *)
Definition template_of (S : Type) `{Segment S} (New : config -> created S) : template :=
  plain_template (fun c => s ← New c; Created (new_proc S s)).
Definition template_try (S : Type) `{PartialSegment S} (filter : bool) (New : config -> created S) : template :=
  plain_template (fun c => s ← New c; Created (new_try S filter s)).

(** The modelled segments that handle each flow on its own and need nothing but
    their parameters; [Parse] is the filter parser and [pan] the key of the
    anonymizer. *)
Section modelled.
Context {P : f64.Platform} (Parse : string -> option Expression) (pan : string -> option (net.IP -> net.IP)).

Definition modelled (name : string) : option template :=
  if seqb name "pass" then Some (template_of Pass (fun _ => Created mkPass))
  else if seqb name "drop" then Some (template_of Drop (fun _ => Created mkDrop))
  else if seqb name "normalize" then Some (template_of Normalize normalize.New)
  else if seqb name "sync_timestamps" then Some (template_of SyncTimestamps (fun _ => Created mkSyncTimestamps))
  else if seqb name "addrstrings" then Some (template_of AddrStrings addrstrings.New)
  else if seqb name "protomap" then Some (template_try Protomap false (fun _ => Created mkProtomap))
  else if seqb name "anonymize" then Some (template_try Anonymize false (Anonymize.New pan))
  else if seqb name "flowfilter" then Some (template_try FlowFilter true (FlowFilter.New Parse))
  else if seqb name "dropfields" then Some (template_try DropFields false dropfields.New)
  else None.
(** [other] are the templates of the other segments. *)
Definition templates (other : string -> template) (name : string) : template := default (other name) (modelled name).

Definition name_of (m : EnrichedFlow) : string :=
  match IanaProtocolNumberToName (Proto m) with Ok name => if is_empty name then "UNKNOWN" else name | _ => "" end.
Definition anonymized (s : Anonymize) (m : EnrichedFlow) : EnrichedFlow :=
  match anonymize_fields s (Anonymize.Fields s) m with Ok m' => m' | _ => m end.
Definition filtering (e : Expression) : stage :=
  {| admits := fun m => assigns_expr m e = true; acts := fun m => select m (sem_expr m e) |}.

Definition reduced (s : DropFields) (m : EnrichedFlow) : emit :=
  match dropfields.body s m with Created [EOut m'] => EOut m' | _ => EOut m end.
Definition reducing (s : DropFields) : stage :=
  {| admits := fun m => exists es, dropfields.body s m = Created es; acts := reduced s |}.

(** What a segment with these parameters does to a flow. *)
Inductive meaning : string -> config -> stage -> Prop :=
  | means_pass c : meaning "pass" c (edit id)
  | means_drop c : meaning "drop" c {| admits := fun _ => True; acts := EDrop |}
  | means_normalize c s : normalize.New c = Created s -> meaning "normalize" c (edit (normalize.body s))
  | means_sync_timestamps c : meaning "sync_timestamps" c (edit SyncMissingTimeStamps)
  | means_addrstrings c s : addrstrings.New c = Created s -> meaning "addrstrings" c (edit (addrstrings.body s))
  | means_protomap c :
      meaning "protomap" c {| admits := fun m => 0 <= Proto m /\ Proto m <> 256;
                              acts := fun m => EOut (set_ProtoName (name_of m) m) |}
  | means_anonymize c s : Anonymize.New pan c = Created s -> meaning "anonymize" c (edit (anonymized s))
  | means_flowfilter c s : FlowFilter.New Parse c = Created s -> meaning "flowfilter" c (filtering (expression s))
  | means_dropfields c s : dropfields.New c = Created s -> meaning "dropfields" c (reducing s).

Lemma try_forwards (S : Type) `{PartialSegment S} (Q : EnrichedFlow -> Prop) b (s : S) (f : EnrichedFlow -> emit) ms :
  (forall m, Q m -> seg_try b s m = Ok (s, [f m]) /\ is_out (f m)) -> Forall Q ms ->
  exists s', run_try b s ms = (flat_map (fun m => shown b (f m)) ms, Ok s').
Proof.
  intros Hs Hms. exists s. induction Hms as [|m ms Hm _ IH]; [done|]. destruct (Hs m Hm) as [E Ho].
  cbn [run_try]. rewrite E, IH. simpl. by destruct (f m).
Qed.
Lemma protomap_try b m : 0 <= Proto m /\ Proto m <> 256 ->
  seg_try b mkProtomap m = Ok (mkProtomap, [EOut (set_ProtoName (name_of m) m)]) /\ is_out (EOut (set_ProtoName (name_of m) m)).
Proof.
  intros [H0 H1]. split; [|done]. unfold seg_try, Protomap_segment, name_of, IanaProtocolNumberToName.
  by destruct (index_name_ok (Names iana) (Proto m) iana_length H0 H1) as [x ->].
Qed.
Lemma anonymize_try b c s m : Anonymize.New pan c = Created s ->
  seg_try b s m = Ok (s, [EOut (anonymized s m)]) /\ is_out (EOut (anonymized s m)).
Proof.
  intros Hs. split; [|done]. destruct (anonymize_never_panics pan c s b m Hs) as [m' E]. rewrite E.
  unfold anonymized. unfold seg_try, Anonymize_segment in E.
  destruct (anonymize_fields s (Anonymize.Fields s) m); done.
Qed.
Lemma dropfields_try b s m : admits (reducing s) m ->
  seg_try b s m = Ok (s, [reduced s m]) /\ is_out (reduced s m).
Proof.
  intros [es E]. unfold seg_try, DropFields_segment, reduced. unfold dropfields.body in *.
  destruct (Policy_ s); [by split|]. destruct (dropfields.keep _ _ _); [by split|done..].
Qed.
Lemma flowfilter_try b c s ms : FlowFilter.New Parse c = Created s -> Forall (admits (filtering (expression s))) ms ->
  exists s', run_try b s ms = (flat_map (fun m => shown b (acts (filtering (expression s)) m)) ms, Ok s').
Proof.
  intros [Hs _]%New_inv Hms. destruct (run_meaning b s ms Hs Hms) as [s' ->]. exists s'. f_equal.
  apply flat_map_ext. intros m. simpl. unfold select. by destruct (sem_expr m (expression s)).
Qed.
(** The quiet partial segments: what they send without a subscriber. *)
Lemma flowfilter_quiet (s : FlowFilter) m s' es : seg_try false s m = Ok (s', es) -> Forall is_out es.
Proof.
  unfold seg_try, FlowFilter_segment. destruct (CheckFlow (expression s) m) as [[[e b] ?]| |]; try done.
  intros [= _ <-]. destruct b; by repeat constructor.
Qed.
Lemma protomap_quiet (s : Protomap) m s' es : seg_try false s m = Ok (s', es) -> Forall is_out es.
Proof. unfold seg_try, Protomap_segment. destruct (IanaProtocolNumberToName _); try done. intros [= _ <-]. by repeat constructor. Qed.
Lemma anonymize_quiet (s : Anonymize) m s' es : seg_try false s m = Ok (s', es) -> Forall is_out es.
Proof. unfold seg_try, Anonymize_segment. destruct (anonymize_fields _ _ _); try done. intros [= _ <-]. by repeat constructor. Qed.
Lemma dropfields_quiet (s : DropFields) m s' es : seg_try false s m = Ok (s', es) -> Forall is_out es.
Proof.
  unfold seg_try, DropFields_segment, dropfields.body.
  destruct (Policy_ s); [|destruct (dropfields.keep (Modify.Fields s) m emptyFlow); try done]; intros [= _ <-]; by repeat constructor.
Qed.

(** The templates build goroutines that mean it. *)
Lemma modelled_sound name t c q s :
  modelled name = Some t -> t_New t c = Created q -> meaning name c s -> implements s q.
Proof.
  intros Ht Hq Hm. destruct Hm; cbn [modelled seqb String.eqb Ascii.eqb eqb] in Ht; injection Ht as <-; cbn [t_New template_of template_try plain_template] in Hq;
    apply created_bind_inv in Hq as (x & Hx & [= <-]); simplify_eq;
    try match goal with H : ?a = Created _ |- _ => rewrite H in Hx; injection Hx as <- end.
  - apply implements_pass.
  - apply (implements_segment Drop (fun _ => True)); [done|by left|]. by intros b s0 m.
  - by apply (implements_edit Normalize (eq s)); [|intros b ? m <-].
  - by apply (implements_edit SyncTimestamps (fun _ => True)).
  - by apply (implements_edit AddrStrings (eq s)); [|intros b ? m <-].
  - apply implements_try; [by right|by apply protomap_quiet|]. intros b ms. apply try_forwards. intros m Hm. by apply protomap_try.
  - apply implements_try; [by right|by apply anonymize_quiet|]. intros b ms. apply try_forwards. intros m _. by eapply anonymize_try.
  - apply implements_try; [by left|by apply flowfilter_quiet|]. intros b ms. by eapply flowfilter_try.
  - apply implements_try; [|by apply dropfields_quiet|].
    + right. intros m. unfold reducing, reduced. simpl. by destruct (dropfields.body s m) as [[|[] []]| | |].
    + intros b ms. apply try_forwards. intros m Hm. by apply dropfields_try.
Qed.

(** *** The whole program *)
Context (Args : list string) (Getenv : string -> string) (other : string -> template).

(** A representation means what its expanded parameters mean for the segment of
    that name. *)
Definition stands_for (r : SegmentRepr) (s : stage) : Prop :=
  exists c, ExpandedConfig Args Getenv r = Ok c /\ meaning (gostrings.ToLower (Name r)) c s.

Lemma meaning_modelled name c s : meaning name c s ->
  gostrings.ToLower name = name /\ (name, templates other name) ∈ linked (templates other) /\
  modelled name = Some (templates other name).
Proof.
  intros Hm. destruct Hm; (split; [done|]; split; [|done]); unfold linked;
    repeat (first [apply list_elem_of_here | apply list_elem_of_further]).
Qed.

(** The registry of a binary: it holds the linked segments, and perhaps others. *)
Definition holds_linked (reg : gmap string template) : Prop :=
  forall name t, (name, t) ∈ linked (templates other) -> reg !! gostrings.ToLower name = Some t.
Lemma registered_holds l reg : l ≡ₚ linked (templates other) -> register_all l ∅ = Created reg -> holds_linked reg.
Proof. intros Hp Hreg. destruct (linked_registered _ _ Hp) as (reg' & E & Hl & _). by assert (reg' = reg) as -> by congruence. Qed.
Lemma holds_linked_mono reg reg' : holds_linked reg -> reg ⊆ reg' -> holds_linked reg'.
Proof. intros Hh Hs name t Hin. eapply lookup_weaken; [by apply Hh|done]. Qed.

Lemma built_implements reg r q s : holds_linked reg -> built Args Getenv reg r q -> stands_for r s -> implements s q.
Proof.
  intros Hl (t & Ht & Hq) (c & Hc & Hm).
  destruct (meaning_modelled _ _ _ Hm) as (Hlow & Hin & Hmod).
  apply Hl in Hin. rewrite Hlow in Hin.
  unfold LookupSegment in Ht. rewrite Hin in Ht. injection Ht as <-.
  unfold segmentFromTemplate in Hq. rewrite Hc in Hq. apply created_bind_inv in Hq as (q' & Hnew & Hadd).
  assert (q' = q) as ->.
  { destruct Hm; cbn in Hadd; congruence. }
  by eapply modelled_sound.
Qed.

Lemma all_implement reg reprs stages ps : holds_linked reg -> Forall2 stands_for reprs stages ->
  Forall2 (built Args Getenv reg) reprs ps -> Forall2 implements stages ps.
Proof.
  intros Hl Hst. revert ps. induction Hst as [|r s reprs stages Hrs _ IH]; intros ps Hb; inversion Hb; subst; constructor.
  - by eapply built_implements.
  - by apply IH.
Qed.
Lemma implements_fresh stages ps : Forall2 implements stages ps -> Forall fresh ps /\ Forall silent ps.
Proof. intros H. split; (eapply Forall2_Forall_r; [exact H|]); apply Forall_forall; by intros ? _ ? (? & ? & ?). Qed.

(** C20. From the configuration to the flows that come out: a pipeline built by
    NewFromConfig from segments that handle each flow on its own, one instance
    each, once it is closed down, has delivered on Out, in order, what its
    segments, one after the other, make of each flow of the input, and its drop
    channel has received, as a multiset, the flows one of them drops, as they
    were then.  It does not matter in which order the segments were registered,
    how the goroutines are interleaved, and what else is registered. *)
Theorem configured_pipeline (l : list (string * template)) (reg : gmap string template) (reprs : list SegmentRepr)
    (stages : list stage) (p : pipeline) (ms : list EnrichedFlow) (n : net) :
  l ≡ₚ linked (templates other) -> register_all l ∅ = Created reg ->
  Forall (fun r => Jobs r <= 1) reprs -> Forall2 stands_for reprs stages ->
  NewFromReprs Args Getenv reg reprs = Created p -> Forall (admitted stages) ms ->
  rtc step (Start (GetDrop p) ms) n -> closed_down n ->
  noutput n = outs (verdict stages <$> ms) /\ ndropped n ≡ₚ drops (verdict stages <$> ms).
Proof.
  intros Hp Hreg HJ Hst Hnew Hms Hn Hc.
  destruct (NewFromReprs_single Args Getenv reg reprs p HJ Hnew) as (ps & HN & Hb).
  assert (Forall2 implements stages ps) as Himp by (eapply all_implement; [by eapply registered_holds|done..]).
  destruct (implements_fresh _ _ Himp) as [Hf _].
  destruct (closed_results ps true p ms Hf HN n Hn Hc) as [-> ->]. by apply rest_effective.
Qed.
End modelled.

(** ** The theorems at work *)
Lemma registration_succeeds_witness : exists reg, register_all (rev (linked (fun name => name))) ∅ = Created reg /\
  LookupSegment "FlowFilter" reg = Created "flowfilter"%string /\ LookupSegment "filegate" reg = FatalExit.
Proof.
  destruct (registration_succeeds (fun name => name) (rev (linked (fun name => name)))) as (reg & E & Hl & Hf & _).
  - symmetry. apply Permutation_rev.
  - exists reg. split; [exact E|]. split; [|exact Hf]. apply (Hl "flowfilter"%string "flowfilter"%string); [|reflexivity].
    apply (bool_decide_unpack _). vm_compute. exact I.
Defined.

Module witness.
Definition other (_ : string) : template := plain_template (fun _ => NilSegment).
(** Normalize the flow, drop what is not TCP. *)
Definition reprs : list SegmentRepr :=
  [mkRepr "Normalize" {[ "fallback"%string := "10"%string ]} 1 [] [] []; mkRepr "FlowFilter" tcp_filter_config 1 [] [] []].
Definition flow : EnrichedFlow := set_Bytes 7 (set_Proto 6 (set_DstPort 8080 emptyFlow)).
Definition env (_ : string) : string := ""%string.
Definition pan (_ : string) : option (net.IP -> net.IP) := None.
Definition all : list (string * template) := linked (templates (P := f64.amd64) tcp_parse pan other).
Definition normalizer : Normalize := {| Fallback := 10 |}.
Definition filter : FlowFilter := match FlowFilter.New tcp_parse tcp_filter_config with Created s => s | _ => mkFlowFilter "" tcp_expr end.
Lemma filter_created : FlowFilter.New tcp_parse tcp_filter_config = Created filter.
Proof. destruct tcp_created as (s & Hs & _). unfold filter. by rewrite Hs. Qed.
Definition stages : list stage := [edit (normalize.body normalizer); filtering (expression filter)].
Lemma stages_meant : Forall2 (stands_for (P := f64.amd64) tcp_parse pan [] env) reprs stages.
Proof.
  constructor; [|constructor; [|constructor]].
  - exists {[ "fallback"%string := "10"%string ]}. split; [done|]. by apply (means_normalize tcp_parse pan _ normalizer).
  - exists tcp_filter_config. split; [done|]. apply (means_flowfilter tcp_parse pan _ filter), filter_created.
Qed.
Definition procs : list proc := [new_proc Normalize normalizer; new_try FlowFilter true filter].
Lemma one_job : Forall (fun r => Jobs r <= 1) reprs.
Proof. by repeat constructor. Qed.
Lemma built_reprs : exists reg p, register_all all ∅ = Created reg /\ NewFromReprs [] env reg reprs = Created p /\
  Pipeline.New ((fun q => Some (Single q)) <$> procs) = Some p.
Proof.
  destruct (linked_registered (templates (P := f64.amd64) tcp_parse pan other) all) as (reg & E & Hl & _); [done|].
  assert (forall name c s, meaning (P := f64.amd64) tcp_parse pan (gostrings.ToLower name) c s ->
    LookupSegment name reg = Created (templates (P := f64.amd64) tcp_parse pan other (gostrings.ToLower name))) as found.
  { intros name c s Hm. destruct (meaning_modelled tcp_parse pan other _ _ _ Hm) as (Hlow & Hin & _).
    apply Hl in Hin. rewrite Hlow in Hin. unfold LookupSegment. by rewrite Hin. }
  exists reg. eexists. split; [exact E|]. clear E Hl. split; [|reflexivity].
  pose proof (found "Normalize" _ _ (means_normalize tcp_parse pan ∅ _ eq_refl)) as H1.
  pose proof (found "FlowFilter" _ _ (means_flowfilter tcp_parse pan _ _ filter_created)) as H2.
  unfold NewFromReprs, reprs. cbn [SegmentsFromRepr]. unfold build_entry. cbn [Name Jobs].
  rewrite H1, H2. cbn [mbind created_bind].
  change (templates (P := f64.amd64) tcp_parse pan other (gostrings.ToLower "Normalize")) with (template_of Normalize normalize.New).
  change (templates (P := f64.amd64) tcp_parse pan other (gostrings.ToLower "FlowFilter")) with (template_try FlowFilter true (FlowFilter.New tcp_parse)).
  unfold segmentFromTemplate.
  change (ExpandedConfig [] env (mkRepr "Normalize" {[ "fallback"%string := "10"%string ]} 1 [] [] []))
    with (Ok ({[ "fallback"%string := "10"%string ]} : config)).
  change (ExpandedConfig [] env (mkRepr "FlowFilter" tcp_filter_config 1 [] [] [])) with (Ok tcp_filter_config).
  cbn [t_New t_AddCustomConfig template_of template_try plain_template]. rewrite filter_created. reflexivity.
Qed.

(** The network of the two goroutines, and a run of it. *)
Definition first : proc := Rewire 0 1 (SubscribeDrops (new_proc Normalize normalizer)).
Definition second : proc := Rewire 1 2 (SubscribeDrops (new_try FlowFilter true filter)).
Definition running (a b : proc) (ms : list EnrichedFlow) (cl : gset nat) (o : list EnrichedFlow) : net :=
  {| nprocs := [a; b]; ninput := ms; nin := 0; nout := 2; nclosed := cl; noutput := o; ndropped := [] |}.
Definition normalized : EnrichedFlow := normalize.body normalizer flow.
Lemma second_passes : ppend (receive normalized second) = [EOut normalized].
Proof. vm_compute. reflexivity. Qed.

Lemma run p : Pipeline.New ((fun q => Some (Single q)) <$> procs) = Some p ->
  exists n, rtc step (Start (GetDrop p) [flow]) n /\ closed_down n /\ noutput n = [normalized].
Proof.
  intros HN. pose proof (start_procs true procs p [flow] HN) as Hst. unfold with_drops in Hst. rewrite Hst. clear Hst HN.
  change (mknet (imap (fun j => Rewire j (S j)) (subscribed true (effective procs))) [flow] 0 (length (effective procs)) ∅ [] [])
    with (running first second [flow] ∅ []).
  eexists. split; [|split].
  - eapply rtc_l; [apply (step_feed _ 0 first flow []); [done|set_solver|done..]|].
    eapply rtc_l; [eapply (step_pass _ 0 (receive flow first) 1 second normalized []); [done|done|set_solver|done..]|].
    eapply rtc_l; [eapply (step_out _ 1 (receive normalized second) normalized []); [done|apply second_passes|set_solver|done]|].
    eapply rtc_l; [apply step_close; [done|set_solver]|].
    eapply rtc_l; [eapply (step_eof _ 0); [done|done|set_solver|set_solver]|].
    eapply rtc_l; [eapply (step_eof _ 1); [done|done|set_solver|set_solver]|].
    apply rtc_refl.
  - split; [set_solver|done].
  - done.
Qed.
End witness.

(** A flow without a sampling rate and a byte count of 7 leaves with 70 bytes. *)
Lemma configured_pipeline_witness : [set_Normalized 1 (set_SamplingRate 10 (set_Packets 0 (set_Bytes 70 witness.flow)))]
  = outs (verdict witness.stages <$> [witness.flow]).
Proof.
  destruct witness.built_reprs as (reg & p & Hreg & Hp & HN). destruct (witness.run p HN) as (n & Hn & Hc & Ho).
  destruct (configured_pipeline (P := f64.amd64) tcp_parse witness.pan [] witness.env witness.other witness.all reg
    witness.reprs witness.stages p [witness.flow] n (Permutation_refl _) Hreg
    witness.one_job witness.stages_meant Hp) as [E _]; [repeat constructor; reflexivity|exact Hn|exact Hc|].
  rewrite <- E, Ho. reflexivity.
Defined.
