(* ===== verification/Source.v ===== *)
(** * Inputs at the head of a pipeline

    The input segments run goroutines of their own and have transition systems of
    their own: [stdin] and [goflow] in [Inputs.v], [Group.v], [Replay.v],
    [Exporter.v]; the disk buffer of [DiskBuffer.v] is one when it comes first.  In a
    pipeline such a segment writes to the channel the next one reads, and closes
    it when its [Run] returns.

    [Source] is what the segments behind it rely on, [Conserving] what an input
    promises about its flows.  [step] is a source and the network of [OpenNet.v]
    behind it at work together: its send on Out and the receive of the first
    segment are one step. *)

From stdpp Require Import prelude strings list gmap relations.
From Stdlib Require Import ZArith Lia.
From S2P Require Import Prelude GoStd EnrichedFlow Segment FlowCache Exporter Replay DiskBuffer Inputs Kafka Group Registry Pipeline OpenNet.

(** ** The contracts *)

(** A step sends nothing or one flow, and nothing is sent once [Run] has returned. *)
Class Source {S : Type} (src_step : S -> S -> Prop) (emitted : S -> list EnrichedFlow) (finished : S -> Prop) : Prop := {
  source_emits s s' : src_step s s' -> emitted s' = emitted s \/ exists m, emitted s' = emitted s ++ [m];
  source_returned s s' : finished s -> src_step s s' -> emitted s' = emitted s /\ finished s' }.

(** From states with [inv], what was sent and what remains are together always the same. *)
Class Conserving {S : Type} (src_step : S -> S -> Prop) (emitted : S -> list EnrichedFlow) (inv : S -> Prop)
    (remains : S -> list EnrichedFlow) : Prop := {
  conserves_inv s s' : inv s -> src_step s s' -> inv s';
  conserves s s' : inv s -> src_step s s' -> emitted s' ++ remains s' ≡ₚ emitted s ++ remains s }.

(** A source that goes on until it has returned, and does so within [measure] steps. *)
Class Terminating {S : Type} (src_step : S -> S -> Prop) (finished : S -> Prop) (measure : S -> nat) : Prop := {
  goes_on s : finished s \/ exists s', src_step s s';
  gets_on s s' : src_step s s' -> (measure s' < measure s)%nat }.

(** ** A source and the pipeline behind it *)
Section system.
Context {S : Type} (src_step : S -> S -> Prop) (emitted : S -> list EnrichedFlow) (finished : S -> Prop).
Record system := mksystem { source : S; downstream : net }.

Inductive step : system -> system -> Prop :=
  | step_source s s' n : src_step s s' -> emitted s' = emitted s -> step (mksystem s n) (mksystem s' n)
  | step_send s s' m n n' : src_step s s' -> emitted s' = emitted s ++ [m] -> accepts m n n' ->
      step (mksystem s n) (mksystem s' n')
  | step_downstream s n n' : moves n n' -> step (mksystem s n) (mksystem s n')
  | step_return s n n' : finished s -> closes n n' -> step (mksystem s n) (mksystem s n').

Context `{!Source src_step emitted finished}.

(** The pipeline has been given what the source has sent, and its In is closed by
    the source only. *)
Record served (l : list proc) (x : system) : Prop := {
  served_tracks : tracks l (emitted (source x)) (downstream x);
  served_closed : nin (downstream x) ∈ nclosed (downstream x) -> finished (source x) }.

Lemma step_served l x x' : served l x -> step x x' -> served l x'.
Proof using Type*.
  intros [Ht Hc] Hs. destruct Hs as [s s' n Hs E|s s' m n n' Hs E Ha|s n n' Hm|s n n' Hf Hcl]; simpl in *.
  - split; simpl; [by rewrite E|]. intros Hx. by destruct (source_returned s s' (Hc Hx) Hs).
  - split; simpl; [rewrite E; by eapply tracks_accepts|]. destruct (accepts_same _ _ m Ha) as (Ho & Ec & _).
    destruct Ha as [Hst _]. destruct (step_nin _ _ Hst) as [Hn _]. simpl in Hn. rewrite Hn, Ec. done.
  - destruct (moves_step _ _ Hm) as [Hst Ho]. destruct (step_nin _ _ Hst) as [Hn _].
    split; simpl; [by apply (tracks_quiet l _ n)|]. rewrite Hn. auto.
  - split; simpl; [by apply (tracks_closes l _ n)|done].
Qed.

Section runs.
Context (l : list proc) (p : pipeline) (s0 : S).
Hypotheses (Hnil : l <> []) (Hfresh : Forall fresh l) (Hnew : Pipeline.New ((fun q => Some (Single q)) <$> l) = Some p).
Hypothesis (Hstart : emitted s0 = []).
Let start := mksystem s0 (Start p []).

Lemma start_served_by : served l start.
Proof using Hnil Hfresh Hnew Hstart.
  pose proof (tracks_start false l p Hfresh Hnew) as Ht. assert (effective l = l) as E by (by destruct l). rewrite E in Ht.
  split; unfold start; cbn [source downstream]; [rewrite Hstart; exact Ht|].
  pose proof (start_procs false l p [] Hnew) as Es. unfold with_drops in Es. rewrite Es. simpl. set_solver.
Qed.
Lemma reachable_served x : rtc step start x -> served l x.
Proof using All. intros Hs. exact (rtc_keeps (step_served l) _ _ Hs start_served_by). Qed.

(** C6. An input at the head of a pipeline: whatever it does on its own, and however its
    goroutines and those of the segments behind it are interleaved, what has left
    the pipeline is at any moment a prefix of what the segments make of the flows
    the input has sent; once the pipeline is closed down, [Run] of the input has
    returned and all of it has left. *)
Theorem source_delivers (s : S) (n : net) : rtc step start (mksystem s n) ->
  noutput n `prefix_of` (rest l (emitted s)).1 /\
  (closed_down n -> finished s /\ noutput n = (rest l (emitted s)).1).
Proof using All.
  intros [Ht Hc]%reachable_served. simpl in *. split.
  - destruct (tr_results _ _ _ Ht []) as [E _]; [done|]. rewrite app_nil_r in E. by eexists.
  - intros Hd. split; [apply Hc, Hd|]. by apply (tracks_closed_down l (emitted s) n).
Qed.

(** C7. A pipeline of plain segments never blocks the input before it for good: left
    alone, with somebody at its outputs, it makes at most [to_go] steps; when it can
    make none it takes any flow, or, if the input has returned, it is closed down. *)
Theorem source_never_blocked (s : S) (n n' : net) (j : nat) : rtc step start (mksystem s n) -> nsteps moves j n n' ->
  (j <= to_go n)%nat /\
  ((exists n'', moves n' n'') \/ (nin n ∉ nclosed n /\ forall m, exists n'', accepts m n' n'') \/ (finished s /\ closed_down n')).
Proof using All.
  intros [Ht Hc]%reachable_served Hj. simpl in *. revert Ht Hc. induction Hj as [n|j n1 n2 n3 H1 _ IH]; intros Ht Hc.
  - split; [lia|]. pose proof Ht as [[k Hl] Hi _]. destruct (open_progress k n Hl Hi) as [|[|Hd]]; [by left|by right; left|].
    right; right. split; [apply Hc, Hd|done].
  - destruct (moves_step _ _ H1) as [Hs Ho]. pose proof Ht as [[k Hl] _ _].
    destruct (linear_step _ _ _ Hl Hs) as (_ & _ & _ & _ & Eg). destruct (step_nin _ _ Hs) as [Hn Hsub].
    assert (nin n1 ∈ nclosed n2 <-> nin n1 ∈ nclosed n1) as Hcc by (split; [done|apply Hsub]).
    destruct IH as [Hle He]; [by apply (tracks_quiet l _ n1)|by rewrite Hn, Hcc|]. split; [lia|].
    rewrite Hn, Hcc in He. exact He.
Qed.
End runs.

(** Each step is one of the source, or work of the pipeline. *)
Section measured.
Context (measure : S -> nat) `{!Terminating src_step finished measure}.
Lemma step_less l x x' : served l x -> step x x' ->
  (measure (source x') < measure (source x))%nat \/
  source x' = source x /\ (to_go (downstream x') < to_go (downstream x))%nat.
Proof using Type*.
  intros [Ht _] Hs. destruct Hs as [s s' n Hs _|s s' m n n' Hs _ _|s n n' Hm|s n n' _ [Hst _]]; simpl in *; try (left; by apply gets_on);
    right; (split; [done|]); try (destruct (moves_step _ _ Hm) as [Hst _]); destruct Ht as [[k Hl] _ _];
    destruct (linear_step _ _ _ Hl Hst) as (_ & _ & _ & _ & E); lia.
Qed.
Lemma served_terminates l x : served l x -> Acc (fun y x => step x y) x.
Proof using Type*.
  remember (measure (source x)) as a eqn:Ea. revert x Ea. induction (lt_wf a) as [a _ IHa]. intros x Ea.
  remember (to_go (downstream x)) as b eqn:Eb. revert x Ea Eb. induction (lt_wf b) as [b _ IHb]. intros x Ea Eb Hx.
  constructor. intros y Hs. pose proof (step_served _ _ _ Hx Hs) as Hy. destruct (step_less _ _ _ Hx Hs) as [Hlt|[E Hlt]].
  - by apply (IHa (measure (source y)) ltac:(lia) y eq_refl).
  - by apply (IHb (to_go (downstream y)) ltac:(lia) y ltac:(congruence) eq_refl).
Qed.
Lemma served_progress l x : served l x -> (exists x', step x x') \/ (finished (source x) /\ closed_down (downstream x)).
Proof using Type*.
  intros [Ht Hc]. destruct x as [s n]. simpl in *. pose proof Ht as [[k Hl] Hi _].
  destruct (open_progress k n Hl Hi) as [[n' Hm]|[[Ho Ha]|Hd]]; [left; by eexists; apply step_downstream| |by right; split; [apply Hc, Hd|]].
  left. destruct (goes_on s) as [Hf|[s' Hs]].
  - eexists. apply step_return; [done|]. split; [by apply step_close|]. split; [done|]. simpl. set_solver.
  - destruct (source_emits s s' Hs) as [E|[m E]]; [by eexists; apply step_source|].
    destruct (Ha m) as [n' Hn]. eexists. by eapply step_send.
Qed.

(** C8. A pipeline behind an input that comes to an end comes to an end itself: every
    run of the two is finite, and as long as the input has not returned or the
    pipeline is not closed down there is a step to make.  So every run ends with all
    flows the input has sent being processed and delivered. *)
Theorem source_terminates (l : list proc) (p : pipeline) (s0 : S) :
  l <> [] -> Forall fresh l -> Pipeline.New ((fun q => Some (Single q)) <$> l) = Some p -> emitted s0 = [] ->
  Acc (fun y x => step x y) (mksystem s0 (Start p [])) /\
  forall x, rtc step (mksystem s0 (Start p [])) x -> (exists x', step x x') \/
    (finished (source x) /\ closed_down (downstream x) /\ noutput (downstream x) = (rest l (emitted (source x))).1).
Proof using Type*.
  intros Hn Hf HN He. split; [by apply (served_terminates l), start_served_by|]. intros x Hs.
  pose proof (reachable_served l p s0 Hn Hf HN He x Hs) as Hx. destruct (served_progress l x Hx) as [?|[Hfin Hd]]; [by left|right].
  do 2 (split; [done|]). by destruct (tracks_closed_down _ _ _ (served_tracks l x Hx) Hd).
Qed.
End measured.

Lemma source_run x x' : rtc step x x' -> rtc src_step (source x) (source x').
Proof using.
  intros Hs. induction Hs as [x|x1 x2 x3 Hs _ IH]; [apply rtc_refl|].
  destruct Hs; simpl in *; [by eapply rtc_l..|done|done].
Qed.
Lemma conserved_run `{!Conserving src_step emitted inv remains} x x' : rtc step x x' -> inv (source x) ->
  inv (source x') /\ emitted (source x') ++ remains (source x') ≡ₚ emitted (source x) ++ remains (source x).
Proof using Type*.
  intros Hs. induction Hs as [x|x1 x2 x3 Hs _ IH]; intros Hi; [done|].
  assert (inv (source x2) /\ emitted (source x2) ++ remains (source x2) ≡ₚ emitted (source x1) ++ remains (source x1)) as [Hi2 E].
  { destruct Hs as [s s' n Hs E|s s' m n n' Hs E Ha|s n n' Hm|s n n' Hf Hcl]; simpl in *; try done;
      (split; [by eapply conserves_inv|by eapply conserves]). }
  destruct (IH Hi2) as [Hi3 E3]. split; [done|]. by rewrite E3.
Qed.

Section stages.
Context `{!Conserving src_step emitted inv remains}.
Context (stages : list stage) (l : list proc) (p : pipeline) (s0 : S).
Hypotheses (Hnil : l <> []) (Hst : Forall2 implements stages l).
Hypothesis (Hnew : Pipeline.New ((fun q => Some (Single q)) <$> l) = Some p).
Hypotheses (Hstart : emitted s0 = []) (Hinv : inv s0) (Hadm : Forall (admitted stages) (remains s0)).

(** C9. Nothing is lost between an input and the end of its pipeline: with an input
    that conserves its flows, once the pipeline is closed down, what it has delivered
    and what the stages would make of the flows that remain in the input are
    together, as a multiset, what they make of all flows there were. *)
Theorem source_conserves (s : S) (n : net) : rtc step (mksystem s0 (Start p [])) (mksystem s n) -> closed_down n ->
  noutput n ++ outs (verdict stages <$> remains s) ≡ₚ outs (verdict stages <$> remains s0).
Proof using All.
  intros Hs Hd. destruct (implements_fresh _ _ Hst) as [Hf _].
  destruct (reachable_served l p s0 Hnil Hf Hnew Hstart _ Hs) as [Ht _]. simpl in Ht.
  destruct (tracks_closed_down _ _ _ Ht Hd) as [-> _].
  destruct (conserved_run _ _ Hs Hinv) as [_ E]. simpl in E. rewrite Hstart in E. simpl in E.
  rewrite (rest_unsubscribed stages); [|done|].
  - rewrite <- outs_app, <- fmap_app, !outs_fmap. by rewrite E.
  - rewrite <- E in Hadm. by apply Forall_app in Hadm as [? _].
Qed.
End stages.
End system.

(** ** The inputs *)

(** By the cases of a transition system, or of one of transition systems. *)
Ltac solve_source cases :=
  split; [intros s s' Hs; cases Hs; destruct Hs; simpl; eauto|intros s s' Hf Hs; cases Hs; destruct Hs; simpl in *; try done].
Ltac one_system Hs := idtac.
Ltac four_systems Hs := destruct Hs as [Hs|Hs|Hs|_ Hs].

#[export] Instance stdin_source Unmarshal segment e :
  Source (stdin.step Unmarshal segment e) stdin.out (fun st => stdin.runs st = stdin.Returned).
Proof. solve_source one_system. Qed.
#[export] Instance goflow_source UnmarshalFrom :
  Source (goflow.step UnmarshalFrom) goflow.out (fun st => goflow.runs st = goflow.Returned).
Proof. solve_source one_system. Qed.
#[export] Instance replay_source : Source Replay.step Replay.out (fun st => Replay.returned st = true).
Proof. solve_source one_system. Qed.
#[export] Instance group_source {P : f64.Platform} `{Encoding} (segment : KafkaConsumer) (faults : bool) :
  Source (Group.step segment faults) Group.out (fun st => Group.runs st = Group.Returned).
Proof. solve_source four_systems. all: match goal with H : _ \/ _ |- _ => destruct H; congruence end. Qed.
#[export] Instance exporter_source {P : Type} `{CachedPacket P} (BuildFlow : FlowRecord P -> EnrichedFlow) (from_file : bool) :
  Source (Exporter.step BuildFlow from_file) Exporter.out (fun st => Exporter.runs st = Exporter.Returned).
Proof. solve_source ltac:(fun Hs => destruct Hs as [Hs|? Hs|Hs]). Qed.
#[export] Instance diskbuffer_source `{Json} (segment : DiskBuffer) (faults : bool) :
  Source (DiskBuffer.step segment faults) DiskBuffer.out DiskBuffer.returned.
Proof. solve_source ltac:(fun Hs => destruct Hs as [_ Hs|_ Hs|Hs|Hs|Hs|Hs|Hs|Hs]). all: destruct Hf as (? & ? & ?); discriminate. Qed.

(** Inputs that come to an end: a file read with eofcloses, and a replay. *)
Section ends.
Context (Unmarshal : string -> option EnrichedFlow) (segment : stdin.StdIn).
Definition stdin_measure (st : stdin.state) : nat :=
  4 * length (stdin.lines st) + 2 * length (stdin.input st) +
  match stdin.reads st with stdin.Scanning => 1 | stdin.Handing _ => 4 | stdin.ReaderDone => 0 end +
  match stdin.runs st with stdin.Looping => 1 | stdin.Forwarding _ => 2 | stdin.Returned => 0 end.
Lemma stdin_terminating : stdin.EofCloses segment = true ->
  Terminating (stdin.step Unmarshal segment stdin.Eof) (fun st => stdin.runs st = stdin.Returned) stdin_measure.
Proof.
  intros Hc. split.
  - intros [ls r ms [|m|] o b]; [right|right|by left].
    + destruct ms; eexists; [apply stdin.step_close|apply stdin.step_in].
    + eexists. apply stdin.step_forward.
  - intros s s' Hs. destruct Hs as [l ls ms r o b|ms r o b He Hb|ms r o b [He|He]|ls l ms o b|ls r m ms o b|ls r ms m o b|ls r o b];
      try congruence; unfold stdin_measure; cbn [stdin.lines stdin.input stdin.reads stdin.runs length]; try lia.
    + destruct (is_empty l); lia.
    + destruct (Unmarshal l); lia.
Qed.
End ends.
#[export] Instance replay_terminating :
  Terminating Replay.step (fun st => Replay.returned st = true)
    (fun st => length (Replay.stream st) + length (Replay.input st) + (if Replay.returned st then 0 else 1))%nat.
Proof.
  split.
  - intros [[|m ms] l o [|]]; [by left|right; eexists; apply Replay.step_closed|by left|right; eexists; apply Replay.step_pass].
  - intros s s' Hs. destruct Hs; simpl; lia.
Qed.

(** What remains in an input. *)
#[export] Instance stdin_conserving Unmarshal segment e :
  Conserving (stdin.step Unmarshal segment e) stdin.out (fun _ => True) (fun st =>
    match stdin.runs st with stdin.Forwarding m => [m] | _ => [] end ++
    match stdin.reads st with stdin.Handing l => option_list (Unmarshal l) | _ => [] end ++
    stdin.decoded Unmarshal (stdin.lines st) ++ stdin.input st).
Proof. split; [done|]. intros s s' _ Hs. by apply (stdin.stdin_step_everything Unmarshal segment e). Qed.
#[export] Instance goflow_conserving UnmarshalFrom :
  Conserving (goflow.step UnmarshalFrom) goflow.out (fun _ => True) (fun st =>
    match goflow.runs st with goflow.Forwarding m => [m] | _ => [] end ++
    concat (goflow.part UnmarshalFrom <$> goflow.workers st) ++ goflow.input st).
Proof. split; [done|]. intros s s' _ Hs. by apply (goflow.goflow_step_everything UnmarshalFrom). Qed.
#[export] Instance replay_conserving :
  Conserving Replay.step Replay.out (fun _ => True) (fun st => Replay.sends (Replay.stream st) ++ Replay.input st).
Proof. split; [done|]. intros s s' _ Hs. destruct Hs; simpl; solve_perm. Qed.
(** A consumer of the legacy format, the only member of its group, whose commits
    succeed; otherwise messages may come again. *)
#[export] Instance group_conserving {P : f64.Platform} `{Encoding} (segment : KafkaConsumer) :
  Conserving (Group.step segment false) Group.out (fun st => Legacy segment = true /\ Group.aligned st) (fun st =>
    Group.forwarding (Group.runs st) ++ Group.under_way segment st ++ Group.input st).
Proof.
  split.
  - intros s s' [Hl Ha] Hs. split; [done|]. by eapply Group.step_aligned.
  - intros s s' [Hl Ha] Hs. exact (group_step_everything segment false s s' Hl eq_refl Ha Hs).
Qed.
(** A disk buffer whose file system works.  The lines received in an emergency are
    counted as remaining; they are lost. *)
#[export] Instance diskbuffer_conserving `{Json} (segment : DiskBuffer) encodable `{!JsonLaws encodable} :
  Conserving (DiskBuffer.step segment false) DiskBuffer.out
    (fun st => Forall encodable (DiskBuffer.everything st) /\ sound false encodable st) (fun st =>
    DiskBuffer.input st ++ feeder_flows (fed st) ++ queue st ++ sender_flows (DiskBuffer.sends st) ++
    flows_of (concat (disk st)) ++ decider_flows (decides st) ++ flows_of (snd <$> lost st)).
Proof.
  split; intros s s' [He Hr] Hs; destruct (step_grows segment false encodable s s' Hs He Hr) as (d & Ed & E & _ & Hr');
    (assert (d = []) as -> by (destruct Hr' as [Hl _]; destruct (Hl eq_refl) as [Ha _]; rewrite Ha in Ed;
      symmetry in Ed; by apply app_nil in Ed as [_ ->])); change (flows_of []) with (@nil EnrichedFlow) in E; rewrite app_nil_r in E.
  - split; [by rewrite E|done].
  - revert E. unfold DiskBuffer.everything. intros E. etrans; [etrans; [|exact E]|]; solve_perm.
Qed.

(** ** A file through a pipeline *)

Section file.
Context (Unmarshal : string -> option EnrichedFlow) (segment : stdin.StdIn) (e : stdin.ending) (ls : list string).
Context (stages : list stage) (l : list proc) (p : pipeline).
Hypotheses (Hnil : l <> []) (Hst : Forall2 implements stages l).
Hypothesis (Hnew : Pipeline.New ((fun q => Some (Single q)) <$> l) = Some p).
Hypothesis (Hadm : Forall (admitted stages) (stdin.decoded Unmarshal ls)).
Let file_step := step (stdin.step Unmarshal segment e) stdin.out (fun st => stdin.runs st = stdin.Returned).

Lemma file_outcome (st : stdin.state) (n : net) :
  rtc file_step (mksystem (stdin.start ls []) (Start p [])) (mksystem st n) -> stdin.shutdown st = true ->
  e = stdin.Eof /\ stdin.EofCloses segment = true /\
  (closed_down n -> noutput n = outs (verdict stages <$> stdin.decoded Unmarshal ls)).
Proof using All.
  intros Hs Hsh. pose proof (source_run _ _ _ _ _ Hs) as Hrun. simpl in Hrun.
  destruct (implements_fresh _ _ Hst) as [Hf _].
  destruct (reachable_served _ _ _ l p (stdin.start ls []) Hnil Hf Hnew eq_refl _ Hs) as [Ht Hc]. simpl in *.
  apply (rtc_keeps (P := fun st => (stdin.everything Unmarshal st = stdin.decoded Unmarshal ls /\ stdin.input st = []) /\
    stdin.read_all segment e st)) in Hrun as [[He Hi] Hr]; [|clear|].
  - destruct (Hr Hsh) as (Hx & Hcl & Hrd & Hli). do 2 (split; [done|]). intros Hd.
    destruct (tracks_closed_down _ _ _ Ht Hd) as [-> _]. unfold stdin.everything in He.
    rewrite (Hc (proj1 Hd)), Hrd, Hli, Hi in He. simpl in He. rewrite app_nil_r in He. rewrite He. by apply rest_unsubscribed.
  - intros st st' [[He Hi] Hr] Hs. destruct (stdin.stdin_step_in_order Unmarshal segment e st st' Hs Hi) as [E Hi'].
    rewrite E. split; [done|]. by apply (stdin.step_read_all Unmarshal segment e st).
  - split; [|done]. split; [|done]. unfold stdin.everything. simpl. by rewrite app_nil_r.
Qed.

(** C10. What stdin is for with a file and eofcloses: once the input has shut down its
    pipeline at the end of the file, and the pipeline is closed down, it has delivered
    exactly what the stages make of the flows of the file's lines, in their order,
    however reader, input and segments are interleaved; lines that are empty or not
    flows are left out.  After a read error the shutdown never comes. *)
Theorem file_processed (st : stdin.state) (n : net) :
  rtc file_step (mksystem (stdin.start ls []) (Start p [])) (mksystem st n) -> stdin.shutdown st = true -> closed_down n ->
  e = stdin.Eof /\ stdin.EofCloses segment = true /\ noutput n = outs (verdict stages <$> stdin.decoded Unmarshal ls).
Proof using All. intros Hs Hsh Hd. destruct (file_outcome st n Hs Hsh) as (? & ? & H). by split_and!; [..|apply H]. Qed.
End file.

(** ** The theorems at work: a file of one flow through a pass segment *)
Module witness.
Import Inputs.witness.
Definition procs : list proc := [new_proc Pass mkPass].
Definition seven : EnrichedFlow := set_Bytes 7 emptyFlow.
Definition lines : list string := ["7"; ""]%string.
Definition returned (st : stdin.state) : Prop := stdin.runs st = stdin.Returned.
Definition file_step := step (stdin.step decode segment stdin.Eof) stdin.out returned.
Definition at_start : system := mksystem (stdin.start lines []) (Start pass_pipeline []).
Definition busy : net := solo (receive seven (passing false)) ∅ [] [].
Definition ended : net := solo (finish (sent [] (receive seven (passing false)))) ({[1%nat]} ∪ ({[0%nat]} ∪ ∅)) [seven] [].
Definition sent_one : stdin.state := stdin.mkstate [""%string] stdin.Scanning [] stdin.Looping [seven] false.
Definition at_end : stdin.state := stdin.mkstate [] stdin.ReaderDone [] stdin.Returned [seven] true.

Lemma stages_implemented : Forall2 implements [edit id] procs.
Proof. by repeat constructor; apply implements_pass. Qed.
Lemma procs_fresh : Forall fresh procs.
Proof. by repeat constructor. Qed.
Lemma gets_busy : rtc file_step at_start (mksystem sent_one busy).
Proof.
  change (Start pass_pipeline []) with (solo (passing false) ∅ [] []).
  next ltac:(apply step_source; [apply stdin.step_scan|done]). simpl.
  next ltac:(apply step_source; [apply stdin.step_line|done]).
  next ltac:(eapply (step_send _ _ _ _ _ seven); [apply stdin.step_forward|done|apply (solo_accepts (passing false)); solve_solo]).
  apply rtc_refl.
Qed.
Lemma gets_done : rtc file_step (mksystem sent_one busy) (mksystem at_end ended).
Proof.
  next ltac:(apply step_downstream, (move_out _ _ seven), (solo_gives (receive seven (passing false)) _ _ _ seven []); solve_solo).
  next ltac:(apply step_source; [apply stdin.step_scan|done]).
  next ltac:(apply step_source; [apply stdin.step_eof; done|done]).
  next ltac:(apply step_source; [apply stdin.step_close|done]).
  next ltac:(apply step_return; [done|apply solo_closes; solve_solo]).
  next ltac:(apply step_downstream, move_internal, solo_eof; solve_solo). apply rtc_refl.
Qed.
Lemma file_run : rtc file_step at_start (mksystem at_end ended).
Proof. etrans; [exact gets_busy|exact gets_done]. Qed.
Lemma ended_down : closed_down ended.
Proof. apply solo_closed_down; [done|set_solver]. Qed.
Lemma lines_admitted : Forall (admitted [edit id]) (stdin.decoded decode lines).
Proof. by repeat constructor. Qed.
End witness.

Lemma source_delivers_witness :
  [] `prefix_of` [witness.seven] /\ witness.returned witness.at_end /\ [witness.seven] = [witness.seven].
Proof.
  destruct (source_delivers _ stdin.out witness.returned witness.procs pass_pipeline (stdin.start witness.lines []) ltac:(done)
    witness.procs_fresh eq_refl eq_refl _ _ witness.gets_busy) as [Hp _].
  destruct (source_delivers _ stdin.out witness.returned witness.procs pass_pipeline (stdin.start witness.lines []) ltac:(done)
    witness.procs_fresh eq_refl eq_refl _ _ witness.file_run) as [_ Hd].
  destruct (Hd witness.ended_down) as [Hf E]. split; [exact Hp|]. split; [exact Hf|exact E].
Defined.

Lemma source_never_blocked_witness : (0 <= to_go witness.busy)%nat /\
  ((exists n, moves witness.busy n) \/
   (nin witness.busy ∉ nclosed witness.busy /\ forall m, exists n, accepts m witness.busy n) \/
   (witness.returned witness.sent_one /\ closed_down witness.busy)).
Proof.
  exact (source_never_blocked _ stdin.out witness.returned witness.procs pass_pipeline (stdin.start witness.lines []) ltac:(done)
    witness.procs_fresh eq_refl eq_refl _ _ _ 0%nat witness.gets_busy (nsteps_O _ _)).
Defined.

Lemma source_conserves_witness : [witness.seven] ++ [] ≡ₚ outs (verdict [edit id] <$> [witness.seven]).
Proof.
  exact (source_conserves (stdin.step Inputs.witness.decode Inputs.witness.segment stdin.Eof) stdin.out witness.returned [edit id] witness.procs pass_pipeline (stdin.start witness.lines []) ltac:(done)
    witness.stages_implemented eq_refl eq_refl I witness.lines_admitted _ _ witness.file_run witness.ended_down).
Defined.

Lemma file_processed_witness : [witness.seven] = outs (verdict [edit id] <$> [witness.seven]).
Proof.
  exact (proj2 (proj2 (file_processed Inputs.witness.decode Inputs.witness.segment stdin.Eof witness.lines [edit id] witness.procs pass_pipeline ltac:(done)
    witness.stages_implemented eq_refl witness.lines_admitted _ _ witness.file_run eq_refl witness.ended_down))).
Defined.

Lemma source_terminates_witness : Acc (fun y x => witness.file_step x y) witness.at_start /\
  ((exists x, witness.file_step (mksystem witness.at_end witness.ended) x) \/
   (witness.returned witness.at_end /\ closed_down witness.ended /\ [witness.seven] = [witness.seven])).
Proof.
  pose proof (stdin_terminating Inputs.witness.decode Inputs.witness.segment eq_refl) as Ht.
  destruct (source_terminates _ stdin.out witness.returned (stdin_measure) witness.procs pass_pipeline (stdin.start witness.lines [])
    ltac:(done) witness.procs_fresh eq_refl eq_refl) as [Ha Hx].
  split; [exact Ha|]. exact (Hx _ witness.file_run).
Defined.
