(* ===== verification/Relay.v ===== *)
(** * From one pipeline to the next through a file
      ([segments/output/json/json.go], [segments/input/stdin/stdin.go])

    The json segment prints a line per flow, the stdin segment scans lines.  Between
    them is the text of a file: bufio's writer writes it, as far as the file takes
    it, and bufio's scanner takes it apart, with its limit for the length of a
    line.  A compressed file is read as what its zstd encoder has written. *)

From stdpp Require Import prelude strings list gmap relations.
From Stdlib Require Import ZArith Lia Ascii.
From S2P Require Import Prelude GoStd GoIO EnrichedFlow Segment Output Inputs Registry Pipeline OpenNet Source.

(** What stdin's scanner finds in a text, and how it ends. *)
Definition Scan (text : string) : list string * stdin.ending :=
  let '(ls, e) := bufio.scan (bufio.pieces text) in (ls, if (e : bool) then stdin.Broken else stdin.Eof).

(** ** The theorems *)
Section relay.
Context (Marshal : bool -> EnrichedFlow -> option string) (Unmarshal : string -> option EnrichedFlow).
(** How many bytes the file takes before a write fails, if one does; and what a zstd
    encoder of a level, which is never closed, has written of a text. *)
Context (room : option nat) (Compressed : option Z -> string -> string).

(** The content of the file after the json segment [j] has worked on the flows [ms],
    and the flows it has forwarded. *)
Definition text (j : json.Json) (ms : list EnrichedFlow) : string :=
  let printed := (json.Run Marshal room j ms).1 in
  match json.zstd j with None => printed | Some level => Compressed level printed end.
Definition forwarded (j : json.Json) (ms : list EnrichedFlow) : list EnrichedFlow := outs (json.Run Marshal room j ms).2.

(** Flows whose encoding is one line, from which they are decoded again, while the
    line cut off somewhere is not an encoding. *)
Definition portable (j : json.Json) (m : EnrichedFlow) : Prop :=
  exists l, Marshal (json.Pretty j) m = Some l /\ Unmarshal l = Some m /\ bufio.one_line l /\
    forall a b, l = (a ++ b)%string -> b <> EmptyString -> Unmarshal (bufio.dropCR a) = None.

Lemma portable_lines j ms : Forall (portable j) ms ->
  exists ls, Forall2 (fun m l => Marshal (json.Pretty j) m = Some l) ms ls /\ Forall bufio.one_line ls /\
    Forall2 (fun m l => Unmarshal l = Some m /\ forall a b, l = (a ++ b)%string -> b <> EmptyString -> Unmarshal (bufio.dropCR a) = None) ms ls.
Proof using.
  intros Hm. induction Hm as [|m ms (l & El & Eu & Hl & Hp) _ (ls & H1 & H2 & H3)]; [by exists []|].
  exists (l :: ls). split_and!; by constructor.
Qed.
Lemma decoded_lines_app l k : stdin.decoded Unmarshal (l ++ k) = stdin.decoded Unmarshal l ++ stdin.decoded Unmarshal k.
Proof using. apply omap_app. Qed.
Lemma decoded_lines ms ls : Forall bufio.one_line ls -> Forall2 (fun m l => Unmarshal l = Some m) ms ls ->
  stdin.decoded Unmarshal ls = ms.
Proof using.
  intros Hl Hm. induction Hm as [|m l ms ls Eu _ IH]; [done|]. apply Forall_cons in Hl as [[Hne _] Hl].
  unfold stdin.decoded in *. cbn [omap list_omap]. destruct l as [|a l]; [done|]. cbn [is_empty]. rewrite Eu. f_equal. by apply IH.
Qed.
Lemma cut_line l rest more : (l ++ String bufio.newline EmptyString)%string = (rest ++ more)%string -> more <> EmptyString ->
  exists b, l = (rest ++ b)%string.
Proof using.
  revert rest. induction l as [|a l IH]; intros [|c rest] E Hne; try by eexists.
  - exfalso. rewrite gostrings.append_cons in E. injection E as _ E. destruct rest; [by destruct more|done].
  - rewrite !gostrings.append_cons in E. injection E as -> E. destruct (IH rest E Hne) as [b ->]. by exists b.
Qed.
Lemma one_line_cut a b : bufio.one_line (a ++ b) -> bufio.no_newline a /\ bufio.too_long a = false.
Proof using.
  intros (_ & Hn & _ & Ht). unfold bufio.no_newline, bufio.too_long in *. rewrite gostrings.all_chars_app in Hn.
  apply andb_prop in Hn as [Hn _]. split; [done|]. rewrite bufio.length_append in Ht. apply Z.leb_gt in Ht. apply Z.leb_gt. lia.
Qed.

(** What is read of what was printed: the flows up to the first failed write. *)
Lemma text_decoded j ms : json.zstd j = None -> Forall (portable j) ms ->
  exists n k, forwarded j ms = take k ms /\ (Scan (text j ms)).2 = stdin.Eof /\
    stdin.decoded Unmarshal (Scan (text j ms)).1 = take n ms /\ (n <= S k /\ k <= S n)%nat /\
    (bufio.fits room (bufio.lines (omap (Marshal (json.Pretty j)) ms)) = true -> n = length ms /\ k = length ms).
Proof using.
  intros Hz Hm. destruct (portable_lines j ms Hm) as (ls & H1 & H2 & H3).
  assert (omap (Marshal (json.Pretty j)) ms = ls) as Els.
  { clear -H1. induction H1 as [|m l ms ls E _ IH]; [done|]. cbn [omap list_omap]. by rewrite E, IH. }
  assert (Forall2 (fun m l => Unmarshal l = Some m) ms ls) as Hu by (eapply Forall2_impl; [exact H3|]; by intros m l []).
  pose proof (Forall2_length _ _ _ H1) as Hlen. rewrite Els.
  assert (bufio.fits room EmptyString = true) as H0 by (by destruct room).
  destruct (json_loop Marshal room j ms ls H1 EmptyString H0) as (n & k & rest & E & Hn).
  change (EmptyString ++ bufio.lines ls)%string with (bufio.lines ls) in *.
  assert (forwarded j ms = take k ms /\ text j ms = (bufio.lines (take n ls) ++ rest)%string) as [Ef Et].
  { unfold forwarded, text, json.Run. rewrite Hz. unfold bufio.NewWriter. rewrite E. cbn [fst snd].
    unfold bufio.Flush. cbn [bufio.buffered is_empty bufio.err]. rewrite orb_true_r. split; [|done].
    clear. induction (take k ms) as [|m l IH]; [done|]. unfold outs in *. cbn. by rewrite IH. }
  assert (Forall bufio.one_line (take n ls)) as Hln by by apply Forall_take.
  assert (stdin.decoded Unmarshal (take n ls) = take n ms) as Hdn by (apply decoded_lines; [done|by apply Forall2_take]).
  unfold Scan. rewrite Ef, Et. destruct (bufio.fits room (bufio.lines ls)).
  - destruct Hn as (-> & -> & ->). exists (length ms), (length ms). rewrite gostrings.string_app_nil_r, bufio.scan_lines by done.
    split_and!; [done..|lia|lia|done].
  - destruct Hn as (Hk & l & more & Hl & Ecut & Hne). destruct (cut_line l rest more Ecut Hne) as [b Eb].
    pose proof (Forall_lookup_1 _ _ _ _ H2 Hl) as H1l. rewrite Eb in H1l. destruct (one_line_cut rest b H1l) as [Hr Ht].
    rewrite bufio.scan_lines_rest by done. destruct (Forall2_lookup_r _ _ _ _ _ H3 Hl) as (m & Em & Eu & Hp).
    destruct (is_empty rest) eqn:Er; [|destruct b as [|c b]].
    + exists n, k. rewrite app_nil_r. split_and!; [done..|lia|lia|done].
    + rewrite gostrings.string_app_nil_r in Eb, H1l. subst l. destruct H1l as (_ & _ & Hc & _). exists (S n), k. split_and!; [done|done| |lia|lia|done].
      rewrite (take_S_r _ _ _ Em), Hc. cbn [fst]. rewrite decoded_lines_app, Hdn. f_equal. unfold stdin.decoded. cbn. by rewrite Er, Eu.
    + exists n, k. split_and!; [done|done| |lia|lia|done]. cbn [fst]. rewrite decoded_lines_app, Hdn. unfold stdin.decoded. cbn.
      rewrite (Hp _ _ Eb) by done. destruct (is_empty (bufio.dropCR rest)); by rewrite app_nil_r.
Qed.

Section second.
Context (segment : stdin.StdIn) (stages : list stage) (l : list proc) (p : pipeline).
Hypotheses (Hnil : l <> []) (Hst : Forall2 implements stages l).
Hypothesis (Hnew : Pipeline.New ((fun q => Some (Single q)) <$> l) = Some p).

(** The stdin segment on a file with this text, at the head of the second pipeline. *)
Definition reads_text (t : string) : system -> system -> Prop :=
  step (stdin.step Unmarshal segment (Scan t).2) stdin.out (fun st => stdin.runs st = stdin.Returned).
Definition started (t : string) : system := mksystem (stdin.start (Scan t).1 []) (Start p []).

Lemma file_results t x : Forall (admitted stages) (stdin.decoded Unmarshal (Scan t).1) -> rtc (reads_text t) (started t) x ->
  stdin.shutdown (source x) = true ->
  (Scan t).2 = stdin.Eof /\ stdin.EofCloses segment = true /\
  (closed_down (downstream x) -> noutput (downstream x) = outs (verdict stages <$> stdin.decoded Unmarshal (Scan t).1)).
Proof using Hnil Hst Hnew. destruct x as [st n]. intros Ha Hs Hsh. exact (file_outcome Unmarshal segment _ _ stages l p Hnil Hst Hnew Ha st n Hs Hsh). Qed.

(** C11. Two pipelines over a file that is not compressed: a json segment prints flows,
    each of which fits on a line the scanner can take, and a second pipeline that
    starts with stdin, with eofcloses, reads the file afterwards.  Once it has shut
    down it has delivered exactly what its stages make of the flows that were
    printed, in order.  These, and the flows the json segment has forwarded, are all
    flows if the file took all that was written, and otherwise those before the first
    write that failed, up to one flow more or less on either side. *)
Theorem json_relay (j : json.Json) (ms : list EnrichedFlow) (x : system) :
  json.zstd j = None -> Forall (portable j) ms -> Forall (admitted stages) ms ->
  rtc (reads_text (text j ms)) (started (text j ms)) x ->
  stdin.shutdown (source x) = true -> closed_down (downstream x) ->
  exists n k, noutput (downstream x) = outs (verdict stages <$> take n ms) /\ forwarded j ms = take k ms /\
    (n <= S k /\ k <= S n)%nat /\
    (bufio.fits room (bufio.lines (omap (Marshal (json.Pretty j)) ms)) = true -> n = length ms /\ k = length ms).
Proof using Hnil Hst Hnew.
  intros Hz Hm Ha Hs Hsh Hd. destruct (text_decoded j ms Hz Hm) as (n & k & Ef & _ & E & Hnk & Hall).
  exists n, k. destruct (file_results (text j ms) x) as (_ & _ & Ho); [rewrite E; by apply Forall_take|done..|].
  split_and!; [by rewrite (Ho Hd), E|done|apply Hnk|apply Hnk|done].
Qed.

(** A flow whose line is too long for the scanner ends the reading: those before it
    are all that is read, and the second pipeline is never shut down. *)
Theorem long_line_stalls (j : json.Json) (ms : list EnrichedFlow) (m : EnrichedFlow) (line : string) (post : list EnrichedFlow) (x : system) :
  room = None -> json.zstd j = None -> Forall (portable j) ms -> Marshal (json.Pretty j) m = Some line ->
  bufio.no_newline line -> bufio.too_long line = true ->
  let t := text j (ms ++ m :: post) in
  stdin.decoded Unmarshal (Scan t).1 = ms /\ (Forall (admitted stages) ms -> rtc (reads_text t) (started t) x -> stdin.shutdown (source x) = false).
Proof using Hnil Hst Hnew.
  intros Hroom Hz Hm El Hn Hlen t. destruct (portable_lines j ms Hm) as (ls & H1 & H2 & H3).
  assert (omap (Marshal (json.Pretty j)) ms = ls) as Els.
  { clear -H1. induction H1 as [|m l ms ls E _ IH]; [done|]. cbn [omap list_omap]. by rewrite E, IH. }
  assert (stdin.decoded Unmarshal ls = ms) as E by (apply decoded_lines; [done|]; eapply Forall2_impl; [exact H3|]; by intros ? ? []).
  assert (Scan t = (ls, stdin.Broken)) as Et.
  { unfold t, text. rewrite Hz, Hroom, json_Run_unlimited, omap_app, Els. cbn [fst omap list_omap]. rewrite El.
    unfold Scan. by rewrite bufio.scan_too_long. }
  split; [by rewrite Et|]. intros Ha Hs. apply not_true_is_false. intros Hsh.
  destruct (file_results t x) as (Hx & _ & _); [rewrite Et; cbn [fst]; by rewrite E|done..|]. by rewrite Et in Hx.
Qed.
End second.
End relay.

(** ** The theorems at work: one flow, through a file, to a pass segment *)
Module witness.
Import Source.witness.
Definition encode (_ : bool) (m : EnrichedFlow) : option string := Some (strconv.FormatUint (Bytes m)).
Definition decode : string -> option EnrichedFlow := Inputs.witness.decode.
Definition printer : json.Json := json.mkJson "f" None false.
Definition reader : stdin.StdIn := Inputs.witness.segment.
(** The file takes the line of one flow only. *)
Definition file : string := text encode (Some 2%nat) (fun _ s => s) printer [seven; seven].
Definition at_end : stdin.state := stdin.mkstate [] stdin.ReaderDone [] stdin.Returned [seven] true.

Lemma sevens_portable : Forall (portable encode decode printer) [seven; seven].
Proof.
  assert (portable encode decode printer seven) as Hp; [|by repeat constructor].
  exists "7"%string. split_and!; [done..|]. intros [|a [|b l]] b' E Hne; [done| |discriminate E].
  injection E as _ E. by destruct b'.
Qed.
Lemma sevens_admitted : Forall (admitted [edit id]) [seven; seven].
Proof. by repeat constructor. Qed.
Lemma file_read : rtc (reads_text decode reader file) (started pass_pipeline file) (mksystem at_end ended).
Proof.
  change (started pass_pipeline file) with (mksystem (stdin.start ["7"%string] []) (solo (passing false) ∅ [] [])).
  change (reads_text decode reader file) with (step (stdin.step decode reader stdin.Eof) stdin.out returned).
  next ltac:(apply step_source; [apply stdin.step_scan|done]). simpl.
  next ltac:(apply step_source; [apply stdin.step_line|done]).
  next ltac:(eapply (step_send _ _ _ _ _ seven); [apply stdin.step_forward|done|apply (solo_accepts (passing false)); solve_solo]).
  next ltac:(apply step_downstream, (move_out _ _ seven), (solo_gives (receive seven (passing false)) _ _ _ seven []); solve_solo).
  next ltac:(apply step_source; [apply stdin.step_eof; done|done]).
  next ltac:(apply step_source; [apply stdin.step_close|done]).
  next ltac:(apply step_return; [done|apply solo_closes; solve_solo]).
  next ltac:(apply step_downstream, move_internal, solo_eof; solve_solo). apply rtc_refl.
Qed.
End witness.

(** Two flows are forwarded, of which one is read. *)
Lemma json_relay_witness : exists n k,
  [Source.witness.seven] = outs (verdict [edit id] <$> take n [Source.witness.seven; Source.witness.seven]) /\
  forwarded witness.encode (Some 2%nat) witness.printer [Source.witness.seven; Source.witness.seven] =
    take k [Source.witness.seven; Source.witness.seven].
Proof.
  destruct (json_relay witness.encode witness.decode (Some 2%nat) (fun _ s => s) witness.reader [edit id] Source.witness.procs pass_pipeline ltac:(done)
    Source.witness.stages_implemented eq_refl witness.printer [Source.witness.seven; Source.witness.seven] _ eq_refl
    witness.sevens_portable witness.sevens_admitted witness.file_read eq_refl Source.witness.ended_down) as (n & k & E & Ef & _).
  exists n, k. split; [exact E|exact Ef].
Defined.
