(* ===== verification/Program.v ===== *)
(** * The whole program

    From the command line to the flows that come out: the startup of [Main.v], the
    registration and the meaning of segments of [Registry.v] and the running process
    of [Process.v], put together. *)

From stdpp Require Import prelude strings list gmap relations.
From Stdlib Require Import ZArith Lia.
From S2P Require Import Prelude GoStd EnrichedFlow Segment Pipeline OpenNet Process Config Modify FlowFilter Main Registry.

Section program.
Context {P : f64.Platform} (Parse : string -> option Expression) (pan : string -> option (net.IP -> net.IP)).
Context (Args : list string) (Getenv : string -> string) (other : string -> template).
Context (Open : string -> option (list (string * template))) (ReadFile : string -> option string).
Context (Unmarshal : string -> option (list SegmentRepr)) (GOMAXPROCS : Z).

(** What [main] has done when it waits for a signal. *)
Lemma main_waiting (registry : gmap string template) (f : flags) (ps : list pipeline) :
  main Args Getenv registry Open ReadFile Unmarshal GOMAXPROCS f = Main.Waiting ps ->
  exists loaded text reprs, registry ⊆ loaded /\ ReadFile (configFile f) = Some text /\ Unmarshal text = Some reprs /\
    length ps = Z.to_nat (pipelineCount GOMAXPROCS (concurrency f)) /\
    Forall (fun p => NewFromReprs Args Getenv loaded reprs = Created p) ps.
Proof.
  unfold main. destruct (version f); [done|].
  destruct (load_plugins Open [] (pluginPaths f) registry) as [e|loaded] eqn:El; [intros ->|].
  { destruct (load_plugins_ends Open [] (pluginPaths f) registry (Main.Waiting ps) El) as [?|(? & ? & ? & ?)]; done. }
  destruct (ReadFile (configFile f)) as [text|]; [|done]. unfold SegmentReprsFromConfig.
  destruct (Unmarshal text) as [reprs|] eqn:Eu; [|done]. rewrite spawn_replicate. intros E.
  exists loaded, text, reprs. split; [by eapply load_plugins_keeps|]. do 2 (split; [done|]).
  destruct (Z.to_nat (pipelineCount GOMAXPROCS (concurrency f))) as [|n]; [by injection E as <-|].
  destruct (NewFromReprs Args Getenv loaded reprs) as [pipe| | |]; try done. injection E as <-.
  split; [apply (length_replicate (S n))|]. by apply (Forall_replicate _ (S n)).
Qed.

(** Pipelines built from a configuration that means [stages]. *)
Lemma built_pipelines (loaded : gmap string template) (reprs : list SegmentRepr) (stages : list stage) (ps : list pipeline) :
  holds_linked Parse pan other loaded -> Forall (fun r => Jobs r <= 1) reprs ->
  Forall2 (stands_for Parse pan Args Getenv) reprs stages ->
  Forall (fun p => NewFromReprs Args Getenv loaded reprs = Created p) ps ->
  exists pss, Forall (Forall2 implements stages) pss /\
    Forall2 (fun l p => Pipeline.New ((fun q => Some (Single q)) <$> l) = Some p) pss ps.
Proof.
  intros Hl HJ Hst Hps. induction Hps as [|p ps Hp _ (pss & Hi & Hn)]; [by exists []|].
  destruct (NewFromReprs_single Args Getenv loaded reprs p HJ Hp) as (l & HN & Hb).
  exists (l :: pss). split; constructor; try done. by eapply all_implement.
Qed.

(** C1. What the program does, from the command line to the flows: if the configuration
    file means a list of stages, and the program starts, then it runs as many
    pipelines as the flag asks for; and once it has shut down, after any interleaving
    of its goroutines, its feeders and its shutdown, each of them has delivered, in
    order, what the stages make of each of the flows it was given, whatever the order
    in which the segments were registered, and whatever plugins add. *)
Theorem program_delivers (l : list (string * template)) (registry : gmap string template) (f : flags) (text : string)
    (reprs : list SegmentRepr) (stages : list stage) (ps : list pipeline) (st : Process.state) :
  l ≡ₚ linked (templates Parse pan other) -> register_all l ∅ = Created registry ->
  ReadFile (configFile f) = Some text -> Unmarshal text = Some reprs ->
  Forall (fun r => Jobs r <= 1) reprs -> Forall2 (stands_for Parse pan Args Getenv) reprs stages ->
  main Args Getenv registry Open ReadFile Unmarshal GOMAXPROCS f = Main.Waiting ps ->
  rtc Process.step (Process.start ps) st -> Process.main st = Process.Ended ->
  length (running st) = Z.to_nat (pipelineCount GOMAXPROCS (concurrency f)) /\
  Forall (fun x => Forall (admitted stages) x.2 ->
            closed_down x.1 /\ noutput x.1 = outs (verdict stages <$> x.2)) (running st).
Proof.
  intros Hl Hreg Hf Hu HJ Hst Hm Hs He.
  destruct (main_waiting _ _ _ Hm) as (loaded & text' & reprs' & Hsub & Hf' & Hu' & Hlen & Hps).
  assert (text' = text) as -> by congruence. assert (reprs' = reprs) as -> by congruence.
  assert (holds_linked Parse pan other loaded) as Hh by (eapply holds_linked_mono; [by eapply registered_holds|done]).
  destruct (built_pipelines _ _ _ _ Hh HJ Hst Hps) as (pss & Hi & Hn).
  assert (Forall (Forall fresh) pss /\ Forall (Forall silent) pss) as [Hfr Hsi].
  { split; (eapply Forall_impl; [exact Hi|]); intros q Hq; by apply (implements_fresh stages). }
  pose proof (ended_served pss ps Hfr Hsi Hn st Hs He) as Hr.
  split; [rewrite <- (Forall2_length _ _ _ Hr), (Forall2_length _ _ _ Hn); exact Hlen|].
  eapply Forall2_Forall_r; [exact Hr|]. eapply Forall_impl; [exact Hi|]. intros q Hq [n a] [Ht Hc] Ha. simpl in *.
  split; [done|]. destruct (tracks_closed_down _ _ _ Ht Hc) as [-> _]. by apply rest_effective_unsubscribed.
Qed.
End program.

(** ** The theorem at work: one pipeline that normalizes, one flow, a signal *)
Module witness.
Import Registry.witness.
Definition conf : list SegmentRepr := [mkRepr "Normalize" {[ "fallback"%string := "10"%string ]} 1 [] [] []].
Definition meant : list stage := [edit (normalize.body normalizer)].
Lemma conf_meant : Forall2 (stands_for (P := f64.amd64) tcp_parse pan [] env) conf meant.
Proof.
  constructor; [|constructor]. exists {[ "fallback"%string := "10"%string ]}. split; [done|].
  by apply (means_normalize tcp_parse pan _ normalizer).
Qed.
Lemma conf_jobs : Forall (fun r => Jobs r <= 1) conf.
Proof. by repeat constructor. Qed.
Definition flag : flags := mkflags false "warning" [] 1 "config.yml".
Definition startup (reg : gmap string template) : ending :=
  main [] env reg (fun _ => None) (fun _ => Some ""%string) (fun _ => Some conf) 4 flag.
Definition running_pipeline : pipeline :=
  {| In_ := 0; Out := 1; Drop_ := false; SegmentList := [Single (Rewire 0 1 (new_proc Normalize normalizer))] |}.
Lemma startup_waits : exists reg, register_all all ∅ = Created reg /\ startup reg = Main.Waiting [running_pipeline].
Proof.
  destruct (linked_registered (templates (P := f64.amd64) tcp_parse pan other) all) as (reg & E & Hl & _); [done|].
  exists reg. split; [exact E|].
  destruct (meaning_modelled (P := f64.amd64) tcp_parse pan other _ _ _ (means_normalize (P := f64.amd64) tcp_parse pan ∅ _ eq_refl)) as (_ & Hin & _).
  apply Hl in Hin.
  assert (NewFromReprs [] env reg conf = Created running_pipeline) as Hn; [|unfold startup, main; cbn [version flag load_plugins pluginPaths SegmentReprsFromConfig]; by rewrite spawn_replicate, Hn].
  unfold NewFromReprs, conf. cbn [SegmentsFromRepr]. unfold build_entry, LookupSegment. cbn [Name Jobs].
  change (gostrings.ToLower "Normalize") with (gostrings.ToLower "normalize"). rewrite Hin. reflexivity.
Qed.
Definition idle : proc := Rewire 0 1 (new_proc Normalize normalizer).
Definition ended : net := solo (finish (sent [] (receive flow idle))) {[1%nat; 0%nat]} [normalized] [].
Lemma shuts_down : rtc Process.step (Process.start [running_pipeline]) (mkstate [(ended, [flow])] Process.Ended).
Proof.
  change (Process.start [running_pipeline]) with (mkstate [(solo idle ∅ [] [], [])] Serving).
  next ltac:(eapply step_environment, (env_flow 0%nat flow (solo idle ∅ [] []) _ [] _ Serving);
    [done|done|apply (solo_accepts idle); solve_solo]).
  next ltac:(eapply step_work, (work_drain 0%nat _ _ _ normalized); [done|done|apply (solo_gives (receive flow idle) _ _ _ normalized []); solve_solo]).
  next ltac:(apply step_environment, env_signal).
  next ltac:(eapply step_work, (work_close 0%nat); [done|apply solo_closes; solve_solo]).
  next ltac:(eapply step_work, (work_internal 0%nat); [done|done|apply solo_eof; solve_solo]).
  next ltac:(eapply step_work, (work_wait 0%nat); [done|apply solo_closed_down; solve_solo]).
  next ltac:(apply step_work, work_end). unfold ended. simpl. rewrite (union_empty_r_L {[0%nat]}). apply rtc_refl.
Qed.
End witness.

Lemma program_delivers_witness :
  [set_Normalized 1 (set_SamplingRate 10 (set_Packets 0 (set_Bytes 70 Registry.witness.flow)))] =
  outs (verdict witness.meant <$> [Registry.witness.flow]).
Proof.
  destruct witness.startup_waits as (reg & Hreg & Hm).
  destruct (program_delivers (P := f64.amd64) tcp_parse Registry.witness.pan [] Registry.witness.env Registry.witness.other
    (fun _ => None) (fun _ => Some ""%string) (fun _ => Some witness.conf) 4 Registry.witness.all reg witness.flag ""%string
    witness.conf witness.meant [witness.running_pipeline] _ (Permutation_refl _) Hreg eq_refl eq_refl witness.conf_jobs
    witness.conf_meant Hm witness.shuts_down eq_refl) as [_ Hx].
  apply Forall_cons in Hx as [Hx _]. destruct Hx as [_ E]; [repeat constructor|]. etransitivity; [|exact E]. reflexivity.
Defined.
